(** * PySAR interferogram-network core: a shallow embedding

    Embedding of [pysar/utils/network.py] and of the parts of
    [pysar/utils/ptime.py] it calls (Python 3), together with the
    properties of the design document that concern them.

    Conventions.
    - Python [str] is [string]; a Python list is a [list].
    - Python [float] and numpy [float64] are IEEE-754 binary64, modelled by
      Rocq's primitive [float]; Python [int] is [Z].
    - A call that may raise is a computation in [res]; a function that also
      writes to standard output is a computation in [io], which records the
      printed lines in order. *)

From Stdlib Require Import ZArith List String Ascii Bool Lia Floats.
From Stdlib Require Import Permutation Sorted Relations OrderedTypeEx.
Import ListNotations.

Local Open Scope string_scope.
Local Open Scope list_scope.

(** ** Exceptions, results and printed output *)

Inductive exn : Type :=
| ValueError
| IndexError
| NameError
| ZeroDivisionError.

Inductive res (A : Type) : Type :=
| Ok (x : A)
| Raise (e : exn).
Arguments Ok {A} x.
Arguments Raise {A} e.

Definition res_bind {A B} (m : res A) (k : A -> res B) : res B :=
  match m with
  | Ok x => k x
  | Raise e => Raise e
  end.

Declare Scope res_scope.
Delimit Scope res_scope with res.
Notation "x <- m ;; k" := (res_bind m (fun x => k))
  (at level 61, m at next level, right associativity) : res_scope.
Notation "' pat <- m ;; k" := (res_bind m (fun x => match x with pat => k end))
  (at level 61, pat pattern, m at next level, right associativity) : res_scope.
Local Open Scope res_scope.

(** [io A]: the lines printed so far, and the outcome. *)
Definition io (A : Type) : Type := (list string * res A)%type.

Definition io_ret {A} (x : A) : io A := ([], Ok x).
Definition io_raise {A} (e : exn) : io A := ([], Raise e).
Definition io_lift {A} (m : res A) : io A := ([], m).
Definition print (line : string) : io unit := ([line], Ok tt).
Definition io_bind {A B} (m : io A) (k : A -> io B) : io B :=
  match m with
  | (out, Raise e) => (out, Raise e)
  | (out, Ok x) => let (out', r) := k x in (out ++ out', r)
  end.

Declare Scope io_scope.
Delimit Scope io_scope with io.
Notation "x <~ m ;; k" := (io_bind m (fun x => k))
  (at level 61, m at next level, right associativity) : io_scope.
Notation "m ;;; k" := (io_bind m (fun _ => k))
  (at level 61, right associativity) : io_scope.

Definition stdout {A} (m : io A) : list string := fst m.
Definition outcome {A} (m : io A) : res A := snd m.

(** ** Python list primitives *)

Section ListPrims.
Context {A : Type}.

(** [l[i]] for a non-negative index. *)
Definition getitem (l : list A) (i : nat) : res A :=
  match nth_error l i with
  | Some x => Ok x
  | None => Raise IndexError
  end.

(** [a, b = l] *)
Definition unpack2 (l : list A) : res (A * A) :=
  match l with
  | [a; b] => Ok (a, b)
  | _ => Raise ValueError
  end.

(** A comprehension [[f(x) for x in l]] whose body may raise. *)
Fixpoint mapM {B} (f : A -> res B) (l : list A) : res (list B) :=
  match l with
  | [] => Ok []
  | x :: l' => y <- f x ;; ys <- mapM f l' ;; Ok (y :: ys)
  end.

(** The loop [out = []; for x in l: if test(x): out.append(x)]. *)
Fixpoint for_filter (test : A -> res bool) (l : list A) : res (list A) :=
  match l with
  | [] => Ok []
  | x :: l' =>
      b <- test x ;;
      out <- for_filter test l' ;;
      Ok (if b then x :: out else out)
  end.
End ListPrims.

(** [l[i] = v] for a non-negative index within the list. *)
Definition list_set {A} (i : nat) (v : A) (l : list A) : list A :=
  firstn i l ++ match skipn i l with
                | [] => []
                | _ :: tl => v :: tl
                end.

(** [l.index(x)] and [x in l] on lists of strings. *)
Fixpoint index_from (x : string) (l : list string) (i : nat) : res nat :=
  match l with
  | [] => Raise ValueError
  | y :: l' => if String.eqb y x then Ok i else index_from x l' (S i)
  end.
Definition index (x : string) (l : list string) : res nat := index_from x l 0.

Definition contains (x : string) (l : list string) : bool :=
  existsb (String.eqb x) l.

(** [sorted(l)] on strings: comparison by code point, stable. *)
Fixpoint insert_sorted (x : string) (l : list string) : list string :=
  match l with
  | [] => [x]
  | y :: l' => if String.leb x y then x :: l else y :: insert_sorted x l'
  end.
Definition sorted (l : list string) : list string :=
  fold_right insert_sorted [] l.

(** The order of [sorted], and its strict part. *)
Definition str_le (a b : string) : Prop := String.leb a b = true.
Definition str_lt (a b : string) : Prop := String.ltb a b = true.

(** [list(set(l))]: the distinct elements of [l].  The iteration order of a
    Python set is unspecified; every use below sorts the result, and
    [sorted_Permutation] shows the sorted list does not depend on it. *)
Fixpoint set_list (l : list string) : list string :=
  match l with
  | [] => []
  | x :: l' => if contains x l' then set_list l' else x :: set_list l'
  end.

(** ** Python string primitives *)

(** [s.split(sep)] for a one-character separator. *)
Fixpoint split (sep : ascii) (s : string) : list string :=
  match s with
  | EmptyString => [EmptyString]
  | String c s' =>
      if Ascii.eqb c sep then EmptyString :: split sep s'
      else match split sep s' with
           | [] => [String c EmptyString]
           | p :: ps => String c p :: ps
           end
  end.

(** [s.replace(a, b)] for one-character [a] and [b]. *)
Fixpoint replace (a b : ascii) (s : string) : string :=
  match s with
  | EmptyString => EmptyString
  | String c s' => String (if Ascii.eqb c a then b else c) (replace a b s')
  end.

(** [t in s] for strings. *)
Fixpoint str_contains (t s : string) : bool :=
  String.prefix t s ||
  match s with
  | EmptyString => false
  | String _ s' => str_contains t s'
  end.

(** ** ptime.py *)

(** Called on six-character strings only ([date[0]] needs a first
    character). *)
Definition yymmdd2yyyymmdd (date : string) : string :=
  match date with
  | String "9"%char _ => "19" ++ date
  | _ => "20" ++ date
  end.

(** [yyyymmdd(dates)] when [dates] is a [str]. *)
Definition yyyymmdd_str (dates : string) : string :=
  if Nat.eqb (String.length dates) 6 then yymmdd2yyyymmdd dates else dates.

(** [yyyymmdd(dates)] when [dates] is a [list]. *)
Definition yyyymmdd (dates : list string) : list string :=
  map yyyymmdd_str dates.

(** [yymmdd(dates)] when [dates] is a [str]; [date[2:8]] of an 8-character
    string is its last six characters. *)
Definition yymmdd_str (dates : string) : string :=
  if Nat.eqb (String.length dates) 8 then substring 2 6 dates else dates.

(** [yymmdd(dates)] when [dates] is a [list]. *)
Definition yymmdd (dates : list string) : list string :=
  map yymmdd_str dates.

(** [i.replace('-', '_').split('_')[k]] *)
Definition date12_part (k : nat) (i : string) : res string :=
  getitem (split "_" (replace "-" "_" i)) k.

Definition yyyymmdd_date12 (date12_list : list string) : res (list string) :=
  m_dates <- mapM (date12_part 0) date12_list ;;
  s_dates <- mapM (date12_part 1) date12_list ;;
  Ok (map (fun ms => (fst ms ++ "_" ++ snd ms)%string)
          (combine (yyyymmdd m_dates) (yyyymmdd s_dates))).

Definition yymmdd_date12 (date12_list : list string) : res (list string) :=
  m_dates <- mapM (date12_part 0) date12_list ;;
  s_dates <- mapM (date12_part 1) date12_list ;;
  Ok (map (fun ms => (fst ms ++ "-" ++ snd ms)%string)
          (combine (yymmdd m_dates) (yymmdd s_dates))).

(** ** Numbers *)

Local Open Scope float_scope.

(** Conversion of a Python [int] to [float]; exact for [|z| <= 2^53], which
    covers every day count between two calendar dates. *)
Definition float_of_Z (z : Z) : float :=
  if (z <? 0)%Z then - PrimFloat.of_uint63 (Uint63.of_Z (- z))
  else PrimFloat.of_uint63 (Uint63.of_Z z).

(** [x >= y] *)
Definition geb (x y : float) : bool := y <=? x.
(** [x > y] *)
Definition gtb (x y : float) : bool := y <? x.

(** Python's builtin [max] and [min] over a non-empty sequence: the first
    item is kept until a strictly greater (smaller) one is met. *)
Definition py_max (l : list float) : res float :=
  match l with
  | [] => Raise ValueError
  | x :: l' => Ok (fold_left (fun m item => if gtb item m then item else m) l' x)
  end.

Definition py_min (l : list float) : res float :=
  match l with
  | [] => Raise ValueError
  | x :: l' => Ok (fold_left (fun m item => if item <? m then item else m) l' x)
  end.

Definition py_max_int (l : list Z) : res Z :=
  match l with
  | [] => Raise ValueError
  | x :: l' => Ok (fold_left (fun m item => if (m <? item)%Z then item else m) l' x)
  end.

Definition py_min_int (l : list Z) : res Z :=
  match l with
  | [] => Raise ValueError
  | x :: l' => Ok (fold_left (fun m item => if (item <? m)%Z then item else m) l' x)
  end.

(** [np.min] of a 1-D array: not-a-number propagates. *)
Definition np_minimum (a b : float) : float :=
  if (a <? b) || is_nan a then a else b.

Definition np_min (l : list float) : res float :=
  match l with
  | [] => Raise ValueError
  | x :: l' => Ok (fold_left np_minimum l' x)
  end.

(** [np.where(a == v)[0][0]]: the first index whose entry equals [v]. *)
Fixpoint first_eq_from (v : float) (a : list float) (i : nat) : res nat :=
  match a with
  | [] => Raise IndexError
  | x :: a' => if x =? v then Ok i else first_eq_from v a' (S i)
  end.
Definition first_eq (v : float) (a : list float) : res nat := first_eq_from v a 0.

(** [np.argmin]: the first index of the smallest entry, a not-a-number
    entry counting as smallest. *)
Fixpoint argmin_from (a : list float) (i : nat) (best : nat) (m : float) : nat :=
  match a with
  | [] => best
  | x :: a' =>
      if is_nan m then best
      else if (x <? m) || is_nan x then argmin_from a' (S i) i x
      else argmin_from a' (S i) best m
  end.
Definition np_argmin (a : list float) : res nat :=
  match a with
  | [] => Raise ValueError
  | x :: a' => Ok (argmin_from a' 1 0 x)
  end.

(** [np.sqrt(np.square(tt) + np.square(pp))] for one entry. *)
Definition hypot2 (tt pp : float) : float := sqrt (tt * tt + pp * pp).

(** ** Dates and temporal baselines *)

Section Network.

(** The standard library's date parser, taken as a parameter:
    [strptime_Ymd s] is the proleptic Gregorian ordinal of the [datetime]
    built from [time.strptime(s, "%Y%m%d")], or [ValueError] when the
    string is rejected. *)
Variable strptime_Ymd : string -> res Z.

(** [numpy.mean] over a sequence of float64, taken as a parameter (its
    summation order is an implementation detail of numpy). *)
Variable np_mean : list float -> float.

(** [date_list2tbase(dateList)[0]] *)
Definition date_list2tbase (dateList : list string) : res (list Z) :=
  let dateList := yyyymmdd dateList in
  dates <- mapM strptime_Ymd dateList ;;
  match dates with
  | [] => Ok []
  | d0 :: _ => Ok (map (fun i => (i - d0)%Z) dates)
  end.

(** ** network.py *)

(** The idiom
    [m_dates = [date12.split('-')[0] for date12 in date12_list]]
    [s_dates = [date12.split('-')[1] for date12 in date12_list]]
    [list(set(m_dates + s_dates))]. *)
Definition pair_dates (date12_list : list string) : res (list string) :=
  m_dates <- mapM (fun date12 => getitem (split "-" date12) 0) date12_list ;;
  s_dates <- mapM (fun date12 => getitem (split "-" date12) 1) date12_list ;;
  Ok (set_list (m_dates ++ s_dates)).

(** One sample of the loop body of [calculate_doppler_overlap];
    [(rangepix-1)**2] is exact for the ten sample positions and is written
    as a product. *)
Definition doppler_at (dop : list float) (i : Z) : res float :=
  let rangepix := float_of_Z ((i - 1) * 5000) / 10 + 1 in
  d0 <- getitem dop 0 ;;
  d1 <- getitem dop 1 ;;
  d2 <- getitem dop 2 ;;
  Ok (d0 + (rangepix - 1) * d1 + ((rangepix - 1) * (rangepix - 1)) * d2).

Definition calculate_doppler_overlap
           (dop_a dop_b : list float) (bandwidth_az : float) : res float :=
  ddiff <- mapM (fun i =>
                   da <- doppler_at dop_a i ;;
                   db <- doppler_at dop_b i ;;
                   Ok (abs (da - db)))
                (map Z.of_nat (seq 0 10)) ;;
  let ddiff_mean := np_mean ddiff in
  Ok ((bandwidth_az - ddiff_mean) / bandwidth_az).

(** The name [pbase_list] is read in [threshold_doppler_overlap], where it
    is neither a parameter, a local nor a module global. *)
Definition unbound_name {A} : io A := io_raise NameError.

Definition threshold_doppler_overlap
           (date12_list date_list : list string) (dop_list : list (list float))
           (bandwidth_az dop_overlap_min : float) : io (list string) :=
  let threshold (date_list : list string) : io (list string) :=
    let date6_list := yymmdd date_list in
    io_lift (for_filter (fun date12 =>
      '(date1, date2) <- unpack2 (split "-" date12) ;;
      idx1 <- index date1 date6_list ;;
      idx2 <- index date2 date6_list ;;
      dop1 <- getitem dop_list idx1 ;;
      dop2 <- getitem dop_list idx2 ;;
      dop_overlap <- calculate_doppler_overlap dop1 dop2 bandwidth_az ;;
      Ok (geb dop_overlap dop_overlap_min)) date12_list) in
  match date12_list, date_list with
  | [], _ => io_ret []
  | _, [] =>
      (dates <~ io_lift (pair_dates date12_list) ;;
       let date_list := sorted (yyyymmdd dates) in
       pbase_len <~ unbound_name ;;
       if negb (Nat.eqb (List.length date_list) pbase_len) then
         print "ERROR: number of existing dates is not equal to number of perp baseline!" ;;;
         print "date list is needed for threshold filtering!" ;;;
         print "skip filtering." ;;;
         io_ret date12_list
       else threshold date_list)%io
  | _, _ => threshold date_list
  end.

Definition threshold_perp_baseline
           (date12_list date_list : list string) (pbase_list : list float)
           (pbase_max pbase_min : float) : io (list string) :=
  let threshold (date_list : list string) : io (list string) :=
    let date6_list := yymmdd date_list in
    io_lift (for_filter (fun date12 =>
      '(date1, date2) <- unpack2 (split "-" date12) ;;
      idx1 <- index date1 date6_list ;;
      idx2 <- index date2 date6_list ;;
      p1 <- getitem pbase_list idx1 ;;
      p2 <- getitem pbase_list idx2 ;;
      let pbase := abs (p1 - p2) in
      Ok ((pbase_min <=? pbase) && (pbase <=? pbase_max))) date12_list) in
  match date12_list, date_list with
  | [], _ => io_ret []
  | _, [] =>
      (dates <~ io_lift (pair_dates date12_list) ;;
       let date_list := sorted (yyyymmdd dates) in
       if negb (Nat.eqb (List.length date_list) (List.length pbase_list)) then
         print "ERROR: number of existing dates is not equal to number of perp baseline!" ;;;
         print "date list is needed for threshold filtering!" ;;;
         print "skip filtering." ;;;
         io_ret date12_list
       else threshold date_list)%io
  | _, _ => threshold date_list
  end.

(** [tbase/30 in [11, 12]]: true division, then equality with the two
    integers. *)
Definition seasonal (tbase : Z) : bool :=
  let q := float_of_Z tbase / 30 in
  (q =? 11) || (q =? 12).

Definition threshold_temporal_baseline
           (date12_list : list string) (btemp_max : float)
           (keep_seasonal : bool) (btemp_min : float) : res (list string) :=
  match date12_list with
  | [] => Ok []
  | _ =>
      dates <- pair_dates date12_list ;;
      let date8_list := sorted (yyyymmdd dates) in
      let date6_list := yymmdd date8_list in
      tbase_list <- date_list2tbase date8_list ;;
      for_filter (fun date12 =>
        '(date1, date2) <- unpack2 (split "-" date12) ;;
        idx1 <- index date1 date6_list ;;
        idx2 <- index date2 date6_list ;;
        t1 <- getitem tbase_list idx1 ;;
        t2 <- getitem tbase_list idx2 ;;
        let tbase := Z.abs (t1 - t2) in
        if (btemp_min <=? float_of_Z tbase) && (float_of_Z tbase <=? btemp_max)
        then Ok true
        else if keep_seasonal && seasonal tbase then Ok true
        else Ok false) date12_list
  end.

(** [coh_mat[i, j] = v] on a matrix kept as a list of rows. *)
Definition mat_set (i j : nat) (v : float) (m : list (list float))
  : list (list float) :=
  list_set i (list_set j v (nth i m [])) m.

Definition mat_get (m : list (list float)) (i j : nat) : float :=
  nth j (nth i m []) nan.

(** A loop that updates an accumulator and may raise. *)
Fixpoint foldM {A S} (body : S -> A -> res S) (l : list A) (s : S) : res S :=
  match l with
  | [] => Ok s
  | x :: l' => s' <- body s x ;; foldM body l' s'
  end.

(** [diagValue] is [None] for the default (the object [np.nan] itself) and
    [Some v] for any other value passed by the caller. *)
Definition coherence_matrix
           (date12_list : list string) (coh_list : list float)
           (diagValue : option float) : res (list (list float)) :=
  date12_list <- yymmdd_date12 date12_list ;;
  dates <- pair_dates date12_list ;;
  let date_list := sorted (yymmdd dates) in
  let date_num := List.length date_list in
  let coh_mat := repeat (repeat nan date_num) date_num in
  coh_mat <- foldM (fun coh_mat date12 =>
      '(date1, date2) <- unpack2 (split "-" date12) ;;
      idx1 <- index date1 date_list ;;
      idx2 <- index date2 date_list ;;
      k <- index date12 date12_list ;;
      coh <- getitem coh_list k ;;
      Ok (mat_set idx2 idx1 coh (mat_set idx1 idx2 coh coh_mat)))
    date12_list coh_mat ;;
  match diagValue with
  | None => Ok coh_mat
  | Some v => Ok (fold_left (fun m i => mat_set i i v m) (seq 0 date_num) coh_mat)
  end.

(** [itertools.combinations(l, 2)] *)
Fixpoint combinations2 {A} (l : list A) : list (A * A) :=
  match l with
  | [] => []
  | x :: l' => map (pair x) l' ++ combinations2 l'
  end.

Definition select_pairs_all (date_list : list string) : list string :=
  let date8_list := sorted (yyyymmdd date_list) in
  let date6_list := yymmdd date8_list in
  let date12_list := combinations2 date6_list in
  map (fun date12 => (fst date12 ++ "-" ++ snd date12)%string) date12_list.

(** Python's [float / int] and [float / float]. *)
Definition py_truediv (a b : float) : res float :=
  if b =? 0 then Raise ZeroDivisionError else Ok (a / b).

(** The scaled temporal baselines of [select_pairs_mst] and
    [select_master_date]. *)
Definition scaled_tbase (tbase_list : list Z) (pbase_list : list float)
  : res (list float) :=
  pmax <- py_max pbase_list ;;
  pmin <- py_min pbase_list ;;
  tmax <- py_max_int tbase_list ;;
  tmin <- py_min_int tbase_list ;;
  temp2perp_scale <- py_truediv (pmax - pmin) (float_of_Z (tmax - tmin)) ;;
  Ok (map (fun tbase => float_of_Z tbase * temp2perp_scale) tbase_list).

(** The dense matrix
    [np.sqrt(np.square(ttMat) + np.square(ppMat))] built from the two
    [meshgrid] pairs: entry [(i, j)] compares item [j] with item [i].
    Each grid is square, of the size of its list.  When the sizes differ
    numpy broadcasts a grid of a single entry over the other grid, and
    raises [ValueError] otherwise. *)
Definition distance_matrix (tbase_list pbase_list : list float)
  : res (list (list float)) :=
  if Nat.eqb (List.length tbase_list) (List.length pbase_list) then
    let pts := combine tbase_list pbase_list in
    Ok (map (fun pi =>
               map (fun pj => hypot2 (abs (fst pj - fst pi)) (abs (snd pj - snd pi)))
                   pts) pts)
  else
    match tbase_list, pbase_list with
    | [t0], _ =>
        Ok (map (fun pi =>
                   map (fun pj => hypot2 (abs (t0 - t0)) (abs (pj - pi))) pbase_list)
                pbase_list)
    | _, [p0] =>
        Ok (map (fun ti =>
                   map (fun tj => hypot2 (abs (tj - ti)) (abs (p0 - p0))) tbase_list)
                tbase_list)
    | _, _ => Raise ValueError
    end.

(** *** The sparse-graph routines of scipy

    [sparse.csr_matrix(dense)] stores the entries that differ from zero,
    row by row. *)
Definition enumerate {A} (l : list A) : list (nat * A) :=
  combine (seq 0 (List.length l)) l.

Definition csr_matrix (m : list (list float)) : list (nat * nat * float) :=
  flat_map (fun ir =>
              flat_map (fun jw => if snd jw =? 0 then [] else [(fst ir, fst jw, snd jw)])
                       (enumerate (snd ir)))
           (enumerate m).

(** [np.argsort(data)]: ascending weights, not-a-number last. *)
Definition weight_leb (a b : nat * nat * float) : bool :=
  (snd a <=? snd b) || is_nan (snd b).

Fixpoint insert_edge (e : nat * nat * float) (l : list (nat * nat * float))
  : list (nat * nat * float) :=
  match l with
  | [] => [e]
  | e' :: l' => if weight_leb e e' then e :: l else e' :: insert_edge e l'
  end.

Definition argsort (g : list (nat * nat * float)) : list (nat * nat * float) :=
  fold_right insert_edge [] g.

(** Kruskal's scan: [comp] labels each vertex with its component; an entry
    joining two components is kept and the components are merged, any
    other entry is dropped. *)
Fixpoint kruskal (comp : list nat) (es : list (nat * nat * float))
  : list (nat * nat) :=
  match es with
  | [] => []
  | (i, j, _) :: es' =>
      let ci := nth i comp i in
      let cj := nth j comp j in
      if Nat.eqb ci cj then kruskal comp es'
      else (i, j) :: kruskal (map (fun c => if Nat.eqb c cj then ci else c) comp) es'
  end.

Definition kept_in (kept : list (nat * nat)) (e : nat * nat * float) : bool :=
  existsb (fun ab => Nat.eqb (fst ab) (fst (fst e)) && Nat.eqb (snd ab) (snd (fst e)))
          kept.

(** [sparse.csgraph.minimum_spanning_tree(g)] for a graph on [n]
    vertices: the stored entries kept by the scan, listed in storage
    order (the order in which [sparse.find] lists them is the library's;
    the properties proved of the tree do not depend on it). *)
Definition minimum_spanning_tree (n : nat) (g : list (nat * nat * float))
  : list (nat * nat * float) :=
  filter (kept_in (kruskal (seq 0 n) (argsort g))) g.

Definition select_pairs_mst (date_list : list string) (pbase_list : list float)
  : res (list string) :=
  let date6_list := yymmdd date_list in
  let date8_list := yyyymmdd date_list in
  tbase_list <- date_list2tbase date8_list ;;
  tbase_list <- scaled_tbase tbase_list pbase_list ;;
  weightMat <- distance_matrix tbase_list pbase_list ;;
  let weightMat_csr := csr_matrix weightMat in
  let mstMat := minimum_spanning_tree (List.length weightMat) weightMat_csr in
  mapM (fun e =>
          let s_idx := fst (fst e) in
          let m_idx := snd (fst e) in
          d1 <- getitem date6_list (Nat.min m_idx s_idx) ;;
          d2 <- getitem date6_list (Nat.max m_idx s_idx) ;;
          Ok (d1 ++ "-" ++ d2)%string)
       mstMat.

(** [np.mean(disMat, 0)]: the mean of each column. *)
Definition column_means (m : list (list float)) : list float :=
  map (fun j => np_mean (map (fun row => nth j row nan) m))
      (seq 0 (List.length m)).

Definition select_master_date (date_list : list string) (pbase_list : list float)
  : res string :=
  let date8_list := yyyymmdd date_list in
  match pbase_list with
  | [] => getitem date8_list (List.length date8_list / 2)
  | _ =>
      tbase_list <- date_list2tbase date8_list ;;
      tbase_list <- scaled_tbase tbase_list pbase_list ;;
      disMat <- distance_matrix tbase_list pbase_list ;;
      let disMean := column_means disMat in
      m_idx <- np_argmin disMean ;;
      getitem date8_list m_idx
  end.

(** [str(l)] for a list of strings free of quotes and escapes. *)
Definition str_of_list (l : list string) : string :=
  ("[" ++ String.concat ", " (map (fun s => "'" ++ s ++ "'") l) ++ "]")%string.

(** [a is not b] for two [int] objects made at run time, as [range] and
    [list.index] make them: CPython keeps one object for each integer from
    -5 to 256, so up to 256 the test is [a != b]; a larger integer is a new
    object each time it is made, and the test holds also when the values
    are equal. *)
Definition int_is_not (a b : nat) : bool :=
  negb (Nat.eqb a b) || (256 <? a)%nat.

(** [m_date] is [None] when the caller passes no master date. *)
Definition select_pairs_star
           (date_list : list string) (m_date : option string)
           (pbase_list : list float) : io (list string) :=
  let date8_list := sorted (yyyymmdd date_list) in
  let date6_list := yymmdd date8_list in
  let auto_select : io string :=
    (m_date <~ io_lift (select_master_date date8_list pbase_list) ;;
     print ("auto select master date: " ++ m_date) ;;;
     io_ret m_date)%io in
  (m_date <~ match m_date with
             | None => auto_select
             | Some EmptyString => auto_select
             | Some m_date => io_ret m_date
             end ;;
   let m_date8 := yyyymmdd_str m_date in
   m_date8 <~ (if negb (contains m_date8 date8_list) then
                 print "Input master date is not existed in date list!" ;;;
                 print ("Input master date: " ++ m_date8) ;;;
                 print ("Input date list: " ++ str_of_list date8_list) ;;;
                 io_ret None
               else io_ret (Some m_date8)) ;;
   m_idx <~ io_lift match m_date8 with
                    | Some d => index d date8_list
                    | None => Raise ValueError
                    end ;;
   let date12_idx_list :=
     map (fun s_idx => (Nat.min m_idx s_idx, Nat.max m_idx s_idx))
         (filter (fun s_idx => int_is_not s_idx m_idx)
                 (seq 0 (List.length date8_list))) in
   io_lift (mapM (fun idx =>
                    d1 <- getitem date6_list (fst idx) ;;
                    d2 <- getitem date6_list (snd idx) ;;
                    Ok (d1 ++ "-" ++ d2)%string)
                 date12_idx_list))%io.

(** The first half of [select_master_interferogram]: the distance, in the
    scaled (temporal, perpendicular) baseline plane, between the two dates
    of every pair.  [max] and [min] over the numpy arrays compare float64
    scalars, and the division is numpy's (no exception on a zero
    divisor). *)
Definition base_distance
           (date12_list date_list : list string) (pbase_list : list float)
  : res (list float) :=
  let pbase_array := pbase_list in
  let date8_list := yyyymmdd date_list in
  let date6_list := yymmdd date8_list in
  tbase_list <- date_list2tbase date8_list ;;
  let tbase_array := map float_of_Z tbase_list in
  pmax <- py_max pbase_array ;;
  pmin <- py_min pbase_array ;;
  tmax <- py_max tbase_array ;;
  tmin <- py_min tbase_array ;;
  let temp2perp_scale := (pmax - pmin) / (tmax - tmin) in
  let tbase_array := map (fun t => t * temp2perp_scale) tbase_array in
  idx1 <- mapM (fun date12 => d <- getitem (split "-" date12) 0 ;; index d date6_list)
               date12_list ;;
  idx2 <- mapM (fun date12 => d <- getitem (split "-" date12) 1 ;; index d date6_list)
               date12_list ;;
  match date12_list with
  | [] => Raise IndexError
  | _ =>
      mapM (fun i12 =>
              t2 <- getitem tbase_array (snd i12) ;;
              t1 <- getitem tbase_array (fst i12) ;;
              p2 <- getitem pbase_array (snd i12) ;;
              p1 <- getitem pbase_array (fst i12) ;;
              Ok (hypot2 (t2 - t1) (p2 - p1)))
           (combine idx1 idx2)
  end.

(** The pairs among which a master date restricts the choice: those whose
    identifier contains the 6-digit date followed by ["-"]. *)
Definition master_candidates (date12_list : list string) (m_date : string)
  : list string :=
  filter (fun date12 => str_contains (m_date ++ "-") date12) date12_list.

Definition select_master_interferogram
           (date12_list date_list : list string) (pbase_list : list float)
           (m_date : option string) : res string :=
  base_distance <- base_distance date12_list date_list pbase_list ;;
  m_date12_idx <-
    match m_date with
    | None | Some EmptyString => np_argmin base_distance
    | Some m_date =>
        let m_date := yymmdd_str m_date in
        m_date12_idx_array <-
          mapM (fun date12 => index date12 date12_list)
               (master_candidates date12_list m_date) ;;
        candidates <-
          match m_date12_idx_array with
          | [] => Raise IndexError
          | _ => mapM (getitem base_distance) m_date12_idx_array
          end ;;
        min_base_distance <- np_min candidates ;;
        first_eq min_base_distance base_distance
    end ;;
  getitem date12_list m_date12_idx.

End Network.

(** ** Lists of index pairs as mutable objects

    [pair_sort] and [pair_merge] receive Python lists of two-element lists
    and update them in place, so their arguments are modelled as addresses
    into an object store: [inner] holds the two-element lists, addressed by
    position, and [outer] holds the lists of pairs, each a list of addresses
    into [inner].  Allocation appends to the store. *)

Module Heap.

Definition loc := nat.

Record store : Type := mkStore {
  inner : list (list Z);
  outer : list (list loc)
}.

(** A computation on the store: the store is returned also when an
    exception is raised, with the updates made until then. *)
Definition st (A : Type) : Type := store -> res A * store.

Definition st_ret {A} (x : A) : st A := fun h => (Ok x, h).
Definition st_raise {A} (e : exn) : st A := fun h => (Raise e, h).
Definition st_bind {A B} (m : st A) (k : A -> st B) : st B :=
  fun h => match m h with
           | (Ok x, h') => k x h'
           | (Raise e, h') => (Raise e, h')
           end.
Definition st_lift {A} (m : res A) : st A := fun h => (m, h).

Declare Scope st_scope.
Delimit Scope st_scope with st.
Notation "x <- m ;; k" := (st_bind m (fun x => k))
  (at level 61, m at next level, right associativity) : st_scope.
Notation "m ;;; k" := (st_bind m (fun _ => k))
  (at level 61, right associativity) : st_scope.
Local Open Scope st_scope.

(** Reading and writing objects. *)
Definition read_outer (p : loc) : st (list loc) :=
  fun h => (getitem (outer h) p, h).
Definition read_inner (q : loc) : st (list Z) :=
  fun h => (getitem (inner h) q, h).
Definition write_outer (p : loc) (l : list loc) : st unit :=
  fun h => (Ok tt, mkStore (inner h) (list_set p l (outer h))).
Definition write_inner (q : loc) (l : list Z) : st unit :=
  fun h => (Ok tt, mkStore (list_set q l (inner h)) (outer h)).
Definition alloc_outer (l : list loc) : st loc :=
  fun h => (Ok (List.length (outer h)), mkStore (inner h) (outer h ++ [l])).

(** [for x in l: body(x)] *)
Fixpoint for_each {A} (l : list A) (body : A -> st unit) : st unit :=
  match l with
  | [] => st_ret tt
  | x :: l' => body x ;;; for_each l' body
  end.

(** Comparison of two lists of integers, as Python compares lists. *)
Fixpoint list_leb (a b : list Z) : bool :=
  match a, b with
  | [], _ => true
  | _ :: _, [] => false
  | x :: a', y :: b' => (x <? y)%Z || ((x =? y)%Z && list_leb a' b')
  end.

Fixpoint list_eqb (a b : list Z) : bool :=
  match a, b with
  | [], [] => true
  | x :: a', y :: b' => (x =? y)%Z && list_eqb a' b'
  | _, _ => false
  end.

(** The content of the object at [q] (an absent address reads as the
    empty list; the functions below only follow addresses they were
    given). *)
Definition content (h : store) (q : loc) : list Z := nth q (inner h) [].

(** [sorted(pairs)]: a stable sort of the addresses by content. *)
Fixpoint insert_by (h : store) (q : loc) (l : list loc) : list loc :=
  match l with
  | [] => [q]
  | q' :: l' =>
      if list_leb (content h q) (content h q') then q :: l
      else q' :: insert_by h q l'
  end.
Definition sorted_by (h : store) (l : list loc) : list loc :=
  fold_right (insert_by h) [] l.
Definition py_sorted (p : loc) : st loc :=
  l <- read_outer p ;;
  (fun h => alloc_outer (sorted_by h l) h).

(** [pair in pairs]: some element is the same object or has equal
    content. *)
Definition pair_in (h : store) (q : loc) (l : list loc) : bool :=
  existsb (fun q' => Nat.eqb q' q || list_eqb (content h q') (content h q)) l.

Definition pair_sort (pairs : loc) : st loc :=
  l <- read_outer pairs ;;
  for_each (seq 0 (List.length l)) (fun idx =>
    l <- read_outer pairs ;;
    q <- st_lift (getitem l idx) ;;
    pr <- read_inner q ;;
    a <- st_lift (getitem pr 0) ;;
    b <- st_lift (getitem pr 1) ;;
    if (b <? a)%Z then
      let index1 := b in
      let index2 := a in
      pr <- read_inner q ;;
      write_inner q (list_set 0 index1 pr) ;;;
      pr <- read_inner q ;;
      write_inner q (list_set 1 index2 pr)
    else st_ret tt) ;;;
  py_sorted pairs.

(** The loop visits the elements [pairs2] holds when it starts; when
    [pairs2] and [pairs1] are the same object nothing is appended, so
    this is also what Python's list iterator visits. *)
Definition pair_merge (pairs1 pairs2 : loc) : st loc :=
  let pairs := pairs1 in
  l2 <- read_outer pairs2 ;;
  for_each l2 (fun pair =>
    l <- read_outer pairs ;;
    (fun h => if negb (pair_in h pair l)
              then write_outer pairs (l ++ [pair]) h
              else st_ret tt h)) ;;;
  py_sorted pairs.

(** What the caller sees through an address: the pairs of a list. *)
Definition view (h : store) (p : loc) : list (list Z) :=
  map (content h) (nth p (outer h) []).

(** The elements of [pairs1] after the loop of [pair_merge]: each element
    of [l2] that is not found is appended. *)
Definition merge_refs (h : store) (l1 l2 : list loc) : list loc :=
  fold_left (fun l q => if pair_in h q l then l else l ++ [q]) l2 l1.

(** A pair with its two indices in increasing order. *)
Definition normalise (pr : list Z) : list Z :=
  match pr with
  | a :: b :: rest => if (b <? a)%Z then b :: a :: rest else pr
  | _ => pr
  end.

(** The pair objects after the loop of [pair_sort]. *)
Definition normalise_all (inn : list (list Z)) (l : list loc) : list (list Z) :=
  fold_left (fun inn q => list_set q (normalise (nth q inn [])) inn) l inn.

End Heap.

(** ** A calendar for closed examples

    [ordinal_Ymd8] is the proleptic Gregorian ordinal of a date written
    as eight decimal digits, as [datetime.toordinal] numbers days; it is the
    instance of the date parser used when a statement is evaluated on
    concrete dates, all of which are given with eight digits. *)

Definition digit (c : ascii) : option Z :=
  let n := Z.of_N (N_of_ascii c) in
  if ((48 <=? n) && (n <=? 57))%Z then Some (n - 48)%Z else None.

Fixpoint number_from (s : string) (acc : Z) : option Z :=
  match s with
  | EmptyString => Some acc
  | String c s' =>
      match digit c with
      | Some d => number_from s' (10 * acc + d)%Z
      | None => None
      end
  end.

Definition number (s : string) : option Z := number_from s 0%Z.

Definition is_leap (y : Z) : bool :=
  ((y mod 4 =? 0) && (negb (y mod 100 =? 0) || (y mod 400 =? 0)))%Z.

Definition days_in_month (y m : Z) : Z :=
  if (m =? 2)%Z then (if is_leap y then 29 else 28)%Z
  else if ((m =? 4) || (m =? 6) || (m =? 9) || (m =? 11))%Z then 30%Z
  else 31%Z.

Definition days_before_year (y : Z) : Z :=
  ((y - 1) * 365 + (y - 1) / 4 - (y - 1) / 100 + (y - 1) / 400)%Z.

Definition days_before_month (y m : Z) : Z :=
  fold_left Z.add (map (days_in_month y) (map Z.of_nat (seq 1 (Z.to_nat m - 1)))) 0%Z.

Definition ordinal_Ymd8 (s : string) : res Z :=
  if Nat.eqb (String.length s) 8 then
    match number (substring 0 4 s), number (substring 4 2 s), number (substring 6 2 s) with
    | Some y, Some m, Some d =>
        if ((1 <=? y) && (1 <=? m) && (m <=? 12) && (1 <=? d) && (d <=? days_in_month y m))%Z
        then Ok (days_before_year y + days_before_month y m + d)%Z
        else Raise ValueError
    | _, _, _ => Raise ValueError
    end
  else Raise ValueError.

(** A left-to-right mean, standing for [numpy.mean] in closed examples. *)
Definition mean_seq (l : list float) : float :=
  (fold_left PrimFloat.add l 0 / float_of_Z (Z.of_nat (List.length l)))%float.

(** ** Vocabulary of the statements *)

(** [free_of c s]: the character [c] does not occur in [s]. *)
Fixpoint free_of (c : ascii) (s : string) : bool :=
  match s with
  | EmptyString => true
  | String c' s' => negb (Ascii.eqb c' c) && free_of c s'
  end.

Definition is_digit (c : ascii) : bool :=
  match digit c with
  | Some _ => true
  | None => false
  end.

Fixpoint all_digits (s : string) : bool :=
  match s with
  | EmptyString => true
  | String c s' => is_digit c && all_digits s'
  end.

(** A date of the data model: six or eight decimal digits. *)
Definition is_date (s : string) : Prop :=
  all_digits s = true /\ (String.length s = 6 \/ String.length s = 8)%nat.

(** A date of the century window 1990-2089, in which the 6-digit form
    determines the 8-digit form. *)
Definition in_window (s : string) : Prop :=
  yyyymmdd_str (yymmdd_str (yyyymmdd_str s)) = yyyymmdd_str s.

(** A string without the two separators of pair identifiers. *)
Definition clean (s : string) : Prop :=
  free_of "-" s = true /\ free_of "_" s = true.

(** A pair identifier in the 6-digit format [YYMMDD-YYMMDD]. *)
Definition date12 (d1 d2 : string) : string := (d1 ++ "-" ++ d2)%string.

(** The lexicographic order on pairs induced by an order on components. *)
Definition lex {A} (R : A -> A -> Prop) (p q : A * A) : Prop :=
  R (fst p) (fst q) \/ (fst p = fst q /\ R (snd p) (snd q)).

(** The outcome of a test, read as a boolean (false when it raises). *)
Definition test_bool {A} (test : A -> res bool) (x : A) : bool :=
  match test x with
  | Ok b => b
  | Raise _ => false
  end.

(** The [k]-th part of an identifier split at ["-"] (empty when absent). *)
Definition part (k : nat) (d12 : string) : string :=
  nth k (split "-" d12) EmptyString.

(** The day number of a date under the parser (0 when it is rejected). *)
Definition ordinal (strptime_Ymd : string -> res Z) (d : string) : Z :=
  match strptime_Ymd (yyyymmdd_str d) with
  | Ok o => o
  | Raise _ => 0%Z
  end.

(** The absolute temporal baseline of an identifier, in days. *)
Definition tbase_of (strptime_Ymd : string -> res Z) (d12 : string) : Z :=
  Z.abs (ordinal strptime_Ymd (part 0 d12) - ordinal strptime_Ymd (part 1 d12)).

(** The decision of the temporal filter on a baseline of [tbase] days. *)
Definition temporal_keep (btemp_max : float) (keep_seasonal : bool)
           (btemp_min : float) (tbase : Z) : bool :=
  ((btemp_min <=? float_of_Z tbase) && (float_of_Z tbase <=? btemp_max))%float
  || (keep_seasonal && seasonal tbase).

(** An identifier the temporal filter can read: two parts, neither of
    eight characters, both accepted by the date parser. *)
Definition readable (strptime_Ymd : string -> res Z) (d12 : string) : Prop :=
  exists d1 d2,
    split "-" d12 = [d1; d2] /\
    String.length d1 <> 8%nat /\ String.length d2 <> 8%nat /\
    (exists o, strptime_Ymd (yyyymmdd_str d1) = Ok o) /\
    (exists o, strptime_Ymd (yyyymmdd_str d2) = Ok o).

(** The dates that index the coherence matrix, as [coherence_matrix]
    computes them. *)
Definition coherence_dates (date12_list : list string) : res (list string) :=
  date12_list <- yymmdd_date12 date12_list ;;
  dates <- pair_dates date12_list ;;
  Ok (sorted (yymmdd dates)).

(** The matrix entry of a pair of dates. *)
Definition entry (coh_mat : list (list float)) (date_list : list string)
           (a b : string) : res float :=
  i <- index a date_list ;;
  j <- index b date_list ;;
  Ok (mat_get coh_mat i j).

(** A square matrix of size [n]. *)
Definition square (n : nat) (m : list (list float)) : Prop :=
  List.length m = n /\ Forall (fun row => List.length row = n) m.

(** One symmetric assignment [m[i, j] = c; m[j, i] = c], and whether it
    writes the entry [(x, y)]. *)
Definition assign_sym (m : list (list float)) (u : nat * nat * float)
  : list (list float) :=
  let '(i, j, c) := u in mat_set j i c (mat_set i j c m).

Definition touches (x y : nat) (u : nat * nat * float) : bool :=
  let '(i, j, _) := u in
  (Nat.eqb x i && Nat.eqb y j) || (Nat.eqb x j && Nat.eqb y i).

(** The position of a date in a list (0 when absent). *)
Definition position (date_list : list string) (d : string) : nat :=
  match index d date_list with
  | Ok i => i
  | Raise _ => 0%nat
  end.

(** An assignment within a matrix of size [n]. *)
Definition in_range (n : nat) (u : nat * nat * float) : Prop :=
  (fst (fst u) < n)%nat /\ (snd (fst u) < n)%nat.

(** The component labels at the end of Kruskal's scan. *)
Fixpoint kruskal_labels (comp : list nat) (es : list (nat * nat * float))
  : list nat :=
  match es with
  | [] => comp
  | (i, j, _) :: es' =>
      let ci := nth i comp i in
      let cj := nth j comp j in
      if Nat.eqb ci cj then kruskal_labels comp es'
      else kruskal_labels (map (fun c => if Nat.eqb c cj then ci else c) comp) es'
  end.

(** Two vertices joined by one of the edges, in either direction, and the
    vertices connected by a path of such edges. *)
Definition joined {V} (edges : list (V * V)) (a b : V) : Prop :=
  In (a, b) edges \/ In (b, a) edges.

Definition connected {V} (edges : list (V * V)) : V -> V -> Prop :=
  clos_refl_trans V (joined edges).

(** Two dates joined by one of the pairs of a network, and the dates
    connected by the network. *)
Definition linked (date12_list : list string) (a b : string) : Prop :=
  In (date12 a b) date12_list \/ In (date12 b a) date12_list.

Definition network_connected (date12_list : list string) : string -> string -> Prop :=
  clos_refl_trans string (linked date12_list).

(** ** Further functions of network.py and ptime.py *)

(** [l[i]] for an [int] index: a negative index counts from the end. *)
Definition getitem_int {A} (l : list A) (i : Z) : res A :=
  if (i <? 0)%Z then
    if (- i <=? Z.of_nat (List.length l))%Z
    then getitem l (Z.to_nat (Z.of_nat (List.length l) + i))
    else Raise IndexError
  else getitem l (Z.to_nat i).

(** [range(n)]: empty when [n] is negative. *)
Definition range (n : Z) : list nat := seq 0 (Z.to_nat n).

(** Comparison of two index pairs [[a, b]], as Python compares lists, and
    [sorted] on a list of them. *)
Definition idx_leb (p q : nat * nat) : bool :=
  (fst p <? fst q)%nat || ((fst p =? fst q)%nat && (snd p <=? snd q)%nat).

Fixpoint insert_idx (p : nat * nat) (l : list (nat * nat)) : list (nat * nat) :=
  match l with
  | [] => [p]
  | q :: l' => if idx_leb p q then p :: l else q :: insert_idx p l'
  end.

Definition sorted_idx (l : list (nat * nat)) : list (nat * nat) :=
  fold_right insert_idx [] l.

(** The two-element lists [[date_idx-i-1, date_idx]] that the function
    builds are modelled as pairs; the guard [date_idx-i-1 >= 0] is
    [i + 1 <= date_idx]. *)
Definition select_pairs_sequential (date_list : list string) (increment_num : Z)
  : res (list string) :=
  let date8_list := sorted (yyyymmdd date_list) in
  let date6_list := yymmdd date8_list in
  let date_idx_list := seq 0 (List.length date6_list) in
  let date12_idx_list :=
    flat_map (fun date_idx =>
                flat_map (fun i => if (i + 1 <=? date_idx)%nat
                                   then [((date_idx - i - 1)%nat, date_idx)]
                                   else [])
                         (range increment_num))
             date_idx_list in
  let date12_idx_list :=
    map (fun idx => (Nat.min (fst idx) (snd idx), Nat.max (fst idx) (snd idx)))
        (sorted_idx date12_idx_list) in
  mapM (fun idx =>
          d1 <- getitem date6_list (fst idx) ;;
          d2 <- getitem date6_list (snd idx) ;;
          Ok (d1 ++ "-" ++ d2)%string)
       date12_idx_list.

(** [date_list] is the empty list when the caller passes none. *)
Definition date12_list2index (date12_list date_list : list string)
  : res (list (list Z)) :=
  date_list <- match date_list with
               | [] => pair_dates date12_list
               | _ => Ok date_list
               end ;;
  let date6_list := yymmdd (sorted (yyyymmdd date_list)) in
  mapM (fun date12 =>
          let dates := split "-" date12 in
          d0 <- getitem dates 0 ;;
          i0 <- index d0 date6_list ;;
          d1 <- getitem dates 1 ;;
          i1 <- index d1 date6_list ;;
          Ok [Z.of_nat i0; Z.of_nat i1])
       date12_list.

(** [write_pairs_list] writes to the file it opens: the recorded output is
    the sequence of strings passed to [fl.write], which is the content of
    the file when the function returns.  Opening the file is taken to
    succeed. *)
Definition newline : string := String "010"%char EmptyString.

Definition fl_write (s : string) : io unit := ([s], Ok tt).

Fixpoint io_for_each {A} (l : list A) (body : A -> io unit) : io unit :=
  match l with
  | [] => io_ret tt
  | x :: l' => (body x ;;; io_for_each l' body)%io
  end.

Definition write_pairs_list (pairs : list (list Z)) (dateList : list string)
  : io Z :=
  let dateList6 := yymmdd dateList in
  (io_for_each pairs (fun idx =>
     i0 <~ io_lift (getitem idx 0) ;;
     d0 <~ io_lift (getitem_int dateList6 i0) ;;
     i1 <~ io_lift (getitem idx 1) ;;
     d1 <~ io_lift (getitem_int dateList6 i1) ;;
     fl_write (d0 ++ "-" ++ d1 ++ newline)%string) ;;;
   io_ret 1%Z)%io.

Section Regex.

(** [re.findall] for the two patterns of [list_ifgram2date12], taken as
    parameters: [findall8 s] is [re.findall('\d{8}[-_]\d{8}', s)] and
    [findall6 s] is [re.findall('\d{6}[-_]\d{6}', s)]. *)
Variable findall8 : string -> list string.
Variable findall6 : string -> list string.

Definition first_match (findall : string -> list string) (i : string)
  : res string :=
  m <- getitem (findall i) 0 ;;
  Ok (replace "_" "-" m).

(** The bare [except] takes any exception of the first comprehension. *)
Definition list_ifgram2date12 (ifgram_list : list string) : res (list string) :=
  date12_list <- match mapM (first_match findall8) ifgram_list with
                 | Ok l => Ok l
                 | Raise _ => mapM (first_match findall6) ifgram_list
                 end ;;
  mapM (fun date12 =>
          '(m_date, s_date) <- unpack2 (yymmdd (split "_" date12)) ;;
          Ok (m_date ++ "-" ++ s_date)%string)
       date12_list.

End Regex.

(** A loop in [io] that updates an accumulator. *)
Fixpoint io_foldM {A S} (body : S -> A -> io S) (l : list A) (s : S) : io S :=
  match l with
  | [] => io_ret s
  | x :: l' => (s' <~ body s x ;; io_foldM body l' s')%io
  end.

Section Hierarchical.

Variable strptime_Ymd : string -> res Z.

(** [str(temp_perp_list)], the text that [print] writes for a list of
    lists of floats, taken as a parameter. *)
Variable str_of_thresholds : list (list float) -> string.

Definition select_pairs_hierarchical
           (date_list : list string) (pbase_list : list float)
           (temp_perp_list : list (list float)) : io (list string) :=
  let date12_list_all := select_pairs_all date_list in
  (print "List of temporal and perpendicular spatial baseline thresholds:" ;;;
   print (str_of_thresholds temp_perp_list) ;;;
   date12_list <~
     io_foldM (fun date12_list temp_perp =>
                 tbase_max <~ io_lift (getitem temp_perp 0) ;;
                 pbase_max <~ io_lift (getitem temp_perp 1) ;;
                 date12_list_tmp <~
                   io_lift (threshold_temporal_baseline strptime_Ymd date12_list_all
                                                        tbase_max false 0) ;;
                 date12_list_tmp <~
                   threshold_perp_baseline date12_list_tmp date_list pbase_list
                                           pbase_max 0 ;;
                 io_ret (date12_list ++ date12_list_tmp))
              temp_perp_list [] ;;
   io_ret (sorted (set_list date12_list)))%io.

End Hierarchical.

(** The weights of [threshold_coherence_based_mst]: infinity where the
    coherence matrix holds not-a-number, the inverse of the coherence
    elsewhere (numpy's division: no exception for a zero coherence). *)
Definition inverse_coherence (coh_mat : list (list float)) : list (list float) :=
  map (map (fun c => if is_nan c then infinity else 1 / c)) coh_mat.

Definition threshold_coherence_based_mst
           (date12_list : list string) (coh_list : list float)
  : res (list string) :=
  coh_mat <- coherence_matrix date12_list coh_list None ;;
  let wei_mat := inverse_coherence coh_mat in
  let wei_mat_csr := csr_matrix wei_mat in
  let mst_mat_csr := minimum_spanning_tree (List.length wei_mat) wei_mat_csr in
  date12_list <- yymmdd_date12 date12_list ;;
  dates <- pair_dates date12_list ;;
  let date6_list := yymmdd (sorted (yyyymmdd dates)) in
  mapM (fun e =>
          let s_idx := fst (fst e) in
          let m_idx := snd (fst e) in
          d1 <- getitem date6_list (Nat.min m_idx s_idx) ;;
          d2 <- getitem date6_list (Nat.max m_idx s_idx) ;;
          Ok (d1 ++ "-" ++ d2)%string)
       mst_mat_csr.

(** ** Vocabulary of the further statements *)

(** An 8-character date whose century is the one [yymmdd2yyyymmdd] gives
    back: [19] before a year in the nineties, [20] otherwise. *)
Definition century_form (d : string) : Prop :=
  exists c r,
    String.length r = 5%nat /\
    d = ((if Ascii.eqb c "9" then "19" else "20") ++ String c r)%string.

(** The index pairs of the dates at most [k] positions apart, among [n]
    dates, in increasing order. *)
Definition near_pairs (n k : nat) : list (nat * nat) :=
  filter (fun p => (snd p - fst p <=? k)%nat) (combinations2 (seq 0 n)).

(** The perpendicular baseline between the two dates of an identifier,
    read in [pbase_list] at the positions of the dates in the date list. *)
Definition pbase_gap (date_list : list string) (pbase_list : list float)
           (d12 : string) : float :=
  abs (nth (position (yymmdd date_list) (part 0 d12)) pbase_list nan
       - nth (position (yymmdd date_list) (part 1 d12)) pbase_list nan).

(** [a] is [b] with some elements left out, the others in order. *)
Definition sublist_of {A} (a b : list A) : Prop :=
  exists keep : A -> bool, a = filter keep b.

(** The star network around the date at position [m_idx]: one pair for
    every other position, in order, the earlier position first. *)
Definition star_network (date6_list : list string) (m_idx : nat) : list string :=
  map (fun s_idx => date12 (nth (Nat.min m_idx s_idx) date6_list EmptyString)
                           (nth (Nat.max m_idx s_idx) date6_list EmptyString))
      (filter (fun s_idx => negb (Nat.eqb s_idx m_idx))
              (seq 0 (List.length date6_list))).

(** The same with the master position kept: one pair for every position,
    the pair of the master date with itself among them. *)
Definition star_network_self (date6_list : list string) (m_idx : nat) : list string :=
  map (fun s_idx => date12 (nth (Nat.min m_idx s_idx) date6_list EmptyString)
                           (nth (Nat.max m_idx s_idx) date6_list EmptyString))
      (seq 0 (List.length date6_list)).

(** The Doppler overlap between the two dates of an identifier, read in
    [dop_list] at the positions of the dates in the date list
    (not-a-number when it is not defined). *)
Definition overlap_of (np_mean : list float -> float)
           (date_list : list string) (dop_list : list (list float))
           (bandwidth_az : float) (d12 : string) : float :=
  match calculate_doppler_overlap
          np_mean
          (nth (position (yymmdd date_list) (part 0 d12)) dop_list [])
          (nth (position (yymmdd date_list) (part 1 d12)) dop_list [])
          bandwidth_az with
  | Ok v => v
  | Raise _ => nan
  end.

(** The dates by which [threshold_coherence_based_mst] names the pairs of
    its tree. *)
Definition mst_dates (date12_list : list string) : res (list string) :=
  date12_list <- yymmdd_date12 date12_list ;;
  dates <- pair_dates date12_list ;;
  Ok (yymmdd (sorted (yyyymmdd dates))).

(** An entry of a graph whose weight is below infinity. *)
Definition below_infinity (e : nat * nat * float) : bool := snd e <? infinity.

(** Two pairs of the store compared by their contents, in the order that
    Python uses for lists. *)
Definition content_le (h : Heap.store) (q q' : Heap.loc) : Prop :=
  Heap.list_leb (Heap.content h q) (Heap.content h q') = true.

(** * Properties *)

(** ** Floating-point facts *)

Section FloatFacts.

Let round_aux := binary_round_aux prec emax.

Lemma SFabs_round_aux_sign m e l :
  SFabs (round_aux true m e l) = SFabs (round_aux false m e l).
Proof.
  unfold round_aux, binary_round_aux.
  destruct (shr_fexp prec emax m e l) as [mrs' e'].
  destruct (shr_fexp prec emax _ e' loc_Exact) as [mrs'' e''].
  destruct (shr_m mrs''); try reflexivity.
  destruct (Z.leb e'' (emax - prec)); reflexivity.
Qed.

Lemma SFabs_normalize_opp m e :
  SFabs (binary_normalize prec emax (- m) e false)
  = SFabs (binary_normalize prec emax m e false).
Proof.
  destruct m as [|p|p]; simpl; try reflexivity;
    unfold binary_round;
    destruct (shl_align p e _) as [mz ez];
    [ apply SFabs_round_aux_sign | symmetry; apply SFabs_round_aux_sign ].
Qed.

Lemma SFabs_sub_comm x y :
  SFabs (SF64sub x y) = SFabs (SF64sub y x).
Proof.
  unfold SF64sub, SFsub.
  destruct x as [sx| sx| |sx mx ex], y as [sy| sy| |sy my ey];
    try reflexivity;
    try (destruct sx, sy; reflexivity).
  rewrite (Z.min_comm ey ex).
  rewrite <- SFabs_normalize_opp. f_equal. f_equal. lia.
Qed.

(** [abs(a - b)] does not depend on the order of [a] and [b]. *)
Lemma abs_sub_comm (a b : float) : abs (a - b) = abs (b - a).
Proof.
  apply Prim2SF_inj. rewrite !abs_spec, !sub_spec. apply SFabs_sub_comm.
Qed.

End FloatFacts.

(** ** Monadic loops *)

Lemma mapM_ext {A B} (f g : A -> res B) (l : list A) :
  (forall x, In x l -> f x = g x) -> mapM f l = mapM g l.
Proof.
  induction l as [|x l IH]; intros H; simpl; [reflexivity|].
  rewrite (H x (or_introl eq_refl)), IH; [reflexivity|].
  intros y Hy. apply H. now right.
Qed.

Lemma for_filter_ext {A} (f g : A -> res bool) (l : list A) :
  (forall x, In x l -> f x = g x) -> for_filter f l = for_filter g l.
Proof.
  induction l as [|x l IH]; intros H; simpl; [reflexivity|].
  rewrite (H x (or_introl eq_refl)), IH; [reflexivity|].
  intros y Hy. apply H. now right.
Qed.

(** ** Doppler overlap *)

Lemma doppler_at_cases (dop : list float) (i : Z) :
  (exists v, doppler_at dop i = Ok v) \/ doppler_at dop i = Raise IndexError.
Proof.
  unfold doppler_at, getitem.
  destruct dop as [|d0 [|d1 [|d2 dop]]]; simpl; try (now right).
  left. eexists. reflexivity.
Qed.

(** C10. The Doppler overlap fraction is symmetric in its two acquisitions:
    exchanging [dop_a] and [dop_b] gives the same outcome, for every list of
    coefficients (in particular for every two 3-coefficient polynomials) and
    every azimuth bandwidth. *)
Theorem calculate_doppler_overlap_sym
        (np_mean : list float -> float) (dop_a dop_b : list float)
        (bandwidth_az : float) :
  calculate_doppler_overlap np_mean dop_a dop_b bandwidth_az
  = calculate_doppler_overlap np_mean dop_b dop_a bandwidth_az.
Proof.
  unfold calculate_doppler_overlap.
  f_equal. apply mapM_ext. intros i _.
  destruct (doppler_at_cases dop_a i) as [[da Ha]|Ha];
    destruct (doppler_at_cases dop_b i) as [[db Hb]|Hb];
    rewrite Ha, Hb; simpl; try reflexivity.
  now rewrite abs_sub_comm.
Qed.

(** ** Skipping a threshold on inconsistent input *)

Lemma io_bind_lift_ok {A B} (m : res A) (x : A) (k : A -> io B) :
  m = Ok x -> io_bind (io_lift m) k = k x.
Proof.
  intros ->. unfold io_bind, io_lift. destruct (k x); reflexivity.
Qed.

(** The perpendicular-baseline filter called without a date list: when the
    number of dates found in the pairs differs from the number of baselines,
    the three lines are printed and the input list is returned. *)
Lemma threshold_perp_baseline_skip
      (date12_list dates : list string) (pbase_list : list float)
      (pbase_max pbase_min : float) :
  date12_list <> [] ->
  pair_dates date12_list = Ok dates ->
  List.length (sorted (yyyymmdd dates)) <> List.length pbase_list ->
  threshold_perp_baseline date12_list [] pbase_list pbase_max pbase_min
  = (["ERROR: number of existing dates is not equal to number of perp baseline!";
      "date list is needed for threshold filtering!";
      "skip filtering."],
     Ok date12_list).
Proof.
  intros Hne Hd Hlen. unfold threshold_perp_baseline.
  destruct date12_list as [|d l]; [congruence|].
  rewrite (io_bind_lift_ok _ _ _ Hd).
  apply Nat.eqb_neq in Hlen. rewrite Hlen. reflexivity.
Qed.

(** C8. Without a date list, the Doppler-overlap filter never reaches its
    consistency check: on every non-empty pair list whose dates can be read,
    it prints nothing and raises [NameError], whatever the length of the
    Doppler list (the perpendicular-baseline filter, on the same input,
    prints the inconsistency and returns the list,
    [threshold_perp_baseline_skip]). *)
Theorem threshold_doppler_overlap_unbound_name
        (np_mean : list float -> float)
        (date12_list dates : list string) (dop_list : list (list float))
        (bandwidth_az dop_overlap_min : float) :
  date12_list <> [] ->
  pair_dates date12_list = Ok dates ->
  threshold_doppler_overlap np_mean date12_list [] dop_list
                            bandwidth_az dop_overlap_min
  = ([], Raise NameError).
Proof.
  intros Hne Hd. unfold threshold_doppler_overlap.
  destruct date12_list as [|d l]; [congruence|].
  rewrite (io_bind_lift_ok _ _ _ Hd). reflexivity.
Qed.

(** Two dates, one Doppler polynomial: the inconsistent input of C8. *)
Lemma threshold_doppler_overlap_unbound_name_witness :
  ["170101-170113"] <> [] /\
  pair_dates ["170101-170113"] = Ok ["170101"; "170113"] /\
  List.length (sorted (yyyymmdd ["170101"; "170113"])) <> List.length [[0; 0; 0]]%float /\
  threshold_doppler_overlap mean_seq ["170101-170113"] [] [[0; 0; 0]]%float 1000 0.5
  = ([], Raise NameError).
Proof.
  split; [discriminate|]. split; [reflexivity|]. split; [simpl; lia|].
  apply (threshold_doppler_overlap_unbound_name
           mean_seq ["170101-170113"] ["170101"; "170113"]);
    [discriminate | reflexivity].
Defined.

(** ** The seasonal exception of the temporal filter *)

(** Among the baselines of 0 to 800 days, the seasonal test holds at 330 and
    360 days only. *)
Lemma seasonal_330_360 :
  forallb (fun t => Bool.eqb (seasonal (Z.of_nat t))
                             (Nat.eqb t 330 || Nat.eqb t 360))
          (seq 0 801) = true.
Proof. vm_compute. reflexivity. Qed.

(** C1. A pair 334 days apart lies in the seasonal band and outside
    [0, 200], and the filter with [keep_seasonal] drops it; the pairs 330
    and 360 days apart are kept. *)
Theorem threshold_temporal_baseline_seasonal_gap :
  threshold_temporal_baseline
    ordinal_Ymd8 ["170101-171201"; "170101-171127"; "170101-171227"] 200 true 0
  = Ok ["170101-171127"; "170101-171227"].
Proof. vm_compute. reflexivity. Qed.

(** ** Star network with an absent master date *)

(** C2 (as stated, refuted). With the master date 20170202 absent from the
    three dates, no network is returned. *)
Lemma select_pairs_star_absent_master_no_network :
  ~ exists date12_list,
      outcome (select_pairs_star ordinal_Ymd8 mean_seq
                 ["20170101"; "20170113"; "20170125"] (Some "20170202") [])
      = Ok date12_list.
Proof. vm_compute. intros [l H]. discriminate H. Qed.

(** C2 (amended). When the supplied master date is not among the dates, the
    star strategy prints the three lines reporting it and returns no
    network: no master is selected in its place, and the lookup of the
    master date that follows raises [ValueError]. *)
Theorem select_pairs_star_absent_master
        (strptime_Ymd : string -> res Z) (np_mean : list float -> float)
        (date_list : list string) (m_date : string) (pbase_list : list float) :
  m_date <> "" ->
  contains (yyyymmdd_str m_date) (sorted (yyyymmdd date_list)) = false ->
  select_pairs_star strptime_Ymd np_mean date_list (Some m_date) pbase_list
  = (["Input master date is not existed in date list!";
      ("Input master date: " ++ yyyymmdd_str m_date)%string;
      ("Input date list: " ++ str_of_list (sorted (yyyymmdd date_list)))%string],
     Raise ValueError).
Proof.
  intros Hne Hnot. unfold select_pairs_star.
  destruct m_date as [|c m]; [congruence|].
  unfold io_bind at 1. unfold io_ret at 1.
  rewrite Hnot. reflexivity.
Qed.

Lemma select_pairs_star_absent_master_witness :
  "20170202" <> "" /\
  contains (yyyymmdd_str "20170202")
           (sorted (yyyymmdd ["20170101"; "20170113"; "20170125"])) = false /\
  select_pairs_star ordinal_Ymd8 mean_seq
                    ["20170101"; "20170113"; "20170125"] (Some "20170202") []
  = (["Input master date is not existed in date list!";
      "Input master date: 20170202";
      "Input date list: ['20170101', '20170113', '20170125']"],
     Raise ValueError).
Proof.
  split; [discriminate|]. split; [reflexivity|].
  apply (select_pairs_star_absent_master ordinal_Ymd8 mean_seq
           ["20170101"; "20170113"; "20170125"] "20170202" []);
    [discriminate | reflexivity].
Defined.

(** ** Order on strings *)

Lemma ltb_lt (a b : string) : String.ltb a b = true <-> String_as_OT.lt a b.
Proof.
  unfold String.ltb. rewrite <- String_as_OT.cmp_lt. unfold String_as_OT.cmp.
  destruct (String.compare a b); split; congruence.
Qed.

Lemma ltb_trans (a b c : string) :
  String.ltb a b = true -> String.ltb b c = true -> String.ltb a c = true.
Proof.
  rewrite !ltb_lt. apply String_as_OT.lt_trans.
Qed.

Lemma ltb_irrefl (a : string) : String.ltb a a = false.
Proof.
  destruct (String.ltb a a) eqn:E; [|reflexivity].
  apply ltb_lt in E. exfalso. exact (String_as_OT.lt_not_eq a a E eq_refl).
Qed.

Lemma leb_ltb (a b : string) :
  String.leb a b = true <-> String.ltb a b = true \/ a = b.
Proof.
  unfold String.leb, String.ltb.
  destruct (String.compare a b) eqn:E.
  - apply String.compare_eq_iff in E. tauto.
  - tauto.
  - split; [discriminate|]. intros [H|H]; [discriminate|].
    subst. assert (String.compare b b = Eq) by now apply String_as_OT.cmp_eq.
    congruence.
Qed.

Lemma leb_refl (a : string) : String.leb a a = true.
Proof. apply leb_ltb. now right. Qed.

Lemma leb_trans (a b c : string) :
  String.leb a b = true -> String.leb b c = true -> String.leb a c = true.
Proof.
  rewrite !leb_ltb. intros [H1 | ->] [H2 | ->]; auto.
  left. eapply ltb_trans; eauto.
Qed.

Lemma leb_false_ltb (a b : string) :
  String.leb a b = false -> String.ltb b a = true.
Proof.
  unfold String.leb, String.ltb. rewrite (String.compare_antisym a b).
  destruct (String.compare b a); simpl; congruence.
Qed.

Lemma ltb_leb (a b : string) : String.ltb a b = true -> String.leb a b = true.
Proof. intros H. apply leb_ltb. now left. Qed.

Lemma ltb_neq (a b : string) : String.ltb a b = true -> a <> b.
Proof. intros H ->. rewrite ltb_irrefl in H. discriminate. Qed.

(** Comparison of two concatenations whose heads have the same length. *)
Lemma compare_app (a a' x x' : string) :
  String.length a = String.length a' ->
  String.compare (a ++ x) (a' ++ x')
  = match String.compare a a' with
    | Eq => String.compare x x'
    | c => c
    end.
Proof.
  revert a'. induction a as [|c a IH]; intros [|c' a'] H; simpl in *;
    try discriminate; [reflexivity|].
  destruct (Ascii.compare c c'); try reflexivity.
  apply IH. congruence.
Qed.

Lemma compare_refl (a : string) : String.compare a a = Eq.
Proof. now apply String_as_OT.cmp_eq. Qed.

(** ** Sorting *)


Lemma insert_sorted_perm (x : string) (l : list string) :
  Permutation (insert_sorted x l) (x :: l).
Proof.
  induction l as [|y l IH]; simpl; [reflexivity|].
  destruct (String.leb x y); [reflexivity|].
  rewrite IH. apply perm_swap.
Qed.

Lemma sorted_perm (l : list string) : Permutation (sorted l) l.
Proof.
  induction l as [|x l IH]; simpl; [reflexivity|].
  rewrite insert_sorted_perm. now constructor.
Qed.

Lemma insert_sorted_sorted (x : string) (l : list string) :
  StronglySorted str_le l -> StronglySorted str_le (insert_sorted x l).
Proof.
  induction 1 as [|y l Hs IH Hall]; simpl.
  - repeat constructor.
  - destruct (String.leb x y) eqn:E.
    + constructor; [now constructor|].
      constructor; [exact E|].
      eapply Forall_impl; [|exact Hall]. intros z Hz. unfold str_le in *.
      eapply leb_trans; eauto.
    + constructor; [exact IH|].
      eapply Permutation_Forall; [symmetry; apply insert_sorted_perm|].
      constructor; [|exact Hall].
      apply ltb_leb, leb_false_ltb, E.
Qed.

Lemma sorted_sorted (l : list string) : StronglySorted str_le (sorted l).
Proof.
  induction l as [|x l IH]; simpl; [constructor|].
  now apply insert_sorted_sorted.
Qed.

(** A sorted list is determined by its elements: [sorted] does not depend
    on the order in which its argument lists them. *)
Lemma sorted_unique (l l' : list string) :
  StronglySorted str_le l -> StronglySorted str_le l' ->
  Permutation l l' -> l = l'.
Proof.
  intros Hl. revert l'. induction Hl as [|x l Hs IH Hall]; intros l' Hl' P.
  - now apply Permutation_nil in P.
  - destruct Hl' as [|y l' Hs' Hall'].
    + symmetry in P. now apply Permutation_nil in P.
    + assert (x = y) as ->.
      { assert (In x (y :: l')) as Hx by (eapply Permutation_in; [exact P|now left]).
        assert (In y (x :: l)) as Hy
            by (eapply Permutation_in; [symmetry; exact P|now left]).
        destruct Hx as [-> | Hx]; [reflexivity|].
        destruct Hy as [-> | Hy]; [reflexivity|].
        rewrite Forall_forall in Hall, Hall'.
        apply String.leb_antisym; [apply (Hall _ Hy)|apply (Hall' _ Hx)]. }
      f_equal. apply IH; [exact Hs'|]. eapply Permutation_cons_inv; eauto.
Qed.

Lemma sorted_Permutation (l l' : list string) :
  Permutation l l' -> sorted l = sorted l'.
Proof.
  intros P. apply sorted_unique; try apply sorted_sorted.
  rewrite !sorted_perm. exact P.
Qed.

Lemma sorted_In (x : string) (l : list string) : In x (sorted l) <-> In x l.
Proof.
  split; apply Permutation_in; [|symmetry]; apply sorted_perm.
Qed.

Lemma sorted_length (l : list string) : List.length (sorted l) = List.length l.
Proof. apply Permutation_length, sorted_perm. Qed.

Lemma sorted_NoDup (l : list string) : NoDup l -> NoDup (sorted l).
Proof.
  intros H. eapply Permutation_NoDup; [symmetry; apply sorted_perm|exact H].
Qed.

(** Without repetition, a sorted list is strictly increasing. *)
Lemma sorted_strict (l : list string) :
  NoDup l -> StronglySorted str_le l -> StronglySorted str_lt l.
Proof.
  intros Hn Hs. induction Hs as [|x l Hs IH Hall]; [constructor|].
  inversion Hn as [|? ? Hx Hn']; subst.
  constructor; [auto|].
  rewrite Forall_forall in *. intros y Hy.
  destruct (proj1 (leb_ltb x y) (Hall y Hy)) as [H|H]; [exact H|].
  subst. contradiction.
Qed.

(** ** Splitting and joining identifiers *)

Lemma split_free (sep : ascii) (s : string) :
  free_of sep s = true -> split sep s = [s].
Proof.
  induction s as [|c s IH]; simpl; [reflexivity|].
  intros H. apply andb_prop in H as [Hc Hs].
  apply negb_true_iff in Hc. rewrite Hc, (IH Hs). reflexivity.
Qed.

Lemma split_app (sep : ascii) (a b : string) :
  free_of sep a = true ->
  split sep (a ++ String sep b) = a :: split sep b.
Proof.
  induction a as [|c a IH]; simpl.
  - intros _. now rewrite Ascii.eqb_refl.
  - intros H. apply andb_prop in H as [Hc Ha].
    apply negb_true_iff in Hc. rewrite Hc, (IH Ha). reflexivity.
Qed.

Lemma split_date12 (d1 d2 : string) :
  free_of "-" d1 = true -> free_of "-" d2 = true ->
  split "-" (date12 d1 d2) = [d1; d2].
Proof.
  intros H1 H2. unfold date12. simpl.
  rewrite split_app by exact H1. now rewrite split_free.
Qed.

Lemma replace_free (a b : ascii) (s : string) :
  free_of a s = true -> replace a b s = s.
Proof.
  induction s as [|c s IH]; simpl; [reflexivity|].
  intros H. apply andb_prop in H as [Hc Hs].
  apply negb_true_iff in Hc. now rewrite Hc, (IH Hs).
Qed.

Lemma replace_app (a b : ascii) (s t : string) :
  replace a b (s ++ t) = (replace a b s ++ replace a b t)%string.
Proof.
  induction s as [|c s IH]; simpl; [reflexivity|]. now rewrite IH.
Qed.

Lemma date12_part_0 (d1 d2 : string) :
  free_of "-" d1 = true -> free_of "_" d1 = true ->
  free_of "-" d2 = true -> free_of "_" d2 = true ->
  date12_part 0 (date12 d1 d2) = Ok d1.
Proof.
  intros A1 B1 A2 B2. unfold date12_part, date12.
  rewrite replace_app. simpl. rewrite !replace_free by assumption.
  rewrite split_app by assumption. reflexivity.
Qed.

Lemma date12_part_1 (d1 d2 : string) :
  free_of "-" d1 = true -> free_of "_" d1 = true ->
  free_of "-" d2 = true -> free_of "_" d2 = true ->
  date12_part 1 (date12 d1 d2) = Ok d2.
Proof.
  intros A1 B1 A2 B2. unfold date12_part, date12.
  rewrite replace_app. simpl. rewrite !replace_free by assumption.
  rewrite split_app by assumption. rewrite split_free by assumption.
  reflexivity.
Qed.

Lemma all_digits_free (c : ascii) (s : string) :
  is_digit c = false -> all_digits s = true -> free_of c s = true.
Proof.
  intros Hc. induction s as [|c' s IH]; simpl; [reflexivity|].
  intros H. apply andb_prop in H as [H1 H2]. rewrite (IH H2), andb_true_r.
  apply negb_true_iff. destruct (Ascii.eqb_spec c' c); [|reflexivity].
  subst. congruence.
Qed.

Lemma mapM_map {A B C} (f : B -> res C) (g : A -> B) (l : list A) :
  mapM f (map g l) = mapM (fun x => f (g x)) l.
Proof.
  induction l as [|x l IH]; simpl; [reflexivity|]. now rewrite IH.
Qed.

Lemma mapM_Ok {A B} (f : A -> B) (l : list A) :
  mapM (fun x => Ok (f x)) l = Ok (map f l).
Proof.
  induction l as [|x l IH]; simpl; [reflexivity|]. now rewrite IH.
Qed.

Lemma combine_map_fst_snd {A B C D} (f : A -> C) (g : B -> D) (l : list (A * B)) :
  combine (map f (map fst l)) (map g (map snd l))
  = map (fun p => (f (fst p), g (snd p))) l.
Proof.
  induction l as [|[a b] l IH]; simpl; [reflexivity|]. now rewrite IH.
Qed.

(** On identifiers [d1-d2] built from dates without separators,
    [yyyymmdd_date12] converts date by date. *)
Lemma yyyymmdd_date12_joined (pairs : list (string * string)) :
  Forall (fun p => clean (fst p) /\ clean (snd p)) pairs ->
  yyyymmdd_date12 (map (fun p => date12 (fst p) (snd p)) pairs)
  = Ok (map (fun p => (yyyymmdd_str (fst p) ++ "_" ++ yyyymmdd_str (snd p))%string)
            pairs).
Proof.
  intros H. unfold yyyymmdd_date12. rewrite !mapM_map.
  rewrite (mapM_ext _ (fun p => Ok (fst p))), mapM_Ok.
  2:{ intros p Hp. rewrite Forall_forall in H.
      destruct (H p Hp) as [[? ?] [? ?]]. now apply date12_part_0. }
  simpl.
  rewrite (mapM_ext _ (fun p => Ok (snd p))), mapM_Ok.
  2:{ intros p Hp. rewrite Forall_forall in H.
      destruct (H p Hp) as [[? ?] [? ?]]. now apply date12_part_1. }
  simpl. unfold yyyymmdd. rewrite combine_map_fst_snd, map_map. reflexivity.
Qed.

Lemma yymmdd_date12_joined (pairs : list (string * string)) :
  Forall (fun p => clean (fst p) /\ clean (snd p)) pairs ->
  yymmdd_date12 (map (fun p => date12 (fst p) (snd p)) pairs)
  = Ok (map (fun p => date12 (yymmdd_str (fst p)) (yymmdd_str (snd p))) pairs).
Proof.
  intros H. unfold yymmdd_date12. rewrite !mapM_map.
  rewrite (mapM_ext _ (fun p => Ok (fst p))), mapM_Ok.
  2:{ intros p Hp. rewrite Forall_forall in H.
      destruct (H p Hp) as [[? ?] [? ?]]. now apply date12_part_0. }
  simpl.
  rewrite (mapM_ext _ (fun p => Ok (snd p))), mapM_Ok.
  2:{ intros p Hp. rewrite Forall_forall in H.
      destruct (H p Hp) as [[? ?] [? ?]]. now apply date12_part_1. }
  simpl. unfold yymmdd. rewrite combine_map_fst_snd, map_map. reflexivity.
Qed.

(** ** The two forms of a date *)

Lemma yymmdd2yyyymmdd_cases (d : string) :
  yymmdd2yyyymmdd d = ("19" ++ d)%string \/ yymmdd2yyyymmdd d = ("20" ++ d)%string.
Proof.
  unfold yymmdd2yyyymmdd. destruct d as [|c d]; [now right|].
  destruct c as [[] [] [] [] [] [] [] []]; auto.
Qed.

Lemma substring_all (s : string) : substring 0 (String.length s) s = s.
Proof.
  induction s as [|c s IH]; simpl; [reflexivity|]. now rewrite IH.
Qed.

Lemma all_digits_substring (n m : nat) (s : string) :
  all_digits s = true -> all_digits (substring n m s) = true.
Proof.
  revert n m. induction s as [|c s IH]; intros n m H.
  - destruct n, m; reflexivity.
  - simpl in H. apply andb_prop in H as [Hc Hs].
    destruct n as [|n]; simpl.
    + destruct m as [|m]; simpl; [reflexivity|].
      now rewrite Hc, (IH 0%nat m Hs).
    + now apply IH.
Qed.

Lemma length_substring_2_6 (s : string) :
  String.length s = 8%nat -> String.length (substring 2 6 s) = 6%nat.
Proof.
  intros H.
  do 8 (destruct s as [|? s]; [discriminate|]).
  destruct s; [reflexivity|discriminate].
Qed.

Lemma yymmdd_yyyymmdd (d : string) :
  String.length d = 6%nat -> yymmdd_str (yyyymmdd_str d) = d.
Proof.
  intros H. unfold yyyymmdd_str. rewrite H. simpl.
  unfold yymmdd_str.
  destruct (yymmdd2yyyymmdd_cases d) as [-> | ->]; simpl; rewrite H; simpl;
    rewrite <- H at 1; apply substring_all.
Qed.

Lemma yyyymmdd_str_length (d : string) :
  is_date d -> String.length (yyyymmdd_str d) = 8%nat.
Proof.
  intros [_ [H|H]]; unfold yyyymmdd_str; rewrite H; simpl; [|exact H].
  destruct (yymmdd2yyyymmdd_cases d) as [-> | ->]; simpl; now rewrite H.
Qed.

Lemma yyyymmdd_str_digits (d : string) :
  is_date d -> all_digits (yyyymmdd_str d) = true.
Proof.
  intros [Hd [H|H]]; unfold yyyymmdd_str; rewrite H; simpl; [|exact Hd].
  destruct (yymmdd2yyyymmdd_cases d) as [-> | ->]; simpl; exact Hd.
Qed.

Lemma yymmdd_str_length (x : string) :
  String.length x = 8%nat -> String.length (yymmdd_str x) = 6%nat.
Proof.
  intros H. unfold yymmdd_str. rewrite H. simpl. now apply length_substring_2_6.
Qed.

Lemma yymmdd_str_digits (x : string) :
  all_digits x = true -> all_digits (yymmdd_str x) = true.
Proof.
  intros H. unfold yymmdd_str.
  destruct (Nat.eqb (String.length x) 8); [|exact H].
  now apply all_digits_substring.
Qed.

Lemma all_digits_clean (s : string) : all_digits s = true -> clean s.
Proof.
  intros H. split; apply all_digits_free; auto.
Qed.

(** ** Combinations of a sorted list *)

Lemma combinations2_length {A} (l : list A) :
  (2 * List.length (combinations2 l) = List.length l * (List.length l - 1))%nat.
Proof.
  induction l as [|x l IH]; simpl; [reflexivity|].
  rewrite length_app, length_map. simpl in IH. nia.
Qed.

Lemma combinations2_map {A B} (f : A -> B) (l : list A) :
  combinations2 (map f l)
  = map (fun p => (f (fst p), f (snd p))) (combinations2 l).
Proof.
  induction l as [|x l IH]; simpl; [reflexivity|].
  rewrite map_app, !map_map, IH. reflexivity.
Qed.

Lemma combinations2_In {A} (l : list A) (p : A * A) :
  In p (combinations2 l) -> In (fst p) l /\ In (snd p) l.
Proof.
  induction l as [|x l IH]; simpl; [tauto|].
  rewrite in_app_iff, in_map_iff. intros [[y [<- Hy]]|H]; simpl; [tauto|].
  destruct (IH H). tauto.
Qed.

Lemma StronglySorted_app {A} (R : A -> A -> Prop) (l1 l2 : list A) :
  StronglySorted R l1 -> StronglySorted R l2 ->
  (forall x y, In x l1 -> In y l2 -> R x y) ->
  StronglySorted R (l1 ++ l2).
Proof.
  induction 1 as [|x l1 Hs IH Hall]; intros H2 H; simpl; [exact H2|].
  constructor.
  - apply IH; [exact H2|]. intros a b Ha Hb. apply H; [now right|exact Hb].
  - apply Forall_app. split; [exact Hall|].
    apply Forall_forall. intros y Hy. apply H; [now left|exact Hy].
Qed.

Lemma StronglySorted_map_in {A B} (R : A -> A -> Prop) (R' : B -> B -> Prop)
      (f : A -> B) (l : list A) :
  StronglySorted R l ->
  (forall x y, In x l -> In y l -> R x y -> R' (f x) (f y)) ->
  StronglySorted R' (map f l).
Proof.
  induction 1 as [|x l Hs IH Hall]; intros H; simpl; constructor.
  - apply IH. intros a b Ha Hb. apply H; now right.
  - apply Forall_map. rewrite Forall_forall in *. intros y Hy.
    apply H; [now left|now right|auto].
Qed.

Lemma StronglySorted_NoDup {A} (R : A -> A -> Prop) (l : list A) :
  (forall x, ~ R x x) -> StronglySorted R l -> NoDup l.
Proof.
  intros Hirr. induction 1 as [|x l Hs IH Hall]; constructor; [|exact IH].
  intros Hx. rewrite Forall_forall in Hall. exact (Hirr x (Hall x Hx)).
Qed.

Lemma combinations2_sorted {A} (R : A -> A -> Prop) (l : list A) :
  StronglySorted R l -> StronglySorted (lex R) (combinations2 l).
Proof.
  induction 1 as [|x l Hs IH Hall]; simpl; [constructor|].
  apply StronglySorted_app; [|exact IH|].
  - apply (StronglySorted_map_in R); [exact Hs|].
    intros a b _ _ Hab. right. simpl. auto.
  - intros p q Hp Hq. apply in_map_iff in Hp as [y [<- Hy]].
    left. simpl. rewrite Forall_forall in Hall.
    apply Hall. now apply combinations2_In in Hq.
Qed.

Lemma combinations2_increasing {A} (R : A -> A -> Prop) (l : list A) (p : A * A) :
  StronglySorted R l -> In p (combinations2 l) -> R (fst p) (snd p).
Proof.
  induction 1 as [|x l Hs IH Hall]; simpl; [tauto|].
  rewrite in_app_iff, in_map_iff. intros [[y [<- Hy]]|H]; [|auto].
  simpl. rewrite Forall_forall in Hall. auto.
Qed.

(** Joining two dates of equal length keeps the lexicographic order. *)
Lemma join_lt (sep : ascii) (a b a' b' : string) :
  String.length a = String.length a' ->
  lex str_lt (a, b) (a', b') ->
  str_lt (a ++ String sep b) (a' ++ String sep b').
Proof.
  intros Hlen [H|[H1 H2]]; simpl in *; unfold str_lt, String.ltb in *.
  - rewrite compare_app by exact Hlen.
    destruct (String.compare a a'); congruence.
  - subst a'. rewrite compare_app by reflexivity.
    rewrite compare_refl. simpl.
    assert (Ascii.compare sep sep = Eq) as -> by now apply Ascii_as_OT.cmp_eq.
    exact H2.
Qed.

Lemma date12_inj (a b a' b' : string) :
  String.length a = String.length a' ->
  date12 a b = date12 a' b' -> a = a' /\ b = b'.
Proof.
  unfold date12. revert a'.
  induction a as [|c a IH]; intros [|c' a'] Hlen H; simpl in *; try discriminate.
  - injection H as H. auto.
  - injection H as Hc H. destruct (IH a') as [-> ->]; auto. now subst.
Qed.

(** ** All pairs *)

Lemma dates8_facts (date_list : list string) :
  Forall is_date date_list ->
  Forall in_window date_list ->
  Forall (fun x => String.length x = 8%nat /\ all_digits x = true
                   /\ yyyymmdd_str (yymmdd_str x) = x)
         (sorted (yyyymmdd date_list)).
Proof.
  intros Hd Hw. apply Forall_forall. intros x Hx.
  apply (proj1 (sorted_In _ _)) in Hx. unfold yyyymmdd in Hx.
  apply in_map_iff in Hx as [d [<- Hd']].
  rewrite Forall_forall in Hd, Hw.
  repeat split.
  - apply yyyymmdd_str_length; auto.
  - apply yyyymmdd_str_digits; auto.
  - apply Hw; auto.
Qed.

(** C5 (as stated, refuted). For three dates across the turn of the
    century the returned identifiers are not in lexicographic order:
    the list starts with 990101-000101 and ends with 000101-010101. *)
Lemma select_pairs_all_not_lexicographic :
  select_pairs_all ["19990101"; "20000101"; "20010101"]
  = ["990101-000101"; "990101-010101"; "000101-010101"] /\
  ~ StronglySorted str_le (select_pairs_all ["19990101"; "20000101"; "20010101"]).
Proof.
  split; [reflexivity|].
  intros H. change (select_pairs_all ["19990101"; "20000101"; "20010101"])
    with ["990101-000101"; "990101-010101"; "000101-010101"] in H.
  inversion H as [|? ? _ Hall]; subst.
  inversion Hall as [|? ? _ Hall']; subst.
  inversion Hall' as [|? ? Hle _]; subst.
  discriminate Hle.
Qed.

(** C5 (amended). For a registry of [n] distinct dates of the century
    window, the all-pairs strategy returns [n(n-1)/2] distinct identifiers,
    each with the earlier date first, and the list is in chronological
    order: the 8-digit forms [YYYYMMDD_YYYYMMDD] of the identifiers are
    strictly increasing in lexicographic order. *)
Theorem select_pairs_all_spec (date_list : list string) :
  Forall is_date date_list ->
  Forall in_window date_list ->
  NoDup (yyyymmdd date_list) ->
  let date12_list := select_pairs_all date_list in
  let n := List.length date_list in
  List.length date12_list = (n * (n - 1) / 2)%nat /\
  NoDup date12_list /\
  Forall (fun d12 => exists d1 d2,
              d12 = date12 d1 d2 /\
              String.length d1 = 6%nat /\ String.length d2 = 6%nat /\
              str_lt (yyyymmdd_str d1) (yyyymmdd_str d2))
         date12_list /\
  exists keys, yyyymmdd_date12 date12_list = Ok keys /\ StronglySorted str_lt keys.
Proof.
  intros Hd Hw Hnd. cbv zeta. unfold select_pairs_all.
  set (L8 := sorted (yyyymmdd date_list)).
  pose proof (dates8_facts date_list Hd Hw) as HL8. fold L8 in HL8.
  rewrite Forall_forall in HL8.
  assert (StronglySorted str_lt L8) as Hs
      by (apply sorted_strict; [now apply sorted_NoDup|apply sorted_sorted]).
  unfold yymmdd. rewrite combinations2_map, map_map. cbn [fst snd].
  pose proof (combinations2_sorted _ _ Hs) as Hlex.
  assert (forall p, In p (combinations2 L8) ->
                    In (fst p) L8 /\ In (snd p) L8) as Hin
      by (intros p; apply combinations2_In).
  repeat split.
  - rewrite length_map.
    pose proof (combinations2_length L8) as E.
    unfold L8 in E at 2 3. rewrite sorted_length in E. unfold yyyymmdd in E.
    rewrite length_map in E. rewrite <- E.
    rewrite (Nat.mul_comm 2), Nat.div_mul by discriminate. reflexivity.
  - apply (StronglySorted_NoDup (fun a b => a <> b)); [intros x H; now apply H|].
    apply (StronglySorted_map_in (lex str_lt)); [exact Hlex|].
    intros p q Hp Hq Hpq E.
    destruct (Hin p Hp) as [Hp1 Hp2]. destruct (Hin q Hq) as [Hq1 Hq2].
    apply date12_inj in E as [E1 E2].
    2:{ rewrite !yymmdd_str_length; auto; now apply HL8. }
    assert (fst p = fst q) as F1.
    { rewrite <- (proj2 (proj2 (HL8 _ Hp1))), <- (proj2 (proj2 (HL8 _ Hq1))).
      now rewrite E1. }
    assert (snd p = snd q) as F2.
    { rewrite <- (proj2 (proj2 (HL8 _ Hp2))), <- (proj2 (proj2 (HL8 _ Hq2))).
      now rewrite E2. }
    destruct Hpq as [H|[_ H]]; unfold str_lt in H;
      [rewrite F1 in H|rewrite F2 in H]; rewrite ltb_irrefl in H; discriminate.
  - apply Forall_map, Forall_forall. intros p Hp.
    destruct (Hin p Hp) as [Hp1 Hp2].
    exists (yymmdd_str (fst p)), (yymmdd_str (snd p)).
    split; [reflexivity|].
    rewrite !yymmdd_str_length by now apply HL8.
    rewrite (proj2 (proj2 (HL8 _ Hp1))), (proj2 (proj2 (HL8 _ Hp2))).
    repeat split. now apply (combinations2_increasing str_lt L8).
  - eexists. split.
    + rewrite <- (map_map (fun p => (yymmdd_str (fst p), yymmdd_str (snd p)))
                          (fun q => date12 (fst q) (snd q))).
      rewrite yyyymmdd_date12_joined; [reflexivity|].
      apply Forall_map, Forall_forall. intros p Hp.
      destruct (Hin p Hp) as [Hp1 Hp2]. simpl.
      split; apply all_digits_clean, yymmdd_str_digits; now apply HL8.
    + rewrite map_map. simpl.
      apply (StronglySorted_map_in (lex str_lt)); [exact Hlex|].
      intros p q Hp Hq Hpq.
      destruct (Hin p Hp) as [Hp1 Hp2]. destruct (Hin q Hq) as [Hq1 Hq2].
      rewrite (proj2 (proj2 (HL8 _ Hp1))), (proj2 (proj2 (HL8 _ Hp2))),
              (proj2 (proj2 (HL8 _ Hq1))), (proj2 (proj2 (HL8 _ Hq2))).
      apply join_lt.
      * rewrite (proj1 (HL8 _ Hp1)), (proj1 (HL8 _ Hq1)). reflexivity.
      * destruct p, q. exact Hpq.
Qed.

Lemma select_pairs_all_spec_witness :
  (Forall is_date ["19990101"; "20000101"; "20010101"] /\
   Forall in_window ["19990101"; "20000101"; "20010101"] /\
   NoDup (yyyymmdd ["19990101"; "20000101"; "20010101"])) /\
  List.length (select_pairs_all ["19990101"; "20000101"; "20010101"]) = 3%nat /\
  exists keys,
    yyyymmdd_date12 (select_pairs_all ["19990101"; "20000101"; "20010101"]) = Ok keys /\
    StronglySorted str_lt keys.
Proof.
  assert (Forall is_date ["19990101"; "20000101"; "20010101"]) as H1
      by (repeat constructor).
  assert (Forall in_window ["19990101"; "20000101"; "20010101"]) as H2
      by (repeat constructor).
  assert (NoDup (yyyymmdd ["19990101"; "20000101"; "20010101"])) as H3
      by (repeat constructor; simpl; intuition discriminate).
  split; [auto|].
  destruct (select_pairs_all_spec _ H1 H2 H3) as (A & _ & _ & B).
  split; [exact A|exact B].
Defined.

(** ** Filtering loops *)

Lemma for_filter_Ok_inv {A} (test : A -> res bool) (l y : list A) :
  for_filter test l = Ok y ->
  forall x, In x l -> test x = Ok (test_bool test x).
Proof.
  revert y. induction l as [|a l IH]; intros y H x Hx; [destruct Hx|].
  simpl in H. destruct (test a) as [b|e] eqn:Ea; [|discriminate].
  simpl in H. destruct (for_filter test l) as [out|e] eqn:El; [|discriminate].
  destruct Hx as [<-|Hx].
  - unfold test_bool. now rewrite Ea.
  - eapply IH; eauto.
Qed.

Lemma for_filter_pure {A} (test : A -> res bool) (keep : A -> bool) (l : list A) :
  (forall x, In x l -> test x = Ok (keep x)) ->
  for_filter test l = Ok (filter keep l).
Proof.
  induction l as [|a l IH]; intros H; simpl; [reflexivity|].
  rewrite (H a (or_introl eq_refl)). simpl.
  rewrite IH by (intros x Hx; apply H; now right). simpl.
  destruct (keep a); reflexivity.
Qed.

Lemma for_filter_Ok_filter {A} (test : A -> res bool) (l y : list A) :
  for_filter test l = Ok y -> y = filter (test_bool test) l.
Proof.
  intros H. pose proof (for_filter_Ok_inv test l y H) as Hall.
  rewrite (for_filter_pure test (test_bool test) l Hall) in H. congruence.
Qed.

Lemma filter_filter {A} (keep : A -> bool) (l : list A) :
  filter keep (filter keep l) = filter keep l.
Proof.
  induction l as [|a l IH]; simpl; [reflexivity|].
  destruct (keep a) eqn:E; simpl; [rewrite E|]; now rewrite IH.
Qed.

(** A loop whose test does not depend on the list is idempotent; more
    generally, a second loop whose test agrees with the first on the kept
    elements returns them all. *)
Lemma for_filter_again {A} (test test' : A -> res bool) (l y : list A) :
  for_filter test l = Ok y ->
  (forall x, In x y -> test' x = test x) ->
  for_filter test' y = Ok y.
Proof.
  intros H Hagree.
  pose proof (for_filter_Ok_inv test l y H) as Hall.
  apply for_filter_Ok_filter in H. subst y.
  rewrite (for_filter_pure test' (test_bool test)).
  - now rewrite filter_filter.
  - intros x Hx. rewrite (Hagree x Hx). apply Hall.
    now apply filter_In in Hx.
Qed.

Lemma for_filter_idem {A} (test : A -> res bool) (l y : list A) :
  for_filter test l = Ok y -> for_filter test y = Ok y.
Proof.
  intros H. now apply (for_filter_again test test l y).
Qed.

Lemma mapM_Ok_inv {A B} (f : A -> res B) (l : list A) (ys : list B) :
  mapM f l = Ok ys -> Forall2 (fun x y => f x = Ok y) l ys.
Proof.
  revert ys. induction l as [|a l IH]; intros ys H; simpl in H.
  - injection H as <-. constructor.
  - destruct (f a) as [b|e] eqn:Ea; [|discriminate]. simpl in H.
    destruct (mapM f l) as [bs|e] eqn:El; [|discriminate].
    injection H as <-. constructor; auto.
Qed.

Lemma mapM_Ok_iff {A B} (f : A -> res B) (g : A -> B) (l : list A) :
  (forall x, In x l -> f x = Ok (g x)) -> mapM f l = Ok (map g l).
Proof.
  intros H. rewrite (mapM_ext f (fun x => Ok (g x)) l H). apply mapM_Ok.
Qed.

Lemma mapM_Ok_all {A B} (f : A -> res B) (l : list A) (ys : list B) :
  mapM f l = Ok ys -> forall x, In x l -> exists y, f x = Ok y.
Proof.
  intros H x Hx. apply mapM_Ok_inv in H.
  induction H as [|a b l ys Hab H IH]; [destruct Hx|].
  destruct Hx as [<-|Hx]; eauto.
Qed.

(** ** Looking up strings *)

Lemma index_from_nth (x : string) (l : list string) (i j : nat) :
  index_from x l i = Ok j ->
  exists k, j = (i + k)%nat /\ nth_error l k = Some x.
Proof.
  revert i. induction l as [|y l IH]; intros i H; simpl in H; [discriminate|].
  destruct (String.eqb_spec y x) as [->|Hne].
  - injection H as <-. exists 0%nat. split; [lia|reflexivity].
  - destruct (IH _ H) as [k [-> Hk]]. exists (S k). split; [lia|exact Hk].
Qed.

Lemma index_nth (x : string) (l : list string) (j : nat) :
  index x l = Ok j -> nth_error l j = Some x.
Proof.
  intros H. apply index_from_nth in H as [k [-> Hk]]. exact Hk.
Qed.

Lemma index_from_In (x : string) (l : list string) (i : nat) :
  In x l -> exists j, index_from x l i = Ok j.
Proof.
  revert i. induction l as [|y l IH]; intros i H; [destruct H|]. simpl.
  destruct (String.eqb_spec y x) as [->|Hne]; [eauto|].
  destruct H as [H|H]; [contradiction|]. now apply IH.
Qed.

Lemma index_In (x : string) (l : list string) :
  In x l -> exists j, index x l = Ok j.
Proof. apply index_from_In. Qed.

Lemma index_Ok_In (x : string) (l : list string) (j : nat) :
  index x l = Ok j -> In x l.
Proof.
  intros H. apply index_nth in H. eapply nth_error_In; eauto.
Qed.

(** Looking up the image of [x] in the image of a list, under a function
    that is injective on the list, finds the position of [x]. *)
Lemma index_map_inj (g : string -> string) (L : list string) (x : string) :
  (forall a b, In a L -> In b L -> g a = g b -> a = b) ->
  In x L ->
  exists i, index (g x) (map g L) = Ok i /\ nth_error L i = Some x.
Proof.
  intros Hinj Hx.
  destruct (index_In (g x) (map g L)) as [i Hi]; [now apply in_map|].
  exists i. split; [exact Hi|].
  apply index_nth in Hi. rewrite nth_error_map in Hi.
  destruct (nth_error L i) as [a|] eqn:Ea; [|discriminate].
  injection Hi as Hi. f_equal. apply Hinj; auto.
  eapply nth_error_In; eauto.
Qed.

Lemma contains_In (x : string) (l : list string) :
  contains x l = true <-> In x l.
Proof.
  unfold contains. rewrite existsb_exists. split.
  - intros [y [Hy E]]. apply String.eqb_eq in E. now subst.
  - intros H. exists x. split; [exact H|apply String.eqb_refl].
Qed.

Lemma set_list_In (x : string) (l : list string) :
  In x (set_list l) <-> In x l.
Proof.
  induction l as [|y l IH]; simpl; [tauto|].
  destruct (contains y l) eqn:E.
  - rewrite IH. apply contains_In in E. split; [tauto|].
    intros [<-|H]; auto.
  - simpl. rewrite IH. tauto.
Qed.

Lemma set_list_NoDup (l : list string) : NoDup (set_list l).
Proof.
  induction l as [|y l IH]; simpl; [constructor|].
  destruct (contains y l) eqn:E; [exact IH|].
  constructor; [|exact IH].
  rewrite set_list_In, <- contains_In. congruence.
Qed.

(** ** The dates of a pair list *)

Lemma getitem_nth {A} (l : list A) (i : nat) (d : A) :
  (i < List.length l)%nat -> getitem l i = Ok (nth i l d).
Proof.
  intros H. unfold getitem.
  destruct (nth_error l i) as [x|] eqn:E.
  - f_equal. symmetry. now apply nth_error_nth.
  - apply nth_error_None in E. lia.
Qed.

Lemma getitem_Ok {A} (l : list A) (i : nat) (x d : A) :
  getitem l i = Ok x -> (i < List.length l)%nat /\ x = nth i l d.
Proof.
  unfold getitem. destruct (nth_error l i) as [y|] eqn:E; [|discriminate].
  intros H. injection H as <-. split.
  - apply nth_error_Some. congruence.
  - symmetry. now apply nth_error_nth.
Qed.

Lemma getitem_Ok_nth_error {A} (l : list A) (i : nat) (x : A) :
  getitem l i = Ok x <-> nth_error l i = Some x.
Proof.
  unfold getitem. destruct (nth_error l i); split; congruence.
Qed.

Lemma split_length (sep : ascii) (s : string) :
  (1 <= List.length (split sep s))%nat.
Proof.
  induction s as [|c s IH]; simpl; [lia|].
  destruct (Ascii.eqb c sep); simpl; [lia|].
  destruct (split sep s); simpl in *; lia.
Qed.

Lemma pair_dates_Ok (l dates : list string) :
  pair_dates l = Ok dates ->
  dates = set_list (map (part 0) l ++ map (part 1) l) /\
  forall d12, In d12 l -> (2 <= List.length (split "-" d12))%nat.
Proof.
  unfold pair_dates. intros H.
  destruct (mapM _ l) as [ms|e] eqn:Em; [|discriminate]. simpl in H.
  destruct (mapM (fun d12 => getitem (split "-" d12) 1) l) as [ss|e] eqn:Es;
    [|discriminate].
  simpl in H. injection H as <-.
  assert (forall d12, In d12 l -> (2 <= List.length (split "-" d12))%nat) as Hlen.
  { intros d12 Hd. destruct (mapM_Ok_all _ _ _ Es d12 Hd) as [y Hy].
    apply (getitem_Ok _ _ _ EmptyString) in Hy. lia. }
  split; [|exact Hlen].
  rewrite (mapM_Ok_iff _ (part 0)) in Em.
  2:{ intros x Hx. apply getitem_nth. pose proof (split_length "-" x). lia. }
  rewrite (mapM_Ok_iff _ (part 1)) in Es.
  2:{ intros x Hx. apply getitem_nth. specialize (Hlen x Hx). lia. }
  congruence.
Qed.

Lemma pair_dates_intro (l : list string) :
  (forall d12, In d12 l -> (2 <= List.length (split "-" d12))%nat) ->
  pair_dates l = Ok (set_list (map (part 0) l ++ map (part 1) l)).
Proof.
  intros Hlen. unfold pair_dates.
  rewrite (mapM_Ok_iff _ (part 0)).
  2:{ intros x Hx. apply getitem_nth. specialize (Hlen x Hx). lia. }
  simpl.
  rewrite (mapM_Ok_iff _ (part 1)).
  2:{ intros x Hx. apply getitem_nth. specialize (Hlen x Hx). lia. }
  reflexivity.
Qed.

Lemma pair_dates_In (l dates : list string) (d : string) :
  pair_dates l = Ok dates ->
  (In d dates <-> exists d12, In d12 l /\ (d = part 0 d12 \/ d = part 1 d12)).
Proof.
  intros H. apply pair_dates_Ok in H as [-> _].
  rewrite set_list_In, in_app_iff, !in_map_iff. split.
  - intros [[x [<- Hx]]|[x [<- Hx]]]; eauto.
  - intros [x [Hx [->| ->]]]; eauto.
Qed.

(** The dates of a sublist are dates of the list. *)
Lemma pair_dates_incl (l y dates : list string) :
  pair_dates l = Ok dates -> incl y l ->
  exists dates', pair_dates y = Ok dates' /\ incl dates' dates /\ NoDup dates'.
Proof.
  intros H Hincl. pose proof (pair_dates_Ok _ _ H) as [_ Hlen].
  exists (set_list (map (part 0) y ++ map (part 1) y)).
  assert (pair_dates y = Ok (set_list (map (part 0) y ++ map (part 1) y))) as E
      by (apply pair_dates_intro; intros d12 Hd; apply Hlen, Hincl, Hd).
  split; [exact E|]. split; [|apply set_list_NoDup].
  intros d Hd. apply (pair_dates_In _ _ d E) in Hd as [d12 [Hd12 Hd]].
  apply (pair_dates_In _ _ d H). exists d12. split; [apply Hincl, Hd12|exact Hd].
Qed.

(** ** The two forms of a date, for any string *)

Lemma yyyymmdd_str_idem (d : string) :
  yyyymmdd_str (yyyymmdd_str d) = yyyymmdd_str d.
Proof.
  unfold yyyymmdd_str at 2 3.
  destruct (Nat.eqb (String.length d) 6) eqn:E.
  - apply Nat.eqb_eq in E. unfold yyyymmdd_str.
    destruct (yymmdd2yyyymmdd_cases d) as [-> | ->]; simpl; now rewrite E.
  - unfold yyyymmdd_str. now rewrite E.
Qed.

Lemma yymmdd_yyyymmdd_not8 (d : string) :
  String.length d <> 8%nat -> yymmdd_str (yyyymmdd_str d) = d.
Proof.
  intros H. destruct (Nat.eq_dec (String.length d) 6) as [E|E].
  - now apply yymmdd_yyyymmdd.
  - unfold yyyymmdd_str. apply Nat.eqb_neq in E. rewrite E.
    unfold yymmdd_str. apply Nat.eqb_neq in H. now rewrite H.
Qed.

Lemma yymmdd_str_not8 (x : string) : String.length (yymmdd_str x) <> 8%nat.
Proof.
  unfold yymmdd_str. destruct (Nat.eqb (String.length x) 8) eqn:E.
  - apply Nat.eqb_eq in E. rewrite length_substring_2_6 by exact E. lia.
  - now apply Nat.eqb_neq in E.
Qed.

Lemma yymmdd_In_not8 (d : string) (L : list string) :
  In d (yymmdd L) -> String.length d <> 8%nat.
Proof.
  unfold yymmdd. intros H. apply in_map_iff in H as [x [<- _]].
  apply yymmdd_str_not8.
Qed.

(** Where no date has eight characters, a date is found in the 6-digit
    list at the position of its 8-digit form in the sorted 8-digit list. *)
Lemma index_date6 (dates : list string) (d : string) :
  (forall e, In e dates -> String.length e <> 8%nat) ->
  In d dates ->
  exists i, index d (yymmdd (sorted (yyyymmdd dates))) = Ok i /\
            nth_error (sorted (yyyymmdd dates)) i = Some (yyyymmdd_str d).
Proof.
  intros Hlen Hd.
  destruct (index_map_inj yymmdd_str (sorted (yyyymmdd dates)) (yyyymmdd_str d))
    as [i [Hi Hn]].
  - intros a b Ha Hb E.
    apply (proj1 (sorted_In _ _)), in_map_iff in Ha as [a' [<- Ha']].
    apply (proj1 (sorted_In _ _)), in_map_iff in Hb as [b' [<- Hb']].
    rewrite !yymmdd_yyyymmdd_not8 in E by auto. now subst.
  - apply sorted_In. now apply in_map.
  - rewrite yymmdd_yyyymmdd_not8 in Hi by auto. exists i. auto.
Qed.

(** ** The temporal filter *)

Section Temporal.

Variable strptime_Ymd : string -> res Z.

Lemma map_id_in {A} (f : A -> A) (l : list A) :
  (forall x, In x l -> f x = x) -> map f l = l.
Proof.
  induction l as [|a l IH]; intros H; simpl; [reflexivity|].
  rewrite (H a (or_introl eq_refl)), IH; [reflexivity|].
  intros x Hx. apply H. now right.
Qed.

Lemma yyyymmdd_sorted_id (dates : list string) :
  yyyymmdd (sorted (yyyymmdd dates)) = sorted (yyyymmdd dates).
Proof.
  apply map_id_in. intros x Hx.
  apply (proj1 (sorted_In _ _)), in_map_iff in Hx as [d [<- _]].
  apply yyyymmdd_str_idem.
Qed.

(** When every date is accepted by the parser, the baselines are the day
    numbers counted from the first date of the list. *)
Lemma date_list2tbase_ordinal (dates : list string) :
  (forall e, In e dates -> exists o, strptime_Ymd (yyyymmdd_str e) = Ok o) ->
  exists o0,
    date_list2tbase strptime_Ymd (sorted (yyyymmdd dates))
    = Ok (map (fun x => (ordinal strptime_Ymd x - o0)%Z) (sorted (yyyymmdd dates))).
Proof.
  intros H. unfold date_list2tbase. rewrite yyyymmdd_sorted_id.
  set (D8 := sorted (yyyymmdd dates)).
  assert (forall x, In x D8 -> strptime_Ymd x = Ok (ordinal strptime_Ymd x)) as Hp.
  { intros x Hx. apply (proj1 (sorted_In _ _)), in_map_iff in Hx as [d [<- Hd]].
    unfold ordinal. rewrite yyyymmdd_str_idem.
    destruct (H d Hd) as [o ->]. reflexivity. }
  rewrite (mapM_Ok_iff _ (ordinal strptime_Ymd) D8 Hp). simpl.
  destruct D8 as [|x D8']; simpl.
  - exists 0%Z. reflexivity.
  - exists (ordinal strptime_Ymd x). rewrite map_map. reflexivity.
Qed.

Lemma ordinal_yyyymmdd (d : string) :
  ordinal strptime_Ymd (yyyymmdd_str d) = ordinal strptime_Ymd d.
Proof. unfold ordinal. now rewrite yyyymmdd_str_idem. Qed.

Lemma readable_parts (d12 : string) :
  readable strptime_Ymd d12 ->
  split "-" d12 = [part 0 d12; part 1 d12] /\
  String.length (part 0 d12) <> 8%nat /\ String.length (part 1 d12) <> 8%nat /\
  (exists o, strptime_Ymd (yyyymmdd_str (part 0 d12)) = Ok o) /\
  (exists o, strptime_Ymd (yyyymmdd_str (part 1 d12)) = Ok o).
Proof.
  intros (d1 & d2 & Hs & H). unfold part. rewrite Hs. simpl. tauto.
Qed.

(** On readable identifiers the filter is the pure filter that keeps an
    identifier by its absolute temporal baseline. *)
Lemma threshold_temporal_baseline_readable
      (l : list string) (btemp_max : float) (keep_seasonal : bool)
      (btemp_min : float) :
  Forall (readable strptime_Ymd) l ->
  threshold_temporal_baseline strptime_Ymd l btemp_max keep_seasonal btemp_min
  = Ok (filter (fun d12 => temporal_keep btemp_max keep_seasonal btemp_min
                                         (tbase_of strptime_Ymd d12)) l).
Proof.
  intros Hr. rewrite Forall_forall in Hr.
  unfold threshold_temporal_baseline.
  destruct l as [|a0 l0] eqn:El; [reflexivity|]. rewrite <- El in *.
  assert (forall d12, In d12 l -> (2 <= List.length (split "-" d12))%nat) as Hlen.
  { intros d12 Hd. destruct (readable_parts d12 (Hr d12 Hd)) as [-> _].
    simpl. lia. }
  rewrite (pair_dates_intro l Hlen). simpl.
  set (dates := set_list (map (part 0) l ++ map (part 1) l)).
  assert (pair_dates l = Ok dates) as Hpd by now apply pair_dates_intro.
  assert (forall e, In e dates ->
                    String.length e <> 8%nat /\
                    exists o, strptime_Ymd (yyyymmdd_str e) = Ok o) as Hdates.
  { intros e He. apply (pair_dates_In _ _ e Hpd) in He as [d12 [Hd He]].
    destruct (readable_parts d12 (Hr d12 Hd)) as (_ & A & B & C & D).
    destruct He as [-> | ->]; auto. }
  destruct (date_list2tbase_ordinal dates) as [o0 Htb];
    [intros e He; now apply Hdates|].
  rewrite Htb. simpl.
  apply for_filter_pure. intros d12 Hd.
  destruct (readable_parts d12 (Hr d12 Hd)) as (Hs & _).
  rewrite Hs. simpl.
  assert (In (part 0 d12) dates) as H0
      by (apply (pair_dates_In _ _ _ Hpd); eauto).
  assert (In (part 1 d12) dates) as H1
      by (apply (pair_dates_In _ _ _ Hpd); eauto).
  destruct (index_date6 dates (part 0 d12)) as [i [Hi Hni]];
    [intros e He; now apply Hdates|exact H0|].
  destruct (index_date6 dates (part 1 d12)) as [j [Hj Hnj]];
    [intros e He; now apply Hdates|exact H1|].
  rewrite Hi, Hj. simpl.
  unfold getitem. rewrite !nth_error_map, Hni, Hnj. simpl.
  rewrite !ordinal_yyyymmdd.
  replace (ordinal strptime_Ymd (part 0 d12) - o0
           - (ordinal strptime_Ymd (part 1 d12) - o0))%Z
    with (ordinal strptime_Ymd (part 0 d12) - ordinal strptime_Ymd (part 1 d12))%Z
    by lia.
  unfold temporal_keep, tbase_of.
  destruct (_ && _)%bool; [reflexivity|].
  destruct (keep_seasonal && _)%bool; reflexivity.
Qed.

Lemma unpack2_Ok {A} (l : list A) (a b : A) :
  unpack2 l = Ok (a, b) -> l = [a; b].
Proof.
  destruct l as [|x [|y [|z l]]]; simpl; intros H; try discriminate.
  now injection H as -> ->.
Qed.

(** Whenever the filter returns, every identifier of its input is
    readable. *)
Lemma threshold_temporal_baseline_Ok_readable
      (l y : list string) (btemp_max : float) (keep_seasonal : bool)
      (btemp_min : float) :
  threshold_temporal_baseline strptime_Ymd l btemp_max keep_seasonal btemp_min = Ok y ->
  Forall (readable strptime_Ymd) l.
Proof.
  unfold threshold_temporal_baseline.
  destruct l as [|a0 l0] eqn:El; [constructor|]. rewrite <- El in *. clear El.
  destruct (pair_dates l) as [dates|e] eqn:Hpd; [|discriminate]. simpl.
  destruct (date_list2tbase _ _) as [tb|e] eqn:Htb; [|discriminate]. simpl.
  intros H. apply Forall_forall. intros d12 Hd.
  pose proof (for_filter_Ok_inv _ _ _ H d12 Hd) as Ht. cbv beta in Ht.
  destruct (unpack2 (split "-" d12)) as [[d1 d2]|e] eqn:Hs; [|discriminate].
  apply unpack2_Ok in Hs. simpl in Ht.
  destruct (index d1 _) as [i|e] eqn:Hi; [|discriminate]. simpl in Ht.
  destruct (index d2 _) as [j|e] eqn:Hj; [|discriminate].
  apply index_Ok_In in Hi, Hj.
  assert (forall d, In d dates -> exists o, strptime_Ymd (yyyymmdd_str d) = Ok o)
    as Hparse.
  { intros d Hin. unfold date_list2tbase in Htb.
    destruct (mapM _ _) as [os|e] eqn:Em; [|discriminate].
    rewrite yyyymmdd_sorted_id in Em.
    destruct (mapM_Ok_all _ _ _ Em (yyyymmdd_str d)) as [o Ho].
    - apply sorted_In. now apply in_map.
    - eauto. }
  exists d1, d2. split; [exact Hs|].
  split; [eapply yymmdd_In_not8; eauto|].
  split; [eapply yymmdd_In_not8; eauto|].
  split; apply Hparse; apply (pair_dates_In _ _ _ Hpd); exists d12;
    unfold part; rewrite Hs; simpl; auto.
Qed.

Lemma threshold_temporal_baseline_idem
      (l y : list string) (btemp_max : float) (keep_seasonal : bool)
      (btemp_min : float) :
  threshold_temporal_baseline strptime_Ymd l btemp_max keep_seasonal btemp_min = Ok y ->
  threshold_temporal_baseline strptime_Ymd y btemp_max keep_seasonal btemp_min = Ok y.
Proof.
  intros H.
  pose proof (threshold_temporal_baseline_Ok_readable _ _ _ _ _ H) as Hr.
  rewrite (threshold_temporal_baseline_readable _ _ _ _ Hr) in H.
  injection H as <-.
  rewrite threshold_temporal_baseline_readable.
  - now rewrite filter_filter.
  - apply Forall_forall. intros x Hx. apply filter_In in Hx as [Hx _].
    rewrite Forall_forall in Hr. auto.
Qed.

End Temporal.

(** ** The perpendicular-baseline and Doppler filters *)

Lemma outcome_bind_lift {A B} (m : res A) (k : A -> io B) :
  outcome (io_bind (io_lift m) k)
  = match m with
    | Ok x => outcome (k x)
    | Raise e => Raise e
    end.
Proof.
  destruct m as [x|e]; simpl; [|reflexivity]. destruct (k x); reflexivity.
Qed.

Lemma NoDup_map_in {A B} (f : A -> B) (l : list A) :
  (forall a b, In a l -> In b l -> f a = f b -> a = b) ->
  NoDup l -> NoDup (map f l).
Proof.
  intros Hinj Hn. induction Hn as [|x l Hx Hn IH]; simpl; constructor.
  - intros H. apply in_map_iff in H as [y [E Hy]].
    apply Hinj in E; [subst; contradiction|now right|now left].
  - apply IH. intros a b Ha Hb. apply Hinj; now right.
Qed.

(** A sublist with as many distinct dates has the same sorted date list. *)
Lemma same_dates (dates dates' : list string) :
  (forall e, In e dates -> String.length e <> 8%nat) ->
  incl dates' dates -> NoDup dates' ->
  List.length (sorted (yyyymmdd dates')) = List.length (sorted (yyyymmdd dates)) ->
  sorted (yyyymmdd dates') = sorted (yyyymmdd dates).
Proof.
  intros Hlen Hincl Hnd E. rewrite !sorted_length in E.
  apply sorted_Permutation. apply NoDup_Permutation_bis.
  - apply NoDup_map_in; [|exact Hnd].
    intros a b Ha Hb Hab.
    rewrite <- (yymmdd_yyyymmdd_not8 a), <- (yymmdd_yyyymmdd_not8 b)
      by (apply Hlen, Hincl; assumption).
    now rewrite Hab.
  - lia.
  - unfold yyyymmdd. intros x Hx. apply in_map_iff in Hx as [d [<- Hd]].
    apply in_map, Hincl, Hd.
Qed.

Lemma threshold_perp_baseline_idem
      (l date_list : list string) (pbase_list : list float)
      (pbase_max pbase_min : float) (y : list string) :
  outcome (threshold_perp_baseline l date_list pbase_list pbase_max pbase_min) = Ok y ->
  outcome (threshold_perp_baseline y date_list pbase_list pbase_max pbase_min) = Ok y.
Proof.
  destruct l as [|a l0] eqn:El.
  { simpl. intros H. injection H as <-. reflexivity. }
  rewrite <- El. assert (l <> []) as Hne by (subst; discriminate). clear El.
  destruct date_list as [|b dl].
  - (* the date list is derived from the pairs *)
    unfold threshold_perp_baseline at 1.
    destruct l as [|? ?] eqn:El; [congruence|]. rewrite <- El in *. clear El.
    rewrite outcome_bind_lift.
    destruct (pair_dates l) as [dates|e] eqn:Hpd; [|discriminate].
    destruct (Nat.eqb _ _) eqn:E; simpl.
    + intros H.
      assert (forall d, In d dates -> String.length d <> 8%nat) as Hlen.
      { intros d Hd. apply (pair_dates_In _ _ _ Hpd) in Hd as [d12 [Hd12 Hd]].
        pose proof (for_filter_Ok_inv _ _ _ H d12 Hd12) as Ht. cbv beta in Ht.
        destruct (unpack2 (split "-" d12)) as [[d1 d2]|e] eqn:Hs; [|discriminate].
        apply unpack2_Ok in Hs. simpl in Ht.
        destruct (index d1 _) as [i|e] eqn:Hi; [|discriminate]. simpl in Ht.
        destruct (index d2 _) as [j|e] eqn:Hj; [|discriminate].
        apply index_Ok_In, yymmdd_In_not8 in Hi, Hj.
        unfold part in Hd. rewrite Hs in Hd. simpl in Hd.
        destruct Hd as [-> | ->]; assumption. }
      assert (incl y l) as Hyl.
      { intros x Hx. rewrite (for_filter_Ok_filter _ _ _ H) in Hx.
        now apply filter_In in Hx. }
      unfold threshold_perp_baseline.
      destruct y as [|c y0] eqn:Ey; [reflexivity|]. rewrite <- Ey in *.
      destruct (pair_dates_incl l y dates Hpd Hyl) as (dates' & Hpd' & Hincl & Hnd).
      rewrite outcome_bind_lift, Hpd'.
      destruct (Nat.eqb (List.length (sorted (yyyymmdd dates'))) _) eqn:E';
        simpl; [|reflexivity].
      apply Nat.eqb_eq in E, E'.
      rewrite (same_dates dates dates' Hlen Hincl Hnd) by congruence.
      eapply for_filter_idem. exact H.
    + intros H. injection H as <-.
      unfold threshold_perp_baseline.
      destruct l as [|? ?] eqn:El; [congruence|]. rewrite <- El in *. clear El.
      rewrite outcome_bind_lift, Hpd, E. reflexivity.
  - unfold threshold_perp_baseline.
    destruct l as [|? ?] eqn:El; [congruence|]. rewrite <- El in *. clear El.
    simpl. intros H.
    destruct y as [|c y0] eqn:Ey; [reflexivity|]. rewrite <- Ey in *.
    simpl. eapply for_filter_idem. exact H.
Qed.

Lemma threshold_doppler_overlap_idem
      (np_mean : list float -> float)
      (l date_list : list string) (dop_list : list (list float))
      (bandwidth_az dop_overlap_min : float) (y : list string) :
  outcome (threshold_doppler_overlap np_mean l date_list dop_list
                                     bandwidth_az dop_overlap_min) = Ok y ->
  outcome (threshold_doppler_overlap np_mean y date_list dop_list
                                     bandwidth_az dop_overlap_min) = Ok y.
Proof.
  destruct l as [|a l0] eqn:El.
  { simpl. intros H. injection H as <-. reflexivity. }
  rewrite <- El. assert (l <> []) as Hne by (subst; discriminate). clear El.
  destruct date_list as [|b dl].
  - unfold threshold_doppler_overlap at 1.
    destruct l as [|? ?] eqn:El; [congruence|]. rewrite <- El in *. clear El.
    rewrite outcome_bind_lift.
    destruct (pair_dates l) as [dates|e] eqn:Hpd; discriminate.
  - unfold threshold_doppler_overlap.
    destruct l as [|? ?] eqn:El; [congruence|]. rewrite <- El in *. clear El.
    simpl. intros H.
    destruct y as [|c y0] eqn:Ey; [reflexivity|]. rewrite <- Ey in *.
    simpl. eapply for_filter_idem. exact H.
Qed.

(** C6. Each of the three threshold filters is idempotent: whenever a
    filter returns a list, applying it again to that list, with the same
    parameters, returns the same list. *)
Theorem threshold_filters_idempotent
        (strptime_Ymd : string -> res Z) (np_mean : list float -> float) :
  (forall l btemp_max keep_seasonal btemp_min y,
      threshold_temporal_baseline strptime_Ymd l btemp_max keep_seasonal btemp_min
      = Ok y ->
      threshold_temporal_baseline strptime_Ymd y btemp_max keep_seasonal btemp_min
      = Ok y) /\
  (forall l date_list pbase_list pbase_max pbase_min y,
      outcome (threshold_perp_baseline l date_list pbase_list pbase_max pbase_min)
      = Ok y ->
      outcome (threshold_perp_baseline y date_list pbase_list pbase_max pbase_min)
      = Ok y) /\
  (forall l date_list dop_list bandwidth_az dop_overlap_min y,
      outcome (threshold_doppler_overlap np_mean l date_list dop_list
                                         bandwidth_az dop_overlap_min) = Ok y ->
      outcome (threshold_doppler_overlap np_mean y date_list dop_list
                                         bandwidth_az dop_overlap_min) = Ok y).
Proof.
  split; [|split].
  - intros. eapply threshold_temporal_baseline_idem; eassumption.
  - intros. eapply threshold_perp_baseline_idem; eassumption.
  - intros. eapply threshold_doppler_overlap_idem; eassumption.
Qed.

(** Each filter drops one of two pairs, and returns the remaining pair
    unchanged when applied to it. *)
Lemma threshold_filters_idempotent_witness :
  (threshold_temporal_baseline ordinal_Ymd8 ["170101-171201"; "170101-171127"] 200 true 0
   = Ok ["170101-171127"] /\
   threshold_temporal_baseline ordinal_Ymd8 ["170101-171127"] 200 true 0
   = Ok ["170101-171127"]) /\
  (outcome (threshold_perp_baseline ["170101-170113"; "170101-170125"]
                                    ["170101"; "170113"; "170125"]
                                    [0; 50; -30]%float 40 0)
   = Ok ["170101-170125"] /\
   outcome (threshold_perp_baseline ["170101-170125"]
                                    ["170101"; "170113"; "170125"]
                                    [0; 50; -30]%float 40 0)
   = Ok ["170101-170125"]) /\
  (outcome (threshold_doppler_overlap mean_seq ["170101-170113"; "170101-170125"]
                                      ["170101"; "170113"; "170125"]
                                      [[0; 0; 0]; [100; 0; 0]; [2000; 0; 0]]%float
                                      1000 0.5)
   = Ok ["170101-170113"] /\
   outcome (threshold_doppler_overlap mean_seq ["170101-170113"]
                                      ["170101"; "170113"; "170125"]
                                      [[0; 0; 0]; [100; 0; 0]; [2000; 0; 0]]%float
                                      1000 0.5)
   = Ok ["170101-170113"]).
Proof.
  destruct (threshold_filters_idempotent ordinal_Ymd8 mean_seq) as (T & P & D).
  assert (threshold_temporal_baseline
            ordinal_Ymd8 ["170101-171201"; "170101-171127"] 200 true 0
          = Ok ["170101-171127"]) as HT by (vm_compute; reflexivity).
  assert (outcome (threshold_perp_baseline ["170101-170113"; "170101-170125"]
                                           ["170101"; "170113"; "170125"]
                                           [0; 50; -30]%float 40 0)
          = Ok ["170101-170125"]) as HP by (vm_compute; reflexivity).
  assert (outcome (threshold_doppler_overlap
                     mean_seq ["170101-170113"; "170101-170125"]
                     ["170101"; "170113"; "170125"]
                     [[0; 0; 0]; [100; 0; 0]; [2000; 0; 0]]%float 1000 0.5)
          = Ok ["170101-170113"]) as HD by (vm_compute; reflexivity).
  split; [split; [exact HT|exact (T _ _ _ _ _ HT)]|].
  split; [split; [exact HP|exact (P _ _ _ _ _ _ HP)]|].
  split; [exact HD|exact (D _ _ _ _ _ _ HD)].
Defined.

(** ** Matrices as lists of rows *)

Lemma list_set_nil {A} (i : nat) (v : A) : list_set i v [] = [].
Proof. unfold list_set. now destruct i. Qed.

Lemma list_set_0 {A} (v a : A) (l : list A) : list_set 0 v (a :: l) = v :: l.
Proof. reflexivity. Qed.

Lemma list_set_S {A} (i : nat) (v a : A) (l : list A) :
  list_set (S i) v (a :: l) = a :: list_set i v l.
Proof. reflexivity. Qed.

Lemma list_set_length {A} (i : nat) (v : A) (l : list A) :
  List.length (list_set i v l) = List.length l.
Proof.
  revert i. induction l as [|a l IH]; intros i.
  - now rewrite list_set_nil.
  - destruct i; [reflexivity|]. rewrite list_set_S. simpl. now rewrite IH.
Qed.

Lemma nth_list_set {A} (i k : nat) (v d : A) (l : list A) :
  nth k (list_set i v l) d
  = if Nat.eqb k i && Nat.ltb i (List.length l) then v else nth k l d.
Proof.
  revert i k. induction l as [|a l IH]; intros i k.
  - rewrite list_set_nil. simpl. now rewrite andb_false_r.
  - destruct i as [|i].
    + rewrite list_set_0. destruct k; reflexivity.
    + rewrite list_set_S. destruct k as [|k]; [reflexivity|].
      simpl nth. rewrite IH. reflexivity.
Qed.

Lemma Forall_list_set {A} (P : A -> Prop) (i : nat) (v : A) (l : list A) :
  ((i < List.length l)%nat -> P v) -> Forall P l -> Forall P (list_set i v l).
Proof.
  revert i. induction l as [|a l IH]; intros i Hv H.
  - now rewrite list_set_nil.
  - inversion H; subst. destruct i; [rewrite list_set_0|rewrite list_set_S];
      constructor; auto.
    + apply Hv. simpl. lia.
    + apply IH; auto. intros Hi. apply Hv. simpl. lia.
Qed.

Lemma square_row (n : nat) (m : list (list float)) (i : nat) :
  square n m -> (i < n)%nat -> List.length (nth i m []) = n.
Proof.
  intros [Hl Hr] Hi. rewrite Forall_forall in Hr. apply Hr, nth_In. lia.
Qed.

Lemma mat_set_square (n i j : nat) (v : float) (m : list (list float)) :
  square n m -> square n (mat_set i j v m).
Proof.
  intros Hsq. pose proof Hsq as [Hl Hr]. unfold mat_set. split.
  - now rewrite list_set_length.
  - apply Forall_list_set; [|exact Hr].
    intros Hi. rewrite list_set_length. apply (square_row n); [exact Hsq|lia].
Qed.

Lemma mat_get_set (n i j x y : nat) (v : float) (m : list (list float)) :
  square n m -> (i < n)%nat -> (j < n)%nat ->
  mat_get (mat_set i j v m) x y
  = if Nat.eqb x i && Nat.eqb y j then v else mat_get m x y.
Proof.
  intros Hsq Hi Hj. pose proof Hsq as [Hl Hr].
  unfold mat_get, mat_set. rewrite nth_list_set.
  assert (Nat.ltb i (List.length m) = true) as -> by (apply Nat.ltb_lt; lia).
  rewrite andb_true_r.
  destruct (Nat.eqb_spec x i) as [->|Hx]; simpl; [|reflexivity].
  rewrite nth_list_set, (square_row n m i Hsq Hi).
  assert (Nat.ltb j n = true) as -> by now apply Nat.ltb_lt.
  now rewrite andb_true_r.
Qed.

Lemma repeat_square (n : nat) : square n (repeat (repeat nan n) n).
Proof.
  split; [apply repeat_length|].
  apply Forall_forall. intros r Hr. apply repeat_spec in Hr. subst.
  apply repeat_length.
Qed.

Lemma mat_get_repeat (n i j : nat) :
  mat_get (repeat (repeat nan n) n) i j = nan.
Proof.
  unfold mat_get.
  destruct (Nat.lt_ge_cases i n) as [Hi|Hi].
  - rewrite nth_repeat_lt by exact Hi. apply nth_repeat.
  - rewrite (nth_overflow (repeat (repeat nan n) n) [])
      by (now rewrite repeat_length).
    now destruct j.
Qed.

(** ** Symmetric assignments *)

Section Assignments.

Variable n : nat.

Let in_range := in_range n.

Lemma assign_sym_square (m : list (list float)) (u : nat * nat * float) :
  square n m -> square n (assign_sym m u).
Proof.
  destruct u as [[i j] c]. intros H. now repeat apply mat_set_square.
Qed.

Lemma fold_assign_square (us : list (nat * nat * float)) (m : list (list float)) :
  square n m -> square n (fold_left assign_sym us m).
Proof.
  revert m. induction us as [|u us IH]; intros m H; simpl; [exact H|].
  apply IH. now apply assign_sym_square.
Qed.

Lemma mat_get_assign (m : list (list float)) (u : nat * nat * float) (x y : nat) :
  square n m -> in_range u ->
  mat_get (assign_sym m u) x y
  = if touches x y u then snd u else mat_get m x y.
Proof.
  destruct u as [[i j] c]. intros Hsq [Hi Hj]. simpl in *.
  rewrite (mat_get_set n) by (auto using mat_set_square).
  rewrite (mat_get_set n) by auto.
  destruct (Nat.eqb x j && Nat.eqb y i), (Nat.eqb x i && Nat.eqb y j); reflexivity.
Qed.

(** An entry no assignment writes keeps its value. *)
Lemma fold_assign_untouched (us : list (nat * nat * float))
      (m : list (list float)) (x y : nat) :
  square n m -> Forall in_range us ->
  (forall u, In u us -> touches x y u = false) ->
  mat_get (fold_left assign_sym us m) x y = mat_get m x y.
Proof.
  revert m. induction us as [|u us IH]; intros m Hsq Hr Hu; simpl; [reflexivity|].
  inversion Hr; subst.
  rewrite IH; auto using assign_sym_square.
  - rewrite mat_get_assign by auto. now rewrite (Hu u (or_introl eq_refl)).
  - intros u' Hu'. apply Hu. now right.
Qed.

(** An entry written by some assignment, all assignments that write it
    agreeing on the value [c], holds [c]. *)
Lemma fold_assign_touched (us : list (nat * nat * float))
      (m : list (list float)) (x y : nat) (c : float) :
  square n m -> Forall in_range us ->
  (exists u, In u us /\ touches x y u = true) ->
  (forall u, In u us -> touches x y u = true -> snd u = c) ->
  mat_get (fold_left assign_sym us m) x y = c.
Proof.
  revert m. induction us as [|u us IH]; intros m Hsq Hr Hex Hall; simpl.
  - destruct Hex as [u [[] _]].
  - inversion Hr; subst.
    destruct (existsb (touches x y) us) eqn:E.
    + apply existsb_exists in E. apply IH; auto using assign_sym_square.
      intros u' Hu'. apply Hall. now right.
    + rewrite fold_assign_untouched; auto using assign_sym_square.
      * rewrite mat_get_assign by auto.
        destruct Hex as [u' [[<-|Hu'] Hu]].
        -- rewrite Hu. apply Hall; [now left|exact Hu].
        -- exfalso. assert (existsb (touches x y) us = true)
             by (apply existsb_exists; eauto). congruence.
      * intros u' Hu'. destruct (touches x y u') eqn:Et; [|reflexivity].
        exfalso. assert (existsb (touches x y) us = true)
          by (apply existsb_exists; eauto). congruence.
Qed.

Lemma touches_sym (x y : nat) (u : nat * nat * float) :
  touches x y u = touches y x u.
Proof.
  destruct u as [[i j] c]. simpl.
  destruct (Nat.eqb x i), (Nat.eqb y j), (Nat.eqb x j), (Nat.eqb y i); reflexivity.
Qed.

(** Symmetric assignments keep a symmetric matrix symmetric. *)
Lemma fold_assign_symmetric (us : list (nat * nat * float))
      (m : list (list float)) :
  square n m -> Forall in_range us ->
  (forall x y, mat_get m x y = mat_get m y x) ->
  forall x y, mat_get (fold_left assign_sym us m) x y
              = mat_get (fold_left assign_sym us m) y x.
Proof.
  revert m. induction us as [|u us IH]; intros m Hsq Hr Hm x y; simpl; [apply Hm|].
  inversion Hr; subst.
  apply IH; auto using assign_sym_square.
  intros a b. rewrite !mat_get_assign by auto.
  now rewrite touches_sym, Hm.
Qed.

End Assignments.

(** ** The coherence matrix *)

Lemma foldM_pure {A S} (body : S -> A -> res S) (g : S -> A -> S)
      (l : list A) (s : S) :
  (forall s x, In x l -> body s x = Ok (g s x)) ->
  foldM body l s = Ok (fold_left g l s).
Proof.
  revert s. induction l as [|a l IH]; intros s H; simpl; [reflexivity|].
  rewrite (H s a (or_introl eq_refl)). simpl. apply IH.
  intros s' x Hx. apply H. now right.
Qed.

Lemma fold_left_map {A B S} (g : S -> B -> S) (f : A -> B) (l : list A) (s : S) :
  fold_left g (map f l) s = fold_left (fun s x => g s (f x)) l s.
Proof.
  revert s. induction l as [|a l IH]; intros s; simpl; [reflexivity|]. apply IH.
Qed.

Lemma index_NoDup (l : list string) (k : nat) (x : string) :
  NoDup l -> nth_error l k = Some x -> index x l = Ok k.
Proof.
  intros Hn Hk.
  destruct (index_In x l) as [j Hj]; [eapply nth_error_In; eauto|].
  rewrite Hj. f_equal. apply index_nth in Hj.
  eapply (proj1 (NoDup_nth_error l)); eauto.
  - apply nth_error_Some. congruence.
  - congruence.
Qed.

Lemma position_spec (l : list string) (x : string) :
  In x l ->
  index x l = Ok (position l x) /\ nth_error l (position l x) = Some x /\
  (position l x < List.length l)%nat.
Proof.
  intros H. unfold position. destruct (index_In x l H) as [i Hi]. rewrite Hi.
  split; [reflexivity|]. apply index_nth in Hi. split; [exact Hi|].
  apply nth_error_Some. congruence.
Qed.

Lemma position_inj (l : list string) (x y : string) :
  In x l -> In y l -> position l x = position l y -> x = y.
Proof.
  intros Hx Hy E.
  destruct (position_spec l x Hx) as (_ & Ex & _).
  destruct (position_spec l y Hy) as (_ & Ey & _).
  rewrite E in Ex. congruence.
Qed.

Lemma part_date12 (a b : string) :
  clean a -> clean b -> part 0 (date12 a b) = a /\ part 1 (date12 a b) = b.
Proof.
  intros [Ha _] [Hb _]. unfold part. rewrite split_date12 by assumption.
  split; reflexivity.
Qed.

Lemma yymmdd_str_date (d : string) :
  is_date d -> String.length (yymmdd_str d) = 6%nat /\ all_digits (yymmdd_str d) = true.
Proof.
  intros [Hd [H|H]]; split; try (now apply yymmdd_str_digits).
  - unfold yymmdd_str. rewrite H. exact H.
  - now apply yymmdd_str_length.
Qed.

Lemma yymmdd_str_6 (d : string) :
  String.length d = 6%nat -> yymmdd_str d = d.
Proof. intros H. unfold yymmdd_str. now rewrite H. Qed.

Section CoherenceMatrix.

Variable pairs6 : list (string * string).
Variable coh_list : list float.

Hypothesis pairs6_dates :
  Forall (fun p => (String.length (fst p) = 6%nat /\ all_digits (fst p) = true) /\
                   (String.length (snd p) = 6%nat /\ all_digits (snd p) = true))
         pairs6.
Hypothesis pairs6_once : forall a b, In (a, b) pairs6 -> ~ In (b, a) pairs6.
Hypothesis pairs6_NoDup : NoDup pairs6.
Hypothesis coh_list_length : List.length coh_list = List.length pairs6.

Let l6 := map (fun p => date12 (fst p) (snd p)) pairs6.
Let dates := set_list (map (part 0) l6 ++ map (part 1) l6).
Let DL := sorted (yymmdd dates).

Lemma pairs6_clean (p : string * string) :
  In p pairs6 -> clean (fst p) /\ clean (snd p).
Proof.
  intros Hp. rewrite Forall_forall in pairs6_dates.
  destruct (pairs6_dates p Hp) as [[_ H1] [_ H2]].
  split; now apply all_digits_clean.
Qed.

Lemma l6_parts (p : string * string) :
  In p pairs6 ->
  split "-" (date12 (fst p) (snd p)) = [fst p; snd p] /\
  part 0 (date12 (fst p) (snd p)) = fst p /\
  part 1 (date12 (fst p) (snd p)) = snd p.
Proof.
  intros Hp. destruct (pairs6_clean p Hp) as [H1 H2].
  split; [apply split_date12; [apply H1|apply H2]|].
  now apply part_date12.
Qed.

Lemma pair_dates_l6 : pair_dates l6 = Ok dates.
Proof.
  apply pair_dates_intro. intros d12 H. unfold l6 in H.
  apply in_map_iff in H as [p [<- Hp]].
  destruct (l6_parts p Hp) as [-> _]. simpl. lia.
Qed.

Lemma dates_In (a : string) :
  In a dates <-> exists p, In p pairs6 /\ (a = fst p \/ a = snd p).
Proof.
  rewrite (pair_dates_In _ _ a pair_dates_l6). unfold l6. split.
  - intros [d12 [H Ha]]. apply in_map_iff in H as [p [<- Hp]].
    destruct (l6_parts p Hp) as (_ & E0 & E1). rewrite E0, E1 in Ha. eauto.
  - intros [p [Hp Ha]]. exists (date12 (fst p) (snd p)). split.
    + apply in_map_iff. eauto.
    + destruct (l6_parts p Hp) as (_ & E0 & E1). now rewrite E0, E1.
Qed.

Lemma yymmdd_dates : yymmdd dates = dates.
Proof.
  apply map_id_in. intros a Ha. apply dates_In in Ha as [p [Hp Ha]].
  rewrite Forall_forall in pairs6_dates.
  destruct (pairs6_dates p Hp) as [[H1 _] [H2 _]].
  apply yymmdd_str_6. destruct Ha as [-> | ->]; assumption.
Qed.

Lemma DL_In (a : string) :
  In a DL <-> exists p, In p pairs6 /\ (a = fst p \/ a = snd p).
Proof.
  unfold DL. rewrite yymmdd_dates, sorted_In. apply dates_In.
Qed.

Lemma DL_NoDup : NoDup DL.
Proof.
  unfold DL. rewrite yymmdd_dates. apply sorted_NoDup, set_list_NoDup.
Qed.

Lemma l6_NoDup : NoDup l6.
Proof.
  unfold l6. apply NoDup_map_in; [|exact pairs6_NoDup].
  intros p q Hp Hq E. rewrite Forall_forall in pairs6_dates.
  destruct (pairs6_dates p Hp) as [[H1 _] _].
  destruct (pairs6_dates q Hq) as [[H2 _] _].
  apply date12_inj in E as [E1 E2]; [|congruence].
  destruct p, q; simpl in *; congruence.
Qed.

Let u_of (d12 : string) : nat * nat * float :=
  (position DL (part 0 d12), position DL (part 1 d12),
   nth (position l6 d12) coh_list nan).

Lemma body_pure (m : list (list float)) (d12 : string) :
  In d12 l6 ->
  ('(date1, date2) <- unpack2 (split "-" d12) ;;
   idx1 <- index date1 DL ;;
   idx2 <- index date2 DL ;;
   k <- index d12 l6 ;;
   coh <- getitem coh_list k ;;
   Ok (mat_set idx2 idx1 coh (mat_set idx1 idx2 coh m)))
  = Ok (assign_sym m (u_of d12)).
Proof.
  intros H. pose proof H as H'. unfold l6 in H'.
  apply in_map_iff in H' as [p [<- Hp]].
  destruct (l6_parts p Hp) as (Es & E0 & E1). rewrite Es. simpl.
  assert (In (fst p) DL) as H1 by (apply DL_In; eauto).
  assert (In (snd p) DL) as H2 by (apply DL_In; eauto).
  destruct (position_spec DL _ H1) as (-> & _). simpl.
  destruct (position_spec DL _ H2) as (-> & _). simpl.
  destruct (position_spec l6 _ H) as (-> & _ & Hk). simpl.
  rewrite (getitem_nth coh_list _ nan).
  2:{ assert (List.length l6 = List.length pairs6) by apply length_map. lia. }
  simpl. unfold u_of. now rewrite E0, E1.
Qed.

Lemma us_in_range : Forall (in_range (List.length DL)) (map u_of l6).
Proof.
  apply Forall_map, Forall_forall. intros d12 H. unfold l6 in H.
  apply in_map_iff in H as [p [<- Hp]].
  destruct (l6_parts p Hp) as (_ & E0 & E1).
  unfold in_range, u_of. simpl. rewrite E0, E1.
  split; apply position_spec, DL_In; eauto.
Qed.

(** An assignment writes the entry of two dates only if it comes from the
    pair of these dates, in one order or the other. *)
Lemma touches_pair (a b : string) (p : string * string) :
  In a DL -> In b DL -> In p pairs6 ->
  touches (position DL a) (position DL b) (u_of (date12 (fst p) (snd p))) = true ->
  (a = fst p /\ b = snd p) \/ (a = snd p /\ b = fst p).
Proof.
  intros Ha Hb Hp. destruct (l6_parts p Hp) as (_ & E0 & E1).
  unfold u_of, touches. rewrite E0, E1. intros H.
  assert (In (fst p) DL) as H1 by (apply DL_In; eauto).
  assert (In (snd p) DL) as H2 by (apply DL_In; eauto).
  apply orb_prop in H as [H|H]; apply andb_prop in H as [Hx Hy];
    apply Nat.eqb_eq in Hx, Hy; apply position_inj in Hx, Hy; auto.
Qed.

Lemma pairs6_not_swapped (p q : string * string) :
  In p pairs6 -> In q pairs6 -> ~ (fst p = snd q /\ snd p = fst q).
Proof.
  intros Hp Hq [E1 E2]. destruct p as [a b], q as [c d]. cbn [fst snd] in E1, E2.
  subst. exact (pairs6_once _ _ Hp Hq).
Qed.

Lemma coherence_matrix_Ok :
  coherence_matrix l6 coh_list None
  = Ok (fold_left assign_sym (map u_of l6)
                  (repeat (repeat nan (List.length DL)) (List.length DL))) /\
  coherence_dates l6 = Ok DL.
Proof.
  assert (yymmdd_date12 l6 = Ok l6) as E.
  { unfold l6. rewrite yymmdd_date12_joined.
    - f_equal. apply map_ext_in. intros p Hp.
      rewrite Forall_forall in pairs6_dates.
      destruct (pairs6_dates p Hp) as [[H1 _] [H2 _]].
      now rewrite !yymmdd_str_6.
    - apply Forall_forall. intros p Hp. now apply pairs6_clean. }
  unfold coherence_matrix, coherence_dates. rewrite E. simpl.
  rewrite pair_dates_l6. simpl. fold DL. split; [|reflexivity].
  rewrite (foldM_pure _ (fun m d12 => assign_sym m (u_of d12))).
  - simpl. now rewrite fold_left_map.
  - intros m d12 Hd. now apply body_pure.
Qed.

Let coh_mat :=
  fold_left assign_sym (map u_of l6)
            (repeat (repeat nan (List.length DL)) (List.length DL)).

Lemma coh_mat_symmetric (i j : nat) : mat_get coh_mat i j = mat_get coh_mat j i.
Proof.
  apply (fold_assign_symmetric (List.length DL)).
  - apply repeat_square.
  - apply us_in_range.
  - intros x y. now rewrite !mat_get_repeat.
Qed.

Lemma entry_position (a b : string) :
  In a DL -> In b DL ->
  entry coh_mat DL a b = Ok (mat_get coh_mat (position DL a) (position DL b)).
Proof.
  intros Ha Hb. unfold entry.
  destruct (position_spec DL a Ha) as (-> & _).
  destruct (position_spec DL b Hb) as (-> & _). reflexivity.
Qed.

Lemma us_In (u : nat * nat * float) :
  In u (map u_of l6) ->
  exists q, In q pairs6 /\ u = u_of (date12 (fst q) (snd q)).
Proof.
  intros H. apply in_map_iff in H as [d12 [<- H]]. unfold l6 in H.
  apply in_map_iff in H as [q [<- Hq]]. eauto.
Qed.

Lemma coh_mat_listed (k : nat) (a b : string) (c : float) :
  nth_error pairs6 k = Some (a, b) -> nth_error coh_list k = Some c ->
  entry coh_mat DL a b = Ok c /\ entry coh_mat DL b a = Ok c.
Proof.
  intros Hk Hc.
  assert (In (a, b) pairs6) as Hp by (eapply nth_error_In; eauto).
  assert (In a DL) as Ha by (apply DL_In; exists (a, b); auto).
  assert (In b DL) as Hb by (apply DL_In; exists (a, b); auto).
  assert (mat_get coh_mat (position DL a) (position DL b) = c) as E.
  { apply (fold_assign_touched (List.length DL)).
    - apply repeat_square.
    - apply us_in_range.
    - exists (u_of (date12 a b)). split.
      + apply in_map. unfold l6. apply in_map_iff. exists (a, b). auto.
      + destruct (l6_parts (a, b) Hp) as (_ & E0 & E1). simpl in E0, E1.
        unfold u_of, touches. rewrite E0, E1, !Nat.eqb_refl. reflexivity.
    - intros u Hu Ht. apply us_In in Hu as [q [Hq ->]].
      destruct (touches_pair a b q Ha Hb Hq Ht) as [[E1 E2]|[E1 E2]].
      + assert (q = (a, b)) as -> by (destruct q; simpl in *; congruence).
        unfold u_of. simpl.
        assert (position l6 (date12 a b) = k) as ->.
        { unfold position. rewrite (index_NoDup l6 k); [reflexivity|apply l6_NoDup|].
          unfold l6. rewrite nth_error_map, Hk. reflexivity. }
        now apply nth_error_nth.
      + exfalso. apply (pairs6_not_swapped (a, b) q Hp Hq). simpl. auto. }
  rewrite !entry_position by assumption.
  rewrite (coh_mat_symmetric (position DL b)), E. auto.
Qed.

Lemma coh_mat_absent (a b : string) :
  In a DL -> In b DL -> ~ In (a, b) pairs6 -> ~ In (b, a) pairs6 ->
  entry coh_mat DL a b = Ok nan.
Proof.
  intros Ha Hb Hab Hba. rewrite entry_position by assumption. f_equal.
  unfold coh_mat. rewrite (fold_assign_untouched (List.length DL)).
  - apply mat_get_repeat.
  - apply repeat_square.
  - apply us_in_range.
  - intros u Hu. destruct (touches _ _ u) eqn:Ht; [|reflexivity]. exfalso.
    apply us_In in Hu as [q [Hq ->]].
    destruct (touches_pair a b q Ha Hb Hq Ht) as [[E1 E2]|[E1 E2]];
      [apply Hab|apply Hba]; destruct q; simpl in *; congruence.
Qed.

Lemma coh_mat_diagonal (a : string) :
  In a DL -> entry coh_mat DL a a = Ok nan.
Proof.
  intros Ha. apply coh_mat_absent; auto; intros H;
    apply (pairs6_not_swapped (a, a) (a, a) H H); auto.
Qed.

Lemma coherence_matrix_entries :
  let date12_list := map (fun p => date12 (fst p) (snd p)) pairs6 in
  exists coh_mat date_list,
    coherence_matrix date12_list coh_list None = Ok coh_mat /\
    coherence_dates date12_list = Ok date_list /\
    (forall a, In a date_list <-> exists p, In p pairs6 /\ (a = fst p \/ a = snd p)) /\
    (forall i j, mat_get coh_mat i j = mat_get coh_mat j i) /\
    (forall k a b c,
        nth_error pairs6 k = Some (a, b) -> nth_error coh_list k = Some c ->
        entry coh_mat date_list a b = Ok c /\ entry coh_mat date_list b a = Ok c) /\
    (forall a b,
        In a date_list -> In b date_list ->
        ~ In (a, b) pairs6 -> ~ In (b, a) pairs6 ->
        entry coh_mat date_list a b = Ok nan) /\
    (forall a, In a date_list -> entry coh_mat date_list a a = Ok nan).
Proof.
  cbv zeta. destruct coherence_matrix_Ok as [EM ED].
  exists coh_mat, DL. split; [exact EM|]. split; [exact ED|].
  split; [exact DL_In|].
  split; [exact coh_mat_symmetric|].
  split; [exact coh_mat_listed|].
  split; [exact coh_mat_absent|exact coh_mat_diagonal].
Qed.

End CoherenceMatrix.

(** Pairs with the earlier date first are not listed with their dates
    exchanged. *)
Lemma canonical_once (pairs : list (string * string)) :
  Forall (fun p => str_lt (yyyymmdd_str (fst p)) (yyyymmdd_str (snd p))) pairs ->
  forall a b, In (a, b) pairs -> ~ In (b, a) pairs.
Proof.
  intros H a b Hab Hba. rewrite Forall_forall in H.
  pose proof (H _ Hab) as A. pose proof (H _ Hba) as B.
  cbn [fst snd] in A, B. unfold str_lt in *.
  pose proof (ltb_trans _ _ _ A B) as C. rewrite ltb_irrefl in C. discriminate.
Qed.




(** ** Order on floating-point numbers *)

Lemma SFleb_trans (x y z : spec_float) :
  SFleb x y = true -> SFleb y z = true -> SFleb x z = true.
Proof.
  unfold SFleb, SFcompare.
  destruct x as [sx|sx| |sx mx ex], y as [sy|sy| |sy my ey], z as [sz|sz| |sz mz ez];
    repeat match goal with s : bool |- _ => destruct s end;
    simpl; try congruence;
    change (Pos.compare_cont Eq) with Pos.compare;
    repeat match goal with
           | |- context [Z.compare ?a ?b] => destruct (Z.compare_spec a b)
           end; simpl; try congruence; try lia;
    repeat match goal with
           | |- context [Pos.compare ?a ?b] => destruct (Pos.compare_spec a b)
           end; simpl; try congruence; try lia.
Qed.

Lemma SFltb_SFleb (x y : spec_float) : SFltb x y = true -> SFleb x y = true.
Proof.
  unfold SFltb, SFleb. destruct (SFcompare x y) as [[]|]; congruence.
Qed.

Lemma SFeqb_SFleb (x y : spec_float) : SFeqb x y = true -> SFleb x y = true.
Proof.
  unfold SFeqb, SFleb. destruct (SFcompare x y) as [[]|]; congruence.
Qed.

Lemma SFcompare_antisym (x y : spec_float) :
  SFcompare y x = option_map CompOpp (SFcompare x y).
Proof.
  unfold SFcompare.
  destruct x as [sx|sx| |sx mx ex], y as [sy|sy| |sy my ey];
    repeat match goal with s : bool |- _ => destruct s end;
    simpl; try reflexivity;
    change (Pos.compare_cont Eq) with Pos.compare;
    rewrite (Z.compare_antisym ex ey), (Pos.compare_antisym mx my);
    destruct (Z.compare ex ey), (Pos.compare mx my); reflexivity.
Qed.

Lemma SFcompare_defined (x y : spec_float) :
  SFeqb x x = true -> SFeqb y y = true -> exists c, SFcompare x y = Some c.
Proof.
  destruct x as [sx|sx| |sx mx ex], y as [sy|sy| |sy my ey];
    try (intros; simpl; eauto; fail); try discriminate.
  all: intros _ H; discriminate H.
Qed.

Lemma SF_total (x y : spec_float) :
  SFeqb x x = true -> SFeqb y y = true ->
  SFltb x y = false -> SFleb y x = true.
Proof.
  intros Hx Hy. destruct (SFcompare_defined x y Hx Hy) as [c Hc].
  unfold SFltb, SFleb. rewrite (SFcompare_antisym x y), Hc.
  destruct c; simpl; congruence.
Qed.

Lemma float_leb_trans (a b c : float) :
  (a <=? b) = true -> (b <=? c) = true -> (a <=? c) = true.
Proof. rewrite !leb_spec. apply SFleb_trans. Qed.

Lemma float_ltb_leb (a b : float) : (a <? b) = true -> (a <=? b) = true.
Proof. rewrite ltb_spec, leb_spec. apply SFltb_SFleb. Qed.

Lemma float_eqb_leb (a b : float) : (a =? b) = true -> (a <=? b) = true.
Proof. rewrite eqb_spec, leb_spec. apply SFeqb_SFleb. Qed.

Lemma is_nan_false (a : float) : is_nan a = false <-> (a =? a) = true.
Proof. unfold is_nan. destruct (a =? a); simpl; split; congruence. Qed.

(** Two numbers are comparable: if [a < b] fails then [b <= a]. *)
Lemma float_total (a b : float) :
  is_nan a = false -> is_nan b = false ->
  (a <? b) = false -> (b <=? a) = true.
Proof.
  rewrite !is_nan_false, !eqb_spec, ltb_spec, leb_spec. apply SF_total.
Qed.

Lemma float_leb_refl (a : float) : is_nan a = false -> (a <=? a) = true.
Proof. intros H. apply float_eqb_leb. now apply is_nan_false. Qed.

(** ** The minimum of an array *)

Lemma np_minimum_spec (a b : float) :
  is_nan a = false -> is_nan b = false ->
  (np_minimum a b = a \/ np_minimum a b = b) /\
  (np_minimum a b <=? a) = true /\ (np_minimum a b <=? b) = true.
Proof.
  intros Ha Hb. unfold np_minimum. rewrite Ha, orb_false_r.
  destruct (a <? b) eqn:E.
  - split; [now left|]. split; [now apply float_leb_refl|now apply float_ltb_leb].
  - split; [now right|]. split; [now apply float_total|now apply float_leb_refl].
Qed.

Lemma fold_minimum_spec (l : list float) (a : float) :
  is_nan a = false -> (forall x, In x l -> is_nan x = false) ->
  let r := fold_left np_minimum l a in
  In r (a :: l) /\ forall x, In x (a :: l) -> (r <=? x) = true.
Proof.
  revert a. induction l as [|b l IH]; intros a Ha Hl; simpl.
  - split; [now left|]. intros x [<-|[]]. now apply float_leb_refl.
  - assert (is_nan b = false) as Hb by (apply Hl; now left).
    destruct (np_minimum_spec a b Ha Hb) as (Hm & Hma & Hmb).
    assert (is_nan (np_minimum a b) = false) as Hn
        by (destruct Hm as [-> | ->]; assumption).
    destruct (IH (np_minimum a b) Hn) as [Hin Hle];
      [intros x Hx; apply Hl; now right|].
    split.
    + destruct Hin as [<-|Hin]; [|now right; right].
      destruct Hm as [-> | ->]; [now left|now right; left].
    + intros x [<-|[<-|Hx]].
      * eapply float_leb_trans; [apply Hle; now left|exact Hma].
      * eapply float_leb_trans; [apply Hle; now left|exact Hmb].
      * apply Hle. now right.
Qed.

Lemma np_min_spec (l : list float) :
  l <> [] -> (forall x, In x l -> is_nan x = false) ->
  exists r, np_min l = Ok r /\ In r l /\ forall x, In x l -> (r <=? x) = true.
Proof.
  intros Hne Hl. destruct l as [|a l]; [congruence|].
  exists (fold_left np_minimum l a). split; [reflexivity|].
  apply fold_minimum_spec; intros; apply Hl; simpl; auto.
Qed.

Lemma first_eq_from_spec (v : float) (a : list float) (i : nat) :
  (exists x, In x a /\ (x =? v) = true) ->
  exists k d, first_eq_from v a i = Ok (i + k)%nat /\
              nth_error a k = Some d /\ (d =? v) = true.
Proof.
  revert i. induction a as [|x a IH]; intros i [y [Hy Hv]]; [destruct Hy|].
  simpl. destruct (x =? v) eqn:E.
  - exists 0%nat, x. rewrite Nat.add_0_r. auto.
  - destruct Hy as [->|Hy]; [congruence|].
    destruct (IH (S i)) as (k & d & Hk & Hd & Hdv); [eauto|].
    exists (S k), d. rewrite Hk. split; [f_equal; lia|auto].
Qed.

Lemma first_eq_spec (v : float) (a : list float) :
  (exists x, In x a /\ (x =? v) = true) ->
  exists k d, first_eq v a = Ok k /\ nth_error a k = Some d /\ (d =? v) = true.
Proof.
  intros H. destruct (first_eq_from_spec v a 0 H) as (k & d & Hk & Hd).
  exists k, d. auto.
Qed.

(** ** Master pair selection *)

Lemma mapM_length {A B} (f : A -> res B) (l : list A) (ys : list B) :
  mapM f l = Ok ys -> List.length ys = List.length l.
Proof.
  intros H. apply mapM_Ok_inv in H. symmetry. eapply Forall2_length; eauto.
Qed.

Lemma res_bind_Ok {A B} (m : res A) (k : A -> res B) (y : B) :
  res_bind m k = Ok y -> exists x, m = Ok x /\ k x = Ok y.
Proof.
  destruct m as [x|e]; simpl; [eauto|discriminate].
Qed.

Lemma base_distance_length
      (strptime_Ymd : string -> res Z)
      (date12_list date_list : list string) (pbase_list dist : list float) :
  base_distance strptime_Ymd date12_list date_list pbase_list = Ok dist ->
  List.length dist = List.length date12_list.
Proof.
  unfold base_distance. intros H.
  do 5 (apply res_bind_Ok in H as [? [_ H]]).
  apply res_bind_Ok in H as [idx1 [H1 H]].
  apply res_bind_Ok in H as [idx2 [H2 H]].
  apply mapM_length in H1, H2.
  destruct date12_list as [|d l]; [discriminate|].
  apply mapM_length in H. rewrite length_combine in H. lia.
Qed.

Section MasterPair.

Variable strptime_Ymd : string -> res Z.
Variables date12_list date_list : list string.
Variable pbase_list : list float.
Variable m_date : string.
Variable dist : list float.

Hypothesis m_date_set : m_date <> "".
Hypothesis dist_Ok :
  base_distance strptime_Ymd date12_list date_list pbase_list = Ok dist.

Let cand := master_candidates date12_list (yymmdd_str m_date).
Let dist_of (c : string) : float := nth (position date12_list c) dist nan.

Lemma select_with_master :
  select_master_interferogram strptime_Ymd date12_list date_list pbase_list
                              (Some m_date)
  = (m_date12_idx <-
       (m_date12_idx_array <- mapM (fun date12 => index date12 date12_list) cand ;;
        candidates <-
          match m_date12_idx_array with
          | [] => Raise IndexError
          | _ => mapM (getitem dist) m_date12_idx_array
          end ;;
        min_base_distance <- np_min candidates ;;
        first_eq min_base_distance dist) ;;
     getitem date12_list m_date12_idx).
Proof.
  unfold select_master_interferogram. rewrite dist_Ok. simpl.
  destruct m_date; [contradiction|reflexivity].
Qed.

Lemma cand_In (c : string) : In c cand -> In c date12_list.
Proof. unfold cand, master_candidates. intros H. now apply filter_In in H. Qed.

Lemma cand_indices :
  mapM (fun date12 => index date12 date12_list) cand
  = Ok (map (position date12_list) cand).
Proof.
  apply mapM_Ok_iff. intros c Hc. now apply position_spec, cand_In.
Qed.

Lemma cand_distances :
  mapM (getitem dist) (map (position date12_list) cand) = Ok (map dist_of cand).
Proof.
  rewrite mapM_map. apply mapM_Ok_iff. intros c Hc. apply getitem_nth.
  rewrite (base_distance_length _ _ _ _ _ dist_Ok).
  now apply position_spec, cand_In.
Qed.

(** No candidate: the selection raises. *)
Lemma select_no_candidate :
  cand = [] ->
  select_master_interferogram strptime_Ymd date12_list date_list pbase_list
                              (Some m_date)
  = Raise IndexError.
Proof.
  intros H. rewrite select_with_master, cand_indices, H. reflexivity.
Qed.

(** Some candidates, none at a not-a-number distance: the pair returned is
    the first of the list whose distance equals the smallest distance of a
    candidate. *)
Lemma select_first_at_minimum :
  cand <> [] ->
  (forall c, In c cand -> is_nan (dist_of c) = false) ->
  exists r k d,
    select_master_interferogram strptime_Ymd date12_list date_list pbase_list
                                (Some m_date) = Ok r /\
    nth_error date12_list k = Some r /\
    nth_error dist k = Some d /\
    (exists c, In c cand /\ (d =? dist_of c) = true) /\
    (forall c, In c cand -> (d <=? dist_of c) = true).
Proof.
  intros Hne Hnan.
  destruct (np_min_spec (map dist_of cand)) as (m & Hm & Hin & Hle).
  { destruct cand; [congruence|discriminate]. }
  { intros x Hx. apply in_map_iff in Hx as [c [<- Hc]]. auto. }
  apply in_map_iff in Hin as [c0 [Ec0 Hc0]].
  assert (is_nan m = false) as Hmn by (rewrite <- Ec0; auto).
  destruct (first_eq_spec m dist) as (k & d & Hk & Hd & Hdm).
  { exists m. split; [|now apply is_nan_false].
    rewrite <- Ec0. apply nth_In.
    rewrite (base_distance_length _ _ _ _ _ dist_Ok).
    now apply position_spec, cand_In. }
  assert (k < List.length date12_list)%nat as Hlt.
  { rewrite <- (base_distance_length _ _ _ _ _ dist_Ok).
    apply nth_error_Some. congruence. }
  destruct (nth_error date12_list k) as [r|] eqn:Er;
    [|apply nth_error_None in Er; lia].
  exists r, k, d. split; [|split; [exact Er|split; [exact Hd|split]]].
  - rewrite select_with_master, cand_indices. simpl.
    destruct (map (position date12_list) cand) eqn:E.
    { destruct cand; [congruence|discriminate]. }
    rewrite <- E, cand_distances. simpl. rewrite Hm. simpl. rewrite Hk. simpl.
    unfold getitem. now rewrite Er.
  - exists c0. split; [exact Hc0|]. now rewrite Ec0.
  - intros c Hc. eapply float_leb_trans; [apply float_eqb_leb, Hdm|].
    apply Hle. now apply in_map.
Qed.

(** When no pair outside the candidates lies at the smallest distance of
    the candidates, the pair returned is a candidate, at a distance that
    is at most that of every candidate. *)
Lemma select_closest_candidate :
  cand <> [] ->
  (forall c, In c cand -> is_nan (dist_of c) = false) ->
  (forall k x d,
      nth_error date12_list k = Some x -> nth_error dist k = Some d ->
      (exists c, In c cand /\ (d =? dist_of c) = true) ->
      (forall c, In c cand -> (d <=? dist_of c) = true) -> In x cand) ->
  exists r k d,
    select_master_interferogram strptime_Ymd date12_list date_list pbase_list
                                (Some m_date) = Ok r /\
    nth_error date12_list k = Some r /\
    nth_error dist k = Some d /\
    In r cand /\
    str_contains (yymmdd_str m_date ++ "-") r = true /\
    (forall c, In c cand -> (d <=? dist_of c) = true).
Proof.
  intros Hne Hnan Huntied.
  destruct (select_first_at_minimum Hne Hnan) as (r & k & d & Hr & Hk & Hd & Hex & Hle).
  assert (In r cand) as Hin by (eapply Huntied; eauto).
  exists r, k, d. repeat (split; [assumption|]). split; [|exact Hle].
  unfold cand, master_candidates in Hin. now apply filter_In in Hin.
Qed.

End MasterPair.

(** C3 (as stated, refuted). With master date 170113, the pair 170113-170125
    is returned, at a distance of about 55; the pair 170101-170113 also
    contains 170113 and is at the smaller distance of about 25. *)
Lemma select_master_interferogram_not_closest :
  select_master_interferogram
    ordinal_Ymd8 ["170101-170113"; "170113-170125"]
    ["170101"; "170113"; "170125"] [0; 1; 50]%float (Some "170113")
  = Ok "170113-170125" /\
  exists d0 d1,
    base_distance ordinal_Ymd8 ["170101-170113"; "170113-170125"]
                  ["170101"; "170113"; "170125"] [0; 1; 50]%float
    = Ok [d0; d1] /\
    (d0 <? d1) = true /\
    str_contains "170113" "170101-170113" = true.
Proof.
  split; [vm_compute; reflexivity|].
  eexists. eexists. split; [vm_compute; reflexivity|].
  split; vm_compute; reflexivity.
Qed.

(** The index of the result is looked up among the distances of all
    pairs: with master date 170125, the pair 170101-170113, which lies at
    the distance of the only candidate 170125-170206 and is listed before
    it, is returned. *)
Lemma select_master_interferogram_tie :
  master_candidates ["170101-170113"; "170125-170206"] "170125" = ["170125-170206"] /\
  select_master_interferogram
    ordinal_Ymd8 ["170101-170113"; "170125-170206"]
    ["170101"; "170113"; "170125"; "170206"] [0; 10; 20; 30]%float (Some "170125")
  = Ok "170101-170113".
Proof. split; vm_compute; reflexivity. Qed.

(** C3 (amended). With a master date set, the selection is restricted to
    the pairs whose identifier contains the master date followed by ["-"]
    (the pairs in which it is the first date).  With no such pair the
    selection raises.  With such pairs, none at a not-a-number distance,
    and no pair outside them at exactly their smallest distance, one of
    these pairs is returned, and its distance is at most that of each of
    them. *)
Theorem select_master_interferogram_master
        (strptime_Ymd : string -> res Z)
        (date12_list date_list : list string) (pbase_list : list float)
        (m_date : string) (dist : list float) :
  m_date <> "" ->
  base_distance strptime_Ymd date12_list date_list pbase_list = Ok dist ->
  let cand := master_candidates date12_list (yymmdd_str m_date) in
  let dist_of := fun c => nth (position date12_list c) dist nan in
  (cand = [] ->
   select_master_interferogram strptime_Ymd date12_list date_list pbase_list
                               (Some m_date) = Raise IndexError) /\
  (cand <> [] ->
   (forall c, In c cand -> is_nan (dist_of c) = false) ->
   (forall k x d,
       nth_error date12_list k = Some x -> nth_error dist k = Some d ->
       (exists c, In c cand /\ (d =? dist_of c) = true) ->
       (forall c, In c cand -> (d <=? dist_of c) = true) -> In x cand) ->
   exists r k d,
     select_master_interferogram strptime_Ymd date12_list date_list pbase_list
                                 (Some m_date) = Ok r /\
     nth_error date12_list k = Some r /\
     nth_error dist k = Some d /\
     In r cand /\
     str_contains (yymmdd_str m_date ++ "-") r = true /\
     (forall c, In c cand -> (d <=? dist_of c) = true)).
Proof.
  intros Hm Hd. split.
  - now apply (select_no_candidate _ _ _ _ _ dist).
  - now apply select_closest_candidate.
Qed.

Lemma select_master_interferogram_master_witness :
  exists r,
    select_master_interferogram
      ordinal_Ymd8 ["170101-170113"; "170113-170125"]
      ["170101"; "170113"; "170125"] [0; 1; 50]%float (Some "170113")
    = Ok r /\
    str_contains "170113-" r = true.
Proof.
  pose (dist := match base_distance ordinal_Ymd8 ["170101-170113"; "170113-170125"]
                                    ["170101"; "170113"; "170125"] [0; 1; 50]%float
                with
                | Ok d => d
                | Raise _ => []
                end).
  assert ("170113" <> "") as H1 by discriminate.
  assert (base_distance ordinal_Ymd8 ["170101-170113"; "170113-170125"]
                        ["170101"; "170113"; "170125"] [0; 1; 50]%float
          = Ok dist) as H2 by (vm_compute; reflexivity).
  destruct (select_master_interferogram_master
              ordinal_Ymd8 ["170101-170113"; "170113-170125"]
              ["170101"; "170113"; "170125"] [0; 1; 50]%float "170113" dist H1 H2)
    as [_ HB].
  destruct HB as (r & k & d & Hr & _ & _ & _ & Hc & _).
  - vm_compute. discriminate.
  - intros c Hc. vm_compute in Hc. destruct Hc as [<-|[]]. vm_compute. reflexivity.
  - intros k x d Hk Hd [c [Hc Hdc]] _. vm_compute in Hc. destruct Hc as [<-|[]].
    destruct k as [|[|k]].
    + vm_compute in Hd. injection Hd as <-. vm_compute in Hdc. discriminate Hdc.
    + vm_compute in Hk. injection Hk as <-. vm_compute. auto.
    + destruct k; discriminate Hk.
  - exists r. split; [exact Hr|exact Hc].
Defined.

(** ** The pairs a master date selects

    In an identifier [a-b] whose second date holds no ["-"], a date of the
    length of [a] followed by ["-"] occurs only at the start: the
    candidates are the pairs whose first date is the master date. *)

Lemma prefix_cons (c d : ascii) (s t : string) :
  String.prefix (String c s) (String d t)
  = if Ascii.eqb c d then String.prefix s t else false.
Proof.
  cbn [String.prefix]. destruct (ascii_dec c d) as [->|Hn].
  - now rewrite Ascii.eqb_refl.
  - apply Ascii.eqb_neq in Hn. now rewrite Hn.
Qed.

Lemma prefix_sep_free (m s : string) :
  free_of "-" s = true -> String.prefix (m ++ "-") s = false.
Proof.
  revert s. induction m as [|c m IH]; intros s Hs.
  - destruct s as [|d s]; [reflexivity|].
    cbn [append]. rewrite prefix_cons.
    cbn [free_of] in Hs. apply andb_prop in Hs as [Hd _].
    rewrite Ascii.eqb_sym. now destruct (Ascii.eqb d "-").
  - destruct s as [|d s]; [reflexivity|].
    cbn [append]. rewrite prefix_cons.
    cbn [free_of] in Hs. apply andb_prop in Hs as [_ Hs].
    destruct (Ascii.eqb c d); [now apply IH|reflexivity].
Qed.

Lemma str_contains_sep_free (m s : string) :
  free_of "-" s = true -> str_contains (m ++ "-") s = false.
Proof.
  induction s as [|d s IH]; intros Hs.
  - cbn [str_contains]. rewrite prefix_sep_free by reflexivity. reflexivity.
  - cbn [str_contains]. rewrite prefix_sep_free by exact Hs.
    cbn [free_of] in Hs. apply andb_prop in Hs as [_ Hs]. now apply IH.
Qed.

Lemma date12_cons (c : ascii) (a b : string) :
  date12 (String c a) b = String c (date12 a b).
Proof. reflexivity. Qed.

Lemma date12_nil (b : string) : date12 "" b = String "-" b.
Proof. reflexivity. Qed.

Lemma prefix_short (a m b : string) :
  free_of "-" b = true -> (String.length a < String.length m)%nat ->
  String.prefix (m ++ "-") (date12 a b) = false.
Proof.
  revert m. induction a as [|c a IH]; intros m Hb Hl.
  - destruct m as [|d m]; [simpl in Hl; lia|].
    rewrite date12_nil. cbn [append]. rewrite prefix_cons.
    destruct (Ascii.eqb d "-"); [now apply prefix_sep_free|reflexivity].
  - destruct m as [|d m]; [simpl in Hl; lia|].
    rewrite date12_cons. cbn [append]. rewrite prefix_cons.
    destruct (Ascii.eqb d c); [|reflexivity].
    apply IH; [exact Hb|simpl in Hl; lia].
Qed.

Lemma str_contains_short (a m b : string) :
  free_of "-" b = true -> (String.length a < String.length m)%nat ->
  str_contains (m ++ "-") (date12 a b) = false.
Proof.
  intros Hb. induction a as [|c a IH]; intros Hl.
  - rewrite date12_nil. cbn [str_contains]. rewrite <- (date12_nil b).
    rewrite prefix_short by assumption.
    now rewrite str_contains_sep_free.
  - rewrite date12_cons. cbn [str_contains]. rewrite <- date12_cons.
    rewrite prefix_short by assumption.
    apply IH. simpl in Hl. lia.
Qed.

Lemma prefix_same_length (m a b : string) :
  String.length m = String.length a ->
  String.prefix (m ++ "-") (date12 a b) = String.eqb m a.
Proof.
  revert a. induction m as [|c m IH]; intros a Hl.
  - destruct a; [|discriminate Hl]. rewrite date12_nil. cbn [append].
    rewrite prefix_cons. now destruct b.
  - destruct a as [|d a]; [discriminate Hl|].
    rewrite date12_cons. cbn [append String.eqb]. rewrite prefix_cons.
    destruct (Ascii.eqb c d); [|reflexivity].
    apply IH. simpl in Hl. lia.
Qed.

Lemma str_contains_master (m a b : string) :
  free_of "-" b = true -> String.length m = String.length a ->
  str_contains (m ++ "-") (date12 a b) = String.eqb m a.
Proof.
  intros Hb Hl. destruct a as [|c a].
  - destruct m; [|discriminate Hl].
    rewrite date12_nil. cbn [append str_contains]. rewrite prefix_cons.
    now destruct b.
  - rewrite date12_cons. cbn [str_contains]. rewrite <- date12_cons.
    rewrite prefix_same_length by exact Hl.
    rewrite str_contains_short; [apply orb_false_r|exact Hb|].
    rewrite Hl. simpl. lia.
Qed.

(** Among identifiers of 6-digit dates, the candidates of a 6-digit master
    date are the pairs in which it comes first. *)
Lemma master_candidates_first_date (pairs : list (string * string)) (m : string) :
  Forall (fun p => String.length (fst p) = String.length m /\
                   free_of "-" (snd p) = true) pairs ->
  master_candidates (map (fun p => date12 (fst p) (snd p)) pairs) m
  = map (fun p => date12 (fst p) (snd p))
        (filter (fun p => String.eqb m (fst p)) pairs).
Proof.
  unfold master_candidates. induction 1 as [|p pairs [Hl Hb] _ IH]; [reflexivity|].
  cbn [map filter]. rewrite str_contains_master by (auto; congruence).
  destruct (String.eqb m (fst p)); cbn [map]; now rewrite IH.
Qed.

(** ** Aliasing in [pair_merge] and [pair_sort] *)

Module HeapFacts.
Import Heap.

Lemma list_set_other {A} (i k : nat) (v : A) (l : list A) :
  k <> i -> nth_error (list_set i v l) k = nth_error l k.
Proof.
  revert i k. induction l as [|a l IH]; intros i k H.
  - now rewrite list_set_nil.
  - destruct i as [|i].
    + rewrite list_set_0. destruct k; [congruence|reflexivity].
    + rewrite list_set_S. destruct k as [|k]; [reflexivity|].
      simpl. apply IH. congruence.
Qed.

Lemma list_set_here {A} (i : nat) (v : A) (l : list A) :
  (i < List.length l)%nat -> nth_error (list_set i v l) i = Some v.
Proof.
  revert i. induction l as [|a l IH]; intros i H; simpl in H; [lia|].
  destruct i as [|i]; [reflexivity|].
  rewrite list_set_S. simpl. apply IH. lia.
Qed.

Lemma list_set_set {A} (i : nat) (v w : A) (l : list A) :
  list_set i w (list_set i v l) = list_set i w l.
Proof.
  revert i. induction l as [|a l IH]; intros i.
  - now rewrite !list_set_nil.
  - destruct i as [|i]; [reflexivity|].
    rewrite !list_set_S. now rewrite IH.
Qed.

Lemma list_set_same {A} (i : nat) (v : A) (l : list A) :
  nth_error l i = Some v -> list_set i v l = l.
Proof.
  revert i. induction l as [|a l IH]; intros i H.
  - now rewrite list_set_nil.
  - destruct i as [|i]; simpl in H.
    + injection H as ->. reflexivity.
    + rewrite list_set_S. now rewrite IH.
Qed.

Lemma pair_in_inner (h h' : store) (q : loc) (l : list loc) :
  inner h' = inner h -> pair_in h' q l = pair_in h q l.
Proof.
  intros E. unfold pair_in, content. now rewrite E.
Qed.

Lemma merge_refs_inner (h h' : store) (l1 l2 : list loc) :
  inner h' = inner h -> merge_refs h' l1 l2 = merge_refs h l1 l2.
Proof.
  intros E. unfold merge_refs. revert l1.
  induction l2 as [|q l2 IH]; intros l1; simpl; [reflexivity|].
  now rewrite (pair_in_inner h h' q l1 E), IH.
Qed.

Lemma sorted_by_inner (h h' : store) (l : list loc) :
  inner h' = inner h -> sorted_by h' l = sorted_by h l.
Proof.
  intros E. unfold sorted_by.
  induction l as [|q l IH]; simpl; [reflexivity|]. rewrite IH.
  generalize (fold_right (insert_by h) [] l). intros s.
  induction s as [|q' s IHs]; simpl; [reflexivity|].
  unfold content. now rewrite E, IHs.
Qed.

Lemma merge_refs_cons (h : store) (l1 l2 : list loc) (q : loc) :
  merge_refs h l1 (q :: l2)
  = merge_refs h (if pair_in h q l1 then l1 else l1 ++ [q]) l2.
Proof. reflexivity. Qed.

(** The loop of [pair_merge] writes [pairs1] only. *)
Lemma pair_merge_loop (p1 : loc) (l2 l1 : list loc) (h : store) :
  nth_error (outer h) p1 = Some l1 ->
  for_each l2 (fun pair =>
    st_bind (read_outer p1) (fun l h =>
      if negb (pair_in h pair l) then write_outer p1 (l ++ [pair]) h
      else st_ret tt h)) h
  = (Ok tt, mkStore (inner h) (list_set p1 (merge_refs h l1 l2) (outer h))).
Proof.
  revert l1 h. induction l2 as [|q l2 IH]; intros l1 h H1; cbn [for_each].
  - unfold st_ret, merge_refs. simpl.
    rewrite list_set_same by exact H1. now destruct h.
  - unfold st_bind at 1. unfold st_bind at 1. unfold read_outer at 1.
    unfold getitem. rewrite H1.
    destruct (pair_in h q l1) eqn:E; simpl.
    + rewrite (IH l1 h H1). now rewrite E.
    + set (h1 := mkStore (inner h) (list_set p1 (l1 ++ [q]) (outer h))).
      assert (nth_error (outer h1) p1 = Some (l1 ++ [q])) as H1'.
      { simpl. apply list_set_here. apply nth_error_Some. congruence. }
      rewrite (IH (l1 ++ [q]) h1 H1'). simpl.
      rewrite list_set_set.
      rewrite (merge_refs_inner h h1) by reflexivity.
      try rewrite merge_refs_cons. now rewrite E.
Qed.

(** [pair_merge] leaves every pair object unchanged, replaces the elements
    of [pairs1] by the merged elements, and allocates the sorted result. *)
Lemma pair_merge_effect (p1 p2 : loc) (l1 l2 : list loc) (h : store) :
  nth_error (outer h) p1 = Some l1 ->
  nth_error (outer h) p2 = Some l2 ->
  pair_merge p1 p2 h
  = (Ok (List.length (outer h)),
     mkStore (inner h)
             (list_set p1 (merge_refs h l1 l2) (outer h)
              ++ [sorted_by h (merge_refs h l1 l2)])).
Proof.
  intros H1 H2. unfold pair_merge.
  unfold st_bind at 1. unfold read_outer at 1. unfold getitem. rewrite H2.
  unfold st_bind at 1. rewrite (pair_merge_loop p1 l2 l1 h H1).
  unfold py_sorted, st_bind, read_outer, getitem. simpl.
  rewrite list_set_here by (apply nth_error_Some; congruence).
  unfold alloc_outer. simpl. rewrite list_set_length.
  f_equal. f_equal. f_equal. f_equal. now apply sorted_by_inner.
Qed.

(** The merged elements start with the elements of [pairs1]; what follows
    are elements of [pairs2] that [pairs1] did not hold. *)
Lemma list_eqb_refl (a : list Z) : list_eqb a a = true.
Proof.
  induction a as [|x a IH]; [reflexivity|].
  cbn [list_eqb]. now rewrite Z.eqb_refl, IH.
Qed.

Lemma pair_in_app (h : store) (q : loc) (l l' : list loc) :
  pair_in h q (l ++ l') = pair_in h q l || pair_in h q l'.
Proof. unfold pair_in. apply existsb_app. Qed.

Lemma pair_in_here (h : store) (q : loc) (l l' : list loc) :
  pair_in h q (l ++ q :: l') = true.
Proof.
  rewrite pair_in_app. apply orb_true_iff. right.
  unfold pair_in. cbn [existsb]. now rewrite Nat.eqb_refl.
Qed.

(** What the loop of [pair_merge] appends: pairs of [l2] that [l1] does
    not hold, no two of equal content, after which every pair of [l2] is
    held. *)
Lemma merge_refs_prefix (h : store) (l1 l2 : list loc) :
  exists added,
    merge_refs h l1 l2 = l1 ++ added /\
    incl added l2 /\
    (forall q, In q added -> pair_in h q l1 = false) /\
    NoDup (map (content h) added) /\
    (forall q, In q l2 -> pair_in h q (l1 ++ added) = true) /\
    (added = [] <-> forallb (fun q => pair_in h q l1) l2 = true).
Proof.
  revert l1. induction l2 as [|q l2 IH]; intros l1.
  - exists []. unfold merge_refs. simpl. rewrite app_nil_r.
    repeat split; auto; try easy. constructor.
  - rewrite merge_refs_cons. cbn [forallb].
    destruct (pair_in h q l1) eqn:E.
    + destruct (IH l1) as (added & E1 & E2 & E3 & E4 & E5 & E6).
      exists added. repeat split; auto.
      * intros x Hx. right. auto.
      * intros x [<-|Hx]; [|now apply E5].
        rewrite pair_in_app, E. reflexivity.
      * intros Ha. simpl. now apply E6.
      * intros Ha. simpl in Ha. now apply E6.
    + destruct (IH (l1 ++ [q])) as (added & E1 & E2 & E3 & E4 & E5 & E6).
      assert (forall x, In x added ->
                        pair_in h x l1 = false /\ content h q <> content h x) as Hx.
      { intros x Hin. specialize (E3 x Hin). rewrite pair_in_app in E3.
        apply orb_false_iff in E3 as [E3 E3']. split; [exact E3|].
        unfold pair_in in E3'. cbn [existsb] in E3'.
        rewrite orb_false_r in E3'. apply orb_false_iff in E3' as [_ E3'].
        intros C. rewrite C, list_eqb_refl in E3'. discriminate. }
      exists (q :: added). rewrite E1, <- app_assoc. simpl.
      repeat split; auto; try discriminate.
      * intros x [<-|Hin]; [now left|right; auto].
      * intros x [<-|Hin]; [exact E|now apply Hx].
      * constructor; [|exact E4].
        intros Hin. apply in_map_iff in Hin as [x [Ex Hin]].
        destruct (Hx x Hin) as [_ Hne]. congruence.
      * intros x [<-|Hin]; [apply pair_in_here|].
        specialize (E5 x Hin). now rewrite <- app_assoc in E5.
Qed.

Lemma pair_in_self (h : store) (q : loc) (l : list loc) :
  In q l -> pair_in h q l = true.
Proof.
  intros H. unfold pair_in. apply existsb_exists. exists q.
  split; [exact H|]. now rewrite Nat.eqb_refl.
Qed.

Lemma merge_refs_incl (h : store) (l1 l2 : list loc) :
  incl l2 l1 -> merge_refs h l1 l2 = l1.
Proof.
  induction l2 as [|q l2 IH]; intros H; [reflexivity|].
  rewrite merge_refs_cons, pair_in_self by (apply H; now left).
  apply IH. intros x Hx. apply H. now right.
Qed.

Lemma normalise_length (pr : list Z) :
  List.length (normalise pr) = List.length pr.
Proof.
  destruct pr as [|a [|b rest]]; try reflexivity.
  simpl. destruct (b <? a)%Z; reflexivity.
Qed.

Lemma normalise_idem (pr : list Z) : normalise (normalise pr) = normalise pr.
Proof.
  destruct pr as [|a [|b rest]]; try reflexivity.
  simpl. destruct (b <? a)%Z eqn:E; simpl; [|now rewrite E].
  assert ((a <? b)%Z = false) as -> by lia. reflexivity.
Qed.

(** One round of the loop of [pair_sort] puts one pair in order. *)
Lemma pair_sort_body (p : loc) (l : list loc) (idx : nat) (q : loc)
      (pr : list Z) (h : store) :
  nth_error (outer h) p = Some l ->
  nth_error l idx = Some q ->
  nth_error (inner h) q = Some pr ->
  (2 <= List.length pr)%nat ->
  (l <- read_outer p ;;
   q <- st_lift (getitem l idx) ;;
   pr <- read_inner q ;;
   a <- st_lift (getitem pr 0) ;;
   b <- st_lift (getitem pr 1) ;;
   if (b <? a)%Z then
     pr <- read_inner q ;;
     write_inner q (list_set 0 b pr) ;;;
     pr <- read_inner q ;;
     write_inner q (list_set 1 a pr)
   else st_ret tt)%st h
  = (Ok tt, mkStore (list_set q (normalise pr) (inner h)) (outer h)).
Proof.
  intros Hp Hq Hpr Hlen.
  destruct pr as [|a [|b rest]]; simpl in Hlen; try lia.
  unfold st_bind, read_outer, read_inner, st_lift, getitem.
  rewrite Hp, Hq, Hpr. simpl.
  destruct (b <? a)%Z eqn:E.
  - rewrite Hpr. unfold write_inner. simpl.
    rewrite list_set_here by (apply nth_error_Some; congruence).
    simpl. now rewrite list_set_set.
  - unfold st_ret. rewrite list_set_same by exact Hpr. now destruct h.
Qed.

Lemma normalise_all_length (l : list loc) (inn : list (list Z)) :
  List.length (normalise_all inn l) = List.length inn.
Proof.
  unfold normalise_all. revert inn.
  induction l as [|q l IH]; intros inn; simpl; [reflexivity|].
  now rewrite IH, list_set_length.
Qed.

(** After the loop, the pairs of the list are in order and the other pair
    objects are as before. *)
Lemma normalise_all_nth (l : list loc) (inn : list (list Z)) (q : loc) :
  nth q (normalise_all inn l) []
  = if existsb (Nat.eqb q) l then normalise (nth q inn []) else nth q inn [].
Proof.
  unfold normalise_all. revert inn.
  induction l as [|q0 l IH]; intros inn; simpl; [reflexivity|].
  rewrite IH, nth_list_set.
  destruct (Nat.eqb_spec q q0) as [->|Hne]; cbn [orb andb]; [|reflexivity].
  destruct (Nat.ltb q0 (List.length inn)) eqn:Hlt.
  - rewrite normalise_idem. now destruct (existsb (Nat.eqb q0) l).
  - apply Nat.ltb_ge in Hlt. rewrite (nth_overflow inn) by exact Hlt.
    now destruct (existsb (Nat.eqb q0) l).
Qed.

Lemma pair_sort_loop (p : loc) (lsuf lpre : list loc) (h : store) :
  nth_error (outer h) p = Some (lpre ++ lsuf) ->
  (forall q, In q lsuf -> (2 <= List.length (content h q))%nat) ->
  for_each (seq (List.length lpre) (List.length lsuf)) (fun idx =>
    l <- read_outer p ;;
    q <- st_lift (getitem l idx) ;;
    pr <- read_inner q ;;
    a <- st_lift (getitem pr 0) ;;
    b <- st_lift (getitem pr 1) ;;
    if (b <? a)%Z then
      pr <- read_inner q ;;
      write_inner q (list_set 0 b pr) ;;;
      pr <- read_inner q ;;
      write_inner q (list_set 1 a pr)
    else st_ret tt)%st h
  = (Ok tt, mkStore (normalise_all (inner h) lsuf) (outer h)).
Proof.
  revert lpre h. induction lsuf as [|q lsuf IH]; intros lpre h Hp Hv.
  - simpl. unfold st_ret. now destruct h.
  - cbn [List.length seq for_each]. unfold st_bind at 1.
    assert (2 <= List.length (content h q))%nat as Hq by (apply Hv; now left).
    assert (nth_error (inner h) q = Some (content h q)) as Hpr.
    { unfold content in *. apply nth_error_nth'.
      destruct (Nat.lt_ge_cases q (List.length (inner h))) as [Hlt|Hge]; [exact Hlt|].
      rewrite nth_overflow in Hq by exact Hge. simpl in Hq. lia. }
    rewrite (pair_sort_body p (lpre ++ q :: lsuf) (List.length lpre) q
                            (content h q) h Hp); auto.
    2:{ rewrite nth_error_app2 by lia. now rewrite Nat.sub_diag. }
    set (h1 := mkStore (list_set q (normalise (content h q)) (inner h)) (outer h)).
    replace (S (List.length lpre)) with (List.length (lpre ++ [q]))
      by (rewrite length_app; simpl; lia).
    rewrite (IH (lpre ++ [q]) h1).
    + reflexivity.
    + simpl. now rewrite <- app_assoc.
    + intros q' Hq'. unfold content, h1. simpl. rewrite nth_list_set.
      destruct (Nat.eqb q' q && _)%bool eqn:E.
      * rewrite normalise_length. apply andb_prop in E as [E _].
        apply Nat.eqb_eq in E. now subst.
      * apply Hv. now right.
Qed.

Lemma pair_sort_effect (p : loc) (l : list loc) (h : store) :
  nth_error (outer h) p = Some l ->
  (forall q, In q l -> (2 <= List.length (content h q))%nat) ->
  let h' := mkStore (normalise_all (inner h) l) (outer h) in
  pair_sort p h
  = (Ok (List.length (outer h)),
     mkStore (inner h') (outer h ++ [sorted_by h' l])).
Proof.
  intros Hp Hv. unfold pair_sort. cbv zeta.
  assert (getitem (outer h) p = Ok l) as Hg by now apply getitem_Ok_nth_error.
  unfold st_bind at 1. unfold read_outer at 1. rewrite Hg.
  unfold st_bind at 1.
  pose proof (pair_sort_loop p l [] h Hp Hv) as HL.
  change (List.length (@nil loc)) with 0%nat in HL. rewrite HL.
  unfold py_sorted, st_bind, read_outer. simpl. rewrite Hg.
  reflexivity.
Qed.

End HeapFacts.

(** C9 (as stated, refuted). After [pair_merge], the caller's first list
    holds one more pair; after [pair_sort], the caller's first pair has
    its two indices exchanged. *)
Lemma pair_merge_pair_sort_mutate :
  (Heap.view (Heap.mkStore [[0; 1]; [1; 2]]%Z [[0]; [1]]%nat) 0%nat = [[0; 1]]%Z /\
   Heap.view (snd (Heap.pair_merge 0%nat 1%nat (Heap.mkStore [[0; 1]; [1; 2]]%Z [[0]; [1]]%nat))) 0%nat
   = [[0; 1]; [1; 2]]%Z) /\
  (Heap.view (Heap.mkStore [[3; 1]; [1; 2]]%Z [[0; 1]]%nat) 0%nat = [[3; 1]; [1; 2]]%Z /\
   Heap.view (snd (Heap.pair_sort 0%nat (Heap.mkStore [[3; 1]; [1; 2]]%Z [[0; 1]]%nat))) 0%nat
   = [[1; 3]; [1; 2]]%Z).
Proof. repeat split. Qed.

(** C9 (amended). Both operations return a newly allocated list and leave
    every other list of the store as it was, but update an argument in
    place.  [pair_merge] leaves [pairs2] and every pair object unchanged
    and appends to [pairs1], one by one in the order of [pairs2], the
    pairs of [pairs2] that the list does not hold by then: every appended
    pair is a pair of [pairs2] that [pairs1] did not hold, no two appended
    pairs have the same content, afterwards [pairs1] holds every pair of
    [pairs2], and nothing is appended exactly when [pairs1] held them all.
    [pair_sort] keeps the elements of its argument and their order, and
    puts the two indices of each of its pairs in increasing order, in the
    pair object itself. *)
Theorem pair_merge_pair_sort_effects :
  (forall h p1 p2 l1 l2,
      nth_error (Heap.outer h) p1 = Some l1 ->
      nth_error (Heap.outer h) p2 = Some l2 ->
      exists new h' added,
        Heap.pair_merge p1 p2 h = (Ok new, h') /\
        new = List.length (Heap.outer h) /\
        nth_error (Heap.outer h') new = Some (Heap.sorted_by h (l1 ++ added)) /\
        Heap.inner h' = Heap.inner h /\
        (forall p, p <> p1 -> (p < List.length (Heap.outer h))%nat ->
                   nth_error (Heap.outer h') p = nth_error (Heap.outer h) p) /\
        Heap.view h' p2 = Heap.view h p2 /\
        Heap.view h' p1 = Heap.view h p1 ++ map (Heap.content h) added /\
        incl added l2 /\
        (added = [] <-> forallb (fun q => Heap.pair_in h q l1) l2 = true) /\
        nth_error (Heap.outer h') p1 = Some (l1 ++ added) /\
        l1 ++ added = Heap.merge_refs h l1 l2 /\
        (forall q, In q added -> Heap.pair_in h q l1 = false) /\
        NoDup (map (Heap.content h) added) /\
        (forall q, In q l2 -> Heap.pair_in h q (l1 ++ added) = true)) /\
  (forall h p l,
      nth_error (Heap.outer h) p = Some l ->
      (forall q, In q l -> (2 <= List.length (Heap.content h q))%nat) ->
      exists new h',
        Heap.pair_sort p h = (Ok new, h') /\
        new = List.length (Heap.outer h) /\
        nth_error (Heap.outer h') new = Some (Heap.sorted_by h' l) /\
        (forall p', (p' < List.length (Heap.outer h))%nat ->
                    nth_error (Heap.outer h') p' = nth_error (Heap.outer h) p') /\
        (forall q, Heap.content h' q
                   = if existsb (Nat.eqb q) l then Heap.normalise (Heap.content h q)
                     else Heap.content h q) /\
        Heap.view h' p = map Heap.normalise (Heap.view h p)).
Proof.
  split.
  - intros h p1 p2 l1 l2 H1 H2.
    destruct (HeapFacts.merge_refs_prefix h l1 l2)
      as (added & E & Hincl & Hnew & Hdist & Hall & Hnil).
    assert (p1 < List.length (Heap.outer h))%nat as Hlt1
        by (apply nth_error_Some; congruence).
    assert (p2 < List.length (Heap.outer h))%nat as Hlt2
        by (apply nth_error_Some; congruence).
    eexists. eexists. exists added.
    split; [apply (HeapFacts.pair_merge_effect p1 p2 l1 l2 h H1 H2)|].
    rewrite E. cbn [Heap.inner Heap.outer].
    assert (forall p, (p < List.length (Heap.outer h))%nat ->
                      nth_error (list_set p1 (l1 ++ added) (Heap.outer h)
                                 ++ [Heap.sorted_by h (l1 ++ added)]) p
                      = nth_error (list_set p1 (l1 ++ added) (Heap.outer h)) p) as Hfront
        by (intros p Hp; apply nth_error_app1; now rewrite list_set_length).
    assert (forall p l, nth_error (Heap.outer h) p = Some l ->
                        nth p (Heap.outer h) [] = l) as Hnth
        by (intros p l Hp; now apply nth_error_nth).
    split; [reflexivity|]. split.
    { rewrite nth_error_app2 by (rewrite list_set_length; lia).
      rewrite list_set_length, Nat.sub_diag. reflexivity. }
    split; [reflexivity|]. split.
    { intros p Hne Hp. rewrite Hfront by exact Hp.
      now apply HeapFacts.list_set_other. }
    assert (Heap.view {| Heap.inner := Heap.inner h;
                         Heap.outer := list_set p1 (l1 ++ added) (Heap.outer h)
                                       ++ [Heap.sorted_by h (l1 ++ added)] |} p1
            = Heap.view h p1 ++ map (Heap.content h) added) as Hv1.
    { unfold Heap.view. cbn [Heap.outer].
      rewrite (nth_error_nth _ _ [] (eq_trans (Hfront p1 Hlt1)
                                              (HeapFacts.list_set_here _ _ _ Hlt1))).
      rewrite (Hnth p1 l1 H1), map_app. reflexivity. }
    split; [|split; [exact Hv1|split; [exact Hincl|split; [exact Hnil|]]]].
    2: { split; [rewrite (Hfront p1 Hlt1); now apply HeapFacts.list_set_here|].
         split; [reflexivity|]. split; [exact Hnew|]. split; [exact Hdist|exact Hall]. }
    destruct (Nat.eq_dec p2 p1) as [->|Hne].
    + rewrite Hv1. assert (l2 = l1) as -> by congruence.
      assert (added = []) as ->.
      { pose proof (HeapFacts.merge_refs_incl h l1 l1 (incl_refl l1)) as Em.
        rewrite E in Em. rewrite <- (app_nil_r l1) in Em at 2.
        now apply app_inv_head in Em. }
      simpl. now rewrite app_nil_r.
    + unfold Heap.view. cbn [Heap.outer].
      rewrite (nth_error_nth _ _ [] (eq_trans (Hfront p2 Hlt2)
                 (eq_trans (HeapFacts.list_set_other _ _ _ _ Hne) H2))).
      now rewrite (Hnth p2 l2 H2).
  - intros h p l Hp Hv.
    assert (p < List.length (Heap.outer h))%nat as Hlt
        by (apply nth_error_Some; congruence).
    eexists. eexists.
    split; [apply (HeapFacts.pair_sort_effect p l h Hp Hv)|].
    cbn [Heap.inner Heap.outer].
    split; [reflexivity|]. split.
    { rewrite nth_error_app2 by lia. rewrite Nat.sub_diag. simpl. f_equal.
      now apply HeapFacts.sorted_by_inner. }
    split; [intros p' Hp'; now apply nth_error_app1|].
    assert (forall q,
               Heap.content {| Heap.inner := Heap.normalise_all (Heap.inner h) l;
                               Heap.outer := Heap.outer h
                                             ++ [Heap.sorted_by
                                                   {| Heap.inner :=
                                                        Heap.normalise_all (Heap.inner h) l;
                                                      Heap.outer := Heap.outer h |} l] |} q
               = if existsb (Nat.eqb q) l then Heap.normalise (Heap.content h q)
                 else Heap.content h q) as Hc
        by (intros q; unfold Heap.content; cbn [Heap.inner];
            apply HeapFacts.normalise_all_nth).
    split; [exact Hc|].
    unfold Heap.view. cbn [Heap.outer].
    rewrite app_nth1 by exact Hlt.
    rewrite (nth_error_nth _ _ [] Hp), map_map.
    apply map_ext_in. intros q Hq. rewrite Hc.
    assert (existsb (Nat.eqb q) l = true) as ->; [|reflexivity].
    apply existsb_exists. exists q. split; [exact Hq|apply Nat.eqb_refl].
Qed.

(** The two operations on the stores of the refuting example. *)
Lemma pair_merge_pair_sort_effects_witness :
  (exists new h' added,
      Heap.pair_merge 0%nat 1%nat (Heap.mkStore [[0; 1]; [1; 2]]%Z [[0]; [1]]%nat) = (Ok new, h') /\
      Heap.view h' 1%nat = [[1; 2]]%Z /\
      Heap.view h' 0%nat = [[0; 1]]%Z ++ map (Heap.content h') added) /\
  (exists new h',
      Heap.pair_sort 0%nat (Heap.mkStore [[3; 1]; [1; 2]]%Z [[0; 1]]%nat) = (Ok new, h') /\
      Heap.view h' 0%nat = map Heap.normalise [[3; 1]; [1; 2]]%Z).
Proof.
  destruct pair_merge_pair_sort_effects as [HM HS]. split.
  - destruct (HM (Heap.mkStore [[0; 1]; [1; 2]]%Z [[0]; [1]]%nat) 0%nat 1%nat [0%nat] [1%nat])
      as (new & h' & added & E & _ & _ & Hi & _ & V2 & V1 & _);
      [reflexivity|reflexivity|].
    exists new, h', added. split; [exact E|]. split; [exact V2|].
    rewrite V1. unfold Heap.content. rewrite Hi. reflexivity.
  - destruct (HS (Heap.mkStore [[3; 1]; [1; 2]]%Z [[0; 1]]%nat) 0%nat [0%nat; 1%nat])
      as (new & h' & E & _ & _ & _ & _ & V);
      [reflexivity| |].
    + intros q [<-|[<-|[]]]; simpl; lia.
    + exists new, h'. split; [exact E|exact V].
Defined.

(** ** Kruskal's scan *)

Section Kruskal.

Let merge (ci cj : nat) (comp : list nat) : list nat :=
  map (fun c => if Nat.eqb c cj then ci else c) comp.

Let labels (comp : list nat) : list nat := nodup Nat.eq_dec comp.

Lemma merge_length (ci cj : nat) (comp : list nat) :
  List.length (merge ci cj comp) = List.length comp.
Proof. apply length_map. Qed.

Lemma nth_merge (ci cj a : nat) (comp : list nat) :
  (a < List.length comp)%nat ->
  nth a (merge ci cj comp) a
  = if Nat.eqb (nth a comp a) cj then ci else nth a comp a.
Proof.
  intros H. unfold merge.
  set (f := fun c => if Nat.eqb c cj then ci else c).
  rewrite (nth_indep (map f comp) a (f a)) by (now rewrite length_map).
  apply (map_nth f comp a a).
Qed.

(** Merging two components removes exactly one label. *)
Lemma merge_labels (ci cj : nat) (comp : list nat) :
  In ci comp -> In cj comp -> ci <> cj ->
  S (List.length (labels (merge ci cj comp))) = List.length (labels comp).
Proof.
  intros Hi Hj Hne.
  change (List.length (cj :: labels (merge ci cj comp)) = List.length (labels comp)).
  apply Permutation_length, NoDup_Permutation.
  - constructor; [|apply NoDup_nodup].
    unfold labels, merge. rewrite nodup_In, in_map_iff. intros [c [E Hc]].
    destruct (Nat.eqb_spec c cj); congruence.
  - apply NoDup_nodup.
  - intros x. unfold labels, merge. simpl. rewrite !nodup_In, in_map_iff. split.
    + intros [<-|[c [E Hc]]]; [exact Hj|].
      destruct (Nat.eqb_spec c cj); congruence.
    + intros Hx. destruct (Nat.eq_dec cj x) as [E|E]; [now left|right].
      exists x. split; [|exact Hx].
      destruct (Nat.eqb_spec x cj); congruence.
Qed.

Variable n : nat.

Let valid (es : list (nat * nat * float)) : Prop :=
  Forall (fun e => (fst (fst e) < n)%nat /\ (snd (fst e) < n)%nat) es.

(** Every kept entry removes one component. *)
Lemma kruskal_count (es : list (nat * nat * float)) (comp : list nat) :
  List.length comp = n -> valid es ->
  (List.length (kruskal comp es) + List.length (labels (kruskal_labels comp es))
   = List.length (labels comp))%nat.
Proof.
  revert comp. induction es as [|[[i j] w] es IH]; intros comp Hn Hv;
    [reflexivity|].
  apply Forall_cons_iff in Hv as [[Hi Hj] Hv']. simpl in Hi, Hj.
  simpl. destruct (Nat.eqb_spec (nth i comp i) (nth j comp j)) as [E|E].
  - now apply IH.
  - simpl. rewrite <- (merge_labels (nth i comp i) (nth j comp j) comp);
      [|apply nth_In; lia|apply nth_In; lia|exact E].
    rewrite <- (IH (merge (nth i comp i) (nth j comp j) comp));
      [unfold merge; lia|now rewrite merge_length|exact Hv'].
Qed.

Lemma kruskal_labels_length (es : list (nat * nat * float)) (comp : list nat) :
  List.length (kruskal_labels comp es) = List.length comp.
Proof.
  revert comp. induction es as [|[[i j] w] es IH]; intros comp; [reflexivity|].
  simpl. destruct (Nat.eqb _ _); [apply IH|].
  rewrite IH. apply length_map.
Qed.

(** Vertices with the same label keep the same label. *)
Lemma kruskal_labels_mono (es : list (nat * nat * float)) (comp : list nat)
      (a b : nat) :
  List.length comp = n -> (a < n)%nat -> (b < n)%nat ->
  nth a comp a = nth b comp b ->
  nth a (kruskal_labels comp es) a = nth b (kruskal_labels comp es) b.
Proof.
  revert comp. induction es as [|[[i j] w] es IH]; intros comp Hn Ha Hb E;
    [exact E|].
  simpl. destruct (Nat.eqb _ _); [now apply IH|].
  apply IH; [now rewrite length_map|exact Ha|exact Hb|].
  fold (merge (nth i comp i) (nth j comp j) comp).
  rewrite !nth_merge by lia. now rewrite E.
Qed.

(** The two ends of a scanned entry end with the same label. *)
Lemma kruskal_labels_edge (es : list (nat * nat * float)) (comp : list nat)
      (i j : nat) (w : float) :
  List.length comp = n -> valid es -> In (i, j, w) es ->
  nth i (kruskal_labels comp es) i = nth j (kruskal_labels comp es) j.
Proof.
  revert comp. induction es as [|[[i' j'] w'] es IH]; intros comp Hn Hv Hin;
    [destruct Hin|].
  apply Forall_cons_iff in Hv as [[Hi Hj] Hv']. simpl in Hi, Hj.
  destruct Hin as [Heq|Hin].
  - injection Heq as -> -> ->. simpl.
    destruct (Nat.eqb_spec (nth i comp i) (nth j comp j)) as [E|E].
    + now apply kruskal_labels_mono.
    + apply kruskal_labels_mono; [now rewrite length_map|exact Hi|exact Hj|].
      fold (merge (nth i comp i) (nth j comp j) comp).
      rewrite !nth_merge by lia. rewrite Nat.eqb_refl.
      destruct (Nat.eqb_spec (nth i comp i) (nth j comp j)); congruence.
  - simpl. destruct (Nat.eqb _ _); [now apply IH|].
    apply IH; [now rewrite length_map|exact Hv'|exact Hin].
Qed.

Lemma kruskal_incl (es : list (nat * nat * float)) (comp : list nat) (e : nat * nat) :
  In e (kruskal comp es) -> exists w, In (e, w) es.
Proof.
  revert comp. induction es as [|[[i j] w] es IH]; intros comp H; [destruct H|].
  simpl in H. destruct (Nat.eqb _ _).
  - destruct (IH _ H) as [w' Hw]. exists w'. now right.
  - destruct H as [<-|H]; [exists w; now left|].
    destruct (IH _ H) as [w' Hw]. exists w'. now right.
Qed.

(** A kept entry joins two vertices with different labels, so no entry
    with the same ends is kept after it. *)
Lemma kruskal_fresh (es : list (nat * nat * float)) (comp : list nat) (a b : nat) :
  List.length comp = n -> valid es -> (a < n)%nat -> (b < n)%nat ->
  nth a comp a = nth b comp b ->
  ~ In (a, b) (kruskal comp es).
Proof.
  revert comp. induction es as [|[[i j] w] es IH]; intros comp Hn Hv Ha Hb E H;
    [destruct H|].
  apply Forall_cons_iff in Hv as [[Hi Hj] Hv']. simpl in Hi, Hj.
  simpl in H. destruct (Nat.eqb_spec (nth i comp i) (nth j comp j)) as [E'|E'].
  - eapply IH; eauto.
  - destruct H as [H|H].
    + injection H as -> ->. contradiction.
    + eapply (IH (merge (nth i comp i) (nth j comp j) comp)); eauto.
      * now rewrite merge_length.
      * rewrite !nth_merge by lia. now rewrite E.
Qed.

Lemma kruskal_NoDup (es : list (nat * nat * float)) (comp : list nat) :
  List.length comp = n -> valid es -> NoDup (kruskal comp es).
Proof.
  revert comp. induction es as [|[[i j] w] es IH]; intros comp Hn Hv;
    [constructor|].
  apply Forall_cons_iff in Hv as [[Hi Hj] Hv']. simpl in Hi, Hj.
  simpl. destruct (Nat.eqb_spec (nth i comp i) (nth j comp j)) as [E|E].
  - now apply IH.
  - constructor.
    + apply kruskal_fresh; auto.
      * now rewrite length_map.
      * fold (merge (nth i comp i) (nth j comp j) comp).
        rewrite !nth_merge by lia. rewrite Nat.eqb_refl.
        destruct (Nat.eqb_spec (nth i comp i) (nth j comp j)); congruence.
    + apply IH; [now rewrite length_map|exact Hv'].
Qed.

(** Vertices that end with the same label are connected by kept entries
    (together with the entries [kept0] that connect the vertices with the
    same label at the start). *)
Lemma kruskal_connects (es : list (nat * nat * float)) (comp : list nat)
      (kept0 : list (nat * nat)) :
  List.length comp = n -> valid es ->
  (forall a b, (a < n)%nat -> (b < n)%nat ->
               nth a comp a = nth b comp b -> connected kept0 a b) ->
  forall a b, (a < n)%nat -> (b < n)%nat ->
              nth a (kruskal_labels comp es) a = nth b (kruskal_labels comp es) b ->
              connected (kept0 ++ kruskal comp es) a b.
Proof.
  revert comp kept0. induction es as [|[[i j] w] es IH];
    intros comp kept0 Hn Hv H0 a b Ha Hb E.
  - simpl in *. rewrite app_nil_r. auto.
  - apply Forall_cons_iff in Hv as [[Hi Hj] Hv']. simpl in Hi, Hj.
    simpl in E |- *.
    destruct (Nat.eqb_spec (nth i comp i) (nth j comp j)) as [E'|E'].
    + now apply (IH comp kept0).
    + replace (kept0 ++ (i, j) :: kruskal (map _ comp) es)
        with ((kept0 ++ [(i, j)]) ++ kruskal (map (fun c => if Nat.eqb c (nth j comp j) then nth i comp i else c) comp) es)
        by (now rewrite <- app_assoc).
      apply IH; auto; [now rewrite length_map|].
      clear a b Ha Hb E. intros a b Ha Hb E.
      fold (merge (nth i comp i) (nth j comp j) comp) in E.
      rewrite !nth_merge in E by lia.
      assert (forall x y, connected kept0 x y -> connected (kept0 ++ [(i, j)]) x y)
        as Hmono.
      { intros x y Hxy. induction Hxy as [x y Hxy| |x y z _ IH1 _ IH2].
        - apply rt_step. destruct Hxy as [H|H]; [left|right];
            apply in_or_app; now left.
        - apply rt_refl.
        - eapply rt_trans; eauto. }
      assert (connected (kept0 ++ [(i, j)]) i j) as Hij
          by (apply rt_step; left; apply in_or_app; right; now left).
      assert (connected (kept0 ++ [(i, j)]) j i) as Hji
          by (apply rt_step; right; apply in_or_app; right; now left).
      destruct (Nat.eqb_spec (nth a comp a) (nth j comp j)) as [Ea|Ea],
               (Nat.eqb_spec (nth b comp b) (nth j comp j)) as [Eb|Eb].
      * apply Hmono, H0; auto. congruence.
      * (* a with j, b with i *)
        eapply rt_trans; [apply Hmono, (H0 a j); auto|].
        eapply rt_trans; [exact Hji|]. apply Hmono, H0; auto.
      * eapply rt_trans; [apply Hmono, (H0 a i); auto|].
        eapply rt_trans; [exact Hij|]. apply Hmono, H0; auto.
      * apply Hmono, H0; auto.
Qed.

End Kruskal.

(** ** The stored entries of a matrix *)

Lemma enumerate_In {A} (l : list A) (i : nat) (x : A) :
  In (i, x) (enumerate l) <-> nth_error l i = Some x.
Proof.
  unfold enumerate.
  assert (forall s, In (i, x) (combine (seq s (List.length l)) l)
                    <-> (s <= i)%nat /\ nth_error l (i - s) = Some x) as H.
  { induction l as [|a l IH]; intros s; simpl.
    - split; [tauto|]. intros [_ H]. now destruct (i - s)%nat.
    - rewrite IH. split.
      + intros [H|[H1 H2]].
        * injection H as -> ->. rewrite Nat.sub_diag. auto.
        * split; [lia|]. replace (i - s)%nat with (S (i - S s)) by lia. exact H2.
      + intros [H1 H2]. destruct (Nat.eq_dec s i) as [->|Hne].
        * rewrite Nat.sub_diag in H2. simpl in H2. left. congruence.
        * right. split; [lia|].
          replace (i - s)%nat with (S (i - S s)) in H2 by lia. exact H2. }
  rewrite H, Nat.sub_0_r. split; [tauto|]. split; [lia|assumption].
Qed.

Lemma enumerate_fst {A} (l : list A) :
  map fst (enumerate l) = seq 0 (List.length l).
Proof.
  unfold enumerate. generalize 0%nat.
  induction l as [|a l IH]; intros s; simpl; [reflexivity|]. now rewrite IH.
Qed.

Lemma NoDup_flat_map {A B} (f : A -> list B) (l : list A) :
  NoDup l ->
  (forall x, In x l -> NoDup (f x)) ->
  (forall x y b, In x l -> In y l -> In b (f x) -> In b (f y) -> x = y) ->
  NoDup (flat_map f l).
Proof.
  induction 1 as [|a l Ha Hn IH]; intros Hf Hd; simpl; [constructor|].
  apply NoDup_app.
  - apply Hf. now left.
  - apply IH; [intros x Hx; apply Hf; now right|].
    intros x y b Hx Hy. apply Hd; now right.
  - intros b Hb Hb'. apply in_flat_map in Hb' as [y [Hy Hby]].
    assert (a = y) by (apply (Hd a y b); auto; [now left|now right]).
    subst. contradiction.
Qed.

Lemma csr_matrix_In (m : list (list float)) (i j : nat) (w : float) :
  In (i, j, w) (csr_matrix m)
  <-> exists row, nth_error m i = Some row /\ nth_error row j = Some w /\
                  (w =? 0)%float = false.
Proof.
  unfold csr_matrix. rewrite in_flat_map. split.
  - intros [[i' row] [Hr H]]. apply enumerate_In in Hr. simpl in H.
    apply in_flat_map in H as [[j' w'] [Hw H]]. apply enumerate_In in Hw.
    simpl in H. destruct (w' =? 0)%float eqn:E; [destruct H|].
    destruct H as [H|[]]. injection H as -> -> ->. eauto.
  - intros (row & Hr & Hw & E). exists (i, row). split; [now apply enumerate_In|].
    apply in_flat_map. exists (j, w). split; [now apply enumerate_In|].
    simpl. rewrite E. now left.
Qed.

(** No position of the matrix is stored twice. *)
Lemma csr_matrix_NoDup (m : list (list float)) :
  NoDup (map fst (csr_matrix m)).
Proof.
  unfold csr_matrix. rewrite flat_map_concat_map, concat_map, map_map.
  rewrite <- flat_map_concat_map.
  apply NoDup_flat_map.
  - apply (NoDup_map_inv fst). rewrite enumerate_fst. apply seq_NoDup.
  - intros [i row] _. simpl.
    rewrite flat_map_concat_map, concat_map, map_map, <- flat_map_concat_map.
    apply NoDup_flat_map.
    + apply (NoDup_map_inv fst). rewrite enumerate_fst. apply seq_NoDup.
    + intros [j w] _. simpl. destruct (w =? 0)%float; repeat constructor. intros [].
    + intros [j w] [j' w'] b Hx Hy Hb Hb'. simpl in Hb, Hb'.
      apply enumerate_In in Hx, Hy.
      destruct (w =? 0)%float; [destruct Hb|]. destruct Hb as [<-|[]].
      destruct (w' =? 0)%float; [destruct Hb'|]. destruct Hb' as [Hb'|[]].
      injection Hb' as <-. congruence.
  - intros [i row] [i' row'] b Hx Hy Hb Hb'. simpl in Hb, Hb'.
    apply enumerate_In in Hx, Hy.
    apply in_map_iff in Hb as [e [<- He]]. apply in_map_iff in Hb' as [e' [E' He']].
    apply in_flat_map in He as [[j w] [_ He]].
    apply in_flat_map in He' as [[j' w'] [_ He']]. simpl in He, He'.
    destruct (w =? 0)%float; [destruct He|]. destruct He as [<-|[]].
    destruct (w' =? 0)%float; [destruct He'|]. destruct He' as [<-|[]].
    simpl in E'. injection E' as -> _. congruence.
Qed.

Lemma insert_edge_perm (e : nat * nat * float) (l : list (nat * nat * float)) :
  Permutation (insert_edge e l) (e :: l).
Proof.
  induction l as [|e' l IH]; simpl; [reflexivity|].
  destruct (weight_leb e e'); [reflexivity|].
  rewrite IH. apply perm_swap.
Qed.

Lemma argsort_perm (g : list (nat * nat * float)) : Permutation (argsort g) g.
Proof.
  induction g as [|e g IH]; simpl; [reflexivity|].
  rewrite insert_edge_perm. now constructor.
Qed.

Lemma kept_in_spec (kept : list (nat * nat)) (e : nat * nat * float) :
  kept_in kept e = true <-> In (fst e) kept.
Proof.
  unfold kept_in. rewrite existsb_exists. split.
  - intros [[a b] [H E]]. simpl in E. apply andb_prop in E as [E1 E2].
    apply Nat.eqb_eq in E1, E2. destruct e as [[i j] w]. simpl in *. now subst.
  - intros H. exists (fst e). split; [exact H|]. now rewrite !Nat.eqb_refl.
Qed.

Lemma all_equal_nodup (comp : list nat) (c : nat) :
  comp <> [] -> (forall x, In x comp -> x = c) ->
  nodup Nat.eq_dec comp = [c].
Proof.
  induction comp as [|x l IH]; intros Hne Hall; [congruence|].
  assert (x = c) as -> by (apply Hall; now left).
  simpl. destruct l as [|y l].
  - reflexivity.
  - destruct (in_dec Nat.eq_dec c (y :: l)) as [_|Hn].
    + apply IH; [discriminate|]. intros z Hz. apply Hall. now right.
    + exfalso. apply Hn. left. apply Hall. right. now left.
Qed.

Lemma connected_incl {V} (es es' : list (V * V)) (a b : V) :
  incl es es' -> connected es a b -> connected es' a b.
Proof.
  intros H Hc. induction Hc as [x y Hxy| |x y z _ IH1 _ IH2].
  - apply rt_step. destruct Hxy as [Hxy|Hxy]; [left|right]; now apply H.
  - apply rt_refl.
  - eapply rt_trans; eauto.
Qed.

(** ** The spanning tree of a complete graph *)

(** The coordinates of the tree are the stored coordinates that the scan
    kept: whether an entry is kept does not depend on its weight. *)
Lemma minimum_spanning_tree_coordinates (n : nat) (g : list (nat * nat * float)) :
  map fst (minimum_spanning_tree n g) =
  filter (fun ab => kept_in (kruskal (seq 0 n) (argsort g)) (ab, 0%float))
         (map fst g).
Proof.
  unfold minimum_spanning_tree.
  generalize (kruskal (seq 0 n) (argsort g)). intros kept.
  induction g as [|[ab w] g IH]; [reflexivity|].
  cbn [filter map fst].
  change (kept_in kept (ab, w)) with (kept_in kept (ab, 0%float)).
  destruct (kept_in kept (ab, 0%float)); cbn [map fst]; now rewrite IH.
Qed.

Section SpanningTree.

Variable n : nat.
Variable g : list (nat * nat * float).

Hypothesis n_pos : (1 <= n)%nat.
Hypothesis g_valid :
  Forall (fun e => (fst (fst e) < n)%nat /\ (snd (fst e) < n)%nat) g.
Hypothesis g_NoDup : NoDup (map fst g).
Hypothesis g_complete :
  forall i j, (i < n)%nat -> (j < n)%nat -> i <> j -> exists w, In (i, j, w) g.

Let kept := kruskal (seq 0 n) (argsort g).
Let tree := minimum_spanning_tree n g.

Lemma argsort_valid :
  Forall (fun e => (fst (fst e) < n)%nat /\ (snd (fst e) < n)%nat) (argsort g).
Proof.
  eapply Permutation_Forall; [symmetry; apply argsort_perm|exact g_valid].
Qed.

Lemma tree_In (e : nat * nat) : In e (map fst tree) <-> In e kept.
Proof.
  unfold tree, minimum_spanning_tree. fold kept. rewrite in_map_iff. split.
  - intros [x [<- Hx]]. apply filter_In in Hx as [_ Hx]. now apply kept_in_spec.
  - intros H. destruct (kruskal_incl _ _ _ H) as [w Hw].
    exists (e, w). split; [reflexivity|]. apply filter_In. split.
    + eapply Permutation_in; [apply argsort_perm|exact Hw].
    + now apply kept_in_spec.
Qed.

Lemma kept_NoDup : NoDup kept.
Proof.
  apply (kruskal_NoDup n); [apply length_seq|apply argsort_valid].
Qed.

Lemma tree_edges : Permutation (map fst tree) kept.
Proof.
  apply NoDup_Permutation.
  - unfold tree. rewrite minimum_spanning_tree_coordinates.
    now apply NoDup_filter.
  - apply kept_NoDup.
  - apply tree_In.
Qed.

(** At the end of the scan all vertices bear the same label. *)
Lemma final_labels (a b : nat) :
  (a < n)%nat -> (b < n)%nat ->
  nth a (kruskal_labels (seq 0 n) (argsort g)) a
  = nth b (kruskal_labels (seq 0 n) (argsort g)) b.
Proof.
  intros Ha Hb. destruct (Nat.eq_dec a b) as [->|Hne]; [reflexivity|].
  destruct (g_complete a b Ha Hb Hne) as [w Hw].
  apply (kruskal_labels_edge n _ _ a b w);
    [apply length_seq|apply argsort_valid|].
  eapply Permutation_in; [symmetry; apply argsort_perm|exact Hw].
Qed.

Lemma tree_length : List.length tree = (n - 1)%nat.
Proof.
  rewrite <- (length_map fst), (Permutation_length tree_edges).
  pose proof (kruskal_count n (argsort g) (seq 0 n) (length_seq n 0) argsort_valid)
    as Hc.
  cbv beta zeta in Hc. fold kept in Hc.
  rewrite (nodup_fixed_point Nat.eq_dec (seq_NoDup n 0)), length_seq in Hc.
  set (final := kruskal_labels (seq 0 n) (argsort g)) in *.
  assert (List.length final = n) as Hlen
      by (unfold final; now rewrite kruskal_labels_length, length_seq).
  rewrite (all_equal_nodup final (nth 0%nat final 0%nat)) in Hc.
  - simpl in Hc. lia.
  - destruct final; [simpl in Hlen; lia|discriminate].
  - intros x Hx. destruct (In_nth final x x Hx) as [a [Ha Hx']].
    rewrite <- Hx', (nth_indep final x a Ha). apply final_labels; lia.
Qed.

Lemma tree_connected (a b : nat) :
  (a < n)%nat -> (b < n)%nat -> connected (map fst tree) a b.
Proof.
  intros Ha Hb. apply (connected_incl kept).
  - intros e He. now apply tree_In.
  - change kept with ([] ++ kept).
    apply (kruskal_connects n); auto.
    + apply length_seq.
    + apply argsort_valid.
    + intros x y Hx Hy E. rewrite !seq_nth in E by assumption. simpl in E.
      subst. apply rt_refl.
    + now apply final_labels.
Qed.

End SpanningTree.

(** ** The baseline minimum-spanning-tree strategy *)

Lemma date_list2tbase_length
      (strptime_Ymd : string -> res Z) (dateList : list string) (tb : list Z) :
  date_list2tbase strptime_Ymd dateList = Ok tb ->
  List.length tb = List.length dateList.
Proof.
  unfold date_list2tbase. intros H. apply res_bind_Ok in H as [dates [Hd H]].
  apply mapM_length in Hd. unfold yyyymmdd in Hd. rewrite length_map in Hd.
  destruct dates as [|d0 dates]; injection H as <-; [exact Hd|].
  simpl in *. now rewrite length_map.
Qed.

Lemma scaled_tbase_length (tb : list Z) (pbase_list ts : list float) :
  scaled_tbase tb pbase_list = Ok ts -> List.length ts = List.length tb.
Proof.
  unfold scaled_tbase. intros H.
  do 5 (apply res_bind_Ok in H as [? [_ H]]).
  injection H as <-. apply length_map.
Qed.

(** With two temporal baselines or more, the matrix has the size of the
    list of temporal baselines, also when the single perpendicular
    baseline of a one-element list is broadcast. *)
Lemma distance_matrix_square (ts ps : list float) (W : list (list float)) :
  (2 <= List.length ts)%nat ->
  distance_matrix ts ps = Ok W ->
  square (List.length ts) W.
Proof.
  intros H2. unfold distance_matrix.
  destruct (Nat.eqb_spec (List.length ts) (List.length ps)) as [E|E].
  - intros H. injection H as <-.
    assert (List.length (combine ts ps) = List.length ts) as Hc
        by (rewrite length_combine; lia).
    split.
    + now rewrite length_map.
    + apply Forall_map, Forall_forall. intros p _. now rewrite length_map.
  - destruct ts as [|t0 [|t1 ts]]; simpl in H2; try lia.
    destruct ps as [|p0 [|p1 ps]]; try discriminate.
    intros H. injection H as <-. split.
    + simpl. now rewrite length_map.
    + repeat (apply Forall_cons; [simpl; now rewrite length_map|]).
      apply Forall_map, Forall_forall. intros p _. simpl. now rewrite length_map.
Qed.

(** The scale is defined only when two temporal baselines differ. *)
Lemma scaled_tbase_two (tb : list Z) (ps : list float) (ts : list float) :
  scaled_tbase tb ps = Ok ts -> (2 <= List.length tb)%nat.
Proof.
  unfold scaled_tbase. intros H.
  apply res_bind_Ok in H as [pmax [_ H]].
  apply res_bind_Ok in H as [pmin [_ H]].
  destruct tb as [|x [|y tb]]; [discriminate H| |simpl; lia].
  exfalso. cbn [py_max_int py_min_int fold_left res_bind] in H.
  rewrite Z.sub_diag in H. unfold py_truediv in H.
  change (float_of_Z 0 =? 0)%float with true in H. discriminate H.
Qed.

Lemma mat_get_nth_error (n : nat) (W : list (list float)) (i j : nat) :
  square n W -> (i < n)%nat -> (j < n)%nat ->
  exists row, nth_error W i = Some row /\ nth_error row j = Some (mat_get W i j).
Proof.
  intros Hsq Hi Hj. pose proof Hsq as [Hl Hr].
  exists (nth i W []). split.
  - apply nth_error_nth'. lia.
  - unfold mat_get. apply nth_error_nth'. now rewrite (square_row n).
Qed.

Lemma csr_matrix_valid (n : nat) (W : list (list float)) :
  square n W ->
  Forall (fun e => (fst (fst e) < n)%nat /\ (snd (fst e) < n)%nat) (csr_matrix W).
Proof.
  intros [Hl Hr]. apply Forall_forall. intros [[i j] w] H.
  apply csr_matrix_In in H as (row & Hi & Hj & _). simpl.
  rewrite Forall_forall in Hr.
  split.
  - rewrite <- Hl. apply nth_error_Some. congruence.
  - rewrite <- (Hr row) by (eapply nth_error_In; eauto).
    apply nth_error_Some. congruence.
Qed.

Section MstNetwork.

Variable strptime_Ymd : string -> res Z.
Variable date_list : list string.
Variable pbase_list : list float.
Variable tb : list Z.
Variable ts : list float.
Variable W : list (list float).

Hypothesis tbase_Ok :
  date_list2tbase strptime_Ymd (yyyymmdd date_list) = Ok tb.
Hypothesis scaled_Ok : scaled_tbase tb pbase_list = Ok ts.
Hypothesis weights_Ok : distance_matrix ts pbase_list = Ok W.
Hypothesis weights_nonzero :
  forall i j, (i < List.length date_list)%nat -> (j < List.length date_list)%nat ->
              i <> j -> (mat_get W i j =? 0)%float = false.

Let n := List.length date_list.
Let date6 (i : nat) : string := nth i (yymmdd date_list) EmptyString.
Let tree := minimum_spanning_tree n (csr_matrix W).
Let name (e : nat * nat * float) : string :=
  date12 (date6 (Nat.min (snd (fst e)) (fst (fst e))))
         (date6 (Nat.max (snd (fst e)) (fst (fst e)))).

Lemma ts_length : List.length ts = n.
Proof.
  rewrite (scaled_tbase_length _ _ _ scaled_Ok).
  rewrite (date_list2tbase_length _ _ _ tbase_Ok).
  unfold yyyymmdd. apply length_map.
Qed.

Lemma n_two : (2 <= n)%nat.
Proof.
  pose proof (scaled_tbase_two _ _ _ scaled_Ok) as H.
  rewrite (date_list2tbase_length _ _ _ tbase_Ok) in H.
  unfold yyyymmdd in H. now rewrite length_map in H.
Qed.

Lemma W_square : square n W.
Proof.
  rewrite <- ts_length. apply (distance_matrix_square _ pbase_list).
  - rewrite ts_length. apply n_two.
  - exact weights_Ok.
Qed.

Lemma n_positive : (1 <= n)%nat.
Proof. pose proof n_two. lia. Qed.

Lemma weights_complete (i j : nat) :
  (i < n)%nat -> (j < n)%nat -> i <> j -> exists w, In (i, j, w) (csr_matrix W).
Proof.
  intros Hi Hj Hne. exists (mat_get W i j). apply csr_matrix_In.
  destruct (mat_get_nth_error n W i j W_square Hi Hj) as (row & Hr & Hw).
  exists row. split; [exact Hr|]. split; [exact Hw|]. now apply weights_nonzero.
Qed.

Lemma tree_valid (e : nat * nat * float) :
  In e tree -> (fst (fst e) < n)%nat /\ (snd (fst e) < n)%nat.
Proof.
  intros H. unfold tree, minimum_spanning_tree in H. apply filter_In in H as [H _].
  pose proof (csr_matrix_valid n W W_square) as Hv. rewrite Forall_forall in Hv. auto.
Qed.

Lemma select_pairs_mst_Ok :
  select_pairs_mst strptime_Ymd date_list pbase_list = Ok (map name tree).
Proof.
  unfold select_pairs_mst. rewrite tbase_Ok. simpl. rewrite scaled_Ok. simpl.
  rewrite weights_Ok. simpl.
  replace (List.length W) with n by (symmetry; apply W_square).
  fold tree. apply mapM_Ok_iff. intros e He.
  destruct (tree_valid e He) as [H1 H2].
  assert (List.length (yymmdd date_list) = n) as Hl by apply length_map.
  rewrite (getitem_nth _ _ EmptyString) by lia. simpl.
  rewrite (getitem_nth _ _ EmptyString) by lia. reflexivity.
Qed.

Lemma joined_linked (x y : nat) :
  joined (map fst tree) x y -> linked (map name tree) (date6 x) (date6 y).
Proof.
  assert (forall a b, In (a, b) (map fst tree) ->
                      linked (map name tree) (date6 a) (date6 b)) as H.
  { intros a b Hab. apply in_map_iff in Hab as [e [E He]].
    assert (In (name e) (map name tree)) as Hn by now apply in_map.
    unfold name in Hn. rewrite E in Hn. simpl in Hn.
    destruct (Nat.le_gt_cases a b) as [Hle|Hgt].
    - left. now rewrite Nat.min_r, Nat.max_l in Hn by lia.
    - right. now rewrite Nat.min_l, Nat.max_r in Hn by lia. }
  intros [Hxy|Hyx]; [now apply H|].
  destruct (H y x Hyx) as [H'|H']; [now right|now left].
Qed.

Lemma connected_network (i j : nat) :
  connected (map fst tree) i j ->
  network_connected (map name tree) (date6 i) (date6 j).
Proof.
  intros Hc. unfold connected in Hc.
  induction Hc as [x y Hxy|x|x y z _ IH1 _ IH2].
  - apply rt_step. now apply joined_linked.
  - apply rt_refl.
  - eapply rt_trans; eauto.
Qed.

Lemma select_pairs_mst_connected (a b : string) :
  In a (yymmdd date_list) -> In b (yymmdd date_list) ->
  network_connected (map name tree) a b.
Proof.
  intros Ha Hb.
  assert (List.length (yymmdd date_list) = n) as Hl by apply length_map.
  destruct (In_nth _ _ EmptyString Ha) as [i [Hi <-]].
  destruct (In_nth _ _ EmptyString Hb) as [j [Hj <-]].
  apply connected_network.
  apply tree_connected; try lia;
    first [apply n_positive | apply csr_matrix_valid, W_square
          | apply csr_matrix_NoDup | apply weights_complete].
Qed.

Lemma select_pairs_mst_length : List.length (map name tree) = (n - 1)%nat.
Proof.
  rewrite length_map.
  apply tree_length;
    first [apply n_positive | apply csr_matrix_valid, W_square
          | apply csr_matrix_NoDup | apply weights_complete].
Qed.

End MstNetwork.

(** C4 (as stated, refuted). Two dates with the same perpendicular
    baseline: all distances are zero, no entry is stored, and the strategy
    returns no pair. *)
Lemma select_pairs_mst_equal_baselines :
  select_pairs_mst ordinal_Ymd8 ["20170101"; "20170113"] [0; 0]%float = Ok [].
Proof. vm_compute. reflexivity. Qed.

(** C4 (amended). For a registry of [n] dates whose pairwise distances in
    the scaled (temporal, perpendicular) baseline plane are all different
    from zero, the baseline minimum-spanning-tree strategy returns exactly
    [n - 1] pairs, and every date is connected to every other date by the
    returned pairs. *)
Theorem select_pairs_mst_spanning
        (strptime_Ymd : string -> res Z)
        (date_list : list string) (pbase_list : list float)
        (tb : list Z) (ts : list float) (W : list (list float)) :
  date_list2tbase strptime_Ymd (yyyymmdd date_list) = Ok tb ->
  scaled_tbase tb pbase_list = Ok ts ->
  distance_matrix ts pbase_list = Ok W ->
  (forall i j, (i < List.length date_list)%nat -> (j < List.length date_list)%nat ->
               i <> j -> (mat_get W i j =? 0)%float = false) ->
  exists date12_list,
    select_pairs_mst strptime_Ymd date_list pbase_list = Ok date12_list /\
    List.length date12_list = (List.length date_list - 1)%nat /\
    forall a b, In a (yymmdd date_list) -> In b (yymmdd date_list) ->
                network_connected date12_list a b.
Proof.
  intros H1 H2 H3 H4. eexists. split; [|split].
  - eapply select_pairs_mst_Ok; eassumption.
  - eapply select_pairs_mst_length; eassumption.
  - intros a b. eapply select_pairs_mst_connected; eassumption.
Qed.

(** The three dates of the design document's example, with perpendicular
    baselines 0, 50 and -30. *)
Lemma select_pairs_mst_spanning_witness :
  exists date12_list,
    select_pairs_mst ordinal_Ymd8 ["20170101"; "20170113"; "20170125"]
                     [0; 50; -30]%float = Ok date12_list /\
    List.length date12_list = 2%nat /\
    network_connected date12_list "170113" "170125".
Proof.
  pose (tb := match date_list2tbase ordinal_Ymd8
                      (yyyymmdd ["20170101"; "20170113"; "20170125"]) with
              | Ok v => v
              | Raise _ => []
              end).
  pose (ts := match scaled_tbase tb [0; 50; -30]%float with
              | Ok v => v
              | Raise _ => []
              end).
  pose (W := match distance_matrix ts [0; 50; -30]%float with
             | Ok v => v
             | Raise _ => []
             end).
  destruct (select_pairs_mst_spanning
              ordinal_Ymd8 ["20170101"; "20170113"; "20170125"]
              [0; 50; -30]%float tb ts W)
    as (l & E & Hlen & Hcon).
  - vm_compute. reflexivity.
  - vm_compute. reflexivity.
  - vm_compute. reflexivity.
  - intros i j Hi Hj Hne.
    destruct i as [|[|[|i]]]; destruct j as [|[|[|j]]];
      simpl in Hi, Hj; try lia; vm_compute; reflexivity.
  - exists l. split; [exact E|]. split; [exact Hlen|].
    apply Hcon; simpl; auto.
Defined.

(** * Further properties

    ** Date formats of ptime.py *)

Lemma yymmdd_str_idem (d : string) : yymmdd_str (yymmdd_str d) = yymmdd_str d.
Proof.
  pose proof (yymmdd_str_not8 d) as H.
  unfold yymmdd_str at 1.
  destruct (Nat.eqb_spec (String.length (yymmdd_str d)) 8); [contradiction|reflexivity].
Qed.

Lemma yyyymmdd_str_not6 (d : string) : String.length (yyyymmdd_str d) <> 6%nat.
Proof.
  unfold yyyymmdd_str. destruct (Nat.eqb_spec (String.length d) 6) as [E|E]; [|exact E].
  destruct (yymmdd2yyyymmdd_cases d) as [-> | ->]; simpl; lia.
Qed.

(** The 8-digit form of a date that is not written with eight characters
    gives the date back: [yymmdd] undoes [yyyymmdd]. *)
Theorem yymmdd_yyyymmdd_roundtrip (dates : list string) :
  Forall (fun d => String.length d <> 8%nat) dates ->
  yymmdd (yyyymmdd dates) = dates.
Proof.
  intros H. unfold yymmdd, yyyymmdd. rewrite map_map.
  apply map_id_in. intros d Hd. apply yymmdd_yyyymmdd_not8.
  rewrite Forall_forall in H. now apply H.
Qed.

Lemma yymmdd_yyyymmdd_roundtrip_witness :
  yymmdd (yyyymmdd ["990101"; "000101"; "170113"]) = ["990101"; "000101"; "170113"].
Proof.
  apply yymmdd_yyyymmdd_roundtrip.
  repeat constructor; simpl; lia.
Defined.

Lemma century_form_roundtrip (d : string) :
  century_form d -> yyyymmdd_str (yymmdd_str d) = d.
Proof.
  intros (c & r & Hr & ->).
  assert (substring 0 5 r = r) as Hs by (rewrite <- Hr; apply substring_all).
  assert (String.length (String c r) = 6%nat) as H6 by (simpl; lia).
  destruct (Ascii.eqb_spec c "9") as [->|Hc].
  - unfold yymmdd_str. cbn [append String.length]. rewrite Hr.
    cbn [Nat.eqb substring]. rewrite Hs.
    unfold yyyymmdd_str. rewrite H6. reflexivity.
  - unfold yymmdd_str. cbn [append String.length]. rewrite Hr.
    cbn [Nat.eqb substring]. rewrite Hs.
    unfold yyyymmdd_str. rewrite H6. cbn [Nat.eqb].
    unfold yymmdd2yyyymmdd.
    destruct c as [[] [] [] [] [] [] [] []]; try reflexivity.
    now contradiction Hc.
Qed.

(** For 8-character dates of the century that [yymmdd2yyyymmdd] chooses
    (19 before a year in the nineties, 20 otherwise), [yyyymmdd] undoes
    [yymmdd]. *)
Theorem yyyymmdd_yymmdd_roundtrip (dates : list string) :
  Forall century_form dates -> yyyymmdd (yymmdd dates) = dates.
Proof.
  intros H. unfold yymmdd, yyyymmdd. rewrite map_map.
  apply map_id_in. intros d Hd. apply century_form_roundtrip.
  rewrite Forall_forall in H. now apply H.
Qed.

Lemma yyyymmdd_yymmdd_roundtrip_witness :
  yyyymmdd (yymmdd ["19990101"; "20170113"]) = ["19990101"; "20170113"].
Proof.
  apply yyyymmdd_yymmdd_roundtrip.
  repeat constructor.
  - exists "9"%char, "90101". split; reflexivity.
  - exists "1"%char, "70113". split; reflexivity.
Defined.

(** Both conversions normalise: [yyyymmdd] leaves no 6-character string,
    [yymmdd] no 8-character string, and applying either twice is the same
    as applying it once. *)
Theorem date_format_normal (dates : list string) :
  Forall (fun d => String.length d <> 6%nat) (yyyymmdd dates) /\
  Forall (fun d => String.length d <> 8%nat) (yymmdd dates) /\
  yyyymmdd (yyyymmdd dates) = yyyymmdd dates /\
  yymmdd (yymmdd dates) = yymmdd dates.
Proof.
  unfold yyyymmdd, yymmdd. repeat split.
  - apply Forall_map, Forall_forall. intros d _. apply yyyymmdd_str_not6.
  - apply Forall_map, Forall_forall. intros d _. apply yymmdd_str_not8.
  - rewrite map_map. apply map_ext. intros d. apply yyyymmdd_str_idem.
  - rewrite map_map. apply map_ext. intros d. apply yymmdd_str_idem.
Qed.

(** ** Pair identifiers in the two formats *)

Lemma free_of_app (c : ascii) (s t : string) :
  free_of c (s ++ t) = free_of c s && free_of c t.
Proof.
  induction s as [|d s IH]; [reflexivity|].
  cbn [append free_of]. rewrite IH. apply andb_assoc.
Qed.

Lemma clean_yyyymmdd_str (d : string) : clean d -> clean (yyyymmdd_str d).
Proof.
  intros [H1 H2]. unfold yyyymmdd_str.
  destruct (Nat.eqb (String.length d) 6); [|now split].
  destruct (yymmdd2yyyymmdd_cases d) as [-> | ->];
    split; rewrite free_of_app; (rewrite H1 || rewrite H2); reflexivity.
Qed.

Lemma date12_part_joined (sep : ascii) (k : nat) (a b : string) :
  sep = "-"%char \/ sep = "_"%char ->
  clean a -> clean b ->
  date12_part k (a ++ String sep b) = match k with
                                      | 0%nat => Ok a
                                      | 1%nat => Ok b
                                      | _ => Raise IndexError
                                      end.
Proof.
  intros Hsep [Ha1 Ha2] [Hb1 Hb2]. unfold date12_part.
  assert (replace "-" "_" (a ++ String sep b) = (a ++ String "_" b)%string) as ->.
  { rewrite replace_app. cbn [replace].
    rewrite (replace_free _ _ a Ha1), (replace_free _ _ b Hb1).
    destruct Hsep as [-> | ->]; reflexivity. }
  rewrite split_app by exact Ha2. rewrite split_free by exact Hb2.
  destruct k as [|[|k]]; try reflexivity. now destruct k.
Qed.

Lemma mapM_date12_part_joined (sep : ascii) (pairs : list (string * string)) :
  sep = "-"%char \/ sep = "_"%char ->
  Forall (fun p => clean (fst p) /\ clean (snd p)) pairs ->
  mapM (date12_part 0) (map (fun p => (fst p ++ String sep (snd p))%string) pairs)
  = Ok (map fst pairs) /\
  mapM (date12_part 1) (map (fun p => (fst p ++ String sep (snd p))%string) pairs)
  = Ok (map snd pairs).
Proof.
  intros Hsep H. split; rewrite mapM_map;
    (erewrite mapM_ext; [apply mapM_Ok|]);
    intros p Hp; rewrite Forall_forall in H; destruct (H p Hp) as [Ha Hb];
    now rewrite date12_part_joined.
Qed.

Lemma date12_formats (pairs : list (string * string)) :
  Forall (fun p => (clean (fst p) /\ String.length (fst p) <> 8%nat) /\
                   (clean (snd p) /\ String.length (snd p) <> 8%nat)) pairs ->
  let ids := map (fun p => date12 (fst p) (snd p)) pairs in
  let ids8 := map (fun p => (yyyymmdd_str (fst p) ++ "_" ++ yyyymmdd_str (snd p))%string)
                  pairs in
  yyyymmdd_date12 ids = Ok ids8 /\ yymmdd_date12 ids8 = Ok ids.
Proof.
  intros H ids ids8. split.
  - apply yyyymmdd_date12_joined. eapply Forall_impl; [|exact H].
    intros p [[H1 _] [H2 _]]. now split.
  - unfold yymmdd_date12, ids8, ids.
    pose (pairs8 := map (fun p => (yyyymmdd_str (fst p), yyyymmdd_str (snd p))) pairs).
    assert (map (fun p => (yyyymmdd_str (fst p) ++ "_" ++ yyyymmdd_str (snd p))%string)
                pairs
            = map (fun p => (fst p ++ String "_" (snd p))%string) pairs8) as ->
        by (unfold pairs8; rewrite map_map; reflexivity).
    destruct (mapM_date12_part_joined "_" pairs8) as [E0 E1].
    { now right. }
    { unfold pairs8. apply Forall_map. eapply Forall_impl; [|exact H].
      intros p [[H1 _] [H2 _]]. split; now apply clean_yyyymmdd_str. }
    rewrite E0, E1. cbn [res_bind]. f_equal.
    unfold yymmdd.
    assert (map fst pairs8 = map yyyymmdd_str (map fst pairs)) as ->
        by (unfold pairs8; rewrite !map_map; reflexivity).
    assert (map snd pairs8 = map yyyymmdd_str (map snd pairs)) as ->
        by (unfold pairs8; rewrite !map_map; reflexivity).
    rewrite (map_map yyyymmdd_str yymmdd_str (map fst pairs)).
    rewrite (map_map yyyymmdd_str yymmdd_str (map snd pairs)).
    rewrite (combine_map_fst_snd
               (fun a => yymmdd_str (yyyymmdd_str a))
               (fun b => yymmdd_str (yyyymmdd_str b)) pairs).
    rewrite map_map. apply map_ext_in. intros p Hp.
    rewrite Forall_forall in H. destruct (H p Hp) as [[_ Ha] [_ Hb]].
    cbn [fst snd]. now rewrite !yymmdd_yyyymmdd_not8.
Qed.

(** The 8-digit form of a list of 6-digit identifiers is converted back to
    the list itself: [yymmdd_date12] undoes [yyyymmdd_date12]. *)
Theorem date12_format_roundtrip (pairs : list (string * string)) :
  Forall (fun p => (clean (fst p) /\ String.length (fst p) <> 8%nat) /\
                   (clean (snd p) /\ String.length (snd p) <> 8%nat)) pairs ->
  let ids := map (fun p => date12 (fst p) (snd p)) pairs in
  let ids8 := map (fun p => (yyyymmdd_str (fst p) ++ "_" ++ yyyymmdd_str (snd p))%string)
                  pairs in
  yyyymmdd_date12 ids = Ok ids8 /\ yymmdd_date12 ids8 = Ok ids.
Proof. exact (date12_formats pairs). Qed.

Lemma date12_format_roundtrip_witness :
  yyyymmdd_date12 ["990101-000101"; "170101-170113"]
  = Ok ["19990101_20000101"; "20170101_20170113"] /\
  yymmdd_date12 ["19990101_20000101"; "20170101_20170113"]
  = Ok ["990101-000101"; "170101-170113"].
Proof.
  apply (date12_format_roundtrip [("990101", "000101"); ("170101", "170113")]).
  repeat constructor; simpl; try reflexivity; lia.
Defined.

Lemma split_two (sep : ascii) (s : string) :
  free_of sep s = false -> (2 <= List.length (split sep s))%nat.
Proof.
  induction s as [|c s IH]; [discriminate|].
  cbn [free_of split]. destruct (Ascii.eqb c sep).
  - intros _. pose proof (split_length sep s). simpl. lia.
  - intros H. specialize (IH H).
    destruct (split sep s) as [|p ps]; simpl in *; lia.
Qed.

Lemma free_of_replace (i : string) :
  free_of "_" (replace "-" "_" i) = free_of "-" i && free_of "_" i.
Proof.
  induction i as [|c i IH]; [reflexivity|].
  cbn [replace free_of]. rewrite IH.
  destruct (Ascii.eqb_spec c "-") as [->|H1]; [reflexivity|].
  now destruct (Ascii.eqb c "_"), (free_of "-" i), (free_of "_" i).
Qed.

Lemma date12_part_0_Ok (i : string) : exists d, date12_part 0 i = Ok d.
Proof.
  unfold date12_part. pose proof (split_length "_" (replace "-" "_" i)) as H.
  destruct (split "_" (replace "-" "_" i)) as [|d l]; [simpl in H; lia|].
  now exists d.
Qed.

Lemma date12_part_1_cases (i : string) :
  if free_of "-" i && free_of "_" i
  then date12_part 1 i = Raise IndexError
  else exists d, date12_part 1 i = Ok d.
Proof.
  unfold date12_part. rewrite <- free_of_replace.
  destruct (free_of "_" (replace "-" "_" i)) eqn:E.
  - now rewrite split_free.
  - apply split_two in E.
    destruct (split "_" (replace "-" "_" i)) as [|d [|d' l]]; simpl in E; try lia.
    now exists d'.
Qed.

Lemma mapM_total {A B} (f : A -> res B) (l : list A) :
  (forall x, In x l -> exists y, f x = Ok y) ->
  exists ys, mapM f l = Ok ys /\ List.length ys = List.length l.
Proof.
  induction l as [|x l IH]; intros H; [now exists []|].
  destruct (H x (or_introl eq_refl)) as [y Hy].
  destruct IH as (ys & E & Hl); [intros z Hz; apply H; now right|].
  exists (y :: ys). cbn [mapM]. rewrite Hy, E. simpl. now rewrite Hl.
Qed.

Lemma mapM_Raise {A B} (f : A -> res B) (e : exn) (l : list A) :
  (forall x, In x l -> f x = Raise e \/ exists y, f x = Ok y) ->
  List.Exists (fun x => f x = Raise e) l ->
  mapM f l = Raise e.
Proof.
  induction l as [|x l IH]; intros H Hex; [inversion Hex|].
  cbn [mapM]. destruct (H x (or_introl eq_refl)) as [E|[y E]]; rewrite E; [reflexivity|].
  cbn [res_bind]. inversion Hex as [? ? Hx|? ? Hx]; subst; [congruence|].
  rewrite IH; [reflexivity| |exact Hx]. intros z Hz. apply H. now right.
Qed.

(** The two conversions read an identifier at its first ["-"] or ["_"]:
    they return a list of the same length when every identifier holds a
    separator, and raise [IndexError] when one holds none. *)
Theorem date12_conversion_separator (l : list string) :
  (Forall (fun i => free_of "-" i && free_of "_" i = false) l ->
   (exists y, yyyymmdd_date12 l = Ok y /\ List.length y = List.length l) /\
   (exists y, yymmdd_date12 l = Ok y /\ List.length y = List.length l)) /\
  (List.Exists (fun i => free_of "-" i && free_of "_" i = true) l ->
   yyyymmdd_date12 l = Raise IndexError /\ yymmdd_date12 l = Raise IndexError).
Proof.
  destruct (mapM_total (date12_part 0) l) as (ms & Em & Hm);
    [intros i _; apply date12_part_0_Ok|].
  split.
  - intros H.
    destruct (mapM_total (date12_part 1) l) as (ss & Es & Hs).
    { intros i Hi. rewrite Forall_forall in H. specialize (H i Hi).
      pose proof (date12_part_1_cases i) as C. now rewrite H in C. }
    unfold yyyymmdd_date12, yymmdd_date12. rewrite Em, Es. cbn [res_bind].
    split; eexists; (split; [reflexivity|]);
      rewrite length_map, length_combine; unfold yyyymmdd, yymmdd;
      rewrite !length_map; lia.
  - intros H.
    assert (mapM (date12_part 1) l = Raise IndexError) as Es.
    { apply mapM_Raise.
      - intros i _. pose proof (date12_part_1_cases i) as C.
        destruct (free_of "-" i && free_of "_" i); auto.
      - eapply Exists_impl; [|exact H]. intros i Hi.
        pose proof (date12_part_1_cases i) as C. now rewrite Hi in C. }
    unfold yyyymmdd_date12, yymmdd_date12. rewrite Em, Es. now split.
Qed.

Lemma date12_conversion_separator_witness :
  (exists y, yymmdd_date12 ["20170101_20170113"; "170101-170125"] = Ok y /\
             List.length y = 2%nat) /\
  yymmdd_date12 ["170101-170113"; "170101170125"] = Raise IndexError.
Proof.
  split.
  - apply (date12_conversion_separator ["20170101_20170113"; "170101-170125"]).
    repeat constructor.
  - apply (date12_conversion_separator ["170101-170113"; "170101170125"]).
    apply Exists_cons_tl, Exists_cons_hd. reflexivity.
Defined.

(** ** Temporal baselines *)

Section TemporalBaselines.

Variable strptime_Ymd : string -> res Z.

Lemma strptime_ordinal (dates : list string) :
  (forall d, In d dates -> exists o, strptime_Ymd (yyyymmdd_str d) = Ok o) ->
  mapM strptime_Ymd (yyyymmdd dates) = Ok (map (ordinal strptime_Ymd) dates).
Proof.
  intros H. unfold yyyymmdd. rewrite mapM_map. apply mapM_Ok_iff.
  intros d Hd. destruct (H d Hd) as [o E]. unfold ordinal. now rewrite E.
Qed.

Lemma date_list2tbase_Ok (dates : list string) :
  (forall d, In d dates -> exists o, strptime_Ymd (yyyymmdd_str d) = Ok o) ->
  date_list2tbase strptime_Ymd dates
  = Ok (map (fun d => (ordinal strptime_Ymd d
                       - ordinal strptime_Ymd (hd EmptyString dates))%Z) dates).
Proof.
  intros H. unfold date_list2tbase. rewrite (strptime_ordinal dates H).
  cbn [res_bind]. destruct dates as [|d0 dates]; [reflexivity|].
  cbn [map hd]. now rewrite map_map.
Qed.

End TemporalBaselines.

(** When the parser accepts every date, [date_list2tbase] returns one
    baseline per date, in order: the number of days from the first date of
    the list (0 for the first date, negative for an earlier date). *)
Theorem date_list2tbase_spec
        (strptime_Ymd : string -> res Z) (dates : list string) :
  (forall d, In d dates -> exists o, strptime_Ymd (yyyymmdd_str d) = Ok o) ->
  exists tbase,
    date_list2tbase strptime_Ymd dates = Ok tbase /\
    List.length tbase = List.length dates /\
    forall i d, nth_error dates i = Some d ->
                nth_error tbase i
                = Some (ordinal strptime_Ymd d
                        - ordinal strptime_Ymd (hd EmptyString dates))%Z.
Proof.
  intros H. eexists. split; [now apply date_list2tbase_Ok|].
  split; [apply length_map|].
  intros i d Hi. now rewrite nth_error_map, Hi.
Qed.

Lemma date_list2tbase_spec_witness :
  date_list2tbase ordinal_Ymd8 ["170113"; "20170101"; "170125"] = Ok [0; -12; 12]%Z.
Proof.
  destruct (date_list2tbase_spec ordinal_Ymd8 ["170113"; "20170101"; "170125"])
    as (tb & E & Hl & Hn).
  - intros d [<-|[<-|[<-|[]]]]; eexists; vm_compute; reflexivity.
  - rewrite E. f_equal.
    destruct tb as [|a [|b [|c [|? ?]]]]; try discriminate Hl.
    pose proof (Hn 0%nat _ eq_refl) as H0.
    pose proof (Hn 1%nat _ eq_refl) as H1.
    pose proof (Hn 2%nat _ eq_refl) as H2.
    vm_compute in H0, H1, H2. congruence.
Defined.

(** A date that the parser rejects makes [date_list2tbase] raise the
    parser's exception. *)
Theorem date_list2tbase_rejects
        (strptime_Ymd : string -> res Z) (dates : list string) (e : exn) :
  (forall d, In d dates -> strptime_Ymd (yyyymmdd_str d) = Raise e \/
                           exists o, strptime_Ymd (yyyymmdd_str d) = Ok o) ->
  List.Exists (fun d => strptime_Ymd (yyyymmdd_str d) = Raise e) dates ->
  date_list2tbase strptime_Ymd dates = Raise e.
Proof.
  intros H Hex. unfold date_list2tbase, yyyymmdd. rewrite mapM_map.
  rewrite (mapM_Raise (fun d => strptime_Ymd (yyyymmdd_str d)) e dates H Hex).
  reflexivity.
Qed.

Lemma date_list2tbase_rejects_witness :
  date_list2tbase ordinal_Ymd8 ["170113"; "170231"] = Raise ValueError.
Proof.
  apply date_list2tbase_rejects.
  - intros d [<-|[<-|[]]]; [right; eexists|left]; vm_compute; reflexivity.
  - apply Exists_cons_tl, Exists_cons_hd. vm_compute. reflexivity.
Defined.

(** ** The threshold filters *)

(** Without the seasonal exception, the temporal filter keeps, in the
    order of the input, exactly the pairs whose absolute temporal baseline
    lies between [btemp_min] and [btemp_max]. *)
Theorem threshold_temporal_baseline_window
        (strptime_Ymd : string -> res Z) (l : list string)
        (btemp_max btemp_min : float) :
  Forall (readable strptime_Ymd) l ->
  threshold_temporal_baseline strptime_Ymd l btemp_max false btemp_min
  = Ok (filter (fun d12 =>
                  (btemp_min <=? float_of_Z (tbase_of strptime_Ymd d12))
                  && (float_of_Z (tbase_of strptime_Ymd d12) <=? btemp_max))
               l).
Proof.
  intros H. rewrite threshold_temporal_baseline_readable by exact H.
  f_equal. apply filter_ext. intros d12. unfold temporal_keep.
  cbn [andb]. apply orb_false_r.
Qed.

Lemma threshold_temporal_baseline_window_witness :
  threshold_temporal_baseline
    ordinal_Ymd8 ["170101-170113"; "170101-171201"; "170113-170125"] 200 false 0
  = Ok ["170101-170113"; "170113-170125"].
Proof.
  rewrite threshold_temporal_baseline_window.
  - vm_compute. reflexivity.
  - repeat constructor.
    + exists "170101", "170113". repeat split; try (simpl; lia);
        eexists; vm_compute; reflexivity.
    + exists "170101", "171201". repeat split; try (simpl; lia);
        eexists; vm_compute; reflexivity.
    + exists "170113", "170125". repeat split; try (simpl; lia);
        eexists; vm_compute; reflexivity.
Defined.

(** The temporal filter returns a list exactly when every identifier is
    readable: two parts around one ["-"], neither of eight characters,
    both accepted by the date parser.  Otherwise it raises. *)
Theorem threshold_temporal_baseline_returns
        (strptime_Ymd : string -> res Z) (l : list string)
        (btemp_max : float) (keep_seasonal : bool) (btemp_min : float) :
  (exists y, threshold_temporal_baseline strptime_Ymd l btemp_max keep_seasonal
                                         btemp_min = Ok y)
  <-> Forall (readable strptime_Ymd) l.
Proof.
  split.
  - intros [y H]. eapply threshold_temporal_baseline_Ok_readable. exact H.
  - intros H. eexists. now apply threshold_temporal_baseline_readable.
Qed.

Lemma perp_test_pure (date6_list : list string) (pbase_list : list float)
      (pbase_max pbase_min : float) (date_list : list string) (d12 : string) :
  date6_list = yymmdd date_list ->
  (List.length date_list <= List.length pbase_list)%nat ->
  (exists d1 d2, split "-" d12 = [d1; d2] /\
                 In d1 date6_list /\ In d2 date6_list) ->
  ('(date1, date2) <- unpack2 (split "-" d12) ;;
   idx1 <- index date1 date6_list ;;
   idx2 <- index date2 date6_list ;;
   p1 <- getitem pbase_list idx1 ;;
   p2 <- getitem pbase_list idx2 ;;
   let pbase := abs (p1 - p2) in
   Ok ((pbase_min <=? pbase) && (pbase <=? pbase_max)))
  = Ok ((pbase_min <=? pbase_gap date_list pbase_list d12)
        && (pbase_gap date_list pbase_list d12 <=? pbase_max)).
Proof.
  intros -> Hlen (d1 & d2 & Hs & H1 & H2).
  unfold pbase_gap, part. rewrite Hs. cbn [unpack2 res_bind nth].
  destruct (position_spec _ _ H1) as (E1 & _ & L1).
  destruct (position_spec _ _ H2) as (E2 & _ & L2).
  rewrite E1. cbn [res_bind]. rewrite E2. cbn [res_bind].
  unfold yymmdd in L1, L2. rewrite length_map in L1, L2.
  rewrite (getitem_nth pbase_list _ nan) by (unfold yymmdd in *; lia).
  cbn [res_bind].
  rewrite (getitem_nth pbase_list _ nan) by (unfold yymmdd in *; lia).
  reflexivity.
Qed.

(** With a date list and one baseline per date, the perpendicular-baseline
    filter prints nothing and keeps, in the order of the input, exactly the
    pairs whose perpendicular baseline lies between [pbase_min] and
    [pbase_max]. *)
Theorem threshold_perp_baseline_window
        (l date_list : list string) (pbase_list : list float)
        (pbase_max pbase_min : float) :
  date_list <> [] ->
  (List.length date_list <= List.length pbase_list)%nat ->
  Forall (fun d12 => exists d1 d2,
              split "-" d12 = [d1; d2] /\
              In d1 (yymmdd date_list) /\ In d2 (yymmdd date_list)) l ->
  threshold_perp_baseline l date_list pbase_list pbase_max pbase_min
  = ([], Ok (filter (fun d12 =>
                       (pbase_min <=? pbase_gap date_list pbase_list d12)
                       && (pbase_gap date_list pbase_list d12 <=? pbase_max))
                    l)).
Proof.
  intros Hd Hlen H. unfold threshold_perp_baseline.
  destruct l as [|a l0] eqn:El; [reflexivity|]. rewrite <- El in *. clear El.
  destruct date_list as [|b dl] eqn:Ed; [congruence|]. rewrite <- Ed in *. clear Ed.
  unfold io_lift. f_equal. apply for_filter_pure. intros d12 Hin.
  rewrite Forall_forall in H.
  apply (perp_test_pure (yymmdd date_list) pbase_list pbase_max pbase_min date_list);
    [reflexivity|exact Hlen|now apply H].
Qed.

Lemma threshold_perp_baseline_window_witness :
  threshold_perp_baseline ["170101-170113"; "170101-170125"; "170113-170125"]
                          ["20170101"; "20170113"; "20170125"]
                          [0; 50; -30]%float 40 0
  = ([], Ok ["170101-170125"]).
Proof.
  rewrite threshold_perp_baseline_window.
  - vm_compute. reflexivity.
  - discriminate.
  - simpl. lia.
  - repeat constructor.
    + exists "170101", "170113". repeat split; vm_compute; auto 6.
    + exists "170101", "170125". repeat split; vm_compute; auto 6.
    + exists "170113", "170125". repeat split; vm_compute; auto 6.
Defined.

Lemma sublist_of_refl {A} (l : list A) : sublist_of l l.
Proof.
  exists (fun _ => true). induction l as [|x l IH]; [reflexivity|].
  simpl. now rewrite <- IH.
Qed.

Lemma for_filter_sublist {A} (test : A -> res bool) (l y : list A) :
  for_filter test l = Ok y -> sublist_of y l.
Proof.
  intros H. exists (test_bool test). now apply for_filter_Ok_filter.
Qed.

Lemma temporal_sublist (strptime_Ymd : string -> res Z) (l : list string)
      (btemp_max : float) (keep_seasonal : bool) (btemp_min : float) (y : list string) :
  threshold_temporal_baseline strptime_Ymd l btemp_max keep_seasonal btemp_min = Ok y ->
  sublist_of y l.
Proof.
  unfold threshold_temporal_baseline.
  destruct l as [|a l0] eqn:El.
  { intros H. injection H as <-. apply sublist_of_refl. }
  rewrite <- El. clear El.
  destruct (pair_dates l) as [dates|e]; [|discriminate]. cbn [res_bind].
  destruct (date_list2tbase _ _) as [tb|e]; [|discriminate]. cbn [res_bind].
  apply for_filter_sublist.
Qed.

Lemma perp_sublist (l date_list : list string) (pbase_list : list float)
      (pbase_max pbase_min : float) (y : list string) :
  outcome (threshold_perp_baseline l date_list pbase_list pbase_max pbase_min) = Ok y ->
  sublist_of y l.
Proof.
  unfold threshold_perp_baseline.
  destruct l as [|a l0] eqn:El.
  { intros H. injection H as <-. apply sublist_of_refl. }
  rewrite <- El. clear El.
  destruct date_list as [|b dl].
  - rewrite outcome_bind_lift.
    destruct (pair_dates l) as [dates|e]; [|discriminate].
    destruct (negb _).
    + intros H. injection H as <-. apply sublist_of_refl.
    + apply for_filter_sublist.
  - apply for_filter_sublist.
Qed.

Lemma doppler_sublist (np_mean : list float -> float)
      (l date_list : list string) (dop_list : list (list float))
      (bandwidth_az dop_overlap_min : float) (y : list string) :
  outcome (threshold_doppler_overlap np_mean l date_list dop_list
                                     bandwidth_az dop_overlap_min) = Ok y ->
  sublist_of y l.
Proof.
  unfold threshold_doppler_overlap.
  destruct l as [|a l0] eqn:El.
  { intros H. injection H as <-. apply sublist_of_refl. }
  rewrite <- El. clear El.
  destruct date_list as [|b dl].
  - rewrite outcome_bind_lift.
    destruct (pair_dates l) as [dates|e]; discriminate.
  - apply for_filter_sublist.
Qed.

(** None of the three filters adds, repeats or reorders pairs: a returned
    list is the input with some pairs left out. *)
Theorem threshold_filters_sublist
        (strptime_Ymd : string -> res Z) (np_mean : list float -> float) :
  (forall l btemp_max keep_seasonal btemp_min y,
      threshold_temporal_baseline strptime_Ymd l btemp_max keep_seasonal btemp_min
      = Ok y ->
      sublist_of y l) /\
  (forall l date_list pbase_list pbase_max pbase_min y,
      outcome (threshold_perp_baseline l date_list pbase_list pbase_max pbase_min)
      = Ok y ->
      sublist_of y l) /\
  (forall l date_list dop_list bandwidth_az dop_overlap_min y,
      outcome (threshold_doppler_overlap np_mean l date_list dop_list
                                         bandwidth_az dop_overlap_min) = Ok y ->
      sublist_of y l).
Proof.
  split; [|split].
  - intros. eapply temporal_sublist; eassumption.
  - intros. eapply perp_sublist; eassumption.
  - intros. eapply doppler_sublist; eassumption.
Qed.

Lemma threshold_filters_sublist_witness :
  sublist_of ["170101-170125"] ["170101-170113"; "170101-170125"].
Proof.
  destruct (threshold_filters_sublist ordinal_Ymd8 mean_seq) as (_ & P & _).
  apply (P ["170101-170113"; "170101-170125"] ["170101"; "170113"; "170125"]
           [0; 50; -30]%float 40%float 0%float).
  vm_compute. reflexivity.
Defined.

(** ** The star network *)

Lemma filter_neq_seq (m a n : nat) :
  List.length (filter (fun s => negb (Nat.eqb s m)) (seq a n))
  = if ((a <=? m) && (m <? a + n))%nat then (n - 1)%nat else n.
Proof.
  revert a. induction n as [|n IH]; intros a.
  - simpl. destruct ((a <=? m) && (m <? a + 0))%nat eqn:E; [|reflexivity].
    apply andb_prop in E as [E1 E2].
    apply Nat.leb_le in E1. apply Nat.ltb_lt in E2. lia.
  - cbn [seq filter]. rewrite <- Nat.add_succ_comm.
    destruct (Nat.eqb_spec a m) as [->|Hne]; cbn [negb].
    + rewrite IH.
      assert ((S m <=? m)%nat = false) as -> by (apply Nat.leb_gt; lia).
      assert ((m <=? m)%nat = true) as -> by (apply Nat.leb_le; lia).
      assert ((m <? S m + n)%nat = true) as -> by (apply Nat.ltb_lt; lia).
      simpl. lia.
    + cbn [List.length]. rewrite IH.
      destruct (Nat.leb_spec (S a) m), (Nat.leb_spec a m); try lia;
        destruct (Nat.ltb_spec m (S a + n)); cbn [andb]; lia.
Qed.

Lemma star_network_length (date6_list : list string) (m_idx : nat) :
  (m_idx < List.length date6_list)%nat ->
  List.length (star_network date6_list m_idx) = (List.length date6_list - 1)%nat.
Proof.
  intros H. unfold star_network. rewrite length_map, filter_neq_seq.
  assert ((0 <=? m_idx)%nat = true) as -> by (apply Nat.leb_le; lia).
  assert ((m_idx <? 0 + List.length date6_list)%nat = true) as ->
      by (apply Nat.ltb_lt; lia).
  reflexivity.
Qed.

Lemma star_network_In (date6_list : list string) (m_idx : nat) (d12 : string) :
  In d12 (star_network date6_list m_idx) <->
  exists s_idx,
    (s_idx < List.length date6_list)%nat /\ s_idx <> m_idx /\
    d12 = date12 (nth (Nat.min m_idx s_idx) date6_list EmptyString)
                 (nth (Nat.max m_idx s_idx) date6_list EmptyString).
Proof.
  unfold star_network. rewrite in_map_iff. split.
  - intros [s [<- Hs]]. apply filter_In in Hs as [Hs Hne].
    apply in_seq in Hs. apply negb_true_iff, Nat.eqb_neq in Hne.
    exists s. repeat split; [lia|exact Hne].
  - intros (s & Hs & Hne & ->). exists s. split; [reflexivity|].
    apply filter_In. split; [apply in_seq; lia|].
    now apply negb_true_iff, Nat.eqb_neq.
Qed.

Lemma index_from_first (x : string) (l : list string) (i j k : nat) :
  index_from x l i = Ok j -> nth_error l k = Some x -> (j <= i + k)%nat.
Proof.
  revert i k. induction l as [|y l IH]; intros i k H Hk; [discriminate|].
  cbn [index_from] in H. destruct (String.eqb_spec y x) as [->|Hne].
  - injection H as <-. lia.
  - destruct k as [|k]; [simpl in Hk; congruence|].
    simpl in Hk. specialize (IH _ _ H Hk). lia.
Qed.

Lemma star_network_self_In (date6_list : list string) (m_idx : nat) (d12 : string) :
  In d12 (star_network_self date6_list m_idx) <->
  exists s_idx,
    (s_idx < List.length date6_list)%nat /\
    d12 = date12 (nth (Nat.min m_idx s_idx) date6_list EmptyString)
                 (nth (Nat.max m_idx s_idx) date6_list EmptyString).
Proof.
  unfold star_network_self. rewrite in_map_iff. split.
  - intros [s [<- Hs]]. apply in_seq in Hs. exists s. split; [lia|reflexivity].
  - intros (s & Hs & ->). exists s. split; [reflexivity|apply in_seq; lia].
Qed.

Lemma star_network_incl (date6_list : list string) (m_idx : nat) :
  incl (star_network date6_list m_idx) (star_network_self date6_list m_idx).
Proof.
  intros d12 H. apply star_network_In in H as (s & Hs & _ & ->).
  apply star_network_self_In. now exists s.
Qed.

Section Star.

Variable strptime_Ymd : string -> res Z.
Variable np_mean : list float -> float.
Variable date_list : list string.

Let date8_list := sorted (yyyymmdd date_list).
Let date6_list := yymmdd date8_list.

Lemma int_is_not_small (s m : nat) :
  (m <= 256)%nat -> int_is_not s m = negb (Nat.eqb s m).
Proof.
  intros Hm. unfold int_is_not. destruct (Nat.eqb_spec s m) as [->|Hne]; cbn [negb orb].
  - apply Nat.ltb_ge. exact Hm.
  - reflexivity.
Qed.

Lemma int_is_not_large (s m : nat) : (256 < m)%nat -> int_is_not s m = true.
Proof.
  intros Hm. unfold int_is_not. destruct (Nat.eqb_spec s m) as [->|Hne]; cbn [negb orb].
  - apply Nat.ltb_lt. exact Hm.
  - reflexivity.
Qed.

Lemma filter_true {A} (keep : A -> bool) (l : list A) :
  (forall x, keep x = true) -> filter keep l = l.
Proof.
  intros H. induction l as [|x l IH]; [reflexivity|].
  cbn [filter]. now rewrite H, IH.
Qed.

Lemma star_names (m_idx : nat) :
  (m_idx < List.length date8_list)%nat ->
  mapM (fun idx : nat * nat =>
          d1 <- getitem date6_list (fst idx) ;;
          d2 <- getitem date6_list (snd idx) ;;
          Ok (d1 ++ "-" ++ d2)%string)
       (map (fun s_idx => (Nat.min m_idx s_idx, Nat.max m_idx s_idx))
            (filter (fun s_idx => int_is_not s_idx m_idx)
                    (seq 0 (List.length date8_list))))
  = Ok (if (m_idx <=? 256)%nat then star_network date6_list m_idx
        else star_network_self date6_list m_idx).
Proof.
  intros Hm.
  assert (List.length date6_list = List.length date8_list) as Hl
      by apply length_map.
  assert (forall positions,
             incl positions (seq 0 (List.length date8_list)) ->
             mapM (fun idx : nat * nat =>
                     d1 <- getitem date6_list (fst idx) ;;
                     d2 <- getitem date6_list (snd idx) ;;
                     Ok (d1 ++ "-" ++ d2)%string)
                  (map (fun s_idx => (Nat.min m_idx s_idx, Nat.max m_idx s_idx))
                       positions)
             = Ok (map (fun s_idx =>
                          date12 (nth (Nat.min m_idx s_idx) date6_list EmptyString)
                                 (nth (Nat.max m_idx s_idx) date6_list EmptyString))
                       positions)) as H.
  { intros positions Hp. rewrite mapM_map. apply mapM_Ok_iff. intros s Hs.
    apply Hp, in_seq in Hs. cbn [fst snd].
    rewrite (getitem_nth _ _ EmptyString) by lia. cbn [res_bind].
    rewrite (getitem_nth _ _ EmptyString) by lia. reflexivity. }
  destruct (Nat.leb_spec m_idx 256) as [Hs|Hs].
  - rewrite (filter_ext _ (fun s => negb (Nat.eqb s m_idx)))
      by (intros s; now apply int_is_not_small).
    unfold star_network. rewrite Hl. apply H.
    intros s Hin. now apply filter_In in Hin.
  - rewrite filter_true by (intros s; now apply int_is_not_large).
    unfold star_network_self. rewrite Hl. apply H, incl_refl.
Qed.

(** From the presence check on: the network around a date of the list,
    with the pair of the master date with itself when its position is
    above 256. *)
Lemma select_pairs_star_at (m_date : string) (m_idx : nat) (pbase_list : list float) :
  m_date <> "" ->
  index (yyyymmdd_str m_date) date8_list = Ok m_idx ->
  select_pairs_star strptime_Ymd np_mean date_list (Some m_date) pbase_list
  = ([], Ok (if (m_idx <=? 256)%nat then star_network date6_list m_idx
             else star_network_self date6_list m_idx)).
Proof.
  intros Hne Hi. unfold select_pairs_star. fold date8_list. fold date6_list.
  destruct m_date as [|c m]; [congruence|].
  assert (contains (yyyymmdd_str (String c m)) date8_list = true) as Hc
      by (apply contains_In; eapply index_Ok_In; exact Hi).
  unfold io_bind at 1. unfold io_ret at 1.
  rewrite Hc. cbn [negb]. unfold io_bind at 1. unfold io_ret at 1.
  unfold io_lift at 1. rewrite Hi. unfold io_bind at 1.
  assert (m_idx < List.length date8_list)%nat as Hm.
  { apply index_nth in Hi. apply nth_error_Some. congruence. }
  unfold io_lift. rewrite (star_names m_idx Hm). reflexivity.
Qed.

End Star.

(** With a master date that is among the dates, the star strategy prints
    nothing and returns a network in which every pair joins the master
    date and a date of the sorted list, the earlier one first, and every
    other date is paired with the master date.  With the master date at a
    position up to 256 of the sorted list there is one pair for every
    other position ([n - 1] pairs); at a higher position the identity test
    on the positions keeps the master position too: there are [n] pairs,
    the pair of the master date with itself among them. *)
Theorem select_pairs_star_present
        (strptime_Ymd : string -> res Z) (np_mean : list float -> float)
        (date_list : list string) (m_date : string) (pbase_list : list float) :
  m_date <> "" ->
  In (yyyymmdd_str m_date) (yyyymmdd date_list) ->
  let date8_list := sorted (yyyymmdd date_list) in
  let date6_list := yymmdd date8_list in
  let m6 := yymmdd_str (yyyymmdd_str m_date) in
  let m_idx := position date8_list (yyyymmdd_str m_date) in
  exists date12_list,
    select_pairs_star strptime_Ymd np_mean date_list (Some m_date) pbase_list
    = ([], Ok date12_list) /\
    (forall d12, In d12 date12_list ->
                 exists d, In d date6_list /\ (d12 = date12 m6 d \/ d12 = date12 d m6)) /\
    (forall d, In d date6_list -> d <> m6 -> linked date12_list m6 d) /\
    ((m_idx <= 256)%nat ->
     List.length date12_list = (List.length date_list - 1)%nat) /\
    ((256 < m_idx)%nat ->
     List.length date12_list = List.length date_list /\
     In (date12 m6 m6) date12_list).
Proof.
  intros Hne Hin date8_list date6_list m6 m_idx.
  assert (In (yyyymmdd_str m_date) date8_list) as Hin'
      by now apply sorted_In.
  destruct (position_spec _ _ Hin') as (Hi & Hnth & Hlt).
  fold m_idx in Hi, Hnth, Hlt.
  assert (List.length date6_list = List.length date_list) as Hl.
  { unfold date6_list, date8_list, yymmdd, yyyymmdd.
    now rewrite length_map, sorted_length, length_map. }
  assert (m_idx < List.length date6_list)%nat as Hm.
  { unfold date6_list, yymmdd. now rewrite length_map. }
  assert (nth m_idx date6_list EmptyString = m6) as Hm6.
  { unfold date6_list, yymmdd, m6.
    change (nth m_idx (map yymmdd_str date8_list) (yymmdd_str EmptyString)
            = yymmdd_str (yyyymmdd_str m_date)).
    rewrite map_nth. f_equal. now apply nth_error_nth. }
  set (net := if (m_idx <=? 256)%nat then star_network date6_list m_idx
              else star_network_self date6_list m_idx).
  assert (incl net (star_network_self date6_list m_idx)) as Hself.
  { unfold net. destruct (m_idx <=? 256)%nat;
      [apply star_network_incl|apply incl_refl]. }
  assert (incl (star_network date6_list m_idx) net) as Hstar.
  { unfold net. destruct (m_idx <=? 256)%nat;
      [apply incl_refl|apply star_network_incl]. }
  exists net.
  split; [now apply select_pairs_star_at|].
  split; [|split; [|split]].
  - intros d12 Hd. apply Hself, star_network_self_In in Hd as (s & Hs & ->).
    exists (nth s date6_list EmptyString). split; [now apply nth_In|].
    destruct (Nat.lt_ge_cases m_idx s).
    + left. rewrite Nat.min_l, Nat.max_r by lia. now rewrite Hm6.
    + right. rewrite Nat.min_r, Nat.max_l by lia. now rewrite Hm6.
  - intros d Hd Hdm. apply (In_nth _ _ EmptyString) in Hd as (s & Hs & <-).
    assert (s <> m_idx) as Hsm by (intros ->; now apply Hdm).
    unfold linked. destruct (Nat.lt_ge_cases m_idx s).
    + left. apply Hstar, star_network_In. exists s.
      repeat split; [exact Hs|exact Hsm|].
      rewrite Nat.min_l, Nat.max_r by lia. now rewrite Hm6.
    + right. apply Hstar, star_network_In. exists s.
      repeat split; [exact Hs|exact Hsm|].
      rewrite Nat.min_r, Nat.max_l by lia. now rewrite Hm6.
  - intros Hs. unfold net. apply Nat.leb_le in Hs. rewrite Hs.
    rewrite star_network_length by exact Hm. now rewrite Hl.
  - intros Hs. unfold net. apply Nat.leb_gt in Hs. rewrite Hs. split.
    + unfold star_network_self. now rewrite length_map, length_seq.
    + apply star_network_self_In. exists m_idx. split; [exact Hm|].
      now rewrite Nat.min_id, Nat.max_id, Hm6.
Qed.

Lemma select_pairs_star_present_witness :
  exists date12_list,
    select_pairs_star ordinal_Ymd8 mean_seq
                      ["20170125"; "20170101"; "20170113"] (Some "170113") []
    = ([], Ok date12_list) /\
    List.length date12_list = 2%nat /\
    linked date12_list "170113" "170101".
Proof.
  destruct (select_pairs_star_present
              ordinal_Ymd8 mean_seq ["20170125"; "20170101"; "20170113"] "170113" [])
    as (l & E & _ & Hlink & Hl & _).
  - discriminate.
  - vm_compute. auto.
  - exists l. split; [exact E|]. split.
    + apply Hl. vm_compute. lia.
    + apply Hlink; [vm_compute; auto|discriminate].
Defined.

Lemma select_master_date_middle
      (strptime_Ymd : string -> res Z) (np_mean : list float -> float)
      (date_list : list string) :
  select_master_date strptime_Ymd np_mean date_list []
  = getitem (yyyymmdd date_list) (List.length date_list / 2).
Proof.
  unfold select_master_date, yyyymmdd. now rewrite length_map.
Qed.

(** Without master date and without baselines, the star strategy takes the
    date in the middle of the sorted date list (position [n / 2]), prints
    it, and returns the network around its first occurrence: the star
    network when that position is at most 256, and the star network with
    the pair of the master date with itself added when it is higher; on
    an empty date list it raises [IndexError]. *)
Theorem select_pairs_star_auto
        (strptime_Ymd : string -> res Z) (np_mean : list float -> float)
        (date_list : list string) :
  let date8_list := sorted (yyyymmdd date_list) in
  let m8 := nth (List.length date_list / 2) date8_list EmptyString in
  (date_list = [] ->
   select_pairs_star strptime_Ymd np_mean date_list None [] = ([], Raise IndexError)) /\
  (date_list <> [] ->
   exists m_idx,
     index m8 date8_list = Ok m_idx /\
     (m_idx <= List.length date_list / 2)%nat /\
     ((m_idx <= 256)%nat ->
      select_pairs_star strptime_Ymd np_mean date_list None []
      = ([("auto select master date: " ++ m8)%string],
         Ok (star_network (yymmdd date8_list) m_idx))) /\
     ((256 < m_idx)%nat ->
      select_pairs_star strptime_Ymd np_mean date_list None []
      = ([("auto select master date: " ++ m8)%string],
         Ok (star_network_self (yymmdd date8_list) m_idx)))).
Proof.
  intros date8_list m8. split.
  - intros ->. reflexivity.
  - intros Hne.
    assert (List.length date8_list = List.length date_list) as Hl.
    { unfold date8_list, yyyymmdd. now rewrite sorted_length, length_map. }
    assert (List.length date_list / 2 < List.length date8_list)%nat as Hlt.
    { rewrite Hl. apply Nat.div_lt; [|lia].
      destruct date_list; [congruence|simpl; lia]. }
    assert (In m8 date8_list) as Hin by (now apply nth_In).
    destruct (position_spec _ _ Hin) as (Hi & _ & Hp).
    exists (position date8_list m8). split; [exact Hi|].
    assert (position date8_list m8 <= List.length date_list / 2)%nat as Hfirst.
    { destruct (Nat.le_gt_cases (position date8_list m8) (List.length date_list / 2))
        as [H|H]; [exact H|exfalso].
      pose proof (nth_error_nth' date8_list EmptyString Hlt) as Hn. fold m8 in Hn.
      pose proof (index_from_first m8 date8_list 0 _ _ Hi Hn). lia. }
    split; [exact Hfirst|].
    assert (yyyymmdd_str m8 = m8) as Hm8.
    { unfold date8_list in Hin. apply (proj1 (sorted_In _ _)) in Hin.
      unfold yyyymmdd in Hin. apply in_map_iff in Hin as [d [<- _]].
      apply yyyymmdd_str_idem. }
    assert (select_master_date strptime_Ymd np_mean date8_list [] = Ok m8) as Hsel.
    { rewrite select_master_date_middle. unfold date8_list at 1.
      rewrite yyyymmdd_sorted_id. fold date8_list. rewrite Hl.
      now apply getitem_nth. }
    assert (select_pairs_star strptime_Ymd np_mean date_list None []
            = ([("auto select master date: " ++ m8)%string],
               Ok (if (position date8_list m8 <=? 256)%nat
                   then star_network (yymmdd date8_list) (position date8_list m8)
                   else star_network_self (yymmdd date8_list) (position date8_list m8))))
      as E.
    { unfold select_pairs_star. fold date8_list. rewrite Hsel.
      unfold io_lift at 1. unfold io_bind at 2. unfold print at 1.
      unfold io_bind at 2. unfold io_ret at 1. cbn [app].
      unfold io_bind at 1. rewrite Hm8.
      assert (contains m8 date8_list = true) as -> by now apply contains_In.
      cbn [negb]. unfold io_bind at 1. unfold io_ret at 1.
      unfold io_lift at 1. rewrite Hi. unfold io_bind at 1.
      unfold io_lift. subst date8_list.
      rewrite (star_names date_list _ Hp). reflexivity. }
    split; intros Hs; rewrite E.
    + apply Nat.leb_le in Hs. now rewrite Hs.
    + apply Nat.leb_gt in Hs. now rewrite Hs.
Qed.

Lemma select_pairs_star_auto_witness :
  select_pairs_star ordinal_Ymd8 mean_seq
                    ["20170125"; "20170101"; "20170113"; "20170206"] None []
  = (["auto select master date: 20170125"],
     Ok ["170101-170125"; "170113-170125"; "170125-170206"]).
Proof.
  destruct (select_pairs_star_auto
              ordinal_Ymd8 mean_seq ["20170125"; "20170101"; "20170113"; "20170206"])
    as [_ H].
  destruct H as (m_idx & Hi & _ & E & _); [discriminate|].
  vm_compute in Hi. injection Hi as <-. rewrite E by lia. vm_compute. reflexivity.
Defined.

(** ** The closest pair *)

Lemma SFltb_leb_trans (x y z : spec_float) :
  SFltb x y = true -> SFleb y z = true -> SFltb x z = true.
Proof.
  unfold SFltb, SFleb, SFcompare.
  destruct x as [sx|sx| |sx mx ex], y as [sy|sy| |sy my ey], z as [sz|sz| |sz mz ez];
    repeat match goal with s : bool |- _ => destruct s end;
    simpl; try congruence;
    change (Pos.compare_cont Eq) with Pos.compare;
    repeat match goal with
           | |- context [Z.compare ?a ?b] => destruct (Z.compare_spec a b)
           end; simpl; try congruence; try lia;
    repeat match goal with
           | |- context [Pos.compare ?a ?b] => destruct (Pos.compare_spec a b)
           end; simpl; try congruence; try lia.
Qed.

Lemma float_ltb_leb_trans (a b c : float) :
  (a <? b) = true -> (b <=? c) = true -> (a <? c) = true.
Proof. rewrite !ltb_spec, leb_spec. apply SFltb_leb_trans. Qed.

(** The scan of [np.argmin] over numbers: [pre] is the part already
    scanned, [best] the position of its first smallest entry [m]. *)
Lemma argmin_from_spec (a pre : list float) (best : nat) (m : float) :
  (forall x, In x (pre ++ a) -> is_nan x = false) ->
  nth_error pre best = Some m ->
  (forall x, In x pre -> (m <=? x) = true) ->
  (forall j x, (j < best)%nat -> nth_error pre j = Some x -> (m <? x) = true) ->
  exists d,
    nth_error (pre ++ a) (argmin_from a (List.length pre) best m) = Some d /\
    (forall x, In x (pre ++ a) -> (d <=? x) = true) /\
    (forall j x, (j < argmin_from a (List.length pre) best m)%nat ->
                 nth_error (pre ++ a) j = Some x -> (d <? x) = true).
Proof.
  revert pre best m. induction a as [|x a IH]; intros pre best m Hnan Hb Hle Hlt.
  - rewrite app_nil_r in *. cbn [argmin_from]. exists m. auto.
  - assert (is_nan m = false) as Hm
        by (apply Hnan, in_or_app; left; eapply nth_error_In; eauto).
    assert (is_nan x = false) as Hx
        by (apply Hnan, in_or_app; right; now left).
    assert (best < List.length pre)%nat as Hbl
        by (apply nth_error_Some; congruence).
    cbn [argmin_from]. rewrite Hm, Hx, orb_false_r.
    replace (pre ++ x :: a) with ((pre ++ [x]) ++ a) in *
      by (rewrite <- app_assoc; reflexivity).
    replace (S (List.length pre)) with (List.length (pre ++ [x]))
      by (rewrite length_app; simpl; lia).
    destruct (x <? m) eqn:E.
    + apply IH.
      * exact Hnan.
      * rewrite nth_error_app2 by lia. now rewrite Nat.sub_diag.
      * intros y Hy. apply in_app_or in Hy as [Hy|[<-|[]]].
        -- eapply float_leb_trans; [apply float_ltb_leb, E|now apply Hle].
        -- now apply float_leb_refl.
      * intros j y Hj Hy. rewrite nth_error_app1 in Hy by exact Hj.
        eapply float_ltb_leb_trans; [exact E|].
        apply Hle. eapply nth_error_In; eauto.
    + apply IH.
      * exact Hnan.
      * rewrite nth_error_app1 by exact Hbl. exact Hb.
      * intros y Hy. apply in_app_or in Hy as [Hy|[<-|[]]].
        -- now apply Hle.
        -- now apply float_total.
      * intros j y Hj Hy. rewrite nth_error_app1 in Hy by lia. eauto.
Qed.

Lemma np_argmin_spec (a : list float) :
  a <> [] -> (forall x, In x a -> is_nan x = false) ->
  exists k d,
    np_argmin a = Ok k /\ nth_error a k = Some d /\
    (forall x, In x a -> (d <=? x) = true) /\
    (forall j x, (j < k)%nat -> nth_error a j = Some x -> (d <? x) = true).
Proof.
  intros Hne Hnan. destruct a as [|x a]; [congruence|].
  destruct (argmin_from_spec a [x] 0 x) as (d & H1 & H2 & H3).
  - exact Hnan.
  - reflexivity.
  - intros y [<-|[]]. apply float_leb_refl, Hnan. now left.
  - intros j y Hj. lia.
  - exists (argmin_from a 1 0 x), d. auto.
Qed.

(** Without a master date, the selection returns the first pair of the
    list at the smallest distance in the scaled baseline plane: no pair is
    closer, and every pair listed before it is strictly farther (the
    distances being numbers). *)
Theorem select_master_interferogram_closest
        (strptime_Ymd : string -> res Z)
        (date12_list date_list : list string) (pbase_list : list float)
        (dist : list float) :
  base_distance strptime_Ymd date12_list date_list pbase_list = Ok dist ->
  (forall x, In x dist -> is_nan x = false) ->
  exists r k d,
    select_master_interferogram strptime_Ymd date12_list date_list pbase_list None
    = Ok r /\
    nth_error date12_list k = Some r /\
    nth_error dist k = Some d /\
    (forall x, In x dist -> (d <=? x) = true) /\
    (forall j x, (j < k)%nat -> nth_error dist j = Some x -> (d <? x) = true).
Proof.
  intros Hd Hnan.
  pose proof (base_distance_length _ _ _ _ _ Hd) as Hl.
  assert (dist <> []) as Hne.
  { intros ->. unfold base_distance in Hd.
    do 7 (apply res_bind_Ok in Hd as [? [_ Hd]]).
    destruct date12_list; [discriminate|discriminate Hl]. }
  destruct (np_argmin_spec dist Hne Hnan) as (k & d & Hk & Hkd & Hmin & Hfirst).
  assert (k < List.length date12_list)%nat as Hlt
      by (rewrite <- Hl; apply nth_error_Some; congruence).
  destruct (nth_error date12_list k) as [r|] eqn:Er;
    [|apply nth_error_None in Er; lia].
  exists r, k, d. split; [|auto].
  unfold select_master_interferogram. rewrite Hd. cbn [res_bind].
  rewrite Hk. cbn [res_bind]. unfold getitem. now rewrite Er.
Qed.

Lemma select_master_interferogram_closest_witness :
  select_master_interferogram
    ordinal_Ymd8 ["170101-170125"; "170101-170113"; "170113-170125"]
    ["170101"; "170113"; "170125"] [0; 1; 50]%float None
  = Ok "170101-170113".
Proof.
  pose (dist := match base_distance
                        ordinal_Ymd8 ["170101-170125"; "170101-170113"; "170113-170125"]
                        ["170101"; "170113"; "170125"] [0; 1; 50]%float
                with
                | Ok d => d
                | Raise _ => []
                end).
  destruct (select_master_interferogram_closest
              ordinal_Ymd8 ["170101-170125"; "170101-170113"; "170113-170125"]
              ["170101"; "170113"; "170125"] [0; 1; 50]%float dist)
    as (r & k & d & E & _).
  - vm_compute. reflexivity.
  - intros x Hx. vm_compute in Hx.
    destruct Hx as [<-|[<-|[<-|[]]]]; vm_compute; reflexivity.
  - assert (r = "170101-170113") as -> by (vm_compute in E; congruence).
    exact E.
Defined.

(** ** The sequential network *)

Lemma idx_leb_spec (p q : nat * nat) :
  idx_leb p q = true <-> lex lt p q \/ p = q.
Proof.
  unfold idx_leb, lex. destruct p as [a b], q as [c d]. cbn [fst snd].
  rewrite orb_true_iff, andb_true_iff, Nat.ltb_lt, Nat.eqb_eq, Nat.leb_le.
  split.
  - intros [H|[-> H]]; [now left; left|].
    destruct (Nat.eq_dec b d) as [->|Hn]; [now right|].
    left. right. split; [reflexivity|lia].
  - intros [[H|[-> H]]|E]; [now left|right; split; [reflexivity|lia]|].
    injection E as -> ->. right. split; [reflexivity|lia].
Qed.

Lemma idx_leb_total (p q : nat * nat) : idx_leb p q = false -> lex lt q p.
Proof.
  unfold idx_leb, lex. destruct p as [a b], q as [c d]. cbn [fst snd].
  rewrite orb_false_iff, andb_false_iff, Nat.ltb_ge, Nat.eqb_neq, Nat.leb_gt.
  intros [H1 [H2|H2]]; [left; lia|].
  destruct (Nat.eq_dec a c) as [->|Hn]; [right; split; [reflexivity|lia]|left; lia].
Qed.

Lemma lex_lt_trans (p q r : nat * nat) : lex lt p q -> lex lt q r -> lex lt p r.
Proof.
  unfold lex. intros [H1|[E1 H1]] [H2|[E2 H2]].
  - left. lia.
  - left. lia.
  - left. lia.
  - right. split; [congruence|lia].
Qed.

Lemma lex_lt_irrefl (p : nat * nat) : ~ lex lt p p.
Proof. unfold lex. intros [H|[_ H]]; lia. Qed.

Lemma insert_idx_perm (p : nat * nat) (l : list (nat * nat)) :
  Permutation (insert_idx p l) (p :: l).
Proof.
  induction l as [|q l IH]; [reflexivity|].
  cbn [insert_idx]. destruct (idx_leb p q); [reflexivity|].
  rewrite IH. apply perm_swap.
Qed.

Lemma sorted_idx_perm (l : list (nat * nat)) : Permutation (sorted_idx l) l.
Proof.
  induction l as [|p l IH]; [reflexivity|].
  cbn [sorted_idx fold_right]. fold (sorted_idx l).
  rewrite insert_idx_perm. now constructor.
Qed.

Lemma insert_idx_sorted (p : nat * nat) (l : list (nat * nat)) :
  ~ In p l -> StronglySorted (lex lt) l -> StronglySorted (lex lt) (insert_idx p l).
Proof.
  induction l as [|q l IH]; intros Hp Hs.
  - repeat constructor.
  - cbn [insert_idx]. apply StronglySorted_inv in Hs as [Hs Hq].
    destruct (idx_leb p q) eqn:E.
    + apply idx_leb_spec in E as [E| ->]; [|exfalso; apply Hp; now left].
      constructor; [now constructor|].
      constructor; [exact E|].
      eapply Forall_impl; [|exact Hq]. intros r Hr. eapply lex_lt_trans; eauto.
    + apply idx_leb_total in E. constructor.
      * apply IH; [intros H; apply Hp; now right|exact Hs].
      * eapply Permutation_Forall; [symmetry; apply insert_idx_perm|].
        now constructor.
Qed.

Lemma sorted_idx_sorted (l : list (nat * nat)) :
  NoDup l -> StronglySorted (lex lt) (sorted_idx l).
Proof.
  induction 1 as [|p l Hp Hn IH]; [constructor|].
  cbn [sorted_idx fold_right]. fold (sorted_idx l).
  apply insert_idx_sorted; [|exact IH].
  intros H. apply Hp. eapply Permutation_in; [apply sorted_idx_perm|exact H].
Qed.

(** Two lists in strictly increasing order with the same elements are
    equal. *)
Lemma strict_sorted_unique {A} (R : A -> A -> Prop) (l l' : list A) :
  (forall x, ~ R x x) -> (forall x y z, R x y -> R y z -> R x z) ->
  StronglySorted R l -> StronglySorted R l' ->
  (forall x, In x l <-> In x l') -> l = l'.
Proof.
  intros Hirr Htr. revert l'. induction l as [|x l IH]; intros l' Hs Hs' Hin.
  - destruct l' as [|x' l']; [reflexivity|].
    exfalso. apply (proj2 (Hin x')). now left.
  - destruct l' as [|x' l'].
    { exfalso. apply (proj1 (Hin x)). now left. }
    apply StronglySorted_inv in Hs as [Hs Hx].
    apply StronglySorted_inv in Hs' as [Hs' Hx'].
    rewrite Forall_forall in Hx, Hx'.
    assert (x = x') as <-.
    { destruct (proj1 (Hin x) (or_introl eq_refl)) as [E|H1]; [now symmetry|].
      destruct (proj2 (Hin x') (or_introl eq_refl)) as [E|H2]; [exact E|].
      exfalso. apply (Hirr x). eapply Htr; [apply Hx, H2|apply Hx', H1]. }
    f_equal. apply IH; [exact Hs|exact Hs'|].
    intros y. split; intros Hy.
    + destruct (proj1 (Hin y) (or_intror Hy)) as [<-|H]; [|exact H].
      exfalso. apply (Hirr x). now apply Hx.
    + destruct (proj2 (Hin y) (or_intror Hy)) as [<-|H]; [|exact H].
      exfalso. apply (Hirr x). now apply Hx'.
Qed.

Lemma StronglySorted_filter {A} (R : A -> A -> Prop) (keep : A -> bool) (l : list A) :
  StronglySorted R l -> StronglySorted R (filter keep l).
Proof.
  induction 1 as [|x l Hs IH Hx]; [constructor|].
  cbn [filter]. destruct (keep x); [|exact IH].
  constructor; [exact IH|].
  rewrite Forall_forall in *. intros y Hy. apply Hx.
  now apply filter_In in Hy.
Qed.

Lemma seq_sorted (s n : nat) : StronglySorted lt (seq s n).
Proof.
  revert s. induction n as [|n IH]; intros s; [constructor|].
  cbn [seq]. constructor; [apply IH|].
  apply Forall_forall. intros x Hx. apply in_seq in Hx. lia.
Qed.

Lemma combinations2_seq_In (s n a b : nat) :
  In (a, b) (combinations2 (seq s n)) <-> (s <= a /\ a < b /\ b < s + n)%nat.
Proof.
  revert s. induction n as [|n IH]; intros s.
  - simpl. lia.
  - cbn [seq combinations2]. rewrite in_app_iff, in_map_iff, IH. split.
    + intros [[x [E Hx]]|H].
      * injection E as <- <-. apply in_seq in Hx. lia.
      * lia.
    + intros (H1 & H2 & H3). destruct (Nat.eq_dec s a) as [->|Hn].
      * left. exists b. split; [reflexivity|]. apply in_seq. lia.
      * right. lia.
Qed.

Lemma near_pairs_In (n k a b : nat) :
  In (a, b) (near_pairs n k) <-> (a < b /\ b < n /\ b - a <= k)%nat.
Proof.
  unfold near_pairs. rewrite filter_In, combinations2_seq_In. cbn [fst snd].
  rewrite Nat.leb_le. lia.
Qed.

Lemma near_pairs_sorted (n k : nat) : StronglySorted (lex lt) (near_pairs n k).
Proof.
  apply StronglySorted_filter, combinations2_sorted, seq_sorted.
Qed.

(** The index pairs of the double loop of [select_pairs_sequential]. *)
Lemma sequential_loop_In (n k a b : nat) :
  In (a, b)
     (flat_map (fun date_idx =>
                  flat_map (fun i => if (i + 1 <=? date_idx)%nat
                                     then [((date_idx - i - 1)%nat, date_idx)]
                                     else [])
                           (seq 0 k))
               (seq 0 n))
  <-> (a < b /\ b < n /\ b - a <= k)%nat.
Proof.
  rewrite in_flat_map. split.
  - intros (d & Hd & H). apply in_seq in Hd. apply in_flat_map in H as (i & Hi & H).
    apply in_seq in Hi. destruct (Nat.leb_spec (i + 1) d); [|destruct H].
    destruct H as [E|[]]. injection E as <- <-. lia.
  - intros (H1 & H2 & H3). exists b. split; [apply in_seq; lia|].
    apply in_flat_map. exists (b - a - 1)%nat. split; [apply in_seq; lia|].
    destruct (Nat.leb_spec (b - a - 1 + 1) b); [|lia].
    left. f_equal. lia.
Qed.

Lemma sequential_loop_NoDup (n k : nat) :
  NoDup (flat_map (fun date_idx =>
                     flat_map (fun i => if (i + 1 <=? date_idx)%nat
                                        then [((date_idx - i - 1)%nat, date_idx)]
                                        else [])
                              (seq 0 k))
                  (seq 0 n)).
Proof.
  apply NoDup_flat_map.
  - apply seq_NoDup.
  - intros d _. apply NoDup_flat_map.
    + apply seq_NoDup.
    + intros i _. destruct (i + 1 <=? d)%nat; repeat constructor. intros [].
    + intros i j p Hi Hj Hpi Hpj.
      destruct (Nat.leb_spec (i + 1) d); [|destruct Hpi].
      destruct (Nat.leb_spec (j + 1) d); [|destruct Hpj].
      destruct Hpi as [<-|[]]. destruct Hpj as [E|[]].
      injection E as E. lia.
  - intros d d' p _ _ Hp Hp'.
    apply in_flat_map in Hp as (i & _ & Hp).
    apply in_flat_map in Hp' as (j & _ & Hp').
    destruct (Nat.leb_spec (i + 1) d); [|destruct Hp].
    destruct (Nat.leb_spec (j + 1) d'); [|destruct Hp'].
    destruct Hp as [<-|[]]. destruct Hp' as [E|[]].
    now injection E.
Qed.

Lemma sequential_loop_sorted (n k : nat) :
  sorted_idx (flat_map (fun date_idx =>
                          flat_map (fun i => if (i + 1 <=? date_idx)%nat
                                             then [((date_idx - i - 1)%nat, date_idx)]
                                             else [])
                                   (seq 0 k))
                       (seq 0 n))
  = near_pairs n k.
Proof.
  apply (strict_sorted_unique (lex lt)).
  - apply lex_lt_irrefl.
  - apply lex_lt_trans.
  - apply sorted_idx_sorted, sequential_loop_NoDup.
  - apply near_pairs_sorted.
  - intros [a b]. rewrite near_pairs_In, <- sequential_loop_In. split; intros H.
    + eapply Permutation_in; [apply sorted_idx_perm|exact H].
    + eapply Permutation_in; [symmetry; apply sorted_idx_perm|exact H].
Qed.

Lemma map_nth_seq {A} (l : list A) (d : A) :
  map (fun i => nth i l d) (seq 0 (List.length l)) = l.
Proof.
  induction l as [|x l IH]; [reflexivity|].
  cbn [List.length seq map nth]. f_equal.
  rewrite <- seq_shift, map_map. exact IH.
Qed.

(** The all-pairs network, by positions in the sorted date list. *)
Lemma select_pairs_all_positions (date_list : list string) :
  let date6_list := yymmdd (sorted (yyyymmdd date_list)) in
  select_pairs_all date_list
  = map (fun p => date12 (nth (fst p) date6_list EmptyString)
                         (nth (snd p) date6_list EmptyString))
        (combinations2 (seq 0 (List.length date6_list))).
Proof.
  intros date6_list. unfold select_pairs_all. fold date6_list.
  rewrite <- (map_nth_seq date6_list EmptyString) at 1.
  rewrite combinations2_map, map_map. reflexivity.
Qed.

Lemma sequential_near_pairs (date_list : list string) (increment_num : Z) :
  let date6_list := yymmdd (sorted (yyyymmdd date_list)) in
  select_pairs_sequential date_list increment_num
  = Ok (map (fun p => date12 (nth (fst p) date6_list EmptyString)
                             (nth (snd p) date6_list EmptyString))
            (near_pairs (List.length date6_list) (Z.to_nat increment_num))).
Proof.
  intros date6_list. unfold select_pairs_sequential, range. fold date6_list.
  rewrite sequential_loop_sorted, mapM_map. apply mapM_Ok_iff.
  intros [a b] H. apply near_pairs_In in H. cbn [fst snd].
  rewrite Nat.min_l, Nat.max_r by lia.
  rewrite (getitem_nth _ _ EmptyString) by lia. cbn [res_bind].
  rewrite (getitem_nth _ _ EmptyString) by lia. reflexivity.
Qed.

(** The sequential strategy never raises.  It returns the pairs of the
    all-pairs network whose two dates are at most [increment_num]
    positions apart in the sorted date list, in the order of the all-pairs
    network; none when [increment_num] is zero or negative. *)
Theorem select_pairs_sequential_spec (date_list : list string) (increment_num : Z) :
  let date6_list := yymmdd (sorted (yyyymmdd date_list)) in
  let name := fun p : nat * nat => date12 (nth (fst p) date6_list EmptyString)
                                          (nth (snd p) date6_list EmptyString) in
  let all := combinations2 (seq 0 (List.length date6_list)) in
  select_pairs_all date_list = map name all /\
  select_pairs_sequential date_list increment_num
  = Ok (map name (filter (fun p => (snd p - fst p <=? Z.to_nat increment_num)%nat) all)) /\
  ((increment_num <= 0)%Z -> select_pairs_sequential date_list increment_num = Ok []).
Proof.
  intros date6_list name all. split; [apply select_pairs_all_positions|].
  split; [apply sequential_near_pairs|].
  intros H. rewrite sequential_near_pairs. cbv zeta. f_equal.
  replace (Z.to_nat increment_num) with 0%nat by lia.
  destruct (near_pairs (List.length (yymmdd (sorted (yyyymmdd date_list)))) 0)
    as [|[a b] l] eqn:E; [reflexivity|].
  assert (In (a, b) (near_pairs (List.length (yymmdd (sorted (yyyymmdd date_list)))) 0))
    as Hin by (rewrite E; now left).
  apply near_pairs_In in Hin. lia.
Qed.

Lemma filter_all {A} (keep : A -> bool) (l : list A) :
  (forall x, In x l -> keep x = true) -> filter keep l = l.
Proof.
  induction l as [|x l IH]; intros H; [reflexivity|].
  cbn [filter]. rewrite (H x (or_introl eq_refl)). f_equal.
  apply IH. intros y Hy. apply H. now right.
Qed.

(** With an increment of [n - 1] or more, the sequential strategy returns
    the all-pairs network. *)
Theorem select_pairs_sequential_all (date_list : list string) (increment_num : Z) :
  (Z.of_nat (List.length date_list) - 1 <= increment_num)%Z ->
  select_pairs_sequential date_list increment_num = Ok (select_pairs_all date_list).
Proof.
  intros H. rewrite sequential_near_pairs, select_pairs_all_positions.
  cbv zeta. f_equal. f_equal. unfold near_pairs. apply filter_all.
  intros [a b] Hp. apply combinations2_seq_In in Hp. cbn [fst snd].
  apply Nat.leb_le.
  assert (List.length (yymmdd (sorted (yyyymmdd date_list))) = List.length date_list) as Hl.
  { unfold yymmdd, yyyymmdd. now rewrite length_map, sorted_length, length_map. }
  rewrite Hl in Hp. lia.
Qed.

Lemma select_pairs_sequential_all_witness :
  select_pairs_sequential ["20170125"; "20170101"; "20170113"] 2
  = Ok ["170101-170113"; "170101-170125"; "170113-170125"].
Proof.
  rewrite select_pairs_sequential_all; [reflexivity|simpl; lia].
Defined.

Lemma inner_loop_length (b k : nat) :
  List.length (flat_map (fun i => if (i + 1 <=? b)%nat
                                  then [((b - i - 1)%nat, b)] else [])
                        (seq 0 k))
  = Nat.min b k.
Proof.
  induction k as [|k IH]; [now rewrite Nat.min_0_r|].
  rewrite seq_S, flat_map_app, length_app, IH. cbn [flat_map plus].
  destruct (Nat.leb_spec (k + 1) b); simpl; lia.
Qed.

Lemma outer_loop_length (n k : nat) :
  (2 * List.length
         (flat_map (fun date_idx =>
                      flat_map (fun i => if (i + 1 <=? date_idx)%nat
                                         then [((date_idx - i - 1)%nat, date_idx)]
                                         else [])
                               (seq 0 k))
                   (seq 0 n))
   = if (n <=? k)%nat then n * (n - 1) else 2 * k * n - k * (k + 1))%nat.
Proof.
  induction n as [|n IH]; [reflexivity|].
  rewrite seq_S, flat_map_app, length_app. cbn [flat_map plus].
  rewrite app_nil_r, inner_loop_length, Nat.mul_add_distr_l, IH.
  destruct (Nat.leb_spec n k), (Nat.leb_spec (S n) k); try lia.
  - rewrite Nat.min_l by lia. nia.
  - assert (n = k) as -> by lia. rewrite Nat.min_l by lia. nia.
  - rewrite Nat.min_r by lia. nia.
Qed.

(** The number of pairs of the sequential network of [n] dates with
    increment [k]: all [n (n - 1) / 2] pairs when [n <= k], and
    [k n - k (k + 1) / 2] pairs when [k <= n]. *)
Theorem select_pairs_sequential_count (date_list : list string) (increment_num : Z) :
  let n := List.length date_list in
  let k := Z.to_nat increment_num in
  exists date12_list,
    select_pairs_sequential date_list increment_num = Ok date12_list /\
    ((n <= k)%nat -> (2 * List.length date12_list = n * (n - 1))%nat) /\
    ((k <= n)%nat -> (2 * List.length date12_list + k * (k + 1) = 2 * k * n)%nat).
Proof.
  intros n k. eexists. split; [apply sequential_near_pairs|].
  cbv zeta. rewrite length_map.
  assert (List.length (yymmdd (sorted (yyyymmdd date_list))) = n) as ->.
  { unfold yymmdd, yyyymmdd. now rewrite length_map, sorted_length, length_map. }
  fold k. rewrite <- sequential_loop_sorted.
  rewrite (Permutation_length (sorted_idx_perm _)), outer_loop_length.
  destruct (Nat.leb_spec n k); split; intros; try lia.
  - assert (n = k) as -> by lia. nia.
  - assert (k * (k + 1) <= 2 * k * n)%nat by nia. lia.
Qed.

Lemma select_pairs_sequential_count_witness :
  exists date12_list,
    select_pairs_sequential
      ["20170101"; "20170113"; "20170125"; "20170206"; "20170218"] 2 = Ok date12_list /\
    List.length date12_list = 7%nat.
Proof.
  destruct (select_pairs_sequential_count
              ["20170101"; "20170113"; "20170125"; "20170206"; "20170218"] 2)
    as (l & E & _ & H).
  exists l. split; [exact E|]. simpl in H. lia.
Defined.

(** With an increment of 1 or more, the sequential network connects all
    dates. *)
Theorem select_pairs_sequential_connected
        (date_list : list string) (increment_num : Z) :
  (1 <= increment_num)%Z ->
  exists date12_list,
    select_pairs_sequential date_list increment_num = Ok date12_list /\
    forall a b, In a (yymmdd (sorted (yyyymmdd date_list))) ->
                In b (yymmdd (sorted (yyyymmdd date_list))) ->
                network_connected date12_list a b.
Proof.
  intros Hk. eexists. split; [apply sequential_near_pairs|].
  cbv zeta. set (date6_list := yymmdd (sorted (yyyymmdd date_list))).
  set (net := map _ _).
  assert (forall i, (S i < List.length date6_list)%nat ->
                    linked net (nth i date6_list EmptyString)
                               (nth (S i) date6_list EmptyString)) as Hstep.
  { intros i Hi. left. unfold net. apply in_map_iff. exists (i, S i).
    split; [reflexivity|]. apply near_pairs_In. lia. }
  assert (forall i, (i < List.length date6_list)%nat ->
                    network_connected net (nth 0 date6_list EmptyString)
                                          (nth i date6_list EmptyString)) as Hzero.
  { induction i as [|i IH]; intros Hi; [apply rt_refl|].
    eapply rt_trans; [apply IH; lia|]. apply rt_step. now apply Hstep. }
  assert (forall x y, network_connected net x y -> network_connected net y x) as Hsym.
  { intros x y H. induction H as [x y H|x|x y z _ IH1 _ IH2].
    - apply rt_step. destruct H; [now right|now left].
    - apply rt_refl.
    - eapply rt_trans; eassumption. }
  intros a b Ha Hb.
  apply (In_nth _ _ EmptyString) in Ha as (i & Hi & <-).
  apply (In_nth _ _ EmptyString) in Hb as (j & Hj & <-).
  eapply rt_trans; [apply Hsym, Hzero, Hi|apply Hzero, Hj].
Qed.

Lemma select_pairs_sequential_connected_witness :
  exists date12_list,
    select_pairs_sequential ["20170125"; "20170101"; "20170113"] 1 = Ok date12_list /\
    network_connected date12_list "170101" "170125".
Proof.
  destruct (select_pairs_sequential_connected ["20170125"; "20170101"; "20170113"] 1)
    as (l & E & H); [lia|].
  exists l. split; [exact E|]. apply H; vm_compute; auto.
Defined.

(** ** Index pairs and the pairs list file *)

Lemma getitem_int_nat {A} (l : list A) (i : nat) :
  getitem_int l (Z.of_nat i) = getitem l i.
Proof.
  unfold getitem_int.
  destruct (Z.ltb_spec (Z.of_nat i) 0); [lia|]. now rewrite Nat2Z.id.
Qed.

Lemma io_for_each_writes {A} (f : A -> string) (body : A -> io unit) (l : list A) :
  (forall x, In x l -> body x = ([f x], Ok tt)) ->
  io_for_each l body = (map f l, Ok tt).
Proof.
  induction l as [|x l IH]; intros H; [reflexivity|].
  cbn [io_for_each]. rewrite (H x (or_introl eq_refl)).
  unfold io_bind. rewrite IH by (intros y Hy; apply H; now right).
  reflexivity.
Qed.

Lemma Forall2_map_in {A B} (R : A -> B -> Prop) (f : A -> B) (l : list A) :
  (forall x, In x l -> R x (f x)) -> Forall2 R l (map f l).
Proof.
  induction l as [|x l IH]; intros H; [constructor|].
  cbn [map]. constructor; [apply H; now left|].
  apply IH. intros y Hy. apply H. now right.
Qed.

Lemma str_app_assoc (a b c : string) : ((a ++ b) ++ c = a ++ (b ++ c))%string.
Proof.
  induction a as [|x a IH]; [reflexivity|]. cbn [append]. now rewrite IH.
Qed.

Section PairsList.

Variable pairs : list (string * string).

Hypothesis pairs_dates :
  Forall (fun p => (free_of "-" (fst p) = true /\ String.length (fst p) <> 8%nat) /\
                   (free_of "-" (snd p) = true /\ String.length (snd p) <> 8%nat))
         pairs.

Let ids := map (fun p => date12 (fst p) (snd p)) pairs.
Let dates := set_list (map (part 0) ids ++ map (part 1) ids).
Let date8_list := sorted (yyyymmdd dates).
Let date6_list := yymmdd date8_list.

Lemma ids_split (p : string * string) :
  In p pairs -> split "-" (date12 (fst p) (snd p)) = [fst p; snd p].
Proof.
  intros Hp. pose proof pairs_dates as Hpd. rewrite Forall_forall in Hpd.
  destruct (Hpd p Hp) as [[H1 _] [H2 _]]. now apply split_date12.
Qed.

Lemma ids_pair_dates : pair_dates ids = Ok dates.
Proof.
  apply pair_dates_intro. intros d12 Hd. unfold ids in Hd.
  apply in_map_iff in Hd as [p [<- Hp]]. rewrite (ids_split p Hp). simpl. lia.
Qed.

Lemma dates_of_pairs (p : string * string) :
  In p pairs -> In (fst p) dates /\ In (snd p) dates.
Proof.
  intros Hp.
  assert (In (date12 (fst p) (snd p)) ids) as Hid
      by (unfold ids; apply in_map_iff; eauto).
  split; apply (pair_dates_In _ _ _ ids_pair_dates);
    exists (date12 (fst p) (snd p)); (split; [exact Hid|]);
    unfold part; rewrite (ids_split p Hp); auto.
Qed.

Lemma dates_not8 (d : string) : In d dates -> String.length d <> 8%nat.
Proof.
  intros Hd. apply (pair_dates_In _ _ _ ids_pair_dates) in Hd as (d12 & Hd12 & Hd).
  unfold ids in Hd12. apply in_map_iff in Hd12 as [p [<- Hp]].
  pose proof pairs_dates as Hpd. rewrite Forall_forall in Hpd.
  destruct (Hpd p Hp) as [[_ H1] [_ H2]].
  unfold part in Hd. rewrite (ids_split p Hp) in Hd.
  destruct Hd as [-> | ->]; assumption.
Qed.

Lemma date6_position (d : string) :
  In d dates ->
  index d date6_list = Ok (position date6_list d) /\
  (position date6_list d < List.length date6_list)%nat /\
  nth_error date6_list (position date6_list d) = Some d.
Proof.
  intros Hd. destruct (index_date6 dates d dates_not8 Hd) as (i & Hi & _).
  fold date8_list in Hi. fold date6_list in Hi.
  pose proof (index_Ok_In _ _ _ Hi) as Hin.
  destruct (position_spec _ _ Hin) as (E & Hn & Hl). auto.
Qed.

Lemma date12_list2index_Ok :
  date12_list2index ids []
  = Ok (map (fun p => [Z.of_nat (position date6_list (fst p));
                       Z.of_nat (position date6_list (snd p))]) pairs).
Proof.
  unfold date12_list2index. rewrite ids_pair_dates. cbn [res_bind].
  fold date8_list. fold date6_list. unfold ids. rewrite mapM_map.
  apply mapM_Ok_iff. intros p Hp. rewrite (ids_split p Hp).
  destruct (dates_of_pairs p Hp) as [H1 H2].
  destruct (date6_position _ H1) as (E1 & _).
  destruct (date6_position _ H2) as (E2 & _).
  cbn [getitem nth_error res_bind]. rewrite E1. cbn [res_bind].
  rewrite E2. reflexivity.
Qed.

Lemma write_pairs_list_Ok :
  write_pairs_list
    (map (fun p => [Z.of_nat (position date6_list (fst p));
                    Z.of_nat (position date6_list (snd p))]) pairs)
    date8_list
  = (map (fun d12 => (d12 ++ newline)%string) ids, Ok 1%Z).
Proof.
  unfold write_pairs_list. fold date6_list.
  rewrite (io_for_each_writes
             (fun ij => (nth (Z.to_nat (nth 0 ij 0%Z)) date6_list EmptyString ++ "-"
                         ++ nth (Z.to_nat (nth 1 ij 0%Z)) date6_list EmptyString
                         ++ newline)%string)).
  - unfold io_bind, io_ret. rewrite app_nil_r. f_equal.
    unfold ids. rewrite !map_map. apply map_ext_in. intros p Hp.
    cbn [nth]. rewrite !Nat2Z.id.
    destruct (dates_of_pairs p Hp) as [H1 H2].
    destruct (date6_position _ H1) as (_ & _ & N1).
    destruct (date6_position _ H2) as (_ & _ & N2).
    rewrite (nth_error_nth _ _ _ N1), (nth_error_nth _ _ _ N2).
    unfold date12. now rewrite str_app_assoc.
  - intros ij Hij. apply in_map_iff in Hij as [p [<- Hp]].
    destruct (dates_of_pairs p Hp) as [H1 H2].
    destruct (date6_position _ H1) as (_ & L1 & _).
    destruct (date6_position _ H2) as (_ & L2 & _).
    cbn [getitem nth_error nth]. unfold io_lift at 1. unfold io_bind at 1.
    rewrite getitem_int_nat, (getitem_nth _ _ EmptyString) by exact L1.
    unfold io_lift at 1. unfold io_bind at 1.
    unfold io_lift at 1. unfold io_bind at 1.
    unfold io_lift at 1. unfold io_bind at 1.
    rewrite getitem_int_nat, (getitem_nth _ _ EmptyString) by exact L2.
    rewrite !Nat2Z.id. reflexivity.
Qed.

End PairsList.

(** Pair identifiers converted to index pairs and written back with the
    sorted dates of the pairs give the identifiers again, one per line:
    [date12_list2index] returns, for every pair, the positions of its two
    dates among the sorted dates, and [write_pairs_list] on these index
    pairs writes the original list and returns 1. *)
Theorem pairs_list_roundtrip (pairs : list (string * string)) :
  Forall (fun p => (free_of "-" (fst p) = true /\ String.length (fst p) <> 8%nat) /\
                   (free_of "-" (snd p) = true /\ String.length (snd p) <> 8%nat))
         pairs ->
  let ids := map (fun p => date12 (fst p) (snd p)) pairs in
  exists idx dates,
    pair_dates ids = Ok dates /\
    date12_list2index ids [] = Ok idx /\
    Forall2 (fun p ij =>
               exists i j, ij = [Z.of_nat i; Z.of_nat j] /\
                           nth_error (yymmdd (sorted (yyyymmdd dates))) i = Some (fst p) /\
                           nth_error (yymmdd (sorted (yyyymmdd dates))) j = Some (snd p))
            pairs idx /\
    write_pairs_list idx (sorted (yyyymmdd dates))
    = (map (fun d12 => (d12 ++ newline)%string) ids, Ok 1%Z).
Proof.
  intros H ids. eexists. eexists.
  split; [now apply ids_pair_dates|].
  split; [now apply date12_list2index_Ok|].
  split; [|now apply write_pairs_list_Ok].
  clear ids. apply Forall2_map_in. intros p Hp.
  destruct (dates_of_pairs pairs H p Hp) as [H1 H2].
  destruct (date6_position pairs H _ H1) as (_ & _ & N1).
  destruct (date6_position pairs H _ H2) as (_ & _ & N2).
  eexists. eexists. split; [reflexivity|]. split; assumption.
Qed.

Lemma pairs_list_roundtrip_witness :
  exists idx,
    date12_list2index ["170113-170125"; "170101-170113"] [] = Ok idx /\
    write_pairs_list idx ["20170101"; "20170113"; "20170125"]
    = ([("170113-170125" ++ newline)%string; ("170101-170113" ++ newline)%string],
       Ok 1%Z).
Proof.
  destruct (pairs_list_roundtrip [("170113", "170125"); ("170101", "170113")])
    as (idx & dates & Hd & Hi & _ & Hw).
  - repeat constructor; simpl; lia.
  - exists idx. split; [exact Hi|].
    vm_compute in Hd. injection Hd as <-. exact Hw.
Defined.

(** ** Pair identifiers from interferogram names *)

Lemma replace_removes (a b : ascii) (s : string) :
  a <> b -> free_of a (replace a b s) = true.
Proof.
  intros Hab. induction s as [|c s IH]; [reflexivity|].
  cbn [replace free_of]. rewrite IH, andb_true_r.
  destruct (Ascii.eqb_spec c a) as [->|Hc].
  - apply negb_true_iff, Ascii.eqb_neq. congruence.
  - apply negb_true_iff, Ascii.eqb_neq. exact Hc.
Qed.

Section IfgramNames.

Variable findall8 : string -> list string.
Variable findall6 : string -> list string.

Lemma first_match_free (findall : string -> list string) (i m : string) :
  first_match findall i = Ok m -> free_of "_" m = true.
Proof.
  unfold first_match. destruct (getitem (findall i) 0) as [x|e]; [|discriminate].
  intros H. injection H as <-. now apply replace_removes.
Qed.

Lemma first_match_cases (findall : string -> list string) (i : string) :
  first_match findall i = Raise IndexError \/ exists m, first_match findall i = Ok m.
Proof.
  unfold first_match, getitem.
  destruct (nth_error (findall i) 0); [right; eexists; reflexivity|left; reflexivity].
Qed.

Lemma mapM_first_match (findall : string -> list string) (l : list string) :
  mapM (first_match findall) l = Raise IndexError \/
  exists ms, mapM (first_match findall) l = Ok ms /\
             List.length ms = List.length l /\
             Forall (fun m => free_of "_" m = true) ms.
Proof.
  induction l as [|i l IH]; [right; exists []; repeat split; constructor|].
  cbn [mapM]. destruct (first_match_cases findall i) as [E|[m E]]; rewrite E.
  - now left.
  - cbn [res_bind]. destruct IH as [-> |(ms & -> & Hl & Hf)]; [now left|].
    right. exists (m :: ms). repeat split; [simpl; now rewrite Hl|].
    constructor; [eapply first_match_free; eauto|exact Hf].
Qed.

Lemma first_match_Ok (findall : string -> list string) (i : string) :
  findall i <> [] -> exists m, first_match findall i = Ok m /\ free_of "_" m = true.
Proof.
  intros H. unfold first_match, getitem.
  destruct (findall i) as [|x l]; [congruence|]. cbn [nth_error res_bind].
  eexists. split; [reflexivity|]. now apply replace_removes.
Qed.

Lemma first_match_Raise (findall : string -> list string) (i : string) :
  findall i = [] -> first_match findall i = Raise IndexError.
Proof. intros H. unfold first_match. now rewrite H. Qed.

(** The comprehension succeeds when every name has a match. *)
Lemma mapM_first_match_Ok (findall : string -> list string) (l : list string) :
  Forall (fun i => findall i <> []) l ->
  exists ms, mapM (first_match findall) l = Ok ms /\
             List.length ms = List.length l /\
             Forall (fun m => free_of "_" m = true) ms.
Proof.
  induction 1 as [|i l Hi Hl IH]; [exists []; repeat split; constructor|].
  destruct (first_match_Ok findall i Hi) as (m & E & Hm).
  destruct IH as (ms & Ems & Hlen & Hf).
  exists (m :: ms). cbn [mapM]. rewrite E. cbn [res_bind]. rewrite Ems.
  repeat split; [simpl; now rewrite Hlen|now constructor].
Qed.

(** It raises [IndexError] when some name has none. *)
Lemma mapM_first_match_Raise (findall : string -> list string) (l : list string) :
  Exists (fun i => findall i = []) l ->
  mapM (first_match findall) l = Raise IndexError.
Proof.
  induction l as [|i l IH]; intros H; [inversion H|].
  cbn [mapM]. destruct (findall i) as [|x xs] eqn:E.
  - now rewrite (first_match_Raise findall i E).
  - destruct (first_match_Ok findall i) as (m & -> & _); [congruence|].
    cbn [res_bind]. rewrite IH; [reflexivity|].
    apply Exists_cons in H as [H|H]; [congruence|exact H].
Qed.

Lemma unpack_names (ms : list string) :
  ms <> [] -> Forall (fun m => free_of "_" m = true) ms ->
  mapM (fun date12 =>
          '(m_date, s_date) <- unpack2 (yymmdd (split "_" date12)) ;;
          Ok (m_date ++ "-" ++ s_date)%string) ms
  = Raise ValueError.
Proof.
  intros Hne Hf. destruct ms as [|m ms]; [congruence|].
  apply Forall_inv in Hf. cbn [mapM]. now rewrite split_free.
Qed.

End IfgramNames.

(** [list_ifgram2date12] returns a list only for the empty list.  On a
    non-empty list it raises [ValueError] when every name has a match of
    the 8-digit pattern, or every name has a match of the 6-digit pattern:
    a matched identifier, with its separator replaced by ["-"], is then
    split at ["_"] and gives one part where two are unpacked.  It raises
    [IndexError] in the remaining case, when some name has no match of the
    8-digit pattern and some name has no match of the 6-digit pattern. *)
Theorem list_ifgram2date12_raises
        (findall8 findall6 : string -> list string) (ifgram_list : list string) :
  list_ifgram2date12 findall8 findall6 [] = Ok [] /\
  (ifgram_list <> [] ->
   Forall (fun i => findall8 i <> []) ifgram_list \/
   Forall (fun i => findall6 i <> []) ifgram_list ->
   list_ifgram2date12 findall8 findall6 ifgram_list = Raise ValueError) /\
  (Exists (fun i => findall8 i = []) ifgram_list ->
   Exists (fun i => findall6 i = []) ifgram_list ->
   list_ifgram2date12 findall8 findall6 ifgram_list = Raise IndexError).
Proof.
  split; [reflexivity|]. split.
  - intros Hne Hmatch. unfold list_ifgram2date12.
    assert (forall ms : list string,
               List.length ms = List.length ifgram_list -> ms <> []) as Hms.
    { intros ms Hl ->. destruct ifgram_list; [congruence|discriminate Hl]. }
    assert (forall findall,
               Forall (fun i => findall i <> []) ifgram_list ->
               res_bind (mapM (first_match findall) ifgram_list)
                        (fun date12_list =>
                           mapM (fun date12 =>
                                   '(m_date, s_date) <-
                                     unpack2 (yymmdd (split "_" date12)) ;;
                                   Ok (m_date ++ "-" ++ s_date)%string)
                                date12_list)
               = Raise ValueError) as Hrun.
    { intros findall Hf.
      destruct (mapM_first_match_Ok findall _ Hf) as (ms & E & Hl & Hfree).
      rewrite E. cbn [res_bind]. apply unpack_names; auto. }
    destruct Hmatch as [H8|H6].
    + destruct (mapM_first_match_Ok findall8 _ H8) as (ms & E & Hl & Hfree).
      rewrite E. cbn [res_bind]. apply unpack_names; auto.
    + destruct (mapM_first_match findall8 ifgram_list) as [E|(ms & E & Hl & Hfree)];
        rewrite E.
      * now apply Hrun.
      * cbn [res_bind]. apply unpack_names; auto.
  - intros H8 H6. unfold list_ifgram2date12.
    rewrite (mapM_first_match_Raise findall8 _ H8).
    now rewrite (mapM_first_match_Raise findall6 _ H6).
Qed.

Lemma list_ifgram2date12_raises_witness :
  list_ifgram2date12 (fun _ => ["20170101_20170113"]) (fun _ => [])
                     ["diff_20170101_20170113.unw"]
  = Raise ValueError /\
  list_ifgram2date12 (fun _ => []) (fun _ => []) ["filt.unw"] = Raise IndexError.
Proof.
  split.
  - apply (list_ifgram2date12_raises
             (fun _ => ["20170101_20170113"]) (fun _ => [])
             ["diff_20170101_20170113.unw"]); [discriminate|].
    left. repeat constructor. discriminate.
  - apply (list_ifgram2date12_raises (fun _ => []) (fun _ => []) ["filt.unw"]);
      now constructor.
Defined.

(** ** More on the coherence matrix *)

Lemma foldM_invariant {A S} (P : S -> Prop) (body : S -> A -> res S)
      (l : list A) (s s' : S) :
  P s -> (forall s x s1, P s -> body s x = Ok s1 -> P s1) ->
  foldM body l s = Ok s' -> P s'.
Proof.
  intros Hs Hstep. revert s Hs. induction l as [|x l IH]; intros s Hs H.
  - injection H as <-. exact Hs.
  - cbn [foldM] in H. destruct (body s x) as [s1|e] eqn:E; [|discriminate].
    apply (IH s1); [eapply Hstep; eauto|exact H].
Qed.

Lemma diagonal_fold (n : nat) (v : float) (ks : list nat) (m : list (list float))
      (x y : nat) :
  square n m -> Forall (fun i => (i < n)%nat) ks ->
  mat_get (fold_left (fun m i => mat_set i i v m) ks m) x y
  = if Nat.eqb x y && existsb (Nat.eqb x) ks then v else mat_get m x y.
Proof.
  revert m. induction ks as [|i ks IH]; intros m Hsq Hi.
  - cbn [fold_left existsb]. now rewrite andb_false_r.
  - apply Forall_cons_iff in Hi as [Hi Hks]. cbn [fold_left existsb].
    rewrite IH by (try apply mat_set_square; assumption).
    rewrite (mat_get_set n) by assumption.
    destruct (Nat.eqb_spec x y) as [->|Hxy]; cbn [andb].
    + destruct (existsb (Nat.eqb y) ks); [now rewrite orb_true_r|].
      rewrite orb_false_r. now destruct (Nat.eqb y i).
    + destruct (Nat.eqb_spec x i) as [->|Hxi]; [|reflexivity].
      destruct (Nat.eqb_spec y i); [congruence|reflexivity].
Qed.

Lemma coherence_matrix_parts (l : list string) (coh_list : list float)
      (M : list (list float)) (DL : list string) :
  coherence_matrix l coh_list None = Ok M ->
  coherence_dates l = Ok DL ->
  square (List.length DL) M /\
  forall v, coherence_matrix l coh_list (Some v)
            = Ok (fold_left (fun m i => mat_set i i v m) (seq 0 (List.length DL)) M).
Proof.
  unfold coherence_matrix, coherence_dates.
  destruct (yymmdd_date12 l) as [l6|e]; [|discriminate]. cbn [res_bind].
  destruct (pair_dates l6) as [dates|e]; [|discriminate]. cbn [res_bind].
  intros HM HD. injection HD as <-.
  destruct (foldM _ l6 _) as [M0|e] eqn:E; [|discriminate].
  cbn [res_bind] in HM. injection HM as <-. split; [|reflexivity].
  eapply (foldM_invariant (square (List.length (sorted (yymmdd dates)))));
    [apply repeat_square| |exact E].
  intros s d12 s1 Hs Hb. cbv beta in Hb.
  destruct (unpack2 (split "-" d12)) as [[d1 d2]|e]; [|discriminate].
  cbn [res_bind] in Hb.
  destruct (index d1 _) as [i|e]; [|discriminate]. cbn [res_bind] in Hb.
  destruct (index d2 _) as [j|e]; [|discriminate]. cbn [res_bind] in Hb.
  destruct (index d12 l6) as [k|e]; [|discriminate]. cbn [res_bind] in Hb.
  destruct (getitem coh_list k) as [c|e]; [|discriminate]. cbn [res_bind] in Hb.
  injection Hb as <-. now do 2 apply mat_set_square.
Qed.

(** Whenever the coherence matrix is built with the default diagonal, it
    is a square matrix with one row per date, and building it with a
    diagonal value [v] gives the same matrix with [v] at every diagonal
    entry. *)
Theorem coherence_matrix_diagonal
        (date12_list : list string) (coh_list : list float) (v : float)
        (coh_mat : list (list float)) (date_list : list string) :
  coherence_matrix date12_list coh_list None = Ok coh_mat ->
  coherence_dates date12_list = Ok date_list ->
  let n := List.length date_list in
  exists coh_mat',
    coherence_matrix date12_list coh_list (Some v) = Ok coh_mat' /\
    square n coh_mat /\ square n coh_mat' /\
    forall i j, (i < n)%nat -> (j < n)%nat ->
                mat_get coh_mat' i j = if Nat.eqb i j then v else mat_get coh_mat i j.
Proof.
  intros HM HD n.
  destruct (coherence_matrix_parts _ _ _ _ HM HD) as [Hsq Hv].
  eexists. split; [apply Hv|]. split; [exact Hsq|].
  assert (Forall (fun i => (i < n)%nat) (seq 0 n)) as Hseq
      by (apply Forall_forall; intros i Hi; apply in_seq in Hi; lia).
  split.
  - clear Hv. revert Hsq. generalize coh_mat. fold n.
    induction (seq 0 n) as [|i ks IH]; intros m Hm; [exact Hm|].
    cbn [fold_left]. apply Forall_cons_iff in Hseq as [_ Hseq].
    apply IH; [exact Hseq|now apply mat_set_square].
  - intros i j Hi Hj. fold n. rewrite (diagonal_fold n) by assumption.
    destruct (Nat.eqb i j); [|reflexivity]. cbn [andb].
    assert (existsb (Nat.eqb i) (seq 0 n) = true) as ->; [|reflexivity].
    apply existsb_exists. exists i. split; [apply in_seq; lia|apply Nat.eqb_refl].
Qed.

Lemma coherence_matrix_diagonal_witness :
  coherence_matrix ["170101-170113"; "170113-170125"] [0.5; 0.75]%float (Some 1%float)
  = Ok [[1; 0.5; nan]; [0.5; 1; 0.75]; [nan; 0.75; 1]]%float.
Proof.
  destruct (coherence_matrix_diagonal
              ["170101-170113"; "170113-170125"] [0.5; 0.75]%float 1%float
              [[nan; 0.5; nan]; [0.5; nan; 0.75]; [nan; 0.75; nan]]%float
              ["170101"; "170113"; "170125"])
    as (M & E & _ & _ & _).
  - vm_compute. reflexivity.
  - vm_compute. reflexivity.
  - rewrite E. vm_compute in E. injection E as <-. reflexivity.
Defined.

Lemma yymmdd_date12_fixed (pairs : list (string * string)) :
  Forall (fun p => (clean (fst p) /\ String.length (fst p) <> 8%nat) /\
                   (clean (snd p) /\ String.length (snd p) <> 8%nat)) pairs ->
  yymmdd_date12 (map (fun p => date12 (fst p) (snd p)) pairs)
  = Ok (map (fun p => date12 (fst p) (snd p)) pairs).
Proof.
  intros H. rewrite yymmdd_date12_joined.
  - f_equal. apply map_ext_in. intros p Hp. rewrite Forall_forall in H.
    destruct (H p Hp) as [[_ Ha] [_ Hb]].
    unfold yymmdd_str.
    destruct (Nat.eqb_spec (String.length (fst p)) 8); [contradiction|].
    destruct (Nat.eqb_spec (String.length (snd p)) 8); [contradiction|].
    reflexivity.
  - eapply Forall_impl; [|exact H]. intros p [[H1 _] [H2 _]]. now split.
Qed.

(** The coherence matrix does not depend on the format of the
    identifiers: for the 8-digit identifiers [A_B] that the plotting
    functions pass, it is the matrix of the 6-digit identifiers [a-b],
    whatever the coherence values and the diagonal value. *)
Theorem coherence_matrix_format
        (pairs : list (string * string)) (coh_list : list float)
        (diagValue : option float) :
  Forall (fun p => (clean (fst p) /\ String.length (fst p) <> 8%nat) /\
                   (clean (snd p) /\ String.length (snd p) <> 8%nat)) pairs ->
  let ids := map (fun p => date12 (fst p) (snd p)) pairs in
  let ids8 := map (fun p => (yyyymmdd_str (fst p) ++ "_" ++ yyyymmdd_str (snd p))%string)
                  pairs in
  yyyymmdd_date12 ids = Ok ids8 /\
  coherence_matrix ids8 coh_list diagValue = coherence_matrix ids coh_list diagValue.
Proof.
  intros H ids ids8. destruct (date12_formats pairs H) as [E8 E6].
  split; [exact E8|].
  unfold coherence_matrix. fold ids8 in E6. fold ids in E6. rewrite E6.
  unfold ids. now rewrite yymmdd_date12_fixed.
Qed.

Lemma coherence_matrix_format_witness :
  coherence_matrix ["20170101_20170113"; "20170113_20170125"] [0.5; 0.75]%float None
  = coherence_matrix ["170101-170113"; "170113-170125"] [0.5; 0.75]%float None.
Proof.
  apply (coherence_matrix_format [("170101", "170113"); ("170113", "170125")]).
  repeat constructor; simpl; lia.
Defined.

(** ** Degenerate inputs of the spanning-tree strategy *)

Lemma fold_zero (f : Z -> Z -> Z) (l : list Z) :
  f 0%Z 0%Z = 0%Z -> Forall (fun t => t = 0%Z) l -> fold_left f l 0%Z = 0%Z.
Proof.
  intros Hf. induction 1 as [|t l -> _ IH]; [reflexivity|].
  cbn [fold_left]. now rewrite Hf.
Qed.

Lemma max_min_zero (tb : list Z) :
  tb <> [] -> Forall (fun t => t = 0%Z) tb ->
  py_max_int tb = Ok 0%Z /\ py_min_int tb = Ok 0%Z.
Proof.
  intros Hne H. destruct tb as [|t tb]; [congruence|].
  apply Forall_cons_iff in H as [-> H]. unfold py_max_int, py_min_int.
  split; f_equal; now apply fold_zero.
Qed.

(** The spanning-tree strategy has no network for degenerate input: it
    raises [ValueError] when there is no date or no perpendicular
    baseline, and [ZeroDivisionError] when all dates fall on the same day,
    in particular for a single date. *)
Theorem select_pairs_mst_degenerate
        (strptime_Ymd : string -> res Z)
        (date_list : list string) (pbase_list : list float) (tb : list Z) :
  date_list2tbase strptime_Ymd (yyyymmdd date_list) = Ok tb ->
  (date_list = [] \/ pbase_list = [] ->
   select_pairs_mst strptime_Ymd date_list pbase_list = Raise ValueError) /\
  (date_list <> [] -> pbase_list <> [] -> Forall (fun t => t = 0%Z) tb ->
   select_pairs_mst strptime_Ymd date_list pbase_list = Raise ZeroDivisionError).
Proof.
  intros Htb. pose proof (date_list2tbase_length _ _ _ Htb) as Hl.
  unfold yyyymmdd in Hl. rewrite length_map in Hl.
  unfold select_pairs_mst. rewrite Htb. cbn [res_bind]. unfold scaled_tbase.
  split.
  - intros [-> | ->].
    + destruct tb; [|discriminate Hl].
      destruct pbase_list as [|p ps]; reflexivity.
    + reflexivity.
  - intros Hd Hp H0.
    assert (tb <> []) as Hne
        by (intros ->; destruct date_list; [congruence|discriminate Hl]).
    destruct (max_min_zero tb Hne H0) as [-> ->].
    destruct pbase_list as [|p ps]; [congruence|]. reflexivity.
Qed.

Lemma select_pairs_mst_degenerate_witness :
  select_pairs_mst ordinal_Ymd8 ["20170101"] [12.5]%float = Raise ZeroDivisionError /\
  select_pairs_mst ordinal_Ymd8 ["20170101"; "20170113"] [] = Raise ValueError.
Proof.
  split.
  - apply (select_pairs_mst_degenerate ordinal_Ymd8 ["20170101"] [12.5]%float [0%Z]);
      [reflexivity|discriminate|discriminate|repeat constructor].
  - apply (select_pairs_mst_degenerate
             ordinal_Ymd8 ["20170101"; "20170113"] [] [0; 12]%Z);
      [reflexivity|now right].
Defined.

(** ** The hierarchical network *)

Lemma outcome_bind {A B} (m : io A) (k : A -> io B) (y : B) :
  outcome (io_bind m k) = Ok y ->
  exists x, outcome m = Ok x /\ outcome (k x) = Ok y.
Proof.
  destruct m as [out [x|e]]; unfold io_bind, outcome; [|discriminate].
  destruct (k x) as [out' r] eqn:E. cbn [snd]. intros ->.
  exists x. rewrite E. split; reflexivity.
Qed.

Lemma sublist_of_incl {A} (a b : list A) : sublist_of a b -> incl a b.
Proof. intros [keep ->] x Hx. now apply filter_In in Hx. Qed.

Lemma io_foldM_invariant {A S} (P : S -> Prop) (body : S -> A -> io S)
      (l : list A) (s s' : S) :
  P s -> (forall s x s1, P s -> outcome (body s x) = Ok s1 -> P s1) ->
  outcome (io_foldM body l s) = Ok s' -> P s'.
Proof.
  intros Hs Hstep. revert s Hs. induction l as [|x l IH]; intros s Hs H.
  - injection H as <-. exact Hs.
  - cbn [io_foldM] in H. apply outcome_bind in H as (s1 & H1 & H2).
    apply (IH s1); [eapply Hstep; eauto|exact H2].
Qed.

(** The hierarchical strategy first prints its heading and the list of
    thresholds.  Whenever it returns, the network is a selection of the
    all-pairs network, in strictly increasing order of the identifiers (in
    particular without repetition); with no threshold level it is empty. *)
Theorem select_pairs_hierarchical_spec
        (strptime_Ymd : string -> res Z)
        (str_of_thresholds : list (list float) -> string)
        (date_list : list string) (pbase_list : list float)
        (temp_perp_list : list (list float)) :
  let run := select_pairs_hierarchical strptime_Ymd str_of_thresholds
                                       date_list pbase_list temp_perp_list in
  firstn 2 (stdout run)
  = ["List of temporal and perpendicular spatial baseline thresholds:";
     str_of_thresholds temp_perp_list] /\
  (forall date12_list,
      outcome run = Ok date12_list ->
      StronglySorted str_lt date12_list /\
      incl date12_list (select_pairs_all date_list)) /\
  (temp_perp_list = [] -> outcome run = Ok []).
Proof.
  intros run. unfold run, select_pairs_hierarchical. split; [|split].
  - unfold print, io_bind.
    destruct (io_foldM _ temp_perp_list []) as [out [x|e]]; reflexivity.
  - intros y H.
    apply outcome_bind in H as (u & _ & H).
    apply outcome_bind in H as (u' & _ & H).
    apply outcome_bind in H as (acc & Hacc & H).
    injection H as <-.
    assert (incl acc (select_pairs_all date_list)) as Hincl.
    { eapply (io_foldM_invariant (fun acc => incl acc (select_pairs_all date_list)));
        [apply incl_nil_l| |exact Hacc].
      intros s tp s1 Hs Hb.
      apply outcome_bind in Hb as (tmax & _ & Hb).
      apply outcome_bind in Hb as (pmax & _ & Hb).
      apply outcome_bind in Hb as (tmp1 & H1 & Hb).
      apply outcome_bind in Hb as (tmp2 & H2 & Hb).
      injection Hb as <-.
      apply temporal_sublist, sublist_of_incl in H1.
      apply perp_sublist, sublist_of_incl in H2.
      apply incl_app; [exact Hs|]. intros x Hx. now apply H1, H2. }
    split.
    + apply sorted_strict; [apply sorted_NoDup, set_list_NoDup|apply sorted_sorted].
    + intros x Hx. apply (proj1 (sorted_In _ _)) in Hx.
      apply (proj1 (set_list_In _ _)) in Hx. now apply Hincl.
  - intros ->. reflexivity.
Qed.

Lemma select_pairs_hierarchical_spec_witness :
  outcome (select_pairs_hierarchical
             ordinal_Ymd8 (fun _ => "[[12.0, 100.0], [12.0, 40.0]]")
             ["20170101"; "20170113"; "20170125"]
             [0; 50; -30]%float [[12; 100]; [12; 40]]%float)
  = Ok ["170101-170113"; "170113-170125"] /\
  StronglySorted str_lt ["170101-170113"; "170113-170125"].
Proof.
  assert (outcome (select_pairs_hierarchical
                     ordinal_Ymd8 (fun _ => "[[12.0, 100.0], [12.0, 40.0]]")
                     ["20170101"; "20170113"; "20170125"]
                     [0; 50; -30]%float [[12; 100]; [12; 40]]%float)
          = Ok ["170101-170113"; "170113-170125"]) as E
      by (vm_compute; reflexivity).
  split; [exact E|].
  destruct (select_pairs_hierarchical_spec
              ordinal_Ymd8 (fun _ => "[[12.0, 100.0], [12.0, 40.0]]")
              ["20170101"; "20170113"; "20170125"]
              [0; 50; -30]%float [[12; 100]; [12; 40]]%float) as (_ & H & _).
  now apply H.
Defined.

(** ** The Doppler overlap *)

Lemma doppler_at_short (dop : list float) (i : Z) :
  (List.length dop < 3)%nat -> doppler_at dop i = Raise IndexError.
Proof.
  intros H. unfold doppler_at.
  destruct dop as [|d0 [|d1 [|d2 dop]]]; try reflexivity. simpl in H. lia.
Qed.

Lemma doppler_at_long (dop : list float) (i : Z) :
  (3 <= List.length dop)%nat -> exists v, doppler_at dop i = Ok v.
Proof.
  intros H. unfold doppler_at.
  destruct dop as [|d0 [|d1 [|d2 dop]]]; try (simpl in H; lia).
  eexists. reflexivity.
Qed.

Lemma doppler_overlap_long
      (np_mean : list float -> float) (dop_a dop_b : list float)
      (bandwidth_az : float) :
  (3 <= List.length dop_a)%nat -> (3 <= List.length dop_b)%nat ->
  exists v, calculate_doppler_overlap np_mean dop_a dop_b bandwidth_az = Ok v.
Proof.
  intros Ha Hb. unfold calculate_doppler_overlap.
  destruct (mapM_total (fun i => da <- doppler_at dop_a i ;;
                                 db <- doppler_at dop_b i ;;
                                 Ok (abs (da - db)))
                       (map Z.of_nat (seq 0 10))) as (ds & -> & _).
  - intros i _. destruct (doppler_at_long dop_a i Ha) as [va ->].
    destruct (doppler_at_long dop_b i Hb) as [vb ->]. eexists. reflexivity.
  - eexists. reflexivity.
Qed.

Lemma doppler_overlap_short
      (np_mean : list float -> float) (dop_a dop_b : list float)
      (bandwidth_az : float) :
  (List.length dop_a < 3)%nat \/ (List.length dop_b < 3)%nat ->
  calculate_doppler_overlap np_mean dop_a dop_b bandwidth_az = Raise IndexError.
Proof.
  intros H. unfold calculate_doppler_overlap.
  rewrite (mapM_Raise _ IndexError); [reflexivity| |].
  - intros i _. destruct (doppler_at_cases dop_a i) as [[va ->]| ->]; [|now left].
    destruct (doppler_at_cases dop_b i) as [[vb ->]| ->]; [|now left].
    right. eexists. reflexivity.
  - change (map Z.of_nat (seq 0 10)) with (0%Z :: map Z.of_nat (seq 1 9)).
    apply Exists_cons_hd.
    destruct H as [H|H].
    + now rewrite doppler_at_short.
    + rewrite (doppler_at_short dop_b) by exact H.
      destruct (doppler_at_cases dop_a 0%Z) as [[va ->]| ->]; reflexivity.
Qed.

(** The Doppler overlap is defined exactly for polynomials of three
    coefficients or more: it raises [IndexError] when either polynomial
    has fewer, and returns a number otherwise (further coefficients are
    ignored). *)
Theorem calculate_doppler_overlap_returns
        (np_mean : list float -> float) (dop_a dop_b : list float)
        (bandwidth_az : float) :
  ((3 <= List.length dop_a)%nat -> (3 <= List.length dop_b)%nat ->
   exists v, calculate_doppler_overlap np_mean dop_a dop_b bandwidth_az = Ok v) /\
  ((List.length dop_a < 3)%nat \/ (List.length dop_b < 3)%nat ->
   calculate_doppler_overlap np_mean dop_a dop_b bandwidth_az = Raise IndexError).
Proof.
  split; [apply doppler_overlap_long|apply doppler_overlap_short].
Qed.

Lemma calculate_doppler_overlap_returns_witness :
  (exists v, calculate_doppler_overlap mean_seq [0; 0; 0]%float [100; 0; 0; 7]%float
                                       1000%float = Ok v) /\
  calculate_doppler_overlap mean_seq [0; 0; 0]%float [100; 0]%float 1000%float
  = Raise IndexError.
Proof.
  split.
  - apply calculate_doppler_overlap_returns; simpl; lia.
  - apply calculate_doppler_overlap_returns. right. simpl. lia.
Defined.

(** ** More on the filters and the selections *)

(** With a date list and one polynomial of three coefficients or more per
    date, the Doppler filter prints nothing and keeps, in the order of the
    input, exactly the pairs whose Doppler overlap is at least
    [dop_overlap_min]. *)
Theorem threshold_doppler_overlap_window
        (np_mean : list float -> float)
        (l date_list : list string) (dop_list : list (list float))
        (bandwidth_az dop_overlap_min : float) :
  date_list <> [] ->
  (List.length date_list <= List.length dop_list)%nat ->
  Forall (fun dop => (3 <= List.length dop)%nat) dop_list ->
  Forall (fun d12 => exists d1 d2,
              split "-" d12 = [d1; d2] /\
              In d1 (yymmdd date_list) /\ In d2 (yymmdd date_list)) l ->
  threshold_doppler_overlap np_mean l date_list dop_list bandwidth_az dop_overlap_min
  = ([], Ok (filter (fun d12 =>
                       geb (overlap_of np_mean date_list dop_list bandwidth_az d12)
                           dop_overlap_min)
                    l)).
Proof.
  intros Hd Hlen Hdop H. unfold threshold_doppler_overlap.
  destruct l as [|a l0] eqn:El; [reflexivity|]. rewrite <- El in *. clear El.
  destruct date_list as [|b dl] eqn:Ed; [congruence|]. rewrite <- Ed in *. clear Ed.
  unfold io_lift. f_equal. apply for_filter_pure. intros d12 Hin.
  rewrite Forall_forall in H. destruct (H d12 Hin) as (d1 & d2 & Hs & H1 & H2).
  unfold overlap_of, part. rewrite Hs. cbn [unpack2 res_bind nth].
  destruct (position_spec _ _ H1) as (E1 & _ & L1).
  destruct (position_spec _ _ H2) as (E2 & _ & L2).
  rewrite E1. cbn [res_bind]. rewrite E2. cbn [res_bind].
  unfold yymmdd in L1, L2. rewrite length_map in L1, L2.
  rewrite (getitem_nth dop_list _ []) by (unfold yymmdd in *; lia).
  cbn [res_bind].
  rewrite (getitem_nth dop_list _ []) by (unfold yymmdd in *; lia).
  cbn [res_bind].
  rewrite Forall_forall in Hdop.
  destruct (doppler_overlap_long
              np_mean
              (nth (position (yymmdd date_list) d1) dop_list [])
              (nth (position (yymmdd date_list) d2) dop_list [])
              bandwidth_az) as [v ->]; [| |reflexivity];
    apply Hdop, nth_In; unfold yymmdd in *; lia.
Qed.

Lemma threshold_doppler_overlap_window_witness :
  threshold_doppler_overlap mean_seq ["170101-170113"; "170101-170125"]
                            ["170101"; "170113"; "170125"]
                            [[0; 0; 0]; [100; 0; 0]; [2000; 0; 0]]%float 1000 0.5
  = ([], Ok ["170101-170113"]).
Proof.
  rewrite threshold_doppler_overlap_window.
  - vm_compute. reflexivity.
  - discriminate.
  - simpl. lia.
  - repeat constructor; simpl; lia.
  - repeat constructor.
    + exists "170101", "170113". repeat split; vm_compute; auto 6.
    + exists "170101", "170125". repeat split; vm_compute; auto 6.
Defined.

(** Without a date list, when the number of dates that occur in the pairs
    differs from the number of perpendicular baselines, the
    perpendicular-baseline filter prints its three lines and returns the
    list of pairs unfiltered, whatever the thresholds. *)
Theorem threshold_perp_baseline_mismatch
        (date12_list dates : list string) (pbase_list : list float)
        (pbase_max pbase_min : float) :
  date12_list <> [] ->
  pair_dates date12_list = Ok dates ->
  List.length dates <> List.length pbase_list ->
  threshold_perp_baseline date12_list [] pbase_list pbase_max pbase_min
  = (["ERROR: number of existing dates is not equal to number of perp baseline!";
      "date list is needed for threshold filtering!";
      "skip filtering."],
     Ok date12_list).
Proof.
  intros Hne Hd Hl. apply (threshold_perp_baseline_skip _ dates); [exact Hne|exact Hd|].
  unfold yyyymmdd. now rewrite sorted_length, length_map.
Qed.

Lemma threshold_perp_baseline_mismatch_witness :
  threshold_perp_baseline ["170101-170113"; "170113-170125"] [] [0; 50]%float 40 0
  = (["ERROR: number of existing dates is not equal to number of perp baseline!";
      "date list is needed for threshold filtering!";
      "skip filtering."],
     Ok ["170101-170113"; "170113-170125"]).
Proof.
  apply (threshold_perp_baseline_mismatch _ ["170101"; "170113"; "170125"]).
  - discriminate.
  - vm_compute. reflexivity.
  - simpl. lia.
Defined.

(** The pairs that the master date 170113 selects. *)
Lemma master_candidates_first_date_witness :
  master_candidates ["170101-170113"; "170113-170125"; "170113-170206"] "170113"
  = ["170113-170125"; "170113-170206"].
Proof.
  apply (master_candidates_first_date
           [("170101", "170113"); ("170113", "170125"); ("170113", "170206")] "170113").
  repeat constructor.
Defined.

(** Every pair of the star network around a date of the list, at a
    position up to 256 of the sorted list, is a pair of the all-pairs
    network. *)
Theorem select_pairs_star_within_all
        (strptime_Ymd : string -> res Z) (np_mean : list float -> float)
        (date_list : list string) (m_date : string) (pbase_list : list float) :
  m_date <> "" ->
  In (yyyymmdd_str m_date) (yyyymmdd date_list) ->
  (position (sorted (yyyymmdd date_list)) (yyyymmdd_str m_date) <= 256)%nat ->
  exists date12_list,
    outcome (select_pairs_star strptime_Ymd np_mean date_list (Some m_date) pbase_list)
    = Ok date12_list /\
    incl date12_list (select_pairs_all date_list).
Proof.
  intros Hne Hin Hsmall.
  assert (In (yyyymmdd_str m_date) (sorted (yyyymmdd date_list))) as Hin'
      by now apply sorted_In.
  destruct (position_spec _ _ Hin') as (Hi & _ & Hlt).
  eexists. split.
  - rewrite (select_pairs_star_at _ _ _ _ _ _ Hne Hi).
    apply Nat.leb_le in Hsmall. rewrite Hsmall. reflexivity.
  - intros d12 Hd. apply star_network_In in Hd as (s & Hs & Hsm & ->).
    rewrite select_pairs_all_positions. cbv zeta. apply in_map_iff.
    set (m := position (sorted (yyyymmdd date_list)) (yyyymmdd_str m_date)) in *.
    exists (Nat.min m s, Nat.max m s). split; [reflexivity|].
    apply combinations2_seq_In.
    assert (m < List.length (yymmdd (sorted (yyyymmdd date_list))))%nat
      by (unfold yymmdd; now rewrite length_map).
    lia.
Qed.

Lemma select_pairs_star_within_all_witness :
  exists date12_list,
    outcome (select_pairs_star ordinal_Ymd8 mean_seq
                               ["20170125"; "20170101"; "20170113"] (Some "170113") [])
    = Ok date12_list /\
    incl date12_list (select_pairs_all ["20170125"; "20170101"; "20170113"]).
Proof.
  apply select_pairs_star_within_all;
    [discriminate|vm_compute; auto|vm_compute; lia].
Defined.

(** ** The order of the lists that [pair_sort] and [pair_merge] return *)

Module HeapOrder.
Import Heap.

Lemma list_leb_trans (a b c : list Z) :
  list_leb a b = true -> list_leb b c = true -> list_leb a c = true.
Proof.
  revert b c. induction a as [|x a IH]; intros b c; [reflexivity|].
  destruct b as [|y b]; [discriminate|]. destruct c as [|z c]; [discriminate|].
  cbn [list_leb]. rewrite !orb_true_iff, !andb_true_iff, !Z.ltb_lt, !Z.eqb_eq.
  intros [H1|[H1 H1']] [H2|[H2 H2']].
  - left. lia.
  - left. lia.
  - left. lia.
  - right. split; [lia|]. eapply IH; eauto.
Qed.

Lemma list_leb_total (a b : list Z) :
  list_leb a b = false -> list_leb b a = true.
Proof.
  revert b. induction a as [|x a IH]; intros b; [discriminate|].
  destruct b as [|y b]; [reflexivity|].
  cbn [list_leb]. rewrite orb_false_iff, andb_false_iff, Z.ltb_ge, Z.eqb_neq.
  rewrite orb_true_iff, andb_true_iff, Z.ltb_lt, Z.eqb_eq.
  intros [H1 [H2|H2]]; [left; lia|].
  destruct (Z.eq_dec x y) as [->|Hn]; [right; split; [reflexivity|now apply IH]|].
  left. lia.
Qed.

Lemma insert_by_perm (h : store) (q : loc) (l : list loc) :
  Permutation (insert_by h q l) (q :: l).
Proof.
  induction l as [|q' l IH]; [reflexivity|].
  cbn [insert_by]. destruct (list_leb _ _); [reflexivity|].
  rewrite IH. apply perm_swap.
Qed.

Lemma sorted_by_perm (h : store) (l : list loc) : Permutation (sorted_by h l) l.
Proof.
  induction l as [|q l IH]; [reflexivity|].
  cbn [sorted_by fold_right]. fold (sorted_by h l).
  rewrite insert_by_perm. now constructor.
Qed.

Lemma insert_by_sorted (h : store) (q : loc) (l : list loc) :
  StronglySorted (content_le h) l -> StronglySorted (content_le h) (insert_by h q l).
Proof.
  induction l as [|q' l IH]; intros Hs; [repeat constructor|].
  cbn [insert_by]. apply StronglySorted_inv in Hs as [Hs Hq].
  destruct (list_leb (content h q) (content h q')) eqn:E.
  - constructor; [now constructor|].
    constructor; [exact E|].
    eapply Forall_impl; [|exact Hq]. intros r Hr.
    unfold content_le in *. eapply list_leb_trans; eauto.
  - constructor; [now apply IH|].
    eapply Permutation_Forall; [symmetry; apply insert_by_perm|].
    constructor; [now apply list_leb_total|exact Hq].
Qed.

Lemma sorted_by_sorted (h : store) (l : list loc) :
  StronglySorted (content_le h) (sorted_by h l).
Proof.
  induction l as [|q l IH]; [constructor|].
  cbn [sorted_by fold_right]. fold (sorted_by h l). now apply insert_by_sorted.
Qed.

End HeapOrder.

(** The list that [pair_sort] returns is newly allocated and holds the
    pairs of its argument, each with its two indices in increasing order,
    arranged in non-decreasing lexicographic order; the list that
    [pair_merge] returns is newly allocated and holds the pairs of the
    extended first list in that order. *)
Theorem pair_sort_pair_merge_sorted :
  (forall h p l,
      nth_error (Heap.outer h) p = Some l ->
      (forall q, In q l -> (2 <= List.length (Heap.content h q))%nat) ->
      exists new h' r,
        Heap.pair_sort p h = (Ok new, h') /\
        nth_error (Heap.outer h') new = Some r /\
        Permutation r l /\
        StronglySorted (content_le h') r /\
        Forall (fun q => Heap.content h' q = Heap.normalise (Heap.content h q)) r /\
        new = List.length (Heap.outer h)) /\
  (forall h p1 p2 l1 l2,
      nth_error (Heap.outer h) p1 = Some l1 ->
      nth_error (Heap.outer h) p2 = Some l2 ->
      exists new h' r,
        Heap.pair_merge p1 p2 h = (Ok new, h') /\
        nth_error (Heap.outer h') new = Some r /\
        Permutation r (nth p1 (Heap.outer h') []) /\
        StronglySorted (content_le h') r /\
        new = List.length (Heap.outer h)).
Proof.
  split.
  - intros h p l Hp Hv.
    set (h0 := Heap.mkStore (Heap.normalise_all (Heap.inner h) l) (Heap.outer h)).
    exists (List.length (Heap.outer h)),
           (Heap.mkStore (Heap.inner h0) (Heap.outer h ++ [Heap.sorted_by h0 l])),
           (Heap.sorted_by h0 l).
    split; [apply (HeapFacts.pair_sort_effect p l h Hp Hv)|].
    cbn [Heap.inner Heap.outer].
    split; [rewrite nth_error_app2 by lia; rewrite Nat.sub_diag; reflexivity|].
    split; [apply HeapOrder.sorted_by_perm|].
    split; [exact (HeapOrder.sorted_by_sorted h0 l)|].
    split; [|reflexivity].
    apply Forall_forall. intros q Hq.
    apply (Permutation_in _ (HeapOrder.sorted_by_perm _ l)) in Hq.
    unfold Heap.content, h0. cbn [Heap.inner].
    rewrite HeapFacts.normalise_all_nth.
    assert (existsb (Nat.eqb q) l = true) as ->; [|reflexivity].
    apply existsb_exists. exists q. split; [exact Hq|apply Nat.eqb_refl].
  - intros h p1 p2 l1 l2 H1 H2.
    assert (p1 < List.length (Heap.outer h))%nat as Hlt
        by (apply nth_error_Some; congruence).
    exists (List.length (Heap.outer h)),
           (Heap.mkStore (Heap.inner h)
                         (list_set p1 (Heap.merge_refs h l1 l2) (Heap.outer h)
                          ++ [Heap.sorted_by h (Heap.merge_refs h l1 l2)])),
           (Heap.sorted_by h (Heap.merge_refs h l1 l2)).
    split; [apply (HeapFacts.pair_merge_effect p1 p2 l1 l2 h H1 H2)|].
    cbn [Heap.inner Heap.outer].
    split; [rewrite nth_error_app2 by (rewrite list_set_length; lia);
            rewrite list_set_length, Nat.sub_diag; reflexivity|].
    split.
    + rewrite app_nth1 by (rewrite list_set_length; exact Hlt).
      rewrite (nth_error_nth _ _ [] (HeapFacts.list_set_here _ _ _ Hlt)).
      apply HeapOrder.sorted_by_perm.
    + split; [|reflexivity].
      exact (HeapOrder.sorted_by_sorted h (Heap.merge_refs h l1 l2)).
Qed.

Lemma pair_sort_pair_merge_sorted_witness :
  exists new h' r,
    Heap.pair_sort 0%nat (Heap.mkStore [[3; 1]; [1; 2]]%Z [[0; 1]]%nat) = (Ok new, h') /\
    nth_error (Heap.outer h') new = Some r /\
    map (Heap.content h') r = [[1; 2]; [1; 3]]%Z.
Proof.
  destruct pair_sort_pair_merge_sorted as [HS _].
  destruct (HS (Heap.mkStore [[3; 1]; [1; 2]]%Z [[0; 1]]%nat) 0%nat [0%nat; 1%nat])
    as (new & h' & r & E & Hr & _).
  - reflexivity.
  - intros q [<-|[<-|[]]]; simpl; lia.
  - exists new, h', r. split; [exact E|]. split; [exact Hr|].
    vm_compute in E. injection E as <- <-.
    vm_compute in Hr. injection Hr as <-. reflexivity.
Defined.

(** ** The coherence-based spanning tree *)

Section NamedTree.

Variable W : list (list float).
Variable names : list string.

Let n := List.length names.

Hypothesis names_nonempty : (1 <= n)%nat.
Hypothesis W_sq : square n W.
Hypothesis W_nonzero :
  forall i j, (i < n)%nat -> (j < n)%nat -> i <> j ->
              (mat_get W i j =? 0)%float = false.

Let tree := minimum_spanning_tree n (csr_matrix W).
Let name (e : nat * nat * float) : string :=
  date12 (nth (Nat.min (snd (fst e)) (fst (fst e))) names EmptyString)
         (nth (Nat.max (snd (fst e)) (fst (fst e))) names EmptyString).

Lemma graph_complete (i j : nat) :
  (i < n)%nat -> (j < n)%nat -> i <> j -> exists w, In (i, j, w) (csr_matrix W).
Proof.
  intros Hi Hj Hne. exists (mat_get W i j). apply csr_matrix_In.
  destruct (mat_get_nth_error n W i j W_sq Hi Hj) as (row & Hr & Hw).
  exists row. split; [exact Hr|]. split; [exact Hw|]. now apply W_nonzero.
Qed.

Lemma named_tree_valid (e : nat * nat * float) :
  In e tree -> (fst (fst e) < n)%nat /\ (snd (fst e) < n)%nat.
Proof.
  intros H. unfold tree, minimum_spanning_tree in H. apply filter_In in H as [H _].
  pose proof (csr_matrix_valid n W W_sq) as Hv. rewrite Forall_forall in Hv. auto.
Qed.

Lemma named_tree_Ok :
  mapM (fun e : nat * nat * float =>
          let s_idx := fst (fst e) in
          let m_idx := snd (fst e) in
          d1 <- getitem names (Nat.min m_idx s_idx) ;;
          d2 <- getitem names (Nat.max m_idx s_idx) ;;
          Ok (d1 ++ "-" ++ d2)%string)
       tree
  = Ok (map name tree).
Proof.
  apply mapM_Ok_iff. intros e He. destruct (named_tree_valid e He) as [H1 H2].
  cbv zeta. fold n in H1, H2.
  rewrite (getitem_nth _ _ EmptyString) by (fold n; lia). cbn [res_bind].
  rewrite (getitem_nth _ _ EmptyString) by (fold n; lia). reflexivity.
Qed.

Lemma named_tree_length : List.length (map name tree) = (n - 1)%nat.
Proof.
  rewrite length_map.
  apply tree_length;
    first [exact names_nonempty | apply csr_matrix_valid, W_sq
          | apply csr_matrix_NoDup | exact graph_complete].
Qed.

Lemma named_joined (x y : nat) :
  joined (map fst tree) x y ->
  linked (map name tree) (nth x names EmptyString) (nth y names EmptyString).
Proof.
  assert (forall a b, In (a, b) (map fst tree) ->
                      linked (map name tree) (nth a names EmptyString)
                             (nth b names EmptyString)) as H.
  { intros a b Hab. apply in_map_iff in Hab as [e [E He]].
    assert (In (name e) (map name tree)) as Hn by now apply in_map.
    unfold name in Hn. rewrite E in Hn. cbn [fst snd] in Hn.
    destruct (Nat.le_gt_cases a b) as [Hle|Hgt].
    - left. now rewrite Nat.min_r, Nat.max_l in Hn by lia.
    - right. now rewrite Nat.min_l, Nat.max_r in Hn by lia. }
  intros [Hxy|Hyx]; [now apply H|].
  destruct (H y x Hyx) as [H'|H']; [now right|now left].
Qed.

Lemma named_connected (i j : nat) :
  connected (map fst tree) i j ->
  network_connected (map name tree) (nth i names EmptyString)
                    (nth j names EmptyString).
Proof.
  intros Hc. unfold connected in Hc.
  induction Hc as [x y Hxy|x|x y z _ IH1 _ IH2].
  - apply rt_step. now apply named_joined.
  - apply rt_refl.
  - eapply rt_trans; eauto.
Qed.

Lemma named_tree_connected (a b : string) :
  In a names -> In b names -> network_connected (map name tree) a b.
Proof.
  intros Ha Hb.
  destruct (In_nth _ _ EmptyString Ha) as [i [Hi <-]].
  destruct (In_nth _ _ EmptyString Hb) as [j [Hj <-]].
  apply named_connected.
  apply tree_connected; try assumption;
    first [exact names_nonempty | apply csr_matrix_valid, W_sq
          | apply csr_matrix_NoDup | exact graph_complete].
Qed.

End NamedTree.

(** Every entry of the coherence matrix is not-a-number or one of the
    coherence values. *)
Lemma coherence_matrix_values (l : list string) (coh_list : list float)
      (M : list (list float)) (DL : list string) :
  coherence_matrix l coh_list None = Ok M ->
  coherence_dates l = Ok DL ->
  forall i j, is_nan (mat_get M i j) = true \/ In (mat_get M i j) coh_list.
Proof.
  unfold coherence_matrix, coherence_dates.
  destruct (yymmdd_date12 l) as [l6|e]; [|discriminate]. cbn [res_bind].
  destruct (pair_dates l6) as [dates|e]; [|discriminate]. cbn [res_bind].
  intros HM HD. injection HD as <-.
  destruct (foldM _ l6 _) as [M0|e] eqn:E; [|discriminate].
  cbn [res_bind] in HM. injection HM as <-.
  set (n := List.length (sorted (yymmdd dates))) in *.
  assert (square n M0 /\
          forall i j, is_nan (mat_get M0 i j) = true \/ In (mat_get M0 i j) coh_list)
    as [_ H]; [|exact H].
  eapply (foldM_invariant
            (fun m => square n m /\
                      forall i j, is_nan (mat_get m i j) = true \/
                                  In (mat_get m i j) coh_list));
    [| |exact E].
  - split; [apply repeat_square|]. intros i j. left. now rewrite mat_get_repeat.
  - intros s d12 s1 [Hsq Hs] Hb. cbv beta in Hb.
    destruct (unpack2 (split "-" d12)) as [[d1 d2]|e]; [|discriminate].
    cbn [res_bind] in Hb.
    destruct (index d1 _) as [i1|e] eqn:E1; [|discriminate]. cbn [res_bind] in Hb.
    destruct (index d2 _) as [i2|e] eqn:E2; [|discriminate]. cbn [res_bind] in Hb.
    destruct (index d12 l6) as [k|e]; [|discriminate]. cbn [res_bind] in Hb.
    destruct (getitem coh_list k) as [c|e] eqn:Ec; [|discriminate].
    cbn [res_bind] in Hb. injection Hb as <-.
    assert (i1 < n)%nat as L1
        by (apply index_nth in E1; apply nth_error_Some; congruence).
    assert (i2 < n)%nat as L2
        by (apply index_nth in E2; apply nth_error_Some; congruence).
    assert (In c coh_list) as Hc
        by (apply getitem_Ok_nth_error in Ec; eapply nth_error_In; eauto).
    split; [now do 2 apply mat_set_square|].
    intros i j.
    rewrite (mat_get_set n) by (try apply mat_set_square; assumption).
    destruct (Nat.eqb i i2 && Nat.eqb j i1); [now right|].
    rewrite (mat_get_set n) by assumption.
    destruct (Nat.eqb i i1 && Nat.eqb j i2); [now right|apply Hs].
Qed.

Lemma inverse_coherence_square (n : nat) (M : list (list float)) :
  square n M -> square n (inverse_coherence M).
Proof.
  intros [Hl Hr]. unfold inverse_coherence. split; [now rewrite length_map|].
  apply Forall_map. eapply Forall_impl; [|exact Hr].
  intros row H. now rewrite length_map.
Qed.

Lemma inverse_coherence_get (n : nat) (M : list (list float)) (i j : nat) :
  square n M -> (i < n)%nat -> (j < n)%nat ->
  mat_get (inverse_coherence M) i j
  = if is_nan (mat_get M i j) then infinity else (1 / mat_get M i j)%float.
Proof.
  intros Hsq Hi Hj.
  destruct (mat_get_nth_error n M i j Hsq Hi Hj) as (row & Hr & Hw).
  unfold mat_get at 1. unfold inverse_coherence.
  rewrite (nth_error_nth _ _ [] (map_nth_error _ _ _ Hr)).
  now rewrite (nth_error_nth _ _ nan (map_nth_error _ _ _ Hw)).
Qed.

Lemma mst_dates_length (l DL names : list string) :
  coherence_dates l = Ok DL -> mst_dates l = Ok names ->
  List.length names = List.length DL.
Proof.
  unfold coherence_dates, mst_dates.
  destruct (yymmdd_date12 l) as [l6|e]; [|discriminate]. cbn [res_bind].
  destruct (pair_dates l6) as [dates|e]; [|discriminate]. cbn [res_bind].
  intros H1 H2. injection H1 as <-. injection H2 as <-.
  unfold yymmdd, yyyymmdd. now rewrite !length_map, !sorted_length, !length_map.
Qed.

Lemma threshold_coherence_based_mst_tree
      (l : list string) (coh_list : list float)
      (M : list (list float)) (names : list string) :
  coherence_matrix l coh_list None = Ok M ->
  mst_dates l = Ok names ->
  threshold_coherence_based_mst l coh_list
  = mapM (fun e : nat * nat * float =>
            let s_idx := fst (fst e) in
            let m_idx := snd (fst e) in
            d1 <- getitem names (Nat.min m_idx s_idx) ;;
            d2 <- getitem names (Nat.max m_idx s_idx) ;;
            Ok (d1 ++ "-" ++ d2)%string)
         (minimum_spanning_tree (List.length (inverse_coherence M))
                                (csr_matrix (inverse_coherence M))).
Proof.
  intros HM Hn. unfold threshold_coherence_based_mst. rewrite HM. cbn [res_bind].
  unfold mst_dates in Hn.
  destruct (yymmdd_date12 l) as [l6|e]; [|discriminate]. cbn [res_bind] in *.
  destruct (pair_dates l6) as [dates|e]; [|discriminate]. cbn [res_bind] in *.
  now injection Hn as <-.
Qed.

(** Whenever the coherence matrix of a network of [n >= 1] dates is
    built and no coherence value has a zero inverse (none is infinite),
    the coherence-based spanning tree has exactly [n - 1] pairs, and they
    connect all dates. *)
Theorem threshold_coherence_based_mst_spanning
        (date12_list : list string) (coh_list : list float)
        (coh_mat : list (list float)) (date6_list : list string) :
  coherence_matrix date12_list coh_list None = Ok coh_mat ->
  mst_dates date12_list = Ok date6_list ->
  date6_list <> [] ->
  Forall (fun c => is_nan c = false -> (1 / c =? 0)%float = false) coh_list ->
  exists mst_date12_list,
    threshold_coherence_based_mst date12_list coh_list = Ok mst_date12_list /\
    List.length mst_date12_list = (List.length date6_list - 1)%nat /\
    forall a b, In a date6_list -> In b date6_list ->
                network_connected mst_date12_list a b.
Proof.
  intros HM Hn Hne Hc.
  assert (exists DL, coherence_dates date12_list = Ok DL) as [DL HD].
  { unfold coherence_dates, mst_dates in *.
    destruct (yymmdd_date12 date12_list) as [l6|e]; [|discriminate].
    cbn [res_bind] in *.
    destruct (pair_dates l6) as [dates|e]; [|discriminate]. eexists. reflexivity. }
  destruct (coherence_matrix_parts _ _ _ _ HM HD) as [Hsq _].
  pose proof (coherence_matrix_values _ _ _ _ HM HD) as Hval.
  pose proof (mst_dates_length _ _ _ HD Hn) as Hl. rewrite <- Hl in Hsq.
  set (n := List.length date6_list) in *.
  assert (1 <= n)%nat as Hn1 by (unfold n; destruct date6_list; [congruence|simpl; lia]).
  assert (square n (inverse_coherence coh_mat)) as HW
      by now apply inverse_coherence_square.
  assert (forall i j, (i < n)%nat -> (j < n)%nat -> i <> j ->
                      (mat_get (inverse_coherence coh_mat) i j =? 0)%float = false)
    as Hnz.
  { intros i j Hi Hj _. rewrite (inverse_coherence_get n) by assumption.
    destruct (is_nan (mat_get coh_mat i j)) eqn:E; [reflexivity|].
    destruct (Hval i j) as [H|H]; [congruence|].
    rewrite Forall_forall in Hc. now apply Hc. }
  rewrite (threshold_coherence_based_mst_tree _ _ _ _ HM Hn).
  replace (List.length (inverse_coherence coh_mat)) with n by (symmetry; apply HW).
  eexists. split; [now apply named_tree_Ok|].
  split; [now apply named_tree_length|].
  intros a b. now apply named_tree_connected.
Qed.

Lemma threshold_coherence_based_mst_spanning_witness :
  exists mst_date12_list,
    threshold_coherence_based_mst
      ["170101-170113"; "170113-170125"; "170101-170125"] [0.5; 0.75; 0.25]%float
    = Ok mst_date12_list /\
    List.length mst_date12_list = 2%nat /\
    network_connected mst_date12_list "170101" "170125".
Proof.
  pose (M := match coherence_matrix
                     ["170101-170113"; "170113-170125"; "170101-170125"]
                     [0.5; 0.75; 0.25]%float None with
             | Ok m => m
             | Raise _ => []
             end).
  destruct (threshold_coherence_based_mst_spanning
              ["170101-170113"; "170113-170125"; "170101-170125"]
              [0.5; 0.75; 0.25]%float M ["170101"; "170113"; "170125"])
    as (mst & E & Hl & Hc).
  - vm_compute. reflexivity.
  - vm_compute. reflexivity.
  - discriminate.
  - repeat constructor; intros _; vm_compute; reflexivity.
  - exists mst. split; [exact E|]. split; [exact Hl|].
    apply Hc; simpl; auto.
Defined.

(** ** A spanning tree avoids the entries of infinite weight *)

Lemma SFleb_ltb_trans (x y z : spec_float) :
  SFleb x y = true -> SFltb y z = true -> SFltb x z = true.
Proof.
  unfold SFltb, SFleb, SFcompare.
  destruct x as [sx|sx| |sx mx ex], y as [sy|sy| |sy my ey], z as [sz|sz| |sz mz ez];
    repeat match goal with s : bool |- _ => destruct s end;
    simpl; try congruence;
    change (Pos.compare_cont Eq) with Pos.compare;
    repeat match goal with
           | |- context [Z.compare ?a ?b] => destruct (Z.compare_spec a b)
           end; simpl; try congruence; try lia;
    repeat match goal with
           | |- context [Pos.compare ?a ?b] => destruct (Pos.compare_spec a b)
           end; simpl; try congruence; try lia.
Qed.

Lemma float_leb_ltb_trans (a b c : float) :
  (a <=? b) = true -> (b <? c) = true -> (a <? c) = true.
Proof. rewrite leb_spec, !ltb_spec. apply SFleb_ltb_trans. Qed.

Lemma float_leb_total (a b : float) :
  is_nan a = false -> is_nan b = false ->
  (a <=? b) = false -> (b <=? a) = true.
Proof.
  intros Ha Hb H. apply float_total; [exact Ha|exact Hb|].
  destruct (a <? b) eqn:E; [|reflexivity].
  apply float_ltb_leb in E. congruence.
Qed.

Lemma float_ltb_not_nan (a b : float) : (a <? b) = true -> is_nan a = false.
Proof.
  intros H. apply is_nan_false. rewrite eqb_spec. rewrite ltb_spec in H.
  unfold SFltb in H. unfold SFeqb.
  destruct (Prim2SF a) as [s|s| |s m e], (Prim2SF b) as [s'|s'| |s' m' e'];
    try discriminate; try reflexivity; simpl.
  all: try (destruct s; reflexivity).
  all: destruct s; simpl; rewrite Z.compare_refl, Pos.compare_cont_refl; reflexivity.
Qed.

Lemma sorted_split {A} (R : A -> A -> Prop) (P : A -> bool) (l : list A) :
  StronglySorted R l ->
  (forall x y, R x y -> P y = true -> P x = true) ->
  l = filter P l ++ filter (fun x => negb (P x)) l.
Proof.
  intros Hs Hd. induction Hs as [|x l Hs IH Hx]; [reflexivity|].
  cbn [filter]. destruct (P x) eqn:E; cbn [negb].
  - cbn [app]. now rewrite <- IH.
  - assert (filter P l = []) as Hnone.
    { rewrite Forall_forall in Hx. clear IH.
      induction l as [|y l IHl]; [reflexivity|].
      cbn [filter]. destruct (P y) eqn:Ey.
      - rewrite (Hd x y (Hx y (or_introl eq_refl)) Ey) in E. discriminate.
      - apply IHl; [now apply StronglySorted_inv in Hs|].
        intros z Hz. apply Hx. now right. }
    rewrite Hnone in *. cbn [app] in *. now rewrite <- IH.
Qed.

Lemma kruskal_app (es1 es2 : list (nat * nat * float)) (comp : list nat) :
  kruskal comp (es1 ++ es2)
  = kruskal comp es1 ++ kruskal (kruskal_labels comp es1) es2.
Proof.
  revert comp. induction es1 as [|[[i j] w] es1 IH]; intros comp; [reflexivity|].
  cbn [app kruskal kruskal_labels].
  destruct (Nat.eqb (nth i comp i) (nth j comp j)); [apply IH|].
  cbn [app]. now rewrite IH.
Qed.

Section FiniteTree.

Variable n : nat.
Variable g : list (nat * nat * float).

Hypothesis g_valid :
  Forall (fun e => (fst (fst e) < n)%nat /\ (snd (fst e) < n)%nat) g.
Hypothesis g_NoDup : NoDup (map fst g).
Hypothesis g_numbers : Forall (fun e => is_nan (snd e) = false) g.
Hypothesis g_finite_connected :
  forall a b, (a < n)%nat -> (b < n)%nat ->
              connected (map fst (filter below_infinity g)) a b.

Let weight_le (a b : nat * nat * float) : Prop := weight_leb a b = true.

Lemma insert_edge_sorted (e : nat * nat * float) (l : list (nat * nat * float)) :
  is_nan (snd e) = false -> Forall (fun e => is_nan (snd e) = false) l ->
  StronglySorted weight_le l -> StronglySorted weight_le (insert_edge e l).
Proof.
  intros He. induction l as [|e' l IH]; intros Hl Hs; [repeat constructor|].
  apply Forall_cons_iff in Hl as [He' Hl].
  apply StronglySorted_inv in Hs as [Hs Hx].
  cbn [insert_edge]. destruct (weight_leb e e') eqn:E.
  - constructor; [now constructor|]. constructor; [exact E|].
    rewrite Forall_forall in Hx, Hl. apply Forall_forall. intros x Hin.
    specialize (Hx x Hin). specialize (Hl x Hin).
    unfold weight_le, weight_leb in *. rewrite He', Hl, orb_false_r in *.
    eapply float_leb_trans; eauto.
  - constructor; [now apply IH|].
    eapply Permutation_Forall; [symmetry; apply insert_edge_perm|].
    constructor; [|exact Hx].
    unfold weight_le, weight_leb in *. rewrite He, He', orb_false_r in *.
    now apply float_leb_total.
Qed.

Lemma argsort_sorted : StronglySorted weight_le (argsort g).
Proof.
  unfold argsort. clear g_valid g_NoDup g_finite_connected.
  induction g as [|e l IH]; [constructor|].
  apply Forall_cons_iff in g_numbers as [He Hl].
  cbn [fold_right]. apply insert_edge_sorted; [exact He| |now apply IH].
  eapply Permutation_Forall; [symmetry; apply argsort_perm|exact Hl].
Qed.

Lemma argsort_numbers : Forall (fun e => is_nan (snd e) = false) (argsort g).
Proof.
  eapply Permutation_Forall; [symmetry; apply argsort_perm|exact g_numbers].
Qed.

Lemma argsort_split :
  argsort g = filter below_infinity (argsort g)
              ++ filter (fun e => negb (below_infinity e)) (argsort g).
Proof.
  pose proof argsort_numbers as Hn.
  assert (StronglySorted
            (fun a b => weight_le a b /\ is_nan (snd a) = false /\ is_nan (snd b) = false)
            (argsort g)) as Hs.
  { pose proof argsort_sorted as Hs. induction Hs as [|x l Hs IH Hx]; [constructor|].
    apply Forall_cons_iff in Hn as [Hnx Hnl]. constructor; [now apply IH|].
    rewrite Forall_forall in *. intros y Hy. auto. }
  apply (sorted_split _ _ _ Hs).
  intros x y (Hxy & Hx & Hy) Hp. unfold below_infinity in *.
  unfold weight_le, weight_leb in Hxy. rewrite Hy, orb_false_r in Hxy.
  eapply float_leb_ltb_trans; eauto.
Qed.

Let finite := filter below_infinity (argsort g).
Let others := filter (fun e => negb (below_infinity e)) (argsort g).

Lemma finite_valid :
  Forall (fun e => (fst (fst e) < n)%nat /\ (snd (fst e) < n)%nat) finite.
Proof.
  apply Forall_forall. intros e He. apply filter_In in He as [He _].
  apply (Permutation_in _ (argsort_perm g)) in He.
  rewrite Forall_forall in g_valid. auto.
Qed.

Lemma others_valid :
  Forall (fun e => (fst (fst e) < n)%nat /\ (snd (fst e) < n)%nat) others.
Proof.
  apply Forall_forall. intros e He. apply filter_In in He as [He _].
  apply (Permutation_in _ (argsort_perm g)) in He.
  rewrite Forall_forall in g_valid. auto.
Qed.

Lemma finite_connected (a b : nat) :
  (a < n)%nat -> (b < n)%nat -> connected (map fst finite) a b.
Proof.
  intros Ha Hb. apply (connected_incl (map fst (filter below_infinity g)));
    [|now apply g_finite_connected].
  intros x Hx. apply in_map_iff in Hx as [e [<- He]]. apply in_map.
  apply filter_In in He as [He Hp]. apply filter_In. split; [|exact Hp].
  eapply Permutation_in; [symmetry; apply argsort_perm|exact He].
Qed.

Lemma labels_connected (es : list (nat * nat * float)) (comp : list nat) (a b : nat) :
  List.length comp = n ->
  Forall (fun e => (fst (fst e) < n)%nat /\ (snd (fst e) < n)%nat) es ->
  connected (map fst es) a b ->
  nth a (kruskal_labels comp es) a = nth b (kruskal_labels comp es) b.
Proof.
  intros Hl Hv Hc. unfold connected in Hc.
  induction Hc as [x y Hxy|x|x y z _ IH1 _ IH2]; [|reflexivity|congruence].
  assert (forall u v, In (u, v) (map fst es) ->
                      nth u (kruskal_labels comp es) u
                      = nth v (kruskal_labels comp es) v) as H.
  { intros u v Huv. apply in_map_iff in Huv as [[[u' v'] w] [E He]].
    cbn [fst] in E. injection E as -> ->.
    now apply (kruskal_labels_edge n es comp u v w). }
  destruct Hxy as [Hxy|Hyx]; [now apply H|symmetry; now apply H].
Qed.

Lemma kruskal_none (es : list (nat * nat * float)) (comp : list nat) :
  List.length comp = n ->
  Forall (fun e => (fst (fst e) < n)%nat /\ (snd (fst e) < n)%nat) es ->
  (forall a b, (a < n)%nat -> (b < n)%nat -> nth a comp a = nth b comp b) ->
  kruskal comp es = [].
Proof.
  intros Hl Hv Heq. destruct (kruskal comp es) as [|[a b] k] eqn:E; [reflexivity|].
  exfalso.
  assert (In (a, b) (kruskal comp es)) as Hin by (rewrite E; now left).
  destruct (kruskal_incl _ _ _ Hin) as [w Hw].
  rewrite Forall_forall in Hv. destruct (Hv _ Hw) as [Ha Hb]. cbn [fst snd] in Ha, Hb.
  apply (kruskal_fresh n es comp a b Hl); auto.
  now apply Forall_forall.
Qed.

Lemma kept_finite (e : nat * nat) :
  In e (kruskal (seq 0 n) (argsort g)) -> In e (map fst (filter below_infinity g)).
Proof.
  rewrite argsort_split, kruskal_app. fold finite. fold others.
  rewrite (kruskal_none others).
  - rewrite app_nil_r. intros H. destruct (kruskal_incl _ _ _ H) as [w Hw].
    apply in_map_iff. exists (e, w). split; [reflexivity|].
    unfold finite in Hw. apply filter_In in Hw as [Hw Hp].
    apply filter_In. split; [|exact Hp].
    eapply Permutation_in; [apply argsort_perm|exact Hw].
  - now rewrite kruskal_labels_length, length_seq.
  - exact others_valid.
  - intros a b Ha Hb. apply labels_connected.
    + apply length_seq.
    + exact finite_valid.
    + now apply finite_connected.
Qed.

(** Every entry of the tree has a weight below infinity. *)
Lemma tree_finite (e : nat * nat * float) :
  In e (minimum_spanning_tree n g) -> below_infinity e = true.
Proof.
  unfold minimum_spanning_tree. intros H. apply filter_In in H as [He Hk].
  apply kept_in_spec, kept_finite in Hk.
  apply in_map_iff in Hk as [e' [E He']]. apply filter_In in He' as [He' Hp].
  assert (e' = e) as <-; [|exact Hp].
  clear - g_NoDup E He He'. induction g as [|x l IH]; [destruct He|].
  cbn [map] in g_NoDup. apply NoDup_cons_iff in g_NoDup as [Hx Hn].
  destruct He as [<-|He], He' as [<-|He'].
  - reflexivity.
  - exfalso. apply Hx. rewrite <- E. now apply in_map.
  - exfalso. apply Hx. rewrite E. now apply in_map.
  - now apply IH.
Qed.

End FiniteTree.

(** ** The coherence-based spanning tree of a connected network *)

Lemma StronglySorted_nth {A} (R : A -> A -> Prop) (l : list A) (d : A) (i j : nat) :
  StronglySorted R l -> (i < j)%nat -> (j < List.length l)%nat ->
  R (nth i l d) (nth j l d).
Proof.
  intros Hs. revert i j. induction Hs as [|x l Hs IH Hx]; intros i j Hij Hj.
  - simpl in Hj. lia.
  - destruct j as [|j]; [lia|]. simpl in Hj. destruct i as [|i].
    + cbn [nth]. rewrite Forall_forall in Hx. apply Hx, nth_In. lia.
    + cbn [nth]. apply IH; lia.
Qed.

Lemma position_nth (l : list string) (i : nat) (x : string) :
  NoDup l -> nth_error l i = Some x -> position l x = i.
Proof.
  intros Hn Hi. unfold position. now rewrite (index_NoDup l i x Hn Hi).
Qed.

(** Where sorting with and without the century gives the same order, the
    earlier of two dates has the smaller position. *)
Lemma positions_ordered (dates : list string) (a b : string) :
  NoDup (sorted (yymmdd dates)) ->
  yymmdd (sorted (yyyymmdd dates)) = sorted (yymmdd dates) ->
  In a dates -> In b dates ->
  String.length a = 6%nat -> String.length b = 6%nat ->
  str_lt (yyyymmdd_str a) (yyyymmdd_str b) ->
  (position (sorted (yymmdd dates)) a < position (sorted (yymmdd dates)) b)%nat.
Proof.
  intros Hn Hs Ha Hb La Lb Hab.
  set (L8 := sorted (yyyymmdd dates)) in *.
  assert (forall x, In x dates -> String.length x = 6%nat ->
                    exists i, (i < List.length L8)%nat /\
                              nth i L8 EmptyString = yyyymmdd_str x /\
                              position (sorted (yymmdd dates)) x = i) as H.
  { intros x Hx Lx.
    assert (In (yyyymmdd_str x) L8) as Hin
        by (apply sorted_In; unfold yyyymmdd; now apply in_map).
    destruct (In_nth _ _ EmptyString Hin) as [i [Hi E]].
    exists i. split; [exact Hi|]. split; [exact E|].
    apply position_nth; [exact Hn|]. rewrite <- Hs. unfold yymmdd.
    rewrite nth_error_map, (nth_error_nth' L8 EmptyString Hi), E. cbn [option_map].
    f_equal. apply yymmdd_yyyymmdd_not8. lia. }
  destruct (H a Ha La) as (i & Hi & Ei & ->).
  destruct (H b Hb Lb) as (j & Hj & Ej & ->).
  rewrite <- Ei, <- Ej in Hab. unfold str_lt in Hab.
  destruct (Nat.lt_trichotomy i j) as [Hlt|[->|Hgt]]; [exact Hlt| |].
  - rewrite ltb_irrefl in Hab. discriminate.
  - exfalso.
    pose proof (StronglySorted_nth str_le L8 EmptyString j i
                                   (sorted_sorted _) Hgt Hi) as Hle.
    apply leb_ltb in Hle as [Hlt|E].
    + pose proof (ltb_trans _ _ _ Hab Hlt) as C. rewrite ltb_irrefl in C. discriminate.
    + rewrite E, ltb_irrefl in Hab. discriminate.
Qed.

Section ListedTree.

Variable pairs6 : list (string * string).
Variable coh_list : list float.
Variable M : list (list float).
Variable DL : list string.

Let n := List.length DL.
Let pos := position DL.

Hypothesis DL_dates :
  forall a, In a DL <-> exists p, In p pairs6 /\ (a = fst p \/ a = snd p).
Hypothesis DL_distinct : NoDup DL.
Hypothesis M_square : square n M.
Hypothesis M_listed :
  forall a b, In (a, b) pairs6 ->
              In (mat_get M (pos a) (pos b)) coh_list /\
              mat_get M (pos b) (pos a) = mat_get M (pos a) (pos b) /\
              is_nan (mat_get M (pos a) (pos b)) = false.
Hypothesis M_absent :
  forall a b, In a DL -> In b DL -> ~ In (a, b) pairs6 -> ~ In (b, a) pairs6 ->
              is_nan (mat_get M (pos a) (pos b)) = true.
Hypothesis M_values :
  forall i j, is_nan (mat_get M i j) = true \/ In (mat_get M i j) coh_list.
Hypothesis coh_finite :
  Forall (fun c => (1 / c <? infinity) = true /\ (1 / c =? 0) = false) coh_list.
Hypothesis pairs6_ordered :
  forall a b, In (a, b) pairs6 -> (pos a < pos b)%nat.
Hypothesis pairs6_connected :
  forall p q, In p pairs6 -> In q pairs6 -> connected pairs6 (fst p) (fst q).

Let W := inverse_coherence M.
Let g := csr_matrix W.
Let tree := minimum_spanning_tree n g.
Let name (e : nat * nat * float) : string :=
  date12 (nth (Nat.min (snd (fst e)) (fst (fst e))) DL EmptyString)
         (nth (Nat.max (snd (fst e)) (fst (fst e))) DL EmptyString).

Lemma W_sq : square n W.
Proof. now apply inverse_coherence_square. Qed.

Lemma pos_nth (i : nat) : (i < n)%nat -> pos (nth i DL EmptyString) = i.
Proof.
  intros Hi. apply position_nth; [exact DL_distinct|]. now apply nth_error_nth'.
Qed.

Lemma pos_range (a : string) : In a DL -> (pos a < n)%nat.
Proof. intros Ha. now destruct (position_spec DL a Ha) as (_ & _ & H). Qed.

Lemma g_entry (i j : nat) (w : float) :
  In (i, j, w) g -> (i < n)%nat /\ (j < n)%nat /\ w = mat_get W i j.
Proof.
  intros H. pose proof (csr_matrix_valid n W W_sq) as Hv.
  rewrite Forall_forall in Hv. destruct (Hv _ H) as [Hi Hj]. cbn [fst snd] in Hi, Hj.
  split; [exact Hi|]. split; [exact Hj|].
  apply csr_matrix_In in H as (row & Hr & Hw & _).
  destruct (mat_get_nth_error n W i j W_sq Hi Hj) as (row' & Hr' & Hw'). congruence.
Qed.

Lemma g_numbers : Forall (fun e => is_nan (snd e) = false) g.
Proof.
  apply Forall_forall. intros [[i j] w] H.
  destruct (g_entry i j w H) as (Hi & Hj & ->). cbn [snd]. unfold W.
  rewrite (inverse_coherence_get n) by assumption.
  destruct (is_nan (mat_get M i j)) eqn:E; [reflexivity|].
  destruct (M_values i j) as [C|C]; [congruence|].
  rewrite Forall_forall in coh_finite. destruct (coh_finite _ C) as [Hf _].
  now apply float_ltb_not_nan in Hf.
Qed.

Lemma finite_entry (i j : nat) (w : float) :
  In (i, j, w) g -> below_infinity (i, j, w) = true -> is_nan (mat_get M i j) = false.
Proof.
  intros H Hb. destruct (g_entry i j w H) as (Hi & Hj & ->).
  unfold below_infinity in Hb. cbn [snd] in Hb. unfold W in Hb.
  rewrite (inverse_coherence_get n) in Hb by assumption.
  destruct (is_nan (mat_get M i j)); [|reflexivity].
  vm_compute in Hb. discriminate.
Qed.

Lemma listed_dates (a b : string) : In (a, b) pairs6 -> In a DL /\ In b DL.
Proof.
  intros H. split; apply DL_dates; exists (a, b); cbn [fst snd]; auto.
Qed.

Lemma W_listed (i j : nat) :
  (i < n)%nat -> (j < n)%nat ->
  In (mat_get M i j) coh_list -> is_nan (mat_get M i j) = false ->
  In (i, j) (map fst (filter below_infinity g)).
Proof.
  intros Hi Hj Hc Hnan. rewrite Forall_forall in coh_finite.
  destruct (coh_finite _ Hc) as [Hf Hz].
  apply in_map_iff. exists (i, j, mat_get W i j). split; [reflexivity|].
  assert (mat_get W i j = (1 / mat_get M i j)%float) as E
      by (unfold W; rewrite (inverse_coherence_get n) by assumption; now rewrite Hnan).
  apply filter_In. split.
  - apply csr_matrix_In.
    destruct (mat_get_nth_error n W i j W_sq Hi Hj) as (row & Hr & Hw).
    exists row. split; [exact Hr|]. split; [exact Hw|]. now rewrite E.
  - unfold below_infinity. cbn [snd]. now rewrite E.
Qed.

Lemma listed_edge (a b : string) :
  In (a, b) pairs6 -> joined (map fst (filter below_infinity g)) (pos a) (pos b).
Proof.
  intros H. destruct (listed_dates a b H) as [Ha Hb].
  destruct (M_listed a b H) as (Hc & _ & Hnan). left.
  apply W_listed; auto using pos_range.
Qed.

Lemma positions_connected (a b : string) :
  connected pairs6 a b ->
  connected (map fst (filter below_infinity g)) (pos a) (pos b).
Proof.
  intros Hc. unfold connected in Hc.
  induction Hc as [x y Hxy|x|x y z _ IH1 _ IH2].
  - apply rt_step. destruct Hxy as [H|H]; [now apply listed_edge|].
    destruct (listed_edge y x H) as [H'|H']; [now right|now left].
  - apply rt_refl.
  - eapply rt_trans; eauto.
Qed.

Lemma dates_connected (a b : string) : In a DL -> In b DL -> connected pairs6 a b.
Proof.
  assert (forall x, In x DL -> exists p, In p pairs6 /\ connected pairs6 x (fst p)) as H.
  { intros x Hx. apply DL_dates in Hx as [[u v] [Hp Hx]]. exists (u, v).
    split; [exact Hp|]. cbn [fst snd] in *. destruct Hx as [->| ->].
    - apply rt_refl.
    - apply rt_step. now right. }
  intros Ha Hb. destruct (H a Ha) as (p & Hp & Cp). destruct (H b Hb) as (q & Hq & Cq).
  apply (rt_trans _ _ _ (fst p)); [exact Cp|].
  apply (rt_trans _ _ _ (fst q)); [now apply pairs6_connected|].
  clear - Cq. unfold connected in *. induction Cq as [x y Hxy|x|x y z _ IH1 _ IH2].
  - apply rt_step. destruct Hxy; [now right|now left].
  - apply rt_refl.
  - eapply rt_trans; eauto.
Qed.

Lemma g_finite_connected (i j : nat) :
  (i < n)%nat -> (j < n)%nat ->
  connected (map fst (filter below_infinity g)) i j.
Proof.
  intros Hi Hj. rewrite <- (pos_nth i Hi), <- (pos_nth j Hj).
  apply positions_connected, dates_connected; now apply nth_In.
Qed.

Lemma listed_tree_valid (e : nat * nat * float) :
  In e tree -> In e g /\ (fst (fst e) < n)%nat /\ (snd (fst e) < n)%nat.
Proof.
  intros H. unfold tree, minimum_spanning_tree in H. apply filter_In in H as [H _].
  split; [exact H|]. destruct e as [[i j] w]. cbn [fst snd].
  now destruct (g_entry i j w H) as (Hi & Hj & _).
Qed.

Lemma listed_tree_Ok :
  mapM (fun e : nat * nat * float =>
          let s_idx := fst (fst e) in
          let m_idx := snd (fst e) in
          d1 <- getitem DL (Nat.min m_idx s_idx) ;;
          d2 <- getitem DL (Nat.max m_idx s_idx) ;;
          Ok (d1 ++ "-" ++ d2)%string)
       tree
  = Ok (map name tree).
Proof.
  apply mapM_Ok_iff. intros e He. destruct (listed_tree_valid e He) as (_ & H1 & H2).
  cbv zeta. fold n in H1, H2.
  rewrite (getitem_nth _ _ EmptyString) by (fold n; lia). cbn [res_bind].
  rewrite (getitem_nth _ _ EmptyString) by (fold n; lia). reflexivity.
Qed.

Lemma listed_tree_named (e : nat * nat * float) :
  In e tree -> exists p, In p pairs6 /\ name e = date12 (fst p) (snd p).
Proof.
  intros He. destruct (listed_tree_valid e He) as (Hg & Hi & Hj).
  assert (below_infinity e = true) as Hb.
  { apply (tree_finite n g); try assumption.
    - apply csr_matrix_valid, W_sq.
    - apply csr_matrix_NoDup.
    - exact g_numbers.
    - exact g_finite_connected. }
  destruct e as [[i j] w]. cbn [fst snd] in Hi, Hj.
  pose proof (finite_entry i j w Hg Hb) as Hnan.
  set (a := nth i DL EmptyString). set (b := nth j DL EmptyString).
  assert (In a DL) as Ha by now apply nth_In.
  assert (In b DL) as Hb' by now apply nth_In.
  assert (pos a = i) as Pa by now apply pos_nth.
  assert (pos b = j) as Pb by now apply pos_nth.
  assert ({In (a, b) pairs6} + {~ In (a, b) pairs6}) as [Hab|Hab]
      by (apply in_dec; decide equality; apply string_dec).
  - exists (a, b). split; [exact Hab|].
    pose proof (pairs6_ordered a b Hab) as Hlt. rewrite Pa, Pb in Hlt.
    unfold name. cbn [fst snd]. now rewrite Nat.min_r, Nat.max_l by lia.
  - assert ({In (b, a) pairs6} + {~ In (b, a) pairs6}) as [Hba|Hba]
        by (apply in_dec; decide equality; apply string_dec).
    + exists (b, a). split; [exact Hba|].
      pose proof (pairs6_ordered b a Hba) as Hlt. rewrite Pa, Pb in Hlt.
      unfold name. cbn [fst snd]. now rewrite Nat.min_l, Nat.max_r by lia.
    + pose proof (M_absent a b Ha Hb' Hab Hba) as C. rewrite Pa, Pb in C. congruence.
Qed.

End ListedTree.

Lemma float_inverse_number (c : float) :
  (1 / c <? infinity) = true -> is_nan c = false.
Proof.
  intros H. destruct (is_nan c) eqn:E; [|reflexivity]. exfalso.
  assert (Prim2SF c = S754_nan) as Hc.
  { destruct (c =? c) eqn:Ec; [apply is_nan_false in Ec; congruence|].
    rewrite eqb_spec in Ec. unfold SFeqb, SFcompare in Ec.
    destruct (Prim2SF c) as [s|s| |s m e]; try reflexivity; exfalso.
    - destruct s; discriminate.
    - destruct s; discriminate.
    - destruct s; rewrite Z.compare_refl, Pos.compare_cont_refl in Ec; discriminate. }
  rewrite ltb_spec, div_spec, Hc in H. vm_compute in H. discriminate.
Qed.

Section CoherenceNetwork.

Variable pairs6 : list (string * string).
Variable coh_list : list float.

Hypothesis pairs6_dates :
  Forall (fun p => (String.length (fst p) = 6%nat /\ all_digits (fst p) = true) /\
                   (String.length (snd p) = 6%nat /\ all_digits (snd p) = true))
         pairs6.
Hypothesis pairs6_canonical :
  Forall (fun p => str_lt (yyyymmdd_str (fst p)) (yyyymmdd_str (snd p))) pairs6.
Hypothesis pairs6_NoDup : NoDup pairs6.
Hypothesis coh_list_length : List.length coh_list = List.length pairs6.
Hypothesis coh_finite :
  Forall (fun c => (1 / c <? infinity) = true /\ (1 / c =? 0) = false) coh_list.
Hypothesis pairs6_connected :
  forall p q, In p pairs6 -> In q pairs6 -> connected pairs6 (fst p) (fst q).

Let l6 := map (fun p => date12 (fst p) (snd p)) pairs6.
Let dates := set_list (map (part 0) l6 ++ map (part 1) l6).
Let DL := sorted (yymmdd dates).

Hypothesis same_order : mst_dates l6 = coherence_dates l6.

Lemma l6_fixed : yymmdd_date12 l6 = Ok l6.
Proof.
  unfold l6. rewrite yymmdd_date12_joined.
  - f_equal. apply map_ext_in. intros p Hp.
    pose proof pairs6_dates as Hd. rewrite Forall_forall in Hd.
    destruct (Hd p Hp) as [[H1 _] [H2 _]].
    now rewrite !yymmdd_str_6.
  - apply Forall_forall. intros p Hp. now apply (pairs6_clean pairs6).
Qed.

Lemma l6_dates : pair_dates l6 = Ok dates.
Proof. exact (pair_dates_l6 pairs6 coh_list pairs6_dates coh_list_length). Qed.

Lemma l6_coherence_dates : coherence_dates l6 = Ok DL.
Proof.
  unfold coherence_dates. rewrite l6_fixed. cbn [res_bind].
  rewrite l6_dates. reflexivity.
Qed.

Lemma l6_mst_dates : mst_dates l6 = Ok DL.
Proof. rewrite same_order. exact l6_coherence_dates. Qed.

Lemma l6_same_order : yymmdd (sorted (yyyymmdd dates)) = DL.
Proof.
  pose proof l6_mst_dates as H. unfold mst_dates in H.
  rewrite l6_fixed in H. cbn [res_bind] in H. rewrite l6_dates in H.
  cbn [res_bind] in H. now injection H.
Qed.

Lemma l6_DL_In (a : string) :
  In a DL <-> exists p, In p pairs6 /\ (a = fst p \/ a = snd p).
Proof. exact (DL_In pairs6 coh_list pairs6_dates coh_list_length a). Qed.

Lemma l6_DL_NoDup : NoDup DL.
Proof. exact (DL_NoDup pairs6 coh_list pairs6_dates coh_list_length). Qed.

Lemma l6_ordered (a b : string) :
  In (a, b) pairs6 -> (position DL a < position DL b)%nat.
Proof.
  intros H. pose proof pairs6_dates as Hd. pose proof pairs6_canonical as Hc.
  rewrite Forall_forall in Hd, Hc.
  destruct (Hd _ H) as [[La _] [Lb _]]. cbn [fst snd] in La, Lb.
  apply positions_ordered; try assumption.
  - exact l6_DL_NoDup.
  - exact l6_same_order.
  - apply (dates_In pairs6 coh_list pairs6_dates coh_list_length).
    exists (a, b). cbn [fst]. auto.
  - apply (dates_In pairs6 coh_list pairs6_dates coh_list_length).
    exists (a, b). cbn [snd]. auto.
  - exact (Hc _ H).
Qed.

Lemma entry_mat_get (M : list (list float)) (a b : string) (c : float) :
  In a DL -> In b DL -> entry M DL a b = Ok c ->
  mat_get M (position DL a) (position DL b) = c.
Proof.
  intros Ha Hb. unfold entry.
  destruct (position_spec DL a Ha) as (-> & _).
  destruct (position_spec DL b Hb) as (-> & _). cbn [res_bind]. congruence.
Qed.

Lemma coherence_tree_listed :
  exists mst_date12_list,
    threshold_coherence_based_mst l6 coh_list = Ok mst_date12_list /\
    incl mst_date12_list l6.
Proof.
  destruct (coherence_matrix_entries pairs6 coh_list pairs6_dates
                                     (canonical_once pairs6 pairs6_canonical)
                                     pairs6_NoDup coh_list_length)
    as (M & DL' & EM & ED & _ & _ & Hlisted & Habsent & _).
  fold l6 in EM, ED. rewrite l6_coherence_dates in ED. injection ED as <-.
  destruct (coherence_matrix_parts _ _ _ _ EM l6_coherence_dates) as [Hsq _].
  rewrite (threshold_coherence_based_mst_tree _ _ _ _ EM l6_mst_dates).
  replace (List.length (inverse_coherence M)) with (List.length DL)
    by (symmetry; now apply inverse_coherence_square).
  rewrite (listed_tree_Ok M DL Hsq).
  eexists. split; [reflexivity|].
  intros x Hx. apply in_map_iff in Hx as [e [<- He]].
  destruct (listed_tree_named pairs6 coh_list M DL) with (e := e) as (p & Hp & ->);
    try assumption.
  - exact l6_DL_In.
  - exact l6_DL_NoDup.
  - intros a b Hab.
    assert (In a DL) as Ha by (apply l6_DL_In; exists (a, b); cbn [fst]; auto).
    assert (In b DL) as Hb by (apply l6_DL_In; exists (a, b); cbn [snd]; auto).
    destruct (In_nth_error _ _ Hab) as [k Hk].
    destruct (nth_error coh_list k) as [c|] eqn:Ec.
    + destruct (Hlisted k a b c Hk Ec) as [E1 E2].
      rewrite (entry_mat_get M a b c Ha Hb E1), (entry_mat_get M b a c Hb Ha E2).
      apply nth_error_In in Ec. split; [exact Ec|]. split; [reflexivity|].
      pose proof coh_finite as Hf. rewrite Forall_forall in Hf.
      now apply float_inverse_number, Hf.
    + exfalso. apply nth_error_None in Ec.
      assert (k < List.length pairs6)%nat
        by (apply nth_error_Some; congruence). lia.
  - intros a b Ha Hb Hab Hba.
    now rewrite (entry_mat_get M a b nan Ha Hb (Habsent a b Ha Hb Hab Hba)).
  - exact (coherence_matrix_values _ _ _ _ EM l6_coherence_dates).
  - exact l6_ordered.
  - unfold l6. apply in_map_iff. now exists p.
Qed.

End CoherenceNetwork.

(** For a connected network of canonical pairs whose coherence values
    have finite non-zero inverses, and whose dates sort the same with and
    without the century, the coherence-based spanning tree is returned
    and every pair of it is one of the pairs of the network. *)
Theorem threshold_coherence_based_mst_listed
        (pairs6 : list (string * string)) (coh_list : list float) :
  Forall (fun p => (String.length (fst p) = 6%nat /\ all_digits (fst p) = true) /\
                   (String.length (snd p) = 6%nat /\ all_digits (snd p) = true))
         pairs6 ->
  Forall (fun p => str_lt (yyyymmdd_str (fst p)) (yyyymmdd_str (snd p))) pairs6 ->
  NoDup pairs6 ->
  List.length coh_list = List.length pairs6 ->
  Forall (fun c => (1 / c <? infinity) = true /\ (1 / c =? 0) = false) coh_list ->
  (forall p q, In p pairs6 -> In q pairs6 -> connected pairs6 (fst p) (fst q)) ->
  let date12_list := map (fun p => date12 (fst p) (snd p)) pairs6 in
  mst_dates date12_list = coherence_dates date12_list ->
  exists mst_date12_list,
    threshold_coherence_based_mst date12_list coh_list = Ok mst_date12_list /\
    incl mst_date12_list date12_list.
Proof.
  intros Hd Hc Hn Hl Hf Hconn l Hs. now apply coherence_tree_listed.
Qed.

Lemma threshold_coherence_based_mst_listed_witness :
  exists mst_date12_list,
    threshold_coherence_based_mst
      ["170101-170113"; "170113-170125"; "170125-170206"] [0.5; 0.75; 0.25]%float
    = Ok mst_date12_list /\
    incl mst_date12_list ["170101-170113"; "170113-170125"; "170125-170206"].
Proof.
  apply (threshold_coherence_based_mst_listed
           [("170101", "170113"); ("170113", "170125"); ("170125", "170206")]
           [0.5; 0.75; 0.25]%float).
  - repeat constructor.
  - repeat constructor.
  - repeat constructor; simpl; intuition congruence.
  - reflexivity.
  - repeat constructor.
  - assert (connected [("170101", "170113"); ("170113", "170125"); ("170125", "170206")]
                      "170101" "170113") as A by (apply rt_step; left; simpl; auto).
    assert (connected [("170101", "170113"); ("170113", "170125"); ("170125", "170206")]
                      "170113" "170125") as B by (apply rt_step; left; simpl; auto).
    assert (forall x y,
               connected [("170101", "170113"); ("170113", "170125"); ("170125", "170206")] x y ->
               connected [("170101", "170113"); ("170113", "170125"); ("170125", "170206")] y x)
      as S.
    { intros x y H. unfold connected in *.
      induction H as [x y [H|H]|x|x y z _ IH1 _ IH2].
      - apply rt_step. now right.
      - apply rt_step. now left.
      - apply rt_refl.
      - eapply rt_trans; eauto. }
    pose proof (rt_trans _ _ _ _ _ A B) as AB.
    intros p q Hp Hq. simpl in Hp, Hq.
    destruct Hp as [<-|[<-|[<-|[]]]], Hq as [<-|[<-|[<-|[]]]]; cbn [fst];
      first [apply rt_refl | exact A | exact B | exact AB
            | exact (S _ _ A) | exact (S _ _ B) | exact (S _ _ AB)].
  - vm_compute. reflexivity.
Defined.
